(* ===== verification/_CoqProject ===== *)
-Q . S2P
Prelude.v
JsValue.v
Database.v
AccountMapper.v
SqlText.v
Logging.v
AccountSpec.v
Typing.v
Schedule.v
Interleaving.v
Serializable.v
Arrivals.v
Router.v
Access.v
UserMapper.v
Pipeline.v
Session.v
Requests.v
AccountRequests.v
UserRequests.v
ApiController.v
App.v
System.v
