(* ===== verification/Prelude.v ===== *)
(** * Colis-and-Co back end: a verification development

    The repository is the REST back end of a parcel-delivery platform
    (Node.js, Express, PostgreSQL).  Four source files are available:

    - [src/app/models/accountDataMapper.js]: the account data mapper,
      class [AccountDataMapper] with [findAccountByUserId] and
      [updateAccount], over the database client;
    - [src/back/app/routers/api/users.js]: the Express router of the
      [/users] resource, ten routes with their handler chains, their
      documentation comments and the [User] type definition;
    - [src/app/controllers/api/index.js]: the API root controller
      ([getHome]) and the table of exported controllers;
    - [src/index.js]: the process bootstrap (port, application
      middleware stack, [listen]).

    A request enters through the stack of [index.js], reaches a router,
    whose chain for the matching route runs the identity check
    ([authenticationJwt]), the validation of the body and a controller
    action; the controllers call the data mappers, which talk to
    PostgreSQL through [client.query].  The identity check, the
    validator, the controllers of the users resource, the base mapper
    and the database helper are required by the sources but are not
    among them.  Where the design document of the repository states
    what such a part does (the Identity Resolver, the Ownership Guard,
    the Resource Controller, the contract of the account mapper), the
    part is modelled from the design and composed with the models of
    the sources; every such definition is marked in the manifest.

    ** Layout

    - [Prelude] (this file): the outcome type and the state-and-exception
      monad [exec] in which every handler is written (a JavaScript
      [async] method is a function from the store to a store and either
      a returned value or a thrown one; the store survives a throw), its
      laws and its pointwise equivalence [≈ₑ] with [Proper] instances;
      the string helpers ([lower], [split_on], [join_with],
      [has_char]) with the round trip between splitting and joining,
      and list lemmas the components share; the hint databases [colis] and the
      tactics [exec_unfold] and [exec_cases].
    - [JsValue]: JavaScript values as the sources use them: primitives
      [prim], [to_string] (template literals), [truthy] ([!x], [||]),
      [nullish] ([??]), flat objects [obj] as [gmap string prim],
      property reads [get_prop], [process.env] reads [env_get], array
      reads [array_get].
    - [Database]: the collaborator [./helpers/database], modelled from
      the way the mapper calls it: tables with columns and rows, the
      store invariant [db_wf], the reader [parse_sql] of the two
      statement shapes the mapper sends, their execution ([run_select],
      [run_update]) and [client_query].
    - [AccountMapper]: module [AccountDataMapper] with [tableName],
      [findAccountQuery] and [findAccountByUserId] (lines 14 to 25),
      [updateAccountQuery] and [updateAccount] (lines 27 to 50).  The
      method [account.updateFromData] of line 33 belongs to the rows the
      client returns; it is the class [RowEntity], with the merge
      contract of the design as the class [PatchLaws] and the two
      instances [plain_rows] (no such method) and [merging_rows].
    - [SqlText]: the texts of the statements: a printer
      ([print_statement], from [statement_tokens]) that writes a
      statement in the shape the mapper writes its two, the
      statements a text can be read as ([statement_wf]), and the round
      trip between [parse_sql] of [Database] and the printer.
    - [Logging]: the same class with its [debug] lines (module
      [Logged]: [debug], [constructor], [findAccountByUserId],
      [updateAccount], [exports]) over the database paired with the
      log, and the relation [logs] between a handler with log and the
      handler without.
    - [AccountSpec]: the contract the design gives the mapper
      (module [AccountSpec]: [findByOwningUser], [merge], [update] over
      accounts keyed by owner), the reading of a database as accounts
      ([accounts]), the stores on which the contract can be kept
      ([represented]), and sequences of calls ([run_calls]) of the
      mapper and of the contract.
    - [Typing]: types for the values a promise of the mapper is
      resolved with ([ty], [has_type]) and classes for the exceptions
      it is rejected with ([class_of]), and the judgement [settles_as].
    - [Schedule]: the event loop, for any kind of task: a [system] is
      the tasks in flight and the store they share, [deliver] resumes
      the task a position names by one step, [run] follows a schedule
      (a list of positions), [step] is the relation of one delivery;
      the lemmas on schedules every task kind shares.
    - [Interleaving]: [updateAccount] cut at its two [await]s, and
      [findAccountByUserId] with its one, into a
      [task] with the function [resume] (one query executed, the task
      run to its next [await]); [system], [deliver], [run] and [step]
      are those of [Schedule] at [resume]; the restriction
      [query_step] of [step] to tasks that have a query to send, and
      the measure [queries_left].
    - [Serializable]: the value each query of a task filters on
      ([task_param]) and the systems whose tasks work for pairwise
      different users ([disjoint]).
    - [Arrivals]: invocations that arrive while others are in flight,
      with the log: a call of a method ([call_findAccountByUserId],
      [call_updateAccount]) writes the [debug] lines the method writes
      before its first [await] and adds the task ([spawn]); an [event]
      is a call or the execution of a query, [trace] runs a list of
      events over the system paired with the log.
    - [Router]: the ten registrations of [users.js] ([get_users] to
      [delete_carrier], collected in [router]), the handlers as the
      type [middleware], the actions of [usersController], the comments
      as [documented] (of each comment the [@route] line, the
      [@param] lines as [doc_param] and the status codes of the
      [@returns] lines) and the type [User]; the dispatch of Express
      ([path_segments], [match_segments], [dispatch], [handled_by]) and
      the run of a chain ([run_stack], [serve]) with the behaviour of
      each handler as a parameter; the declarative tables
      [routing_table] (route and parameters) and [bound_action]
      (controller action) by method and path segments; paths printed
      from segments ([path_of]) and from a route and its parameters
      ([route_url]).
    - [Access]: from the design (3, 4.1, 4.2, 6, 7), the identities,
      the failure taxonomy and the outcomes [result_outcome], the
      Identity Resolver [resolve] over the interface [Verifier] (the
      signature primitive), and the Ownership Guard [authorize].
    - [UserMapper]: from the design (4.5), the mapper behind
      registration and login (module [UserDataMapper]:
      [createSecureUser], [authenticate]) over the interfaces [Hasher]
      (hash and compare) and [Issuer] (sign, with the [Verifier] of
      [Access]), and primitives without secrecy to run it on.
    - [Pipeline]: from the design (4.6), the handlers of a chain
      ([authenticate], [validation], [controller] with [guard] and
      [execute], collected in [handle]), the stages of a request and
      their state machine ([stage_step], [stage_run]), the mapper call
      behind an action as the interface [Delegates] (with
      [AccountBinding] for the account read), the router run with
      these handlers ([handle_request] is [Router.serve] on
      [Router.router]) and the order of the stages written out
      ([admission] up to the guard, [design_answer] with the mapper
      call).
    - [Session]: the controller actions of registration and login
      bound to the user mapper ([UserBinding]), and a registration, a
      login and a read with the credential run through the router.
    - [Requests]: requests as tasks of [Schedule].  A mapper call
      that suspends is an invocation of the interface [Invocations]
      ([invoke], [proceed], and the law that an invocation left alone
      ends as the call of [Delegates]); a request is a [phase]
      ([Received], [Delegated] with its invocation in flight,
      [Answered], [Unrouted]); [receive] runs a request from its arrival
      to its first query, [advance] resumes it by one step,
      [serve_whole] runs it without interruption; [restore] gives the
      store a delegated request found when its mapper was called,
      [completions] the order in which the requests of a schedule
      write.
    - [AccountRequests]: the invocations of the account mapper as
      tasks of [Interleaving] ([account_invoke], [account_proceed],
      the instance [account_invocations]), with
      [PUT /:id/account] bound to [updateAccount] ([AccountUpdates],
      [account_update]), and two such requests that overlap.
    - [UserRequests]: the registration of [UserMapper] cut at its
      look-up by e-mail and its insertion ([user_call], [user_invoke],
      [user_proceed], the instance [user_invocations]), the e-mails of
      [users] as a column without duplicates ([unique],
      [unique_emails]), and requests [POST /register] that overlap.
    - [ApiController]: [apiController.getHome] with the request and
      response as far as it touches them, and [exported_controllers].
    - [App]: the environment after [dotenv] ([config]), [port], the
      stack [app] in the order of [app.use], the layers a request
      passes ([layers_for]), [listen] with its callback [ready] and
      the logger [debug], and the module as a whole ([main]).
    - [System]: facts that need more than one source file.

    ** What the theorems show

    - Account mapper, reads: [findAccountByUserId_spec] gives the
      result of [findAccountByUserId] on every store: the first row of
      [users] whose [user_id] equals the argument, [null] when there
      is none (also [findAccountByUserId_absent]), the database error
      when the table or the column is missing
      ([findAccountByUserId_no_table],
      [findAccountByUserId_undefined_column]); the store is never
      written ([findAccountByUserId_store]).
    - Account mapper, writes: [updateAccount_spec] gives the outcome
      and the store of [updateAccount] on every store and for every
      argument, one line per way the method ends.  With merging rows
      that carry their owner
      under [userId], [updateAccount] returns the rewritten row, in
      which patched fields are overwritten and absent ones kept
      ([updateAccount_partial_update], [_empty_patch]); a missing
      account throws the error of line 31 ([_not_found]); a throw writes
      nothing ([_failure_atomic]); the store invariant, the tables other
      than [users], the number of rows and every [user_id] are kept
      ([_wf], [_keeps_owners]); only rows selected by the owner key
      are written ([_isolation]).
    - Account mapper, the owner key: the [UPDATE] filters on
      [account.userId] of the patched row and not on the argument.  On
      rows without that property the update is dropped without an error
      ([_owner_missing], [_snake_case_dropped]); a patch that carries
      [userId] redirects the write to another user's row
      ([_patch_owner]); plain rows have no [updateFromData] and every
      update throws a [TypeError] ([_plain_rows]).
    - Account mapper against its contract: on stores that hold
      accounts, each method ([findAccountByUserId_accounts],
      [updateAccount_accounts]) and every sequence of calls
      ([mapper_refines_contract]) answers as the contract does and
      leaves the accounts the contract leaves; a read after an update
      finds what the update returned ([updateAccount_then_find]).
    - Overlapping updates: a task resumed twice in a row is the method
      ([updateAccount_resumed]); every task settles after two of its
      queries, whatever the schedule ([schedule_settles]); every
      reachable state keeps the store invariant and the owners
      ([interleaving_invariant], by induction on [step]); when two
      updates of one account both read before either writes, the first
      is lost though its caller is answered with it ([lost_update]);
      without overlap both are kept ([serial_updates_compose]);
      invocations that do not conflict (two reads, or two invocations
      for different users) commute, so every schedule of them
      ends as every other ([disjoint_schedules]) and an overlap is the
      two methods called one after the other
      ([overlap_different_users]).
    - The log: the methods of [Logged] compute what the methods of
      [AccountMapper] compute and log the names of the methods entered,
      the same on every call ([logged_mapper]).  With invocations that
      overlap, the log is what each call writes in the order of the
      calls, written when the method is called and not when its query
      is executed, and the tasks and the store are those of [run] on
      the queries executed ([calls_logged]); a call and its two
      queries with nothing in between are [Logged.updateAccount]
      ([updateAccount_traced]).
    - Reads that overlap updates: a read of an account under update is
      answered with the row as it was until the [UPDATE] is executed
      and with the row written from then on
      ([update_visible_at_write]); whatever the schedule, the store
      and the updates end as if the reads had not been there
      ([reads_invisible], by the simulation [but_reads]).
    - Termination and bounds: the steps of tasks that have a query to
      send are well founded, and a run that cannot go on has settled
      every promise ([queries_terminate], by the measure
      [queries_left]); a run of [n] queries uses up [n] of at most two
      queries per task ([query_count_bound]).
    - Types: on a well-formed store [findAccountByUserId] resolves with
      a row of [users] or [null], [updateAccount] with a row or
      [undefined] and never [null], and each is rejected only with the
      classes of exception named ([mapper_promise_types]).
    - The statements: for every table name that is a word
      ([sql_word]: no white space, no comma) the two texts
      ([select_text], [update_text]) are read as the [SELECT] and the
      [UPDATE] intended, on that table folded to lower case, and bind
      as many values as they have placeholders ([mapper_statements]);
      the tokens of a text around a word are computed by
      [sql_tokens_around] of [Database].  Reading and printing are
      inverse to each other: what [parse_sql] accepts is well formed
      and is answered by the client as its printed form is, a
      well-formed statement is read back from its printed form, and
      the two texts of the mapper have the tokens of the printed
      [SELECT] and [UPDATE] ([statement_roundtrip], with the decimal
      round trip [parse_param_print] of placeholders).
    - Router: dispatch agrees with the routing table and is unambiguous
      ([dispatch_routing_table], [dispatch_unambiguous]); the action
      behind every request is the one of the table [bound_action]
      ([handled_action]); the parameters a route binds are those its
      path declares, non-empty segments of the request path
      ([dispatch_params]); every registration is reached by the path
      printed from its pattern and is shadowed by no other
      ([route_url_roundtrip], on the round trip
      [path_segments_path_of] of paths and segments); every route
      that binds [:id] starts with the identity check, and a rejected
      check ends the exchange before any controller
      ([id_routes_authenticated], [serve_unauthenticated]); a controller
      runs only last and after all handlers before it passed
      ([serve_controller_guarded]); a chain is the identity check, at
      most one validation and the controller, with no ownership step
      ([dispatch_chain_shape]); a request no route answers is passed on
      ([serve_unrouted]); the comments agree with the registrations
      in method and path ([documented_routes_agree]), document
      parameters for the two public routes with a body only, those of
      the login in the query although the chain validates the body
      ([documented_parameters]), and document no answer 401 or 403 on
      the routes behind the identity check ([documented_statuses]).
    - Requests through the router: with the handlers of the design,
      the router answers every request in the design's order of stages
      ([request_answer], an equality with [design_answer]); the stages
      of every request but the listing of all users are a run of the
      state machine, and a refused request has written nothing and run
      no mapper, unless it is a login that failed ([request_stages]);
      the listing [GET /] is executed
      without identity ([listing_unauthenticated]); a read of one's
      account succeeds with what the contract of the mapper finds,
      from the path to the store ([get_account_end_to_end]).
    - Requests that overlap: a request that was just received and is
      resumed with nothing in between is the request of [Pipeline]
      ([request_uninterrupted]); whatever the schedule, a request
      inside its mapper has passed the checks of its route and only
      the mapper of such a request changes the store
      ([writes_cleared], by induction on [step]); when every mapper
      call is one storage operation ([atomic]), every schedule leaves
      the store and the answers of the requests it completes served
      one at a time in the order of their completion
      ([atomic_serializable], by the refinement mapping
      [restore_all] and its single-step lemma [restore_deliver]); with
      the account mapper of the sources, whose update is two
      operations, two updates of one account by its owner that
      overlap are both answered with success and leave a store that
      no order of serving them one after the other leaves
      ([overlapping_updates]); with the registration of the design,
      which is a look-up and an insertion, requests [POST /register]
      served one after the other keep the e-mails of [users] unique
      whatever the schedule, and two of them with one e-mail whose
      look-ups are both executed before either insertion are both
      answered with success and both stored
      ([overlapping_registrations], on [unique_snoc] and
      [unique_twice]); under every schedule of registrations,
      suspended or not, the users stored before stay as they were and
      in their places, and each row added is the user of a
      registration ([registrations_grow], by [rtc_step_ind] on
      [advance_registration]).
    - Registration, login, session: [POST /register] stores the hash
      of the password, never the plaintext, and refuses an e-mail that
      is taken without writing ([register_request], from
      [registration_secure]); after it [POST /login] answers the
      password of the registration with a credential for the new user
      and every other password with an authentication failure
      ([login_request], from [register_then_login]); the credential
      opens [GET /:id/account] for the user's own id until it expires,
      where the account mapper of the sources answers
      ([session_account]).
    - Root controller and bootstrap: the body [getHome] sends
      ([getHome_response], [fullURL_address]); the port after [.env]
      has been loaded ([port_spec], [listen_default]); the order of
      the application layers ([layers_for_app]); what running the
      module leaves: the server listening and one line in the log
      ([main_ready]).
    - System: on a table with the documented [User] columns both mapper
      methods are rejected ([mapper_on_documented_users]).

    ** Modelling choices and bounds

    - Every definition is a total function evaluated by the kernel.
      The tokenizer and the path splitter recurse on the string, the
      dispatcher on the list of routes.  Fuel appears once: [finish]
      of [Requests] runs an invocation for at most [n] operations, and
      the law of [Invocations] asks for an [n] that is enough; for the
      account mapper two operations are ([account_invoke_perform]), for
      a registration two ([user_invoke_perform]), for a mapper call
      that is one operation one is.
    - Numbers are integers ([Z]), which covers identifiers and the
      port; floating point is not modelled.  [to_string] of a number is
      its decimal text, which is what JavaScript prints for the
      integers it represents exactly (up to 2^53 in absolute value).
    - Objects are flat maps from property names to primitives, which is
      what rows, headers and [process.env] are.  A property that is
      absent reads as [undefined].
    - Columns are untyped: the database compares a stored value and a
      parameter by their text, as PostgreSQL does for a parameter sent
      in text format against a column of the matching type.  [NULL] is
      equal to nothing; an [undefined] parameter is sent as [NULL].
    - A call of the client is atomic.  In [AccountMapper] a method is
      the sequence of its calls with nothing in between; in
      [Interleaving] the queries of several invocations are executed in
      the order a schedule gives, and what an invocation computes
      between two queries touches nothing shared.  A task has at most
      two queries to send ([pending]), so a schedule in which a task
      occurs twice settles it: no fuel is needed.  A schedule names
      tasks by their position; a position that names no task, or a
      task that has settled, is a delivery that does nothing.
    - In [Arrivals] a call runs the method to its first [await] at
      once, as JavaScript does: the [debug] lines are written at the
      call, the query is sent when the schedule says.  In [Requests]
      the checks of a request (identity, validation, guard) are one
      step, taken when the request is first looked at; the clock [now]
      and the verdict of the validator are the same for every step of
      a schedule.  That [PUT /:id/account] calls [updateAccount] with
      the id of the path and the body is an assumption
      ([AccountUpdates]), as [AccountBinding] is for the read; the
      error of line 31 is answered as the missing account of the
      design, every other failure of the update as the internal
      failure.  In [UserRequests] the duplicate check of a
      registration is the look-up by e-mail that [UserMapper] makes
      before the insertion, the store enforces no constraint, and the
      salt and the key of the new row are those of the moment the
      insertion is executed.  Values of a column are unique as the
      database compares them ([sql_eq]): rows without the value never
      clash.
    - The printer of [SqlText] writes one space between tokens and
      identifiers as they are; the reader folds identifiers to lower
      case, so the round trip holds on statements whose identifiers
      are in lower case ([statement_wf]).
    - The handlers of [Pipeline] follow the design where the sources
      are silent: the identity check resolves the credential of the
      request at a time [now] (a parameter), a token is expired from
      its expiry time on, the guard is asked by the controller before
      the mapper and refuses with [NotOwner], a storage failure of the
      account read is the generic internal failure.  The verdict of
      the validator and the mappers behind the actions are parameters;
      a request starts with no identity and no parameters.
    - The user mapper is modelled on the table [users] with the
      columns [id], [email], [password], [role].  A hash compares
      equal to its own plaintext only and is never its plaintext, and
      what the issuer signs the verifier decodes to the same claims
      ([Hasher], [Issuer]): the contract of ideal primitives.  The
      salt, the key of a new row, the clock of a login and the
      lifetime of a credential are arguments.  A wrong password and an
      unknown e-mail are both [InvalidCredential].
    - The contract of [AccountSpec] is kept on stores where every row
      of [users] carries its owner under [userId] as well as under
      [user_id] and no user has two rows, for user ids that are values
      and patches of [username], [email], [password] without
      [undefined]; the theorems on the owner key say what happens
      elsewhere.
    - Paths are not percent-decoded and carry no query string.
    - The [debug] lines of the mapper are modelled in [Logging], over
      the store paired with the log, and shown not to matter to what
      the methods compute; every other file works with the methods
      without them.  Whether a namespace is enabled (the variable
      [DEBUG]) is not modelled: the log holds every message with its
      namespace.  [super()] in the constructor is taken to log
      nothing.

    ** Not modelled

    The sources of the identity check, the validator,
    [controllerHandler], [usersController] and the user mapper are
    absent: the identity check and the user mapper are modelled from
    the design, the validator's verdict is a parameter, and of the
    controller only the orchestration the design states; the bodies of
    its actions other than the account read, the account update,
    registration and login have no definition.  The algorithms behind token signatures and
    password hashes, and the extraction of the token from the
    authorization header.  [CoreDataMapper] and the carrier mapper:
    the base class is not among the sources, the methods of
    [AccountDataMapper] use nothing of it, and the design (4.3, 3)
    does not say what a deletion leaves behind.  The delivery, account
    and admin controllers; [cors], [body-parser], [express.static];
    the reading of the file [.env]; the socket behind [app.listen].
    The sources come from two directory trees ([src/app] and
    [src/back/app]); that the controllers of the users router call the
    account mapper of [src/app] is an assumption, stated as the classes
    [AccountBinding] and [AccountUpdates].  Suspension at credential
    verification (design, 5): the identity check reads nothing
    shared, so the checks of a request are one step.  Requests that
    arrive during a schedule of [Requests], and cancellation, which
    the design does not define.

    The generic mapper and the carrier mapper stay without model for a
    second reason: the design names [deleteByKey] with the results
    [Deleted] and [NotFound] (4.3) and asks that a user is marked
    inactive and never purged (3), so that what a deletion leaves in
    the store is not fixed by it; the actions of the controller that
    would call them ([findAll], [findByPk], [delete], the carrier
    actions) are reached through [Delegates] as parameters.  Of the
    route comments the free text and the [@group] lines are left out.

    ** What is left

    One instance of the suspended mapper calls that holds the account
    mapper and the user mapper together; a login that overlaps a
    registration; the calls of [Arrivals] with their log and the
    requests of [Requests] in one system.  None of them needs a part of
    the program that has no model. *)

From Stdlib Require Import Ascii.
From stdpp Require Import base tactics option list strings gmap.

(** ** Outcomes of a call

    A JavaScript call either returns a value or throws.  An [async]
    function is modelled by the outcome its promise settles with:
    [Returned] for a fulfilled promise, [Thrown] for a rejected one. *)

Inductive outcome (E A : Type) : Type :=
| Returned (a : A)
| Thrown (e : E).
Arguments Returned {E A} a.
Arguments Thrown {E A} e.

#[export] Instance outcome_eq_dec {E A} `{EqDecision E, EqDecision A} :
  EqDecision (outcome E A).
Proof. solve_decision. Defined.

(** ** The monad of handlers

    A handler runs against a store [S] (the database, a response under
    construction) and may throw.  The store survives an exception: what
    was written before a [throw] stays written, as in JavaScript. *)

Definition exec (S E A : Type) : Type := S → S * outcome E A.

#[export] Instance exec_ret {S E} : MRet (exec S E) :=
  λ A a s, (s, Returned a).

#[export] Instance exec_bind {S E} : MBind (exec S E) :=
  λ A B k m s,
    match m s with
    | (s', Returned a) => k a s'
    | (s', Thrown e) => (s', Thrown e)
    end.

Definition throw {S E A} (e : E) : exec S E A := λ s, (s, Thrown e).

(** A handler of a state run on the first part of a larger one: it
    neither reads nor writes the rest. *)
Definition on_fst {S L E A} (m : exec S E A) : exec (S * L) E A :=
  λ sl, let '(s', o) := m sl.1 in ((s', sl.2), o).
Definition get_store {S E} : exec S E S := λ s, (s, Returned s).
Definition put_store {S E} (s' : S) : exec S E unit := λ _, (s', Returned tt).

(** Pointwise equality of handlers: the equivalence the monad laws hold for. *)
Definition exec_equiv {S E A} : relation (exec S E A) := λ m1 m2, ∀ s, m1 s = m2 s.
Infix "≈ₑ" := exec_equiv (at level 70, no associativity).

(** [exec_unfold] exposes the state passing of a handler; [exec_cases]
    also splits on the outcome of every call the handler waits for. *)
Ltac exec_unfold :=
  unfold mbind, mret, exec_bind, exec_ret, throw, get_store, put_store in *;
  cbv beta iota in *.

Ltac exec_cases :=
  exec_unfold;
  repeat match goal with
    | |- context [match ?m ?s with (_, _) => _ end] =>
        let s' := fresh "s" in destruct (m s) as [s' [?|?]] eqn:?
    end.

Section exec_laws.
Context {S E : Type}.
Implicit Types s : S.

#[export] Instance exec_equiv_equivalence {A} : Equivalence (@exec_equiv S E A).
Proof.
  split; [by intros m s | by intros m1 m2 H s | intros m1 m2 m3 H1 H2 s].
  by rewrite H1.
Qed.

#[export] Instance exec_bind_proper {A B} :
  Proper (pointwise_relation A exec_equiv ==> exec_equiv ==> exec_equiv)
         (@mbind (exec S E) _ A B).
Proof.
  intros k1 k2 Hk m1 m2 Hm s. exec_unfold. rewrite Hm. exec_cases; [apply Hk | done].
Qed.

Lemma exec_bind_returned {A B} (m : exec S E A) (k : A → exec S E B) s s' a :
  m s = (s', Returned a) → (m ≫= k) s = k a s'.
Proof. intros Hm. exec_unfold. by rewrite Hm. Qed.

Lemma exec_bind_thrown {A B} (m : exec S E A) (k : A → exec S E B) s s' e :
  m s = (s', Thrown e) → (m ≫= k) s = (s', Thrown e).
Proof. intros Hm. exec_unfold. by rewrite Hm. Qed.

Lemma exec_bind_inv_returned {A B} (m : exec S E A) (k : A → exec S E B) s s2 b :
  (m ≫= k) s = (s2, Returned b) ↔
  ∃ a s1, m s = (s1, Returned a) ∧ k a s1 = (s2, Returned b).
Proof.
  unfold mbind, exec_bind. destruct (m s) as [s1 [a|e]]; split.
  - intros Hk. by exists a, s1.
  - by intros (a' & s1' & [= <- <-] & Hk).
  - done.
  - by intros (a' & s1' & [=] & _).
Qed.

Lemma exec_bind_inv_thrown {A B} (m : exec S E A) (k : A → exec S E B) s s2 e :
  (m ≫= k) s = (s2, Thrown e) ↔
  m s = (s2, Thrown e) ∨ ∃ a s1, m s = (s1, Returned a) ∧ k a s1 = (s2, Thrown e).
Proof.
  unfold mbind, exec_bind. destruct (m s) as [s1 [a|e']]; split.
  - intros Hk. right. by exists a, s1.
  - by intros [[=] | (a' & s1' & [= <- <-] & Hk)].
  - intros [= -> ->]. by left.
  - by intros [[= -> ->] | (a' & s1' & [=] & _)].
Qed.

Lemma exec_left_id {A B} (a : A) (k : A → exec S E B) : mret a ≫= k ≈ₑ k a.
Proof. done. Qed.

Lemma exec_right_id {A} (m : exec S E A) : m ≫= mret ≈ₑ m.
Proof. intros s. by exec_cases. Qed.

Lemma exec_assoc {A B C} (m : exec S E A) (k : A → exec S E B) (h : B → exec S E C) :
  (m ≫= k) ≫= h ≈ₑ m ≫= (λ a, k a ≫= h).
Proof. intros s. by exec_cases. Qed.

Lemma throw_bind {A B} (e : E) (k : A → exec S E B) : throw e ≫= k ≈ₑ throw e.
Proof. done. Qed.

(** [on_fst] is a morphism of handlers. *)
Lemma on_fst_ret {L A} (a : A) : on_fst (L:=L) (mret a : exec S E A) ≈ₑ mret a.
Proof. by intros [s l]. Qed.

Lemma on_fst_throw {L A} (e : E) : on_fst (L:=L) (throw e : exec S E A) ≈ₑ throw e.
Proof. by intros [s l]. Qed.

Lemma on_fst_bind {L A B} (m : exec S E A) (k : A → exec S E B) :
  on_fst (L:=L) (m ≫= k) ≈ₑ on_fst m ≫= λ a, on_fst (k a).
Proof. intros [s l]. unfold on_fst. exec_unfold. cbn [fst snd]. by destruct (m s) as [s' [a|e]]. Qed.

End exec_laws.

(** ** Strings: splitting, joining, lower case *)

Definition ascii_lower (c : ascii) : ascii :=
  let n := Ascii.nat_of_ascii c in
  if bool_decide (65 ≤ n ≤ 90) then Ascii.ascii_of_nat (n + 32) else c.

Fixpoint lower (s : string) : string :=
  match s with
  | EmptyString => EmptyString
  | String c s' => String (ascii_lower c) (lower s')
  end.

(** [split_on c s]: the fields of [s] between occurrences of [c], empty
    fields kept (JavaScript's [s.split(c)]). *)
Fixpoint split_on (c : ascii) (s : string) : list string :=
  match s with
  | EmptyString => [EmptyString]
  | String a s' =>
      if bool_decide (a = c) then EmptyString :: split_on c s'
      else match split_on c s' with
           | [] => [String a EmptyString]
           | f :: fs => String a f :: fs
           end
  end.

Fixpoint join_with (c : ascii) (fs : list string) : string :=
  match fs with
  | [] => EmptyString
  | [f] => f
  | f :: fs' => f +:+ String c (join_with c fs')
  end.

(** [s.includes(c)]. *)
Fixpoint has_char (c : ascii) (s : string) : bool :=
  match s with
  | EmptyString => false
  | String a s' => bool_decide (a = c) || has_char c s'
  end.

Section string_lemmas.
Implicit Types s t : string.
Implicit Types c : ascii.

Lemma string_app_cons a s t : String a s +:+ t = String a (s +:+ t).
Proof. reflexivity. Qed.

Lemma string_app_nil_l s : "" +:+ s = s.
Proof. reflexivity. Qed.

Lemma string_app_nil_r s : s +:+ "" = s.
Proof. induction s; rewrite ?string_app_cons; by f_equal. Qed.

Lemma string_app_assoc s t u : (s +:+ t) +:+ u = s +:+ (t +:+ u).
Proof. induction s; rewrite ?string_app_cons; by f_equal. Qed.

Lemma string_app_length s t : String.length (s +:+ t) = String.length s + String.length t.
Proof. induction s; rewrite ?string_app_cons; simpl; by f_equal. Qed.

Lemma string_prefix_app s t : String.prefix s (s +:+ t) = true.
Proof.
  induction s as [|a s IH]; [by destruct t|].
  rewrite string_app_cons. simpl.
  destruct (Ascii.ascii_dec a a); [done | congruence].
Qed.

Lemma split_on_nonempty c s : split_on c s ≠ [].
Proof.
  destruct s as [|a s]; simpl; [done|].
  case_bool_decide; [done|]. by destruct (split_on c s).
Qed.

Lemma join_with_cons c f fs :
  fs ≠ [] → join_with c (f :: fs) = f +:+ String c (join_with c fs).
Proof. by destruct fs. Qed.

(** Splitting then joining on the same character gives the string back. *)
Lemma join_split_on c s : join_with c (split_on c s) = s.
Proof.
  induction s as [|a s IH]; simpl; [done|].
  pose proof (split_on_nonempty c s) as Hne.
  case_bool_decide as Ha.
  - subst a. by rewrite join_with_cons, IH.
  - destruct (split_on c s) as [|f fs]; [done|].
    destruct fs as [|g fs]; simpl in *; by rewrite <- IH, ?string_app_cons.
Qed.

(** A string without the separator is its only field. *)
Lemma split_on_no_sep c s : has_char c s = false → split_on c s = [s].
Proof.
  induction s as [|a s IH]; simpl; [done|]. intros [Ha Hs]%orb_false_elim.
  by rewrite Ha, (IH Hs).
Qed.

(** The first field ends at the first separator. *)
Lemma split_on_app_sep c s t :
  has_char c s = false → split_on c (s +:+ String c t) = s :: split_on c t.
Proof.
  induction s as [|a s IH]; rewrite ?string_app_cons; simpl.
  - intros _. by rewrite bool_decide_eq_true_2.
  - intros [Ha Hs]%orb_false_elim. by rewrite Ha, (IH Hs).
Qed.

(** Joining then splitting on the same character gives the fields
    back, as long as no field holds the character. *)
Lemma split_join_with c fs :
  fs ≠ [] → Forall (λ f, has_char c f = false) fs → split_on c (join_with c fs) = fs.
Proof.
  intros Hne Hfs. induction Hfs as [|f fs Hf Hfs IH]; [done|].
  destruct fs as [|g fs]; [by apply split_on_no_sep|].
  rewrite join_with_cons, (split_on_app_sep _ _ _ Hf) by done. by rewrite IH.
Qed.

(** No field of a split holds the separator. *)
Lemma split_on_fields c s : Forall (λ f, has_char c f = false) (split_on c s).
Proof.
  induction s as [|a s IH]; simpl; [by repeat constructor|].
  case_bool_decide as Ha; [by constructor|].
  destruct (split_on c s) as [|f fs]; simpl.
  - repeat constructor. simpl. by rewrite bool_decide_eq_false_2.
  - inversion_clear IH. constructor; [|done]. simpl. by rewrite bool_decide_eq_false_2.
Qed.

Lemma has_char_app c s t : has_char c (s +:+ t) = has_char c s || has_char c t.
Proof.
  induction s as [|a s IH]; rewrite ?string_app_cons; simpl; [done|].
  by rewrite IH, orb_assoc.
Qed.

Lemma ascii_lower_idemp c : ascii_lower (ascii_lower c) = ascii_lower c.
Proof. by destruct c as [[] [] [] [] [] [] [] []]. Qed.

Lemma lower_idemp s : lower (lower s) = lower s.
Proof. induction s; simpl; [done|]. by rewrite ascii_lower_idemp, IHs. Qed.

Lemma lower_app s t : lower (s +:+ t) = lower s +:+ lower t.
Proof. induction s; rewrite ?string_app_cons; simpl; rewrite ?string_app_cons; by f_equal. Qed.

End string_lemmas.

(** ** Lists: first match *)

Section list_lemmas.
Context {A : Type}.
Implicit Types l : list A.

Lemma filter_nil_iff (P : A → Prop) `{∀ x, Decision (P x)} l :
  filter P l = [] ↔ Forall (λ x, ¬ P x) l.
Proof.
  induction l as [|x l IH]; simpl; [by split|].
  rewrite filter_cons, Forall_cons. case_decide; [|tauto].
  split; [done | tauto].
Qed.

Lemma head_filter_P (P : A → Prop) `{∀ x, Decision (P x)} l x :
  head (filter P l) = Some x → P x ∧ x ∈ l.
Proof.
  intros Hh. assert (x ∈ filter P l) as Hin.
  { destruct (filter P l); simplify_eq/=. left. }
  by apply list_elem_of_filter in Hin.
Qed.

Lemma Forall_filter_sub (P Q : A → Prop) `{∀ x, Decision (P x)} l :
  Forall Q l → Forall Q (filter P l).
Proof.
  rewrite !Forall_forall. intros Hall x Hx.
  apply list_elem_of_filter in Hx as [_ Hx]. by apply Hall.
Qed.

(** Replacing one element moves a sum by the difference. *)
Lemma sum_list_with_insert (f : A → nat) l i x y :
  l !! i = Some x → sum_list_with f (<[i := y]> l) + f x = sum_list_with f l + f y.
Proof.
  revert i. induction l as [|z l IH]; intros [|i] Hi; simplify_eq/=; [lia|].
  specialize (IH i Hi). lia.
Qed.

Lemma sum_list_with_le (f : A → nat) n l :
  Forall (λ x, f x ≤ n) l → sum_list_with f l ≤ n * length l.
Proof. induction 1; simpl; lia. Qed.

End list_lemmas.

(** Filtering the image of a list is the image of a filtered list. *)
Lemma filter_fmap_iff {A B} (f : A → B) (P : B → Prop) (Q : A → Prop)
    `{∀ y, Decision (P y)} `{∀ x, Decision (Q x)} (l : list A) :
  (∀ x, P (f x) ↔ Q x) → filter P (f <$> l) = f <$> filter Q l.
Proof.
  intros HPQ. induction l as [|x l IH]; [done|]. rewrite fmap_cons.
  destruct (decide (Q x)) as [Hx|Hx].
  - rewrite (filter_cons_True Q), (filter_cons_True P) by first [done | by apply HPQ].
    by rewrite fmap_cons, IH.
  - by rewrite (filter_cons_False Q), (filter_cons_False P) by first [done | by rewrite HPQ].
Qed.

Lemma filter_ext_Forall {A} (P Q : A → Prop)
    `{∀ x, Decision (P x)} `{∀ x, Decision (Q x)} (l : list A) :
  Forall (λ x, P x ↔ Q x) l → filter P l = filter Q l.
Proof.
  induction 1 as [|x l HPQ _ IH]; [done|]. destruct (decide (P x)) as [Hx|Hx].
  - rewrite (filter_cons_True P), (filter_cons_True Q), IH by first [done | by apply HPQ].
    done.
  - by rewrite (filter_cons_False P), (filter_cons_False Q) by first [done | by rewrite <- HPQ].
Qed.

(** *** Lists indexed by a key *)

Section keyed_lists.
Context {A : Type} (f : A → string).
Implicit Types l : list A.

(** The map of a list by key holds, under a key, the first element
    with that key. *)
Lemma list_to_map_key_lookup l k :
  (list_to_map ((λ x, (f x, x)) <$> l) : gmap string A) !! k =
    head (filter (λ x, f x = k) l).
Proof.
  induction l as [|x l IH]; [done|]. rewrite fmap_cons. cbn [list_to_map foldr].
  destruct (decide (f x = k)) as [Hk|Hk].
  - rewrite filter_cons_True by done. cbn [fst snd]. by rewrite Hk, lookup_insert_eq.
  - rewrite filter_cons_False by done. cbn [fst snd]. by rewrite lookup_insert_ne.
Qed.

(** With unique keys at most one element has a given key. *)
Lemma filter_key_unique l k x :
  NoDup (f <$> l) → head (filter (λ x, f x = k) l) = Some x →
  filter (λ x, f x = k) l = [x].
Proof.
  induction l as [|y l IH]; [done|]. rewrite fmap_cons, NoDup_cons. intros [Hy Hnd].
  destruct (decide (f y = k)) as [Hk|Hk].
  - rewrite filter_cons_True by done. intros [= ->]. f_equal.
    apply filter_nil_iff, Forall_forall. intros z Hz Hfz. apply Hy.
    rewrite Hk, <- Hfz. by apply list_elem_of_fmap_2.
  - rewrite filter_cons_False by done. by apply IH.
Qed.

End keyed_lists.

(** ** Automation *)

Create HintDb colis discriminated.
Create Rewrite HintDb colis.
#[export] Hint Rewrite string_app_nil_r string_app_assoc lower_idemp : colis.
#[export] Hint Resolve split_on_nonempty string_prefix_app : colis.


