(* ===== verification/JsValue.v ===== *)
(** * JavaScript values as the sources use them

    Primitive values, their conversions ([ToString] in template
    literals, [ToBoolean] in [!x] and [||]), the nullish test of [??],
    flat objects (rows, request headers, [process.env]) as finite maps
    from property names to primitives, and property reads.  Numbers are
    the integers: the sources only handle identifiers and a port. *)

From Stdlib Require Import Ascii.
From stdpp Require Import base tactics option list strings gmap pretty.
From S2P Require Import Prelude.

(** ** Primitives *)

Inductive prim : Type :=
| PUndefined
| PNull
| PBool (b : bool)
| PNum (n : Z)
| PStr (s : string).

#[export] Instance prim_eq_dec : EqDecision prim.
Proof. solve_decision. Defined.

#[export] Instance prim_inhabited : Inhabited prim := populate PUndefined.

(** [ToString], as a template literal applies it to an interpolated value. *)
Definition to_string (p : prim) : string :=
  match p with
  | PUndefined => "undefined"
  | PNull => "null"
  | PBool true => "true"
  | PBool false => "false"
  | PNum n => pretty n
  | PStr s => s
  end.

(** [ToBoolean]: [undefined], [null], [false], [0] and the empty string
    are falsy, everything else is truthy. *)
Definition truthy (p : prim) : bool :=
  match p with
  | PUndefined | PNull => false
  | PBool b => b
  | PNum n => negb (bool_decide (n = 0%Z))
  | PStr s => negb (bool_decide (s = ""))
  end.

(** [x === undefined || x === null], the test of [??]. *)
Definition nullish (p : prim) : bool :=
  match p with
  | PUndefined | PNull => true
  | _ => false
  end.

(** [a || b]: [a] when it is truthy, otherwise [b]. *)
Definition js_or (a b : prim) : prim := if truthy a then a else b.

(** [a ?? b]: [a] unless it is [undefined] or [null]. *)
Definition js_coalesce (a b : prim) : prim := if nullish a then b else a.

(** A template literal: the concatenation of its chunks and of the
    [ToString] of its interpolated values, in order. *)
Definition template (parts : list prim) : string :=
  foldr (λ p acc, to_string p +:+ acc) "" parts.

(** ** Flat objects *)

(** An object whose properties hold primitives: a result row, the
    header table of a request, [process.env], a JSON body. *)
Abbreviation obj := (gmap string prim).

(** [o.k] (or [o[k]]): [undefined] when the property is absent. *)
Definition get_prop (o : obj) (k : string) : prim := default PUndefined (o !! k).

(** [process.env]: every variable that is set holds a string. *)
Abbreviation environment := (gmap string string).

Definition env_get (env : environment) (k : string) : prim :=
  from_option PStr PUndefined (env !! k).

(** ** Values: a primitive or an object *)

Inductive value : Type :=
| VPrim (p : prim)
| VObj (o : obj).

#[export] Instance value_eq_dec : EqDecision value.
Proof. solve_decision. Defined.

Definition value_truthy (v : value) : bool :=
  match v with
  | VPrim p => truthy p
  | VObj _ => true
  end.

(** [a[i]] on an array: [undefined] past the end. *)
Definition array_get (a : list obj) (i : nat) : value :=
  match a !! i with
  | Some o => VObj o
  | None => VPrim PUndefined
  end.

(** ** Lemmas *)

Section js_lemmas.
Implicit Types p a b : prim.
Implicit Types o : obj.

Lemma nullish_not_truthy p : nullish p = true → truthy p = false.
Proof. by destruct p. Qed.

Lemma truthy_not_nullish p : truthy p = true → nullish p = false.
Proof. by destruct p. Qed.

Lemma js_or_truthy a b : truthy a = true → js_or a b = a.
Proof. unfold js_or. by intros ->. Qed.

Lemma js_or_falsy a b : truthy a = false → js_or a b = b.
Proof. unfold js_or. by intros ->. Qed.

Lemma js_coalesce_nullish a b : nullish a = true → js_coalesce a b = b.
Proof. unfold js_coalesce. by intros ->. Qed.

Lemma js_coalesce_defined a b : nullish a = false → js_coalesce a b = a.
Proof. unfold js_coalesce. by intros ->. Qed.

(** [||] and [??] agree except on the falsy values that are not nullish. *)
Lemma js_or_coalesce a b :
  truthy a = true ∨ nullish a = true → js_or a b = js_coalesce a b.
Proof.
  intros [Ht | Hn].
  - by rewrite js_or_truthy, js_coalesce_defined by auto using truthy_not_nullish.
  - by rewrite js_or_falsy, js_coalesce_nullish by auto using nullish_not_truthy.
Qed.

Lemma truthy_str s : truthy (PStr s) = true ↔ s ≠ "".
Proof. simpl. rewrite negb_true_iff, bool_decide_eq_false. done. Qed.

Lemma to_string_num_inj n m : to_string (PNum n) = to_string (PNum m) → n = m.
Proof. simpl. apply (inj pretty). Qed.

Lemma template_nil : template [] = "".
Proof. done. Qed.

Lemma template_cons p ps : template (p :: ps) = to_string p +:+ template ps.
Proof. done. Qed.

Lemma template_app ps qs : template (ps ++ qs) = template ps +:+ template qs.
Proof.
  induction ps as [|p ps IH]; [done|].
  by rewrite <- app_comm_cons, !template_cons, IH, string_app_assoc.
Qed.

Lemma template_str s : template [PStr s] = s.
Proof. unfold template. simpl. apply string_app_nil_r. Qed.

Lemma get_prop_insert_eq o k p : get_prop (<[k:=p]> o) k = p.
Proof. unfold get_prop. by rewrite lookup_insert_eq. Qed.

Lemma get_prop_insert_ne o k k' p : k ≠ k' → get_prop (<[k:=p]> o) k' = get_prop o k'.
Proof. intros. unfold get_prop. by rewrite lookup_insert_ne. Qed.

Lemma get_prop_absent o k : o !! k = None → get_prop o k = PUndefined.
Proof. unfold get_prop. by intros ->. Qed.

Lemma get_prop_present o k p : o !! k = Some p → get_prop o k = p.
Proof. unfold get_prop. by intros ->. Qed.

Lemma env_get_unset (env : environment) k : env !! k = None → env_get env k = PUndefined.
Proof. unfold env_get. by intros ->. Qed.

Lemma env_get_set (env : environment) k s : env !! k = Some s → env_get env k = PStr s.
Proof. unfold env_get. by intros ->. Qed.

Lemma env_get_not_null (env : environment) k : env_get env k ≠ PNull.
Proof. unfold env_get. by destruct (env !! k). Qed.

Lemma array_get_nil i : array_get [] i = VPrim PUndefined.
Proof. done. Qed.

Lemma array_get_truthy (rs : list obj) i : value_truthy (array_get rs i) = true ↔ i < length rs.
Proof.
  unfold array_get. destruct (rs !! i) eqn:Hi; simpl.
  - split; [intros _; by eapply lookup_lt_Some | done].
  - apply lookup_ge_None in Hi. split; [done | lia].
Qed.

End js_lemmas.

#[export] Hint Rewrite template_cons template_nil get_prop_insert_eq : colis.
#[export] Hint Resolve nullish_not_truthy truthy_not_nullish env_get_not_null : colis.
