(* ===== verification/Database.v ===== *)
(** * The database client

    [accountDataMapper.js] talks to PostgreSQL through
    [client.query({ text, values })] of [./helpers/database], which is
    not part of the sources.  This file models that collaborator from
    the way the mapper uses it: a store of tables, a reader of the two
    statement shapes the mapper sends ([SELECT * FROM t WHERE c = $n]
    and [UPDATE t SET c = $n, ... WHERE c = $n RETURNING *]), and their
    execution with PostgreSQL's rules for identifiers (folded to lower
    case), for [NULL] (never equal to anything) and for [undefined]
    parameters (sent as [NULL]).  Columns are untyped: a stored value
    and a parameter are compared by their text. *)

From Stdlib Require Import Ascii.
From stdpp Require Import base tactics option list strings gmap pretty.
From S2P Require Import Prelude JsValue.

(** ** Store *)

Record table : Type := Table {
  columns : list string;
  table_rows : list obj;
}.

Abbreviation database := (gmap string table).

(** A row has exactly the columns of its table and never holds [undefined]. *)
Definition row_wf (cols : list string) (r : obj) : Prop :=
  dom r = list_to_set cols ∧ map_Forall (λ _ v, v ≠ PUndefined) r.

Definition table_wf (t : table) : Prop :=
  Forall (row_wf (columns t)) (table_rows t).

Definition db_wf (db : database) : Prop := map_Forall (λ _ t, table_wf t) db.

#[export] Instance row_wf_dec cols r : Decision (row_wf cols r).
Proof. unfold row_wf. apply _. Defined.

#[export] Instance table_wf_dec t : Decision (table_wf t).
Proof. unfold table_wf. apply _. Defined.

#[export] Instance db_wf_dec db : Decision (db_wf db).
Proof. unfold db_wf. apply _. Defined.

(** ** Queries and results, as the mapper builds and reads them *)

Record query : Type := Query {
  text : string;
  values : list prim;
}.

Record query_result : Type := QueryResult {
  rows : list obj;
}.

Inductive db_error : Type :=
| SyntaxError (sql : string)
| UndefinedTable (name : string)
| UndefinedColumn (name : string)
| DuplicateAssignment (name : string)
| MissingParameter (index : nat).

#[export] Instance db_error_eq_dec : EqDecision db_error.
Proof. solve_decision. Defined.

(** What a handler can throw. *)
Inductive exn : Type :=
| JsError (message : string)
| TypeError (message : string)
| DatabaseError (e : db_error).

#[export] Instance exn_eq_dec : EqDecision exn.
Proof. solve_decision. Defined.

(** ** Reading a statement *)

Inductive statement : Type :=
| Select (tbl col : string) (param : nat)
| Update (tbl : string) (assignments : list (string * nat)) (col : string) (param : nat).

#[export] Instance statement_eq_dec : EqDecision statement.
Proof. solve_decision. Defined.

Definition flush (cur : string) : list string :=
  if bool_decide (cur = "") then [] else [String.rev cur].

(** Tokens are separated by white space; a comma is a token of its own. *)
Fixpoint sql_tokens_go (cur : string) (s : string) : list string :=
  match s with
  | EmptyString => flush cur
  | String a s' =>
      if Ascii.is_space a then flush cur ++ sql_tokens_go "" s'
      else if bool_decide (a = ","%char) then flush cur ++ "," :: sql_tokens_go "" s'
      else sql_tokens_go (String a cur) s'
  end.

Definition sql_tokens (s : string) : list string := sql_tokens_go "" s.

(** A word: a string the tokenizer does not cut, without white space
    and without a comma. *)
Definition word_char (a : ascii) : bool :=
  negb (Ascii.is_space a) && negb (bool_decide (a = ","%char)).

Fixpoint sql_word (s : string) : bool :=
  match s with
  | EmptyString => true
  | String a s' => word_char a && sql_word s'
  end.

Fixpoint parse_digits (acc : nat) (s : string) : option nat :=
  match s with
  | EmptyString => Some acc
  | String a s' => d ← Ascii.is_nat a; parse_digits (10 * acc + d) s'
  end.

(** A placeholder [$n], [n >= 1]. *)
Definition parse_param (tok : string) : option nat :=
  match tok with
  | String "$" (String a ds) =>
      n ← parse_digits 0 (String a ds); if bool_decide (n = 0) then None else Some n
  | _ => None
  end.

Definition is_kw (kw tok : string) : bool := bool_decide (lower tok = kw).

(** An unquoted identifier is folded to lower case. *)
Definition ident (tok : string) : string := lower tok.

Fixpoint parse_assignments (ts : list string) : option (list (string * nat) * list string) :=
  match ts with
  | c :: eq :: p :: rest =>
      if bool_decide (eq = "=") then
        n ← parse_param p;
        match rest with
        | sep :: rest' =>
            if bool_decide (sep = ",") then
              '(asg, r) ← parse_assignments rest'; Some ((ident c, n) :: asg, r)
            else Some ([(ident c, n)], rest)
        | [] => Some ([(ident c, n)], [])
        end
      else None
  | _ => None
  end.

Definition parse_where (ts : list string) : option (string * nat * list string) :=
  match ts with
  | w :: c :: eq :: p :: rest =>
      if is_kw "where" w && bool_decide (eq = "=") then
        n ← parse_param p; Some (ident c, n, rest)
      else None
  | _ => None
  end.

Definition parse_statement (ts : list string) : option statement :=
  match ts with
  | k :: ts1 =>
      if is_kw "select" k then
        match ts1 with
        | star :: from :: t :: ts2 =>
            if bool_decide (star = "*") && is_kw "from" from then
              '(c, n, rest) ← parse_where ts2;
              if bool_decide (rest = []) then Some (Select (ident t) c n) else None
            else None
        | _ => None
        end
      else if is_kw "update" k then
        match ts1 with
        | t :: set :: ts2 =>
            if is_kw "set" set then
              '(asg, ts3) ← parse_assignments ts2;
              '(c, n, rest) ← parse_where ts3;
              match rest with
              | [ret; star] =>
                  if is_kw "returning" ret && bool_decide (star = "*")
                  then Some (Update (ident t) asg c n) else None
              | _ => None
              end
            else None
        | _ => None
        end
      else None
  | [] => None
  end.

Definition parse_sql (s : string) : option statement := parse_statement (sql_tokens s).

(** ** Running a statement *)

(** The driver sends [undefined] as [NULL]. *)
Definition sql_value (p : prim) : prim :=
  match p with PUndefined => PNull | _ => p end.

(** The parameter [$n] of a query, as the server receives it. *)
Definition param_get (vs : list prim) (n : nat) : option prim :=
  match n with
  | 0 => None
  | S i => sql_value <$> vs !! i
  end.

(** [stored = param] in a [WHERE] clause: never true on [NULL]. *)
Definition sql_eq (stored param : prim) : bool :=
  match sql_value stored, sql_value param with
  | PNull, _ | _, PNull => false
  | a, b => bool_decide (to_string a = to_string b)
  end.

Definition matches (col : string) (p : prim) (r : obj) : Prop :=
  sql_eq (get_prop r col) p = true.

#[export] Instance matches_dec col p r : Decision (matches col p r).
Proof. unfold matches. apply _. Defined.

(** [SET c1 = v1, ..., ck = vk] on one row, left to right. *)
Definition assign (sets : list (string * prim)) (r : obj) : obj :=
  foldl (λ acc cv, <[cv.1 := cv.2]> acc) r sets.

Definition bind_assignments (vs : list prim) (asg : list (string * nat)) :
    outcome db_error (list (string * prim)) :=
  foldr (λ cn acc,
           match acc, param_get vs cn.2 with
           | Thrown e, _ => Thrown e
           | Returned sets, Some v => Returned ((cn.1, v) :: sets)
           | Returned _, None => Thrown (MissingParameter cn.2)
           end) (Returned []) asg.

Definition first_dup (l : list string) : option string :=
  head (filter (λ c, 1 < length (filter (λ d, d = c) l)) l).

Definition first_missing (cols l : list string) : option string :=
  head (filter (λ c, c ∉ cols) l).

Definition run_select (tbl col : string) (n : nat) (vs : list prim) (db : database) :
    outcome db_error (list obj) :=
  match db !! tbl with
  | None => Thrown (UndefinedTable tbl)
  | Some t =>
      if bool_decide (col ∈ columns t) then
        match param_get vs n with
        | Some p => Returned (filter (matches col p) (table_rows t))
        | None => Thrown (MissingParameter n)
        end
      else Thrown (UndefinedColumn col)
  end.

Definition update_row (col : string) (p : prim) (sets : list (string * prim)) (r : obj) : obj :=
  if decide (matches col p r) then assign sets r else r.

Definition run_update (tbl : string) (asg : list (string * nat)) (col : string) (n : nat)
    (vs : list prim) (db : database) : database * outcome db_error (list obj) :=
  match db !! tbl with
  | None => (db, Thrown (UndefinedTable tbl))
  | Some t =>
      match first_missing (columns t) (asg.*1 ++ [col]), first_dup asg.*1 with
      | Some c, _ => (db, Thrown (UndefinedColumn c))
      | None, Some c => (db, Thrown (DuplicateAssignment c))
      | None, None =>
          match bind_assignments vs asg, param_get vs n with
          | Thrown e, _ => (db, Thrown e)
          | Returned _, None => (db, Thrown (MissingParameter n))
          | Returned sets, Some p =>
              let t' := Table (columns t) (update_row col p sets <$> table_rows t) in
              (<[tbl := t']> db,
               Returned (assign sets <$> filter (matches col p) (table_rows t)))
          end
      end
  end.

Definition run_statement (st : statement) (vs : list prim) (db : database) :
    database * outcome db_error (list obj) :=
  match st with
  | Select tbl col n => (db, run_select tbl col n vs db)
  | Update tbl asg col n => run_update tbl asg col n vs db
  end.

(** [await client.query(q)]: the promise is rejected on a database error. *)
Definition client_query (q : query) : exec database exn query_result :=
  λ db,
    match parse_sql (text q) with
    | None => (db, Thrown (DatabaseError (SyntaxError (text q))))
    | Some st =>
        match run_statement st (values q) db with
        | (db', Returned rs) => (db', Returned (QueryResult rs))
        | (db', Thrown e) => (db', Thrown (DatabaseError e))
        end
    end.

(** ** Lemmas: the tokenizer *)

Section tokens.
Implicit Types cur s w rest : string.

Lemma rev_app_rev_app w cur rest :
  String.rev_app (String.rev_app w cur) rest = String.rev_app cur (w +:+ rest).
Proof.
  revert cur rest. induction w as [|a w IH]; intros cur rest; [done|].
  cbn [String.rev_app]. by rewrite IH.
Qed.

Lemma rev_rev_app w : String.rev (String.rev_app w "") = w.
Proof. unfold String.rev. rewrite rev_app_rev_app. cbn. apply string_app_nil_r. Qed.

Lemma rev_app_length w cur :
  String.length (String.rev_app w cur) = String.length w + String.length cur.
Proof.
  revert cur. induction w as [|a w IH]; intros cur; [done|].
  cbn [String.rev_app String.length]. rewrite IH. cbn [String.length]. lia.
Qed.

Lemma rev_app_nonempty w cur : w ≠ "" → String.rev_app w cur ≠ "".
Proof.
  intros Hw Hr%(f_equal String.length). rewrite rev_app_length in Hr.
  by destruct w.
Qed.

(** A space ends the token at hand: what follows is read afresh. *)
Lemma sql_tokens_go_space cur s rest :
  sql_tokens_go cur (s +:+ String " " rest) =
    sql_tokens_go cur (s +:+ " ") ++ sql_tokens_go "" rest.
Proof.
  revert cur. induction s as [|a s IH]; intros cur; rewrite ?string_app_cons.
  - change (flush cur ++ sql_tokens_go "" rest = (flush cur ++ []) ++ sql_tokens_go "" rest).
    by rewrite app_nil_r.
  - cbn [sql_tokens_go]. destruct (Ascii.is_space a); [by rewrite IH, app_assoc|].
    case_bool_decide; [|done]. by rewrite IH, app_comm_cons, app_assoc.
Qed.

(** The characters of a word are collected. *)
Lemma sql_tokens_go_word cur w rest :
  sql_word w = true → sql_tokens_go cur (w +:+ rest) = sql_tokens_go (String.rev_app w cur) rest.
Proof.
  revert cur. induction w as [|a w IH]; intros cur; [done|].
  intros [[Hs Hc]%andb_prop Hw]%andb_prop. rewrite string_app_cons. cbn [sql_tokens_go].
  apply negb_true_iff in Hs, Hc. rewrite Hs, Hc. by apply IH.
Qed.

(** A word followed by a space is one token. *)
Lemma sql_tokens_go_one w : sql_word w = true → w ≠ "" → sql_tokens_go "" (w +:+ " ") = [w].
Proof.
  intros Hw Hne. rewrite (sql_tokens_go_word _ _ _ Hw). cbn. unfold flush.
  rewrite bool_decide_eq_false_2 by by apply rev_app_nonempty.
  by rewrite rev_rev_app.
Qed.

(** A word between two texts is a token of its own, when a space
    stands on either side. *)
Lemma sql_tokens_around s w rest :
  sql_word w = true → w ≠ "" →
  sql_tokens ((s +:+ " ") +:+ w +:+ String " " rest) =
    sql_tokens (s +:+ " ") ++ w :: sql_tokens rest.
Proof.
  intros Hw Hne. unfold sql_tokens. rewrite string_app_assoc.
  change (" " +:+ w +:+ String " " rest) with (String " " (w +:+ String " " rest)).
  by rewrite sql_tokens_go_space, (sql_tokens_go_space "" w), (sql_tokens_go_one _ Hw Hne).
Qed.

End tokens.

(** ** Lemmas: values and parameters *)

Section sql_values.
Implicit Types p v : prim.
Implicit Types vs : list prim.

Lemma sql_value_defined p : sql_value p ≠ PUndefined.
Proof. by destruct p. Qed.

Lemma sql_value_idemp p : sql_value (sql_value p) = sql_value p.
Proof. by destruct p. Qed.

Lemma param_get_defined vs n p : param_get vs n = Some p → p ≠ PUndefined.
Proof.
  destruct n as [|i]; simpl; [done|].
  destruct (vs !! i) as [v|]; intros [= <-]. apply sql_value_defined.
Qed.

Lemma param_get_lookup vs i v : vs !! i = Some v → param_get vs (S i) = Some (sql_value v).
Proof. simpl. by intros ->. Qed.

Lemma sql_eq_null_l p : sql_eq PNull p = false.
Proof. done. Qed.

Lemma sql_eq_null_r v : sql_eq v PNull = false.
Proof. by destruct v. Qed.

Lemma sql_eq_undefined_r v : sql_eq v PUndefined = false.
Proof. by destruct v. Qed.

Lemma sql_eq_undefined_l p : sql_eq PUndefined p = false.
Proof. done. Qed.

Lemma sql_eq_text v p :
  sql_eq v p = true ↔ nullish v = false ∧ nullish p = false ∧ to_string v = to_string p.
Proof.
  unfold sql_eq.
  destruct v, p; simpl; rewrite ?bool_decide_eq_true; naive_solver.
Qed.

Lemma sql_eq_refl v : nullish v = false → sql_eq v v = true.
Proof. intros. by apply sql_eq_text. Qed.

Lemma sql_eq_sql_value_r v p : sql_eq v (sql_value p) = sql_eq v p.
Proof. unfold sql_eq. by rewrite sql_value_idemp. Qed.

(** A stored number is found by the decimal string of a route parameter. *)
Lemma sql_eq_num_str n : sql_eq (PNum n) (PStr (pretty n)) = true.
Proof. by apply sql_eq_text. Qed.

End sql_values.

(** ** Lemmas: assignments *)

Section assign_lemmas.
Implicit Types r : obj.
Implicit Types sets : list (string * prim).

Lemma assign_nil r : assign [] r = r.
Proof. done. Qed.

Lemma assign_cons c v sets r : assign ((c, v) :: sets) r = assign sets (<[c:=v]> r).
Proof. done. Qed.

Lemma assign_lookup_ne sets r k : k ∉ sets.*1 → assign sets r !! k = r !! k.
Proof.
  revert r. induction sets as [|[c v] sets IH]; intros r Hk; [done|].
  rewrite fmap_cons, not_elem_of_cons in Hk. destruct Hk as [Hne Hk].
  by rewrite assign_cons, IH, lookup_insert_ne.
Qed.

Lemma assign_lookup_eq sets r c v :
  NoDup sets.*1 → (c, v) ∈ sets → assign sets r !! c = Some v.
Proof.
  revert r. induction sets as [|[c' v'] sets IH]; intros r Hnd Hin.
  { by apply elem_of_nil in Hin. }
  rewrite fmap_cons in Hnd. apply NoDup_cons in Hnd as [Hc' Hnd].
  rewrite assign_cons. apply elem_of_cons in Hin as [[= <- <-] | Hin].
  - by rewrite assign_lookup_ne, lookup_insert_eq.
  - by apply IH.
Qed.

Lemma assign_dom sets r : dom (assign sets r) = dom r ∪ list_to_set sets.*1.
Proof.
  revert r. induction sets as [|[c v] sets IH]; intros r.
  - rewrite assign_nil. simpl. set_solver.
  - rewrite assign_cons, IH, dom_insert_L, fmap_cons. simpl. set_solver.
Qed.

Lemma assign_defined sets r :
  Forall (λ cv, cv.2 ≠ PUndefined) sets →
  map_Forall (λ _ v, v ≠ PUndefined) r →
  map_Forall (λ _ v, v ≠ PUndefined) (assign sets r).
Proof.
  revert r. induction sets as [|[c v] sets IH]; intros r Hs Hr; [done|].
  apply Forall_cons in Hs as [Hv Hs]. rewrite assign_cons.
  apply IH; [done|]. by apply map_Forall_insert_2.
Qed.

Lemma assign_row_wf cols sets r :
  Forall (λ cv, cv.1 ∈ cols ∧ cv.2 ≠ PUndefined) sets →
  row_wf cols r → row_wf cols (assign sets r).
Proof.
  intros Hs [Hdom Hdef]. split.
  - rewrite assign_dom, Hdom.
    assert (list_to_set sets.*1 ⊆@{gset string} list_to_set cols) as Hsub.
    { intros c. rewrite !elem_of_list_to_set, list_elem_of_fmap.
      intros ([c' v] & -> & Hin). by eapply Forall_forall in Hs as [? _]. }
    set_solver.
  - apply assign_defined; [|done]. eapply Forall_impl; [done|]. by intros ? [_ ?].
Qed.

End assign_lemmas.

(** ** Lemmas: running statements *)

Section run_lemmas.
Implicit Types db : database.
Implicit Types t : table.
Implicit Types vs : list prim.
Implicit Types asg : list (string * nat).

Lemma first_missing_None cols l :
  first_missing cols l = None ↔ Forall (λ c, c ∈ cols) l.
Proof.
  unfold first_missing. rewrite head_None, filter_nil_iff.
  split; intros Hall; (eapply Forall_impl; [exact Hall|]); intros c Hc; simpl in *.
  - by apply dec_stable.
  - auto.
Qed.

Lemma first_missing_Some cols l c :
  first_missing cols l = Some c → (c ∉ cols) ∧ (c ∈ l).
Proof. intros Hh. by apply (head_filter_P (λ c, c ∉ cols)) in Hh. Qed.

Lemma first_dup_None l : first_dup l = None → NoDup l.
Proof.
  unfold first_dup. rewrite head_None, filter_nil_iff.
  induction l as [|c l IH]; intros Hall; [constructor|].
  apply Forall_cons in Hall as [Hc Hall]. constructor.
  - intros Hin. apply Hc. rewrite filter_cons_True by done. simpl.
    apply list_elem_of_split in Hin as (l1 & l2 & ->).
    rewrite filter_app, filter_cons_True, length_app by done. simpl. lia.
  - apply IH. eapply Forall_impl; [done|]. intros d Hd Hlt. apply Hd.
    rewrite filter_cons. case_decide; simpl; lia.
Qed.

Lemma bind_assignments_Returned vs asg sets :
  bind_assignments vs asg = Returned sets →
  sets.*1 = asg.*1 ∧ Forall (λ cv, cv.2 ≠ PUndefined) sets.
Proof.
  revert sets. induction asg as [|[c n] asg IH]; intros sets; simpl.
  { intros [= <-]. by split. }
  destruct (bind_assignments vs asg) as [sets'|e]; [|done].
  destruct (param_get vs n) as [v|] eqn:Hv; intros [= <-].
  destruct (IH _ eq_refl) as [Heq Hdef]. split; [by rewrite fmap_cons, Heq|].
  constructor; [by eapply param_get_defined | done].
Qed.

Lemma run_select_Returned tbl col n vs db rs :
  run_select tbl col n vs db = Returned rs ↔
  ∃ t p, db !! tbl = Some t ∧ col ∈ columns t ∧ param_get vs n = Some p ∧
         rs = filter (matches col p) (table_rows t).
Proof.
  unfold run_select. destruct (db !! tbl) as [t|]; [|naive_solver].
  case_bool_decide; [|naive_solver].
  destruct (param_get vs n) as [p|]; naive_solver.
Qed.

Lemma update_row_matches col p sets r :
  matches col p r → update_row col p sets r = assign sets r.
Proof. intros. unfold update_row. by rewrite decide_True. Qed.

Lemma update_row_no_match col p sets r :
  ¬ matches col p r → update_row col p sets r = r.
Proof. intros. unfold update_row. by rewrite decide_False. Qed.

Lemma update_rows_no_match col p sets (rs : list obj) :
  filter (matches col p) rs = [] → update_row col p sets <$> rs = rs.
Proof.
  rewrite filter_nil_iff. intros Hall. rewrite <- (list_fmap_id rs) at 2.
  apply Forall_fmap_ext_1. eapply Forall_impl; [done|].
  intros r Hr. by apply update_row_no_match.
Qed.

Lemma update_rows_length col p sets (rs : list obj) :
  length (update_row col p sets <$> rs) = length rs.
Proof. apply length_fmap. Qed.

(** The shape of a successful [UPDATE]. *)
Lemma run_update_Returned tbl asg col n vs db db' rs :
  run_update tbl asg col n vs db = (db', Returned rs) ↔
  ∃ t sets p,
    db !! tbl = Some t ∧ Forall (λ c, c ∈ columns t) (asg.*1 ++ [col]) ∧
    first_dup asg.*1 = None ∧
    bind_assignments vs asg = Returned sets ∧ param_get vs n = Some p ∧
    db' = <[tbl := Table (columns t) (update_row col p sets <$> table_rows t)]> db ∧
    rs = assign sets <$> filter (matches col p) (table_rows t).
Proof.
  unfold run_update. destruct (db !! tbl) as [t|]; [|naive_solver].
  destruct (first_missing _ _) as [c|] eqn:Hm.
  { split; [done|]. intros (? & ? & ? & [= <-] & Hall & _).
    apply first_missing_None in Hall. congruence. }
  apply first_missing_None in Hm.
  destruct (first_dup _) as [c|]; [naive_solver|].
  destruct (bind_assignments vs asg) as [sets|e]; [|naive_solver].
  destruct (param_get vs n) as [p|]; naive_solver.
Qed.

(** A failed statement leaves the store as it was. *)
Lemma run_statement_Thrown st vs db db' e :
  run_statement st vs db = (db', Thrown e) → db' = db.
Proof.
  destruct st as [tbl col n | tbl asg col n]; simpl; [by intros [= <-]|].
  unfold run_update. repeat case_match; by intros [= <-].
Qed.

Lemma run_select_readonly tbl col n vs db : (run_statement (Select tbl col n) vs db).1 = db.
Proof. done. Qed.

End run_lemmas.

(** ** The store invariant is preserved *)

Section wf_lemmas.
Implicit Types db : database.
Implicit Types vs : list prim.

Lemma bound_sets_wf (cols : list string) (sets : list (string * prim)) :
  Forall (λ c, c ∈ cols) sets.*1 →
  Forall (λ cv, cv.2 ≠ PUndefined) sets →
  Forall (λ cv, cv.1 ∈ cols ∧ cv.2 ≠ PUndefined) sets.
Proof.
  induction sets as [|[c v] sets IH]; [constructor|].
  rewrite fmap_cons, !Forall_cons. naive_solver.
Qed.

Lemma update_rows_wf (cols : list string) col p sets (rs : list obj) :
  Forall (λ cv, cv.1 ∈ cols ∧ cv.2 ≠ PUndefined) sets →
  Forall (row_wf cols) rs →
  Forall (row_wf cols) (update_row col p sets <$> rs).
Proof.
  intros Hs Hrs. apply Forall_fmap. eapply Forall_impl; [done|].
  intros r Hr. simpl. unfold update_row. case_decide; [|done].
  by apply assign_row_wf.
Qed.

(** The rows an [UPDATE ... RETURNING *] reports are rows it wrote. *)
Lemma returned_rows_updated (Q : obj → Prop) col p sets (rs : list obj) :
  Forall Q (update_row col p sets <$> rs) →
  Forall Q (assign sets <$> filter (matches col p) rs).
Proof.
  rewrite !Forall_fmap. intros Hrs. apply Forall_forall.
  intros r [Hm Hr]%list_elem_of_filter. eapply Forall_forall in Hrs; [|done].
  simpl in *. by rewrite update_row_matches in Hrs.
Qed.

Lemma run_update_wf tbl asg col n vs db :
  db_wf db → db_wf (run_update tbl asg col n vs db).1.
Proof.
  intros Hwf. destruct (run_update tbl asg col n vs db) as [db' [rs|e]] eqn:Hrun.
  - apply run_update_Returned in Hrun
      as (t & sets & p & Ht & Hcols & _ & Hb & _ & -> & _).
    apply bind_assignments_Returned in Hb as [Heq Hdef].
    apply Forall_app in Hcols as [Hcols _]. rewrite <- Heq in Hcols.
    apply map_Forall_insert_2; [|done]. unfold table_wf. simpl.
    apply update_rows_wf; [by apply bound_sets_wf|]. by apply (Hwf tbl).
  - change (run_update tbl asg col n vs db)
      with (run_statement (Update tbl asg col n) vs db) in Hrun.
    by apply run_statement_Thrown in Hrun as ->.
Qed.

Lemma run_statement_wf st vs db : db_wf db → db_wf (run_statement st vs db).1.
Proof. destruct st; [done | apply run_update_wf]. Qed.

(** The rows a statement returns are rows of the table it names. *)
Lemma run_select_rows_wf tbl col n vs db t rs :
  db_wf db → db !! tbl = Some t →
  run_select tbl col n vs db = Returned rs → Forall (row_wf (columns t)) rs.
Proof.
  intros Hwf Ht (t' & p & Ht' & _ & _ & ->)%run_select_Returned.
  simplify_eq. apply Forall_filter_sub, (Hwf tbl t Ht).
Qed.

End wf_lemmas.

(** ** [client.query] *)

Section client_lemmas.
Implicit Types db : database.
Implicit Types q : query.

Lemma client_query_parsed q st db :
  parse_sql (text q) = Some st →
  client_query q db =
    match run_statement st (values q) db with
    | (db', Returned rs) => (db', Returned (QueryResult rs))
    | (db', Thrown e) => (db', Thrown (DatabaseError e))
    end.
Proof. unfold client_query. by intros ->. Qed.

Lemma client_query_syntax_error q db :
  parse_sql (text q) = None →
  client_query q db = (db, Thrown (DatabaseError (SyntaxError (text q)))).
Proof. unfold client_query. by intros ->. Qed.

(** A rejected query leaves the store as it was. *)
Lemma client_query_Thrown q db db' e : client_query q db = (db', Thrown e) → db' = db.
Proof.
  unfold client_query. destruct (parse_sql (text q)) as [st|]; [|by intros [= <-]].
  destruct (run_statement st (values q) db) as [db1 [rs|e1]] eqn:Hrun; intros [= <- <-].
  by eapply run_statement_Thrown.
Qed.

(** The client rejects with errors of the database only. *)
Lemma client_query_error q db db' e :
  client_query q db = (db', Thrown e) → ∃ de, e = DatabaseError de.
Proof.
  unfold client_query. destruct (parse_sql (text q)) as [st|]; [|intros [= _ <-]; eauto].
  destruct (run_statement st (values q) db) as [db2 [rs|de]]; intros [= _ <-]; eauto.
Qed.

Lemma client_query_wf q db : db_wf db → db_wf (client_query q db).1.
Proof.
  intros Hwf. unfold client_query. destruct (parse_sql (text q)) as [st|]; [|done].
  pose proof (run_statement_wf st (values q) db Hwf) as Hwf'.
  by destruct (run_statement st (values q) db) as [db1 [rs|e1]].
Qed.

Lemma client_query_select q tbl col n db t p :
  parse_sql (text q) = Some (Select tbl col n) →
  db !! tbl = Some t → col ∈ columns t → param_get (values q) n = Some p →
  client_query q db = (db, Returned (QueryResult (filter (matches col p) (table_rows t)))).
Proof.
  intros Hq Ht Hc Hp. rewrite (client_query_parsed _ _ _ Hq). simpl.
  unfold run_select. by rewrite Ht, bool_decide_eq_true_2, Hp.
Qed.

Lemma client_query_select_no_table q tbl col n db :
  parse_sql (text q) = Some (Select tbl col n) → db !! tbl = None →
  client_query q db = (db, Thrown (DatabaseError (UndefinedTable tbl))).
Proof.
  intros Hq Ht. rewrite (client_query_parsed _ _ _ Hq). simpl.
  unfold run_select. by rewrite Ht.
Qed.

Lemma client_query_select_no_column q tbl col n db t :
  parse_sql (text q) = Some (Select tbl col n) → db !! tbl = Some t → col ∉ columns t →
  client_query q db = (db, Thrown (DatabaseError (UndefinedColumn col))).
Proof.
  intros Hq Ht Hc. rewrite (client_query_parsed _ _ _ Hq). simpl.
  unfold run_select. by rewrite Ht, bool_decide_eq_false_2.
Qed.

End client_lemmas.

(** ** What an [UPDATE] cannot change *)

Section frame_lemmas.
Implicit Types db : database.
Implicit Types vs : list prim.
Implicit Types r : obj.

Lemma sql_eq_alt v p :
  sql_eq v p = negb (nullish v) && negb (nullish p) && bool_decide (to_string v = to_string p).
Proof. by destruct v, p. Qed.

(** Two parameters with the same text select the same rows. *)
Lemma sql_eq_same_key o u v : sql_eq o u = true → sql_eq v o = sql_eq v u.
Proof.
  rewrite sql_eq_text. intros (Ho & Hu & Heq).
  by rewrite !sql_eq_alt, Ho, Hu, Heq.
Qed.

Lemma matches_same_key col o u r :
  sql_eq o u = true → matches col (sql_value o) r ↔ matches col (sql_value u) r.
Proof.
  intros Hk. unfold matches. by rewrite !sql_eq_sql_value_r, (sql_eq_same_key _ _ _ Hk).
Qed.

Lemma filter_matches_same_key col o u (rs : list obj) :
  sql_eq o u = true →
  filter (matches col (sql_value o)) rs = filter (matches col (sql_value u)) rs.
Proof. intros Hk. apply list_filter_iff. intros r. by apply matches_same_key. Qed.

Lemma matches_null col r : ¬ matches col PNull r.
Proof. unfold matches. by rewrite sql_eq_null_r. Qed.

Lemma filter_matches_null col (rs : list obj) : filter (matches col PNull) rs = [].
Proof. apply filter_nil_iff, Forall_forall. intros r _. apply matches_null. Qed.

(** Assigning to a row the values it already holds changes nothing. *)
Lemma assign_same sets r :
  Forall (λ cv, r !! cv.1 = Some cv.2) sets → assign sets r = r.
Proof.
  induction sets as [|[c v] sets IH]; [done|].
  rewrite Forall_cons, assign_cons. simpl. intros [Hc Hs].
  rewrite insert_id by done. by apply IH.
Qed.

(** A column that is not assigned keeps its value in every row. *)
Lemma update_row_other_column col p sets r k :
  k ∉ sets.*1 → update_row col p sets r !! k = r !! k.
Proof. intros Hk. unfold update_row. case_decide; [by apply assign_lookup_ne | done]. Qed.

Lemma update_rows_column col p sets (rs : list obj) k :
  k ∉ sets.*1 →
  (λ r : obj, r !! k) <$> (update_row col p sets <$> rs) = (λ r : obj, r !! k) <$> rs.
Proof.
  intros Hk. rewrite <- list_fmap_compose. apply list_fmap_ext.
  intros i r _. simpl. by apply update_row_other_column.
Qed.

(** Whether a row is selected does not change when the filtered column
    is not assigned. *)
Lemma matches_update_row col p q sets r :
  col ∉ sets.*1 → matches col q (update_row col p sets r) ↔ matches col q r.
Proof.
  intros Hk. unfold matches, get_prop. by rewrite update_row_other_column.
Qed.

(** Rewriting the only selected row with itself changes no row. *)
Lemma update_rows_unique_same col p sets (rs : list obj) r :
  filter (matches col p) rs = [r] → assign sets r = r →
  update_row col p sets <$> rs = rs.
Proof.
  intros Hr Hsame. rewrite <- (list_fmap_id rs) at 2. apply list_fmap_ext.
  intros j x Hj. unfold update_row. case_decide as Hm; [|done].
  assert (x ∈ [r]) as ->%list_elem_of_singleton; [|done].
  rewrite <- Hr. apply list_elem_of_filter. split; [done|].
  by eapply list_elem_of_lookup_2.
Qed.

(** A selected row of a well-formed store is well formed. *)
Lemma filtered_row_wf (P : obj → Prop) `{∀ x, Decision (P x)} db tbl t r rs :
  db_wf db → db !! tbl = Some t → filter P (table_rows t) = r :: rs →
  row_wf (columns t) r.
Proof.
  intros Hwf Ht Hr. eapply Forall_forall; [apply (Hwf _ _ Ht)|].
  eapply list_elem_of_filter. rewrite Hr. left.
Qed.

Lemma insert_table_id db tbl t :
  db !! tbl = Some t → <[tbl := Table (columns t) (table_rows t)]> db = db.
Proof. intros Ht. destruct t. by apply insert_id. Qed.

Lemma run_statement_other_table st vs db tbl :
  match st with Select t _ _ | Update t _ _ _ => t end ≠ tbl →
  (run_statement st vs db).1 !! tbl = db !! tbl.
Proof.
  intros Hne. destruct (run_statement st vs db) as [db' [rs|e]] eqn:Hrun; simpl.
  - destruct st as [t col n | t asg col n]; simpl in Hrun; [by simplify_eq|].
    apply run_update_Returned in Hrun as (t0 & sets & p & _ & _ & _ & _ & _ & -> & _).
    by rewrite lookup_insert_ne.
  - by apply run_statement_Thrown in Hrun as ->.
Qed.

Lemma run_statement_dom st vs db : dom (run_statement st vs db).1 = dom db.
Proof.
  destruct (run_statement st vs db) as [db' [rs|e]] eqn:Hrun; simpl.
  - destruct st as [t col n | t asg col n]; simpl in Hrun; [by simplify_eq|].
    apply run_update_Returned in Hrun as (t0 & sets & p & Ht & _ & _ & _ & _ & -> & _).
    rewrite dom_insert_L. apply elem_of_dom_2 in Ht. set_solver.
  - by apply run_statement_Thrown in Hrun as ->.
Qed.

End frame_lemmas.

#[export] Hint Resolve client_query_wf run_statement_wf sql_value_defined : colis.
#[export] Hint Rewrite sql_eq_null_r sql_eq_undefined_r sql_eq_sql_value_r : colis.
