(* ===== verification/AccountMapper.v ===== *)
(** * The account data mapper

    [src/app/models/accountDataMapper.js]: the class [AccountDataMapper]
    with its static [tableName] and its two methods,
    [findAccountByUserId] and [updateAccount], written in the monad of
    handlers over the database.  The calls to [debug] only log and are
    left out.  [updateAccount] calls [account.updateFromData] on the row
    the client returned: whether result rows carry that method is a
    property of the client, stated by the class [RowEntity]. *)

From Stdlib Require Import Ascii.
From stdpp Require Import base tactics option list strings gmap pretty.
From S2P Require Import Prelude JsValue Database.

(** ** What the rows of a result can do

    [updateFromData] is [None] when result rows are plain objects (the
    default of the PostgreSQL driver), and [Some f] when the client
    returns entities with that method; [f account data] is the state of
    [account] after the call. *)
Class RowEntity : Type := {
  updateFromData : option (obj → obj → obj);
}.

(** The contract of a partial update: a field present in the patch
    overwrites, a field absent from it keeps its value. *)
Class PatchLaws (E : RowEntity) : Prop := {
  patch_defined : is_Some (@updateFromData E);
  patch_present f o d k v :
    @updateFromData E = Some f → d !! k = Some v → f o d !! k = Some v;
  patch_absent f o d k :
    @updateFromData E = Some f → d !! k = None → f o d !! k = o !! k;
}.

(** Plain rows: no method. *)
Definition plain_rows : RowEntity := {| updateFromData := None |}.

(** Entities whose [updateFromData] copies the fields of the patch. *)
Definition merging_rows : RowEntity := {| updateFromData := Some (λ o d, d ∪ o) |}.

Module AccountDataMapper.

Definition tableName : string := "users".

Section methods.
Context {E : RowEntity}.

(** The text of line 17 for a class whose [tableName] is [tbl]. *)
Definition select_text (tbl : string) : string :=
  template [PStr "SELECT * FROM "; PStr tbl; PStr " WHERE user_id = $1"].

Definition findAccountQuery (userId : prim) : query :=
  {| text := select_text tableName; values := [userId] |}.

Definition findAccountByUserId (userId : prim) : exec database exn value :=
  result ← client_query (findAccountQuery userId);
  if bool_decide (length (rows result) = 0) then mret (VPrim PNull)
  else mret (array_get (rows result) 0).

(** [account.updateFromData(data)]: a [TypeError] when [account] has no
    such method. *)
Definition call_updateFromData (account : value) (data : obj) : exec database exn obj :=
  match account, updateFromData with
  | VObj o, Some f => mret (f o data)
  | _, _ => throw (TypeError "account.updateFromData is not a function")
  end.

(** The text of lines 36 to 40 for a class whose [tableName] is [tbl]. *)
Definition update_text (tbl : string) : string :=
  template [PStr "UPDATE "; PStr tbl; PStr " SET
              username = $1,
              email = $2,
              password = $3
             WHERE user_id = $4 RETURNING *"].

Definition updateAccountQuery (account : obj) : query :=
  {| text := update_text tableName;
     values := [get_prop account "username";
                get_prop account "email";
                get_prop account "password";
                get_prop account "userId"] |}.

Definition updateAccount (userId : prim) (updatedAccountData : obj) :
    exec database exn value :=
  account ← findAccountByUserId userId;
  if negb (value_truthy account) then
    throw (JsError (template [PStr "Account not found for user with id "; userId]))
  else
    account' ← call_updateFromData account updatedAccountData;
    result ← client_query (updateAccountQuery account');
    mret (array_get (rows result) 0).

(** The statements the two query texts denote. *)
Definition find_statement : statement := Select "users" "user_id" 1.

Definition update_statement : statement :=
  Update "users" [("username", 1); ("email", 2); ("password", 3)] "user_id" 4.

(** What [updateAccount] writes into a matching row. *)
Definition account_sets (account : obj) : list (string * prim) :=
  [("username", sql_value (get_prop account "username"));
   ("email", sql_value (get_prop account "email"));
   ("password", sql_value (get_prop account "password"))].

(** The first element of [rows], or [null] when there is none. *)
Definition first_or_null (rs : list obj) : value :=
  match rs with
  | [] => VPrim PNull
  | r :: _ => VObj r
  end.

(** ** The texts are read as intended *)

(** The tokens of the two texts, for any table name that is a word. *)
Lemma select_text_tokens tbl :
  sql_word tbl = true → tbl ≠ "" →
  sql_tokens (select_text tbl) = ["SELECT"; "*"; "FROM"; tbl; "WHERE"; "user_id"; "="; "$1"].
Proof.
  intros Hw Hne. unfold select_text. autorewrite with colis. cbn [to_string].
  etrans; [exact (sql_tokens_around "SELECT * FROM" tbl "WHERE user_id = $1" Hw Hne)|].
  by vm_compute.
Qed.

Lemma update_text_tokens tbl :
  sql_word tbl = true → tbl ≠ "" →
  sql_tokens (update_text tbl) =
    ["UPDATE"; tbl; "SET"; "username"; "="; "$1"; ","; "email"; "="; "$2"; ",";
     "password"; "="; "$3"; "WHERE"; "user_id"; "="; "$4"; "RETURNING"; "*"].
Proof.
  intros Hw Hne. unfold update_text. autorewrite with colis. cbn [to_string].
  etrans; [exact (sql_tokens_around "UPDATE" tbl _ Hw Hne)|]. by vm_compute.
Qed.

Lemma findAccountQuery_text userId :
  text (findAccountQuery userId) = "SELECT * FROM users WHERE user_id = $1".
Proof. reflexivity. Qed.

Lemma findAccountQuery_parse userId :
  parse_sql (text (findAccountQuery userId)) = Some find_statement.
Proof. by vm_compute. Qed.

Lemma updateAccountQuery_parse account :
  parse_sql (text (updateAccountQuery account)) = Some update_statement.
Proof. by vm_compute. Qed.

(** The texts the mapper builds are read by the database as the
    statements they are meant to be, for every table name a class may
    set: when [tableName] is a word (no white space, no comma), the text
    of line 17 is a [SELECT] and the text of lines 36 to 40 an [UPDATE]
    of [username], [email] and [password], both on that table, folded to
    lower case, and filtered on [user_id].  The values are bound, never
    spliced: no statement depends on [userId] or on the account, and
    each query binds as many values as its text has placeholders. *)
Theorem mapper_statements tbl userId account :
  sql_word tbl = true → tbl ≠ "" →
  parse_sql (select_text tbl) = Some (Select (lower tbl) "user_id" 1) ∧
  parse_sql (update_text tbl) =
    Some (Update (lower tbl) [("username", 1); ("email", 2); ("password", 3)] "user_id" 4) ∧
  text (findAccountQuery userId) = select_text tableName ∧
  text (updateAccountQuery account) = update_text tableName ∧
  length (values (findAccountQuery userId)) = 1 ∧
  length (values (updateAccountQuery account)) = 4.
Proof.
  intros Hw Hne. unfold parse_sql.
  rewrite (select_text_tokens _ Hw Hne), (update_text_tokens _ Hw Hne).
  by split_and!.
Qed.

(** ** [findAccountByUserId] *)

Lemma findAccountByUserId_run userId db :
  findAccountByUserId userId db =
    match run_select "users" "user_id" 1 [userId] db with
    | Returned rs => (db, Returned (first_or_null rs))
    | Thrown e => (db, Thrown (DatabaseError e))
    end.
Proof.
  unfold findAccountByUserId. exec_unfold.
  rewrite (client_query_parsed _ _ _ (findAccountQuery_parse userId)). simpl.
  destruct (run_select _ _ _ _ _) as [[|r rs]|e]; done.
Qed.

End methods.

(** ** A small store for the examples *)

Definition alice : obj :=
  {[ "user_id" := PNum 1; "username" := PStr "a";
     "email" := PStr "a@x.com"; "password" := PStr "h1" ]}.

Definition carl : obj :=
  {[ "user_id" := PNum 2; "username" := PStr "c";
     "email" := PStr "c@x.com"; "password" := PStr "h2" ]}.

Definition users0 : table :=
  Table ["user_id"; "username"; "email"; "password"] [alice; carl].

Definition db0 : database := {[ "users" := users0 ]}.

Lemma db0_users : db0 !! tableName = Some users0.
Proof. apply lookup_singleton_eq. Qed.

Lemma users0_user_id : "user_id" ∈ columns users0.
Proof. set_solver. Qed.

Lemma db0_wf : db_wf db0.
Proof. apply (bool_decide_unpack _). by vm_compute. Qed.

Lemma users0_alice :
  filter (matches "user_id" (sql_value (PStr "1"))) (table_rows users0) = [alice].
Proof.
  simpl table_rows. rewrite filter_cons_True by by vm_compute.
  by rewrite filter_cons_False by by vm_compute.
Qed.

(** ** [findAccountByUserId]: behaviour on every branch *)

Section find_theorems.
Implicit Types db : database.
Implicit Types userId : prim.

Lemma findAccountByUserId_select userId db t :
  db !! tableName = Some t → "user_id" ∈ columns t →
  findAccountByUserId userId db =
    (db, Returned (first_or_null
                     (filter (matches "user_id" (sql_value userId)) (table_rows t)))).
Proof.
  intros Ht Hc. rewrite findAccountByUserId_run. unfold run_select, tableName in *.
  by rewrite Ht, bool_decide_eq_true_2.
Qed.

(** C4. [findAccountByUserId] on every store: without a table [users]
    or without its column [user_id] the promise is rejected with the
    error of the database; otherwise it resolves with the first row
    whose [user_id] equals the argument (compared as the server
    compares a parameter), or with [null] when there is none.  The
    store is never changed. *)
Theorem findAccountByUserId_spec userId db :
  findAccountByUserId userId db =
    (db,
     match db !! tableName with
     | None => Thrown (DatabaseError (UndefinedTable "users"))
     | Some t =>
         if bool_decide ("user_id" ∈ columns t) then
           Returned (from_option VObj (VPrim PNull)
                       (head (filter (matches "user_id" (sql_value userId)) (table_rows t))))
         else Thrown (DatabaseError (UndefinedColumn "user_id"))
     end).
Proof.
  rewrite findAccountByUserId_run. unfold run_select, tableName.
  destruct (db !! "users") as [t|]; [|done]. case_bool_decide; [|done].
  cbn [param_get lookup list_lookup fmap option_fmap option_map].
  by destruct (filter _ _).
Qed.

(** Absence is a result, not an error: when no row of [users]
    belongs to the user, [findAccountByUserId] returns [null]. *)
Theorem findAccountByUserId_absent userId db t :
  db !! tableName = Some t → "user_id" ∈ columns t →
  Forall (λ r, ¬ matches "user_id" (sql_value userId) r) (table_rows t) →
  findAccountByUserId userId db = (db, Returned (VPrim PNull)).
Proof.
  intros Ht Hc Hall. rewrite (findAccountByUserId_select _ _ _ Ht Hc).
  by rewrite (proj2 (filter_nil_iff _ _) Hall).
Qed.

Lemma findAccountByUserId_absent_witness :
  findAccountByUserId (PStr "7") db0 = (db0, Returned (VPrim PNull)).
Proof.
  apply (findAccountByUserId_absent (PStr "7") db0 users0).
  - apply db0_users.
  - apply users0_user_id.
  - repeat constructor; by vm_compute.
Defined.

(** [findAccountByUserId] never writes: whether it returns or throws,
    the store is unchanged. *)
Lemma findAccountByUserId_store userId db :
  (findAccountByUserId userId db).1 = db.
Proof.
  rewrite findAccountByUserId_run. by destruct (run_select _ _ _ _ _).
Qed.

(** An object returned by [findAccountByUserId] is a row of [users]
    owned by the user. *)
Lemma findAccountByUserId_row userId db db' r :
  findAccountByUserId userId db = (db', Returned (VObj r)) →
  ∃ t, db !! tableName = Some t ∧ r ∈ table_rows t ∧
       matches "user_id" (sql_value userId) r.
Proof.
  rewrite findAccountByUserId_run.
  destruct (run_select _ _ _ _ _) as [rs|e] eqn:Hrun; [|done].
  apply run_select_Returned in Hrun as (t & p & Ht & _ & [= <-] & ->).
  intros [= _ Hr]. exists t. split; [done|].
  destruct (filter _ _) as [|r' rs] eqn:Hf; simplify_eq/=.
  assert (r ∈ filter (matches "user_id" (sql_value userId)) (table_rows t)) as Hin
    by (rewrite Hf; left).
  apply list_elem_of_filter in Hin. tauto.
Qed.

(** [findAccountByUserId] returns [null] or an object, nothing else. *)
Lemma findAccountByUserId_value userId db db' v :
  findAccountByUserId userId db = (db', Returned v) →
  v = VPrim PNull ∨ ∃ r, v = VObj r.
Proof.
  rewrite findAccountByUserId_run.
  destruct (run_select _ _ _ _ _) as [[|r rs]|e]; intros [= <- <-]; eauto.
Qed.

(** Without a table [users] the promise is rejected with the
    database error, and the store is unchanged. *)
Theorem findAccountByUserId_no_table userId db :
  db !! tableName = None →
  findAccountByUserId userId db = (db, Thrown (DatabaseError (UndefinedTable "users"))).
Proof.
  intros Ht. rewrite findAccountByUserId_run. unfold run_select, tableName in *.
  by rewrite Ht.
Qed.

Lemma findAccountByUserId_no_table_witness :
  findAccountByUserId (PNum 1) ∅ = (∅, Thrown (DatabaseError (UndefinedTable "users"))).
Proof. apply findAccountByUserId_no_table. apply lookup_empty. Defined.

(** On a table [users] without a column [user_id] the promise is
    rejected: the column does not exist. *)
Lemma findAccountByUserId_undefined_column userId db t :
  db !! tableName = Some t → "user_id" ∉ columns t →
  findAccountByUserId userId db = (db, Thrown (DatabaseError (UndefinedColumn "user_id"))).
Proof.
  intros Ht Hc. rewrite findAccountByUserId_run. unfold run_select, tableName in *.
  by rewrite Ht, bool_decide_eq_false_2.
Qed.

End find_theorems.

(** ** [updateAccount]: the run equations *)

(** The columns the two statements name. *)
Definition has_account_columns (t : table) : Prop :=
  Forall (λ c, c ∈ columns t) ["username"; "email"; "password"; "user_id"].

(** The row owner the [UPDATE] filters on: [account.userId] as sent. *)
Definition owner_param (account : obj) : prim := sql_value (get_prop account "userId").

(** The table [users] after the [UPDATE] sent for [account]. *)
Definition updated_users (t : table) (account : obj) : table :=
  Table (columns t)
        (update_row "user_id" (owner_param account) (account_sets account) <$> table_rows t).

Section update_run.
Context {E : RowEntity}.
Implicit Types db : database.
Implicit Types userId : prim.
Implicit Types account r d : obj.

Lemma table_eta (t : table) : Table (columns t) (table_rows t) = t.
Proof. by destruct t. Qed.

Lemma has_account_columns_owner t : has_account_columns t → "user_id" ∈ columns t.
Proof. unfold has_account_columns. rewrite !Forall_cons. tauto. Qed.

Lemma run_update_account account db t :
  db !! tableName = Some t → has_account_columns t →
  run_statement update_statement (values (updateAccountQuery account)) db =
    (<[tableName := updated_users t account]> db,
     Returned (assign (account_sets account)
                 <$> filter (matches "user_id" (owner_param account)) (table_rows t))).
Proof.
  intros Ht Hcols. unfold update_statement, run_statement, run_update, tableName in *.
  rewrite Ht. cbn [fmap list_fmap app fst].
  by rewrite (proj2 (first_missing_None _ _) Hcols).
Qed.

Lemma updateAccountQuery_run account db t :
  db !! tableName = Some t → has_account_columns t →
  client_query (updateAccountQuery account) db =
    (<[tableName := updated_users t account]> db,
     Returned (QueryResult
       (assign (account_sets account)
          <$> filter (matches "user_id" (owner_param account)) (table_rows t)))).
Proof.
  intros Ht Hcols.
  rewrite (client_query_parsed _ _ _ (updateAccountQuery_parse account)).
  by rewrite (run_update_account _ _ _ Ht Hcols).
Qed.

(** The store stays well formed under the [UPDATE]. *)
Lemma updated_users_wf db t account :
  db_wf db → db !! tableName = Some t → has_account_columns t →
  db_wf (<[tableName := updated_users t account]> db).
Proof.
  intros Hwf Ht Hcols.
  pose proof (run_statement_wf update_statement (values (updateAccountQuery account)) db Hwf)
    as Hwf'.
  by rewrite (run_update_account account db t Ht Hcols) in Hwf'.
Qed.

(** [updateAccount] after its first [await]. *)
Lemma updateAccount_bind userId d db :
  updateAccount userId d db =
    match findAccountByUserId userId db with
    | (db1, Thrown e) => (db1, Thrown e)
    | (db1, Returned (VPrim p)) =>
        if truthy p then (db1, Thrown (TypeError "account.updateFromData is not a function"))
        else (db1, Thrown (JsError ("Account not found for user with id " +:+ to_string userId)))
    | (db1, Returned (VObj r)) =>
        match updateFromData with
        | None => (db1, Thrown (TypeError "account.updateFromData is not a function"))
        | Some f =>
            match client_query (updateAccountQuery (f r d)) db1 with
            | (db2, Returned result) => (db2, Returned (array_get (rows result) 0))
            | (db2, Thrown e) => (db2, Thrown e)
            end
        end
    end.
Proof.
  unfold updateAccount, call_updateFromData. exec_unfold.
  destruct (findAccountByUserId userId db) as [db1 [[p|r]|e]]; [| |done].
  - cbn [value_truthy]. destruct (truthy p); cbn [negb].
    + by destruct updateFromData.
    + by autorewrite with colis.
  - cbn [value_truthy negb]. by destruct updateFromData.
Qed.

(** When the account exists and rows have the method, [updateAccount]
    sends one [UPDATE] built from the patched account and returns the
    first row it reports. *)
Lemma updateAccount_found f userId d db t r rs :
  updateFromData = Some f →
  db !! tableName = Some t → has_account_columns t →
  filter (matches "user_id" (sql_value userId)) (table_rows t) = r :: rs →
  updateAccount userId d db =
    (<[tableName := updated_users t (f r d)]> db,
     Returned (array_get
       (assign (account_sets (f r d))
          <$> filter (matches "user_id" (owner_param (f r d))) (table_rows t)) 0)).
Proof.
  intros Hf Ht Hcols Hr. rewrite updateAccount_bind.
  rewrite (findAccountByUserId_select _ _ _ Ht (has_account_columns_owner _ Hcols)), Hr, Hf.
  cbn [first_or_null].
  by rewrite (updateAccountQuery_run _ _ _ Ht Hcols).
Qed.

(** On a table that lacks one of the columns the [UPDATE] names, the
    database rejects it with the first of them it misses. *)
Lemma updateAccountQuery_missing account db t c :
  db !! tableName = Some t →
  first_missing (columns t) ["username"; "email"; "password"; "user_id"] = Some c →
  client_query (updateAccountQuery account) db = (db, Thrown (DatabaseError (UndefinedColumn c))).
Proof.
  intros Ht Hc. rewrite (client_query_parsed _ _ _ (updateAccountQuery_parse account)).
  unfold update_statement, run_statement, run_update, tableName in *.
  rewrite Ht. cbn [fmap list_fmap app fst]. by rewrite Hc.
Qed.

(** Every run of the [UPDATE] either fails without writing or writes
    [updated_users]. *)
Lemma updateAccountQuery_cases account db :
  (∃ e, client_query (updateAccountQuery account) db = (db, Thrown e)) ∨
  (∃ t, db !! tableName = Some t ∧ has_account_columns t).
Proof.
  destruct (client_query (updateAccountQuery account) db) as [db' [res|e]] eqn:Hq.
  - right. rewrite (client_query_parsed _ _ _ (updateAccountQuery_parse account)) in Hq.
    destruct (run_statement _ _ _) as [db2 [rs|e]] eqn:Hrun; [|done].
    apply run_update_Returned in Hrun as (t & _ & _ & Ht & Hcols & _). by exists t.
  - left. exists e. by rewrite (client_query_Thrown _ _ _ _ Hq).
Qed.

(** The store after [updateAccount]: untouched, or [users] rewritten by
    the one [UPDATE]. *)
Lemma updateAccount_store_cases userId d db :
  (updateAccount userId d db).1 = db ∨
  ∃ t account, db !! tableName = Some t ∧ has_account_columns t ∧
    (updateAccount userId d db).1 = <[tableName := updated_users t account]> db.
Proof.
  rewrite updateAccount_bind.
  pose proof (findAccountByUserId_store userId db) as Hro.
  destruct (findAccountByUserId userId db) as [db1 [[p|r]|e]]; simpl in Hro; subst db1.
  - left. by destruct (truthy p).
  - destruct updateFromData as [f|]; [|by left].
    destruct (updateAccountQuery_cases (f r d) db) as [[e He] | (t & Ht & Hcols)].
    + left. by rewrite He.
    + right. exists t, (f r d). by rewrite (updateAccountQuery_run _ _ _ Ht Hcols).
  - by left.
Qed.

(** C1. [updateAccount] on every store and for every argument.  The
    promise is rejected with the error of the database when the table
    [users] or its column [user_id] is missing; with the not-found
    [Error] of line 31 when no row belongs to the user; with a
    [TypeError] when the row has no method [updateFromData]; with the
    error of the database when the table lacks a column the [UPDATE]
    names.  In each of these cases the store is unchanged.  Otherwise
    the table is rewritten by the one [UPDATE], filtered on
    [account.userId] of the patched row, and the promise is resolved
    with the first row the [UPDATE] reports, [undefined] when it
    reports none. *)
Theorem updateAccount_spec userId d db :
  updateAccount userId d db =
    match db !! tableName with
    | None => (db, Thrown (DatabaseError (UndefinedTable "users")))
    | Some t =>
        if bool_decide ("user_id" ∈ columns t) then
          match filter (matches "user_id" (sql_value userId)) (table_rows t), updateFromData with
          | [], _ =>
              (db, Thrown (JsError ("Account not found for user with id " +:+ to_string userId)))
          | _ :: _, None =>
              (db, Thrown (TypeError "account.updateFromData is not a function"))
          | r :: _, Some f =>
              match first_missing (columns t) ["username"; "email"; "password"; "user_id"] with
              | Some c => (db, Thrown (DatabaseError (UndefinedColumn c)))
              | None =>
                  (<[tableName := updated_users t (f r d)]> db,
                   Returned (array_get
                     (assign (account_sets (f r d))
                        <$> filter (matches "user_id" (owner_param (f r d))) (table_rows t)) 0))
              end
          end
        else (db, Thrown (DatabaseError (UndefinedColumn "user_id")))
    end.
Proof.
  rewrite updateAccount_bind.
  destruct (db !! tableName) as [t|] eqn:Ht;
    [|by rewrite (findAccountByUserId_no_table _ _ Ht)].
  case_bool_decide as Hc; [|by rewrite (findAccountByUserId_undefined_column _ _ _ Ht Hc)].
  rewrite (findAccountByUserId_select _ _ _ Ht Hc).
  destruct (filter _ (table_rows t)) as [|r rs]; [done|]. cbn [first_or_null].
  destruct updateFromData as [f|]; [|done].
  destruct (first_missing _ _) as [c|] eqn:Hm.
  - by rewrite (updateAccountQuery_missing _ _ _ _ Ht Hm).
  - by rewrite (updateAccountQuery_run _ _ _ Ht (proj1 (first_missing_None _ _) Hm)).
Qed.

End update_run.

(** ** [updateAccount]: behaviour on every branch *)

Definition account_fields : list string := ["username"; "email"; "password"].

(** The owner key of an account, [account.userId], designates the user. *)
Definition owns (userId : prim) (account : obj) : Prop :=
  ∃ o, account !! "userId" = Some o ∧ sql_eq o userId = true.

#[export] Instance merging_rows_laws : PatchLaws merging_rows.
Proof.
  split.
  - by eexists.
  - intros f o d k v [= <-] Hk. by apply lookup_union_Some_l.
  - intros f o d k [= <-] Hk. by rewrite lookup_union_r.
Qed.

Section update_theorems.
Context {E : RowEntity}.
Implicit Types db : database.
Implicit Types userId : prim.
Implicit Types account r d : obj.

(** A lawful [updateFromData] is the union of the patch and the row. *)
Lemma patch_laws_union `{!PatchLaws E} f r d : updateFromData = Some f → f r d = d ∪ r.
Proof.
  intros Hf. apply map_eq. intros k. destruct (d !! k) as [v|] eqn:Hk.
  - rewrite (patch_present _ _ _ _ _ Hf Hk). symmetry. by apply lookup_union_Some_l.
  - rewrite (patch_absent _ _ _ _ Hf Hk). symmetry. by rewrite lookup_union_r.
Qed.

Lemma account_sets_fst account : (account_sets account).*1 = account_fields.
Proof. done. Qed.

Lemma account_sets_elem account k :
  k ∈ account_fields → (k, sql_value (get_prop account k)) ∈ account_sets account.
Proof. unfold account_fields, account_sets. set_solver. Qed.

Lemma account_fields_not_owner : "user_id" ∉ account_fields.
Proof. unfold account_fields. set_solver. Qed.

(** The [UPDATE] assigns no column outside the account fields: not
    [user_id], not [userId]. *)
Lemma account_sets_other account k : k ∉ account_fields → k ∉ (account_sets account).*1.
Proof. by rewrite account_sets_fst. Qed.

Lemma account_sets_owner account : "user_id" ∉ (account_sets account).*1.
Proof. apply account_sets_other, account_fields_not_owner. Qed.

Lemma account_sets_userId account : "userId" ∉ (account_sets account).*1.
Proof. apply account_sets_other. unfold account_fields. set_solver. Qed.

Lemma account_fields_columns t k :
  has_account_columns t → k ∈ account_fields → k ∈ columns t.
Proof.
  unfold has_account_columns, account_fields. rewrite !Forall_cons. set_solver.
Qed.

(** The fields of a well-formed row after the assignment. *)
Lemma assign_account_field account r k :
  k ∈ account_fields →
  assign (account_sets account) r !! k = Some (sql_value (get_prop account k)).
Proof.
  intros Hk. apply assign_lookup_eq; [|by apply account_sets_elem].
  rewrite account_sets_fst. unfold account_fields. by repeat constructor; set_solver.
Qed.

Lemma row_wf_field (cols : list string) r k :
  row_wf cols r → k ∈ cols → ∃ v, r !! k = Some v ∧ sql_value v = v.
Proof.
  intros [Hdom Hdef] Hk.
  assert (k ∈ dom r) as [v Hv]%elem_of_dom by (rewrite Hdom; set_solver).
  exists v. split; [done|]. specialize (Hdef k v Hv). by destruct v.
Qed.

(** Writing back its own fields leaves a well-formed row unchanged. *)
Lemma assign_account_same t r :
  row_wf (columns t) r → has_account_columns t → assign (account_sets r) r = r.
Proof.
  intros Hrow Hcols. apply map_eq. intros k.
  destruct (decide (k ∈ account_fields)) as [Hk|Hk].
  - rewrite assign_account_field by done.
    destruct (row_wf_field _ _ k Hrow) as (v & Hv & Hsv);
      [by eapply account_fields_columns|].
    unfold get_prop. rewrite Hv. cbn. by rewrite Hsv.
  - by apply assign_lookup_ne, account_sets_other.
Qed.

(** The owner key of an account selects the rows of the user it
    designates. *)
Lemma owner_param_filter account o userId (rs : list obj) :
  account !! "userId" = Some o → sql_eq o userId = true →
  filter (matches "user_id" (owner_param account)) rs =
    filter (matches "user_id" (sql_value userId)) rs.
Proof.
  intros Ho Hkey. unfold owner_param, get_prop. rewrite Ho. simpl default.
  by apply filter_matches_same_key.
Qed.

Lemma owns_matches userId account x :
  owns userId account →
  matches "user_id" (owner_param account) x ↔ matches "user_id" (sql_value userId) x.
Proof.
  intros (o & Ho & Hkey). unfold owner_param, get_prop. rewrite Ho. simpl default.
  by apply matches_same_key.
Qed.

(** The row that is written back: the fields of the patch are
    overwritten, the others are those of the row. *)
Lemma patched_row_fields d r t :
  row_wf (columns t) r → has_account_columns t →
  (∀ k v, k ∈ account_fields → d !! k = Some v →
     assign (account_sets (d ∪ r)) r !! k = Some (sql_value v)) ∧
  (∀ k, d !! k = None → assign (account_sets (d ∪ r)) r !! k = r !! k) ∧
  (∀ k, k ∉ account_fields → assign (account_sets (d ∪ r)) r !! k = r !! k).
Proof.
  intros Hrow Hcols. split; [|split].
  - intros k v Hk Hd. rewrite assign_account_field by done.
    unfold get_prop. by rewrite (lookup_union_Some_l _ _ _ _ Hd).
  - intros k Hd. destruct (decide (k ∈ account_fields)) as [Hk|Hk].
    + rewrite assign_account_field by done.
      unfold get_prop. rewrite lookup_union_r by done.
      destruct (row_wf_field _ _ k Hrow) as (v & -> & Hv);
        [by eapply account_fields_columns | cbn; by rewrite Hv].
    + by apply assign_lookup_ne, account_sets_other.
  - intros k Hk. by apply assign_lookup_ne, account_sets_other.
Qed.

(** The update of the one row of a user whose patched account
    designates that user. *)
Lemma updateAccount_merged `{!PatchLaws E} userId d db t r o :
  db !! tableName = Some t → has_account_columns t →
  filter (matches "user_id" (sql_value userId)) (table_rows t) = [r] →
  (d ∪ r) !! "userId" = Some o → sql_eq o userId = true →
  updateAccount userId d db =
    (<[tableName := updated_users t (d ∪ r)]> db,
     Returned (VObj (assign (account_sets (d ∪ r)) r))).
Proof.
  intros Ht Hcols Hr Ho Hkey. destruct patch_defined as [f Hf].
  rewrite (updateAccount_found f _ _ _ _ _ _ Hf Ht Hcols Hr), (patch_laws_union _ _ _ Hf).
  by rewrite (owner_param_filter _ _ _ _ Ho Hkey), Hr.
Qed.

(** C2. Partial update.  With rows whose [updateFromData] honours the
    patch contract, one account row [r] for the user, and an owner key
    [userId] on the patched account that designates the same user,
    [updateAccount] returns the row as rewritten by its [UPDATE]: a
    field of the patch among [username], [email], [password] is
    overwritten, a field absent from the patch keeps its value, and no
    other column changes. *)
Theorem updateAccount_partial_update `{!PatchLaws E} userId d db t r o :
  db_wf db → db !! tableName = Some t → has_account_columns t →
  filter (matches "user_id" (sql_value userId)) (table_rows t) = [r] →
  (d ∪ r) !! "userId" = Some o → sql_eq o userId = true →
  ∃ r',
    updateAccount userId d db =
      (<[tableName := updated_users t (d ∪ r)]> db, Returned (VObj r')) ∧
    (∀ k v, k ∈ account_fields → d !! k = Some v → r' !! k = Some (sql_value v)) ∧
    (∀ k, d !! k = None → r' !! k = r !! k) ∧
    (∀ k, k ∉ account_fields → r' !! k = r !! k).
Proof.
  intros Hwf Ht Hcols Hr Ho Hkey.
  exists (assign (account_sets (d ∪ r)) r). split; [by eapply updateAccount_merged|].
  eapply patched_row_fields; [|done]. by eapply filtered_row_wf.
Qed.

End update_theorems.

Lemma updateAccount_partial_update_witness :
  ∃ r',
    updateAccount (E:=merging_rows) (PStr "1")
        {[ "userId" := PNum 1; "username" := PStr "b" ]} db0 =
      (<[tableName := updated_users users0
           ({[ "userId" := PNum 1; "username" := PStr "b" ]} ∪ alice)]> db0,
       Returned (VObj r')) ∧
    (∀ k v, k ∈ account_fields →
       ({[ "userId" := PNum 1; "username" := PStr "b" ]} : obj) !! k = Some v →
       r' !! k = Some (sql_value v)) ∧
    (∀ k, ({[ "userId" := PNum 1; "username" := PStr "b" ]} : obj) !! k = None →
       r' !! k = alice !! k) ∧
    (∀ k, k ∉ account_fields → r' !! k = alice !! k).
Proof.
  apply (updateAccount_partial_update (E:=merging_rows) (PStr "1") _ db0 users0 alice (PNum 1)).
  - apply db0_wf.
  - apply db0_users.
  - unfold has_account_columns. simpl. repeat constructor; set_solver.
  - apply users0_alice.
  - by vm_compute.
  - reflexivity.
Defined.

Section update_branches.
Context {E : RowEntity}.
Implicit Types db : database.
Implicit Types userId : prim.
Implicit Types account r d : obj.

Lemma updateAccount_missing_account userId d db t :
  db !! tableName = Some t → "user_id" ∈ columns t →
  filter (matches "user_id" (sql_value userId)) (table_rows t) = [] →
  updateAccount userId d db =
    (db, Thrown (JsError ("Account not found for user with id " +:+ to_string userId))).
Proof.
  intros Ht Hc Hr. rewrite updateAccount_bind.
  by rewrite (findAccountByUserId_select _ _ _ Ht Hc), Hr.
Qed.

(** C5. An account that does not exist cannot be updated: on a table
    [users] with its column [user_id], [updateAccount] throws the error
    [Account not found for user with id <userId>], and writes nothing,
    exactly when no row belongs to the user. *)
Theorem updateAccount_not_found userId d db t :
  db !! tableName = Some t → "user_id" ∈ columns t →
  filter (matches "user_id" (sql_value userId)) (table_rows t) = [] ↔
  updateAccount userId d db =
    (db, Thrown (JsError ("Account not found for user with id " +:+ to_string userId))).
Proof.
  intros Ht Hc. split; [by apply updateAccount_missing_account|].
  rewrite updateAccount_bind, (findAccountByUserId_select _ _ _ Ht Hc).
  destruct (filter _ _) as [|r rs]; [done|]. cbn [first_or_null].
  destruct updateFromData as [f|]; [|done].
  destruct (client_query _ db) as [db2 [res|e]] eqn:Hq; [done|].
  by destruct (client_query_error _ _ _ _ Hq) as [de ->].
Qed.

Lemma updateAccount_null_owner f userId d db t r rs :
  updateFromData = Some f →
  db !! tableName = Some t → has_account_columns t →
  filter (matches "user_id" (sql_value userId)) (table_rows t) = r :: rs →
  nullish (get_prop (f r d) "userId") = true →
  updateAccount userId d db = (db, Returned (VPrim PUndefined)).
Proof.
  intros Hf Ht Hcols Hr Hnull.
  rewrite (updateAccount_found f _ _ _ _ _ _ Hf Ht Hcols Hr).
  assert (owner_param (f r d) = PNull) as Hown.
  { unfold owner_param. by destruct (get_prop (f r d) "userId"). }
  unfold updated_users. rewrite Hown, filter_matches_null.
  rewrite update_rows_no_match by apply filter_matches_null.
  by rewrite table_eta, insert_id.
Qed.

(** C9. The owner key.  The [UPDATE] filters on [account.userId], read
    from the patched row, and not on the [userId] argument.  When that
    property is [undefined] or [null] it is sent as [NULL], no row is
    selected: [updateAccount] returns [undefined] and the store is
    unchanged, although the account exists and [findAccountByUserId]
    still returns it. *)
Theorem updateAccount_owner_missing f userId d db t r rs :
  updateFromData = Some f →
  db !! tableName = Some t → has_account_columns t →
  filter (matches "user_id" (sql_value userId)) (table_rows t) = r :: rs →
  nullish (get_prop (f r d) "userId") = true →
  updateAccount userId d db = (db, Returned (VPrim PUndefined)) ∧
  findAccountByUserId userId db = (db, Returned (VObj r)).
Proof.
  intros Hf Ht Hcols Hr Hnull. split; [by eapply updateAccount_null_owner|].
  by rewrite (findAccountByUserId_select _ _ _ Ht (has_account_columns_owner _ Hcols)), Hr.
Qed.

(** [updateAccount] preserves the store invariant: every row keeps
    exactly the columns of its table and never holds [undefined]. *)
Theorem updateAccount_wf userId d db : db_wf db → db_wf (updateAccount userId d db).1.
Proof.
  intros Hwf.
  destruct (updateAccount_store_cases userId d db) as [-> | (t & a & Ht & Hcols & ->)];
    [done | by apply updated_users_wf].
Qed.

(** A failed [updateAccount] has written nothing: whenever it
    throws, the store is the one it started from. *)
Theorem updateAccount_failure_atomic userId d db e :
  (updateAccount userId d db).2 = Thrown e → (updateAccount userId d db).1 = db.
Proof.
  rewrite updateAccount_bind.
  pose proof (findAccountByUserId_store userId db) as Hro.
  destruct (findAccountByUserId userId db) as [db1 [[p|r]|e1]]; simpl in Hro; subst db1.
  - by destruct (truthy p).
  - destruct updateFromData as [f|]; [|done].
    destruct (client_query _ db) as [db2 [res|e2]] eqn:Hq; [done|].
    intros _. by eapply client_query_Thrown.
  - done.
Qed.

(** Ownership is never rewritten: whatever the arguments,
    [updateAccount] leaves every other table alone, keeps the columns
    and the number of rows of [users], and keeps the [user_id] of every
    row. *)
Theorem updateAccount_keeps_owners userId d db t :
  db !! tableName = Some t →
  (∀ tbl, tbl ≠ tableName → (updateAccount userId d db).1 !! tbl = db !! tbl) ∧
  ∃ t', (updateAccount userId d db).1 !! tableName = Some t' ∧
        columns t' = columns t ∧
        (λ r : obj, r !! "user_id") <$> table_rows t' =
          (λ r : obj, r !! "user_id") <$> table_rows t.
Proof.
  intros Ht.
  destruct (updateAccount_store_cases userId d db) as [-> | (t1 & a & Ht1 & _ & ->)].
  { split; [done|]. by exists t. }
  simplify_eq. split.
  - intros tbl Hne. by rewrite lookup_insert_ne.
  - eexists. rewrite lookup_insert_eq. split; [done|]. split; [done|].
    apply update_rows_column, account_sets_owner.
Qed.

(** The rows written are those selected by the owner key of the
    patched account: every row whose [user_id] differs from it is left
    as it was, whoever [userId] designates. *)
Theorem updateAccount_isolation f userId d db t r rs i x :
  updateFromData = Some f →
  db !! tableName = Some t → has_account_columns t →
  filter (matches "user_id" (sql_value userId)) (table_rows t) = r :: rs →
  table_rows t !! i = Some x → ¬ matches "user_id" (owner_param (f r d)) x →
  ∃ t', (updateAccount userId d db).1 !! tableName = Some t' ∧ table_rows t' !! i = Some x.
Proof.
  intros Hf Ht Hcols Hr Hi Hx.
  rewrite (updateAccount_found f _ _ _ _ _ _ Hf Ht Hcols Hr). cbn [fst].
  eexists. rewrite lookup_insert_eq. split; [done|].
  unfold updated_users. cbn [table_rows]. rewrite list_lookup_fmap, Hi.
  cbn [fmap option_fmap option_map]. by rewrite (update_row_no_match _ _ _ _ Hx).
Qed.

(** C38. A patch can redirect the write.  When the patch itself has a
    [userId], the [UPDATE] selects the rows of that user: such a row
    [x] receives the [username], [email] and [password] of the patched
    account of the user named by the argument. *)
Theorem updateAccount_patch_owner `{!PatchLaws E} userId d db t r rs o i x :
  db !! tableName = Some t → has_account_columns t →
  filter (matches "user_id" (sql_value userId)) (table_rows t) = r :: rs →
  d !! "userId" = Some o →
  table_rows t !! i = Some x → matches "user_id" (sql_value o) x →
  ∃ t', (updateAccount userId d db).1 !! tableName = Some t' ∧
        table_rows t' !! i = Some (assign (account_sets (d ∪ r)) x).
Proof.
  intros Ht Hcols Hr Ho Hi Hx. destruct patch_defined as [f Hf].
  rewrite (updateAccount_found f _ _ _ _ _ _ Hf Ht Hcols Hr), (patch_laws_union _ _ _ Hf).
  cbn [fst]. eexists. rewrite lookup_insert_eq. split; [done|].
  unfold updated_users. cbn [table_rows]. rewrite list_lookup_fmap, Hi.
  cbn [fmap option_fmap option_map]. f_equal. apply update_row_matches.
  unfold owner_param, get_prop. by rewrite (lookup_union_Some_l _ _ _ _ Ho).
Qed.

(** With rows that have no [userId] property and a patch that has
    none either, the update of an existing account is dropped:
    [updateAccount] returns [undefined] and the store is unchanged. *)
Theorem updateAccount_snake_case_dropped `{!PatchLaws E} userId d db t r rs :
  db_wf db → db !! tableName = Some t → has_account_columns t →
  "userId" ∉ columns t → d !! "userId" = None →
  filter (matches "user_id" (sql_value userId)) (table_rows t) = r :: rs →
  updateAccount userId d db = (db, Returned (VPrim PUndefined)).
Proof.
  intros Hwf Ht Hcols Hno Hd Hr. destruct patch_defined as [f Hf].
  apply (updateAccount_null_owner f _ _ _ t r rs); try done.
  rewrite (patch_laws_union _ _ _ Hf). unfold get_prop.
  rewrite lookup_union_r by done.
  destruct (filtered_row_wf _ _ _ _ _ _ Hwf Ht Hr) as [Hdom _].
  assert (r !! "userId" = None) as ->; [|done].
  apply not_elem_of_dom. rewrite Hdom. by rewrite elem_of_list_to_set.
Qed.

(** C40. The empty patch.  On rows that carry their owner under
    [userId], updating with an empty patch returns the account as it
    is and changes nothing, and so does every further such update,
    however many follow. *)
Theorem updateAccount_empty_patch `{!PatchLaws E} userId db t r o n :
  db_wf db → db !! tableName = Some t → has_account_columns t →
  filter (matches "user_id" (sql_value userId)) (table_rows t) = [r] →
  r !! "userId" = Some o → sql_eq o userId = true →
  updateAccount userId ∅ db = (db, Returned (VObj r)) ∧
  Nat.iter n (λ rest, updateAccount userId ∅ ≫= λ _, rest) (updateAccount userId ∅) db =
    (db, Returned (VObj r)).
Proof.
  intros Hwf Ht Hcols Hr Ho Hkey.
  pose proof (filtered_row_wf _ _ _ _ _ _ Hwf Ht Hr) as Hrow.
  pose proof (assign_account_same t r Hrow Hcols) as Hsame.
  assert (updateAccount userId ∅ db = (db, Returned (VObj r))) as Hrun.
  { destruct patch_defined as [f Hf].
    rewrite (updateAccount_found f _ _ _ _ _ _ Hf Ht Hcols Hr), (patch_laws_union _ _ _ Hf).
    rewrite (left_id_L ∅ (∪) r). unfold updated_users, owner_param, get_prop.
    rewrite Ho. cbn [default from_option id].
    rewrite (filter_matches_same_key _ _ _ _ Hkey), Hr.
    rewrite (update_rows_unique_same _ _ _ _ r);
      [| by rewrite (filter_matches_same_key _ _ _ _ Hkey) | done].
    rewrite (insert_table_id _ _ _ Ht).
    change (assign (account_sets r) <$> [r]) with [assign (account_sets r) r].
    by rewrite Hsame. }
  split; [done|]. induction n as [|n IH]; [done|].
  by rewrite Nat.iter_succ, (exec_bind_returned _ _ _ _ _ Hrun).
Qed.

End update_branches.

(** *** The branches at concrete stores *)

Lemma users0_account_columns : has_account_columns users0.
Proof. unfold has_account_columns. simpl. repeat constructor; set_solver. Qed.

Lemma users0_nobody :
  filter (matches "user_id" (sql_value (PStr "7"))) (table_rows users0) = [].
Proof. simpl table_rows. by rewrite !filter_cons_False by by vm_compute. Qed.

(** A table whose rows also carry the owner under [userId]. *)
Definition dave : obj :=
  {[ "user_id" := PNum 4; "userId" := PNum 4; "username" := PStr "d";
     "email" := PStr "d@x.com"; "password" := PStr "h4" ]}.

Definition users1 : table :=
  Table ["user_id"; "userId"; "username"; "email"; "password"] [dave].

Definition db1 : database := {[ "users" := users1 ]}.

Lemma db1_wf : db_wf db1.
Proof. apply (bool_decide_unpack _). by vm_compute. Qed.

Lemma users1_account_columns : has_account_columns users1.
Proof. unfold has_account_columns. simpl. repeat constructor; set_solver. Qed.

Lemma users1_dave :
  filter (matches "user_id" (sql_value (PStr "4"))) (table_rows users1) = [dave].
Proof. simpl table_rows. by rewrite filter_cons_True by by vm_compute. Qed.

Lemma updateAccount_not_found_witness :
  updateAccount (E:=merging_rows) (PStr "7") {[ "username" := PStr "b" ]} db0 =
    (db0, Thrown (JsError "Account not found for user with id 7")).
Proof.
  apply (updateAccount_not_found (PStr "7") _ db0 users0 db0_users users0_user_id).
  apply users0_nobody.
Defined.

Lemma updateAccount_owner_missing_witness :
  updateAccount (E:=merging_rows) (PStr "1") {[ "username" := PStr "b" ]} db0 =
    (db0, Returned (VPrim PUndefined)) ∧
  findAccountByUserId (PStr "1") db0 = (db0, Returned (VObj alice)).
Proof.
  apply (updateAccount_owner_missing (E:=merging_rows) (λ o d, d ∪ o) _ _ db0 users0 alice []).
  - reflexivity.
  - apply db0_users.
  - apply users0_account_columns.
  - apply users0_alice.
  - by vm_compute.
Defined.

Lemma updateAccount_wf_witness :
  db_wf (updateAccount (E:=merging_rows) (PStr "1")
           {[ "userId" := PNum 1; "username" := PStr "b" ]} db0).1.
Proof. apply updateAccount_wf, db0_wf. Defined.

Lemma mapper_statements_witness :
  parse_sql (select_text "users") = Some (Select "users" "user_id" 1) ∧
  parse_sql (update_text "Users") =
    Some (Update "users" [("username", 1); ("email", 2); ("password", 3)] "user_id" 4).
Proof.
  split.
  - by apply (mapper_statements "users" (PStr "7") ∅).
  - by apply (mapper_statements "Users" (PStr "7") ∅).
Defined.

Lemma updateAccount_failure_atomic_witness :
  (updateAccount (E:=merging_rows) (PStr "7") {[ "username" := PStr "b" ]} db0).1 = db0.
Proof.
  apply (updateAccount_failure_atomic (E:=merging_rows) (PStr "7") _ db0
           (JsError "Account not found for user with id 7")).
  by rewrite (updateAccount_missing_account (PStr "7") _ db0 users0
                db0_users users0_user_id users0_nobody).
Defined.

Lemma updateAccount_keeps_owners_witness :
  (∀ tbl, tbl ≠ tableName →
     (updateAccount (E:=merging_rows) (PStr "1")
        {[ "userId" := PNum 2; "password" := PStr "x" ]} db0).1 !! tbl = db0 !! tbl) ∧
  ∃ t', (updateAccount (E:=merging_rows) (PStr "1")
           {[ "userId" := PNum 2; "password" := PStr "x" ]} db0).1 !! tableName = Some t' ∧
        columns t' = columns users0 ∧
        (λ r : obj, r !! "user_id") <$> table_rows t' =
          (λ r : obj, r !! "user_id") <$> table_rows users0.
Proof. apply updateAccount_keeps_owners, db0_users. Defined.

Lemma updateAccount_isolation_witness :
  ∃ t', (updateAccount (E:=merging_rows) (PStr "1")
           {[ "userId" := PNum 1; "username" := PStr "b" ]} db0).1 !! tableName = Some t' ∧
        table_rows t' !! 1 = Some carl.
Proof.
  apply (updateAccount_isolation (E:=merging_rows) (λ o d, d ∪ o) _ _ db0 users0 alice []).
  - reflexivity.
  - apply db0_users.
  - apply users0_account_columns.
  - apply users0_alice.
  - reflexivity.
  - by vm_compute.
Defined.

(** The redirected write at work: user 1 sends a patch that names user
    2 and a password; the row of user 2 receives that password and the
    user name and e-mail of user 1. *)
Lemma updateAccount_patch_owner_witness :
  ∃ t', (updateAccount (E:=merging_rows) (PStr "1")
           {[ "userId" := PNum 2; "password" := PStr "x" ]} db0).1 !! tableName = Some t' ∧
        table_rows t' !! 1 =
          Some (assign (account_sets ({[ "userId" := PNum 2; "password" := PStr "x" ]} ∪ alice))
                  carl).
Proof.
  apply (updateAccount_patch_owner (E:=merging_rows) (PStr "1") _ db0 users0 alice []
           (PNum 2) 1 carl).
  - apply db0_users.
  - apply users0_account_columns.
  - apply users0_alice.
  - by vm_compute.
  - reflexivity.
  - by vm_compute.
Defined.

Example redirected_row :
  map_to_list (assign (account_sets ({[ "userId" := PNum 2; "password" := PStr "x" ]} ∪ alice))
                 carl) ≡ₚ
    [("user_id", PNum 2); ("username", PStr "a"); ("email", PStr "a@x.com");
     ("password", PStr "x")].
Proof. by vm_compute. Qed.

Lemma updateAccount_snake_case_dropped_witness :
  updateAccount (E:=merging_rows) (PStr "1") {[ "username" := PStr "b" ]} db0 =
    (db0, Returned (VPrim PUndefined)).
Proof.
  apply (updateAccount_snake_case_dropped (E:=merging_rows) _ _ db0 users0 alice []).
  - apply db0_wf.
  - apply db0_users.
  - apply users0_account_columns.
  - simpl. set_solver.
  - by vm_compute.
  - apply users0_alice.
Defined.

Lemma updateAccount_empty_patch_witness :
  updateAccount (E:=merging_rows) (PStr "4") ∅ db1 = (db1, Returned (VObj dave)) ∧
  Nat.iter 3 (λ rest, updateAccount (E:=merging_rows) (PStr "4") ∅ ≫= λ _, rest)
    (updateAccount (E:=merging_rows) (PStr "4") ∅) db1 =
    (db1, Returned (VObj dave)).
Proof.
  apply (updateAccount_empty_patch (E:=merging_rows) _ db1 users1 dave (PNum 4) 3).
  - apply db1_wf.
  - apply lookup_singleton_eq.
  - apply users1_account_columns.
  - apply users1_dave.
  - by vm_compute.
  - reflexivity.
Defined.

(** C10. With plain result rows (no [updateFromData] method), updating
    an existing account throws a [TypeError] before any write. *)
Theorem updateAccount_plain_rows userId d db t r rs :
  db !! tableName = Some t → "user_id" ∈ columns t →
  filter (matches "user_id" (sql_value userId)) (table_rows t) = r :: rs →
  updateAccount (E:=plain_rows) userId d db =
    (db, Thrown (TypeError "account.updateFromData is not a function")).
Proof.
  intros Ht Hc Hr. rewrite updateAccount_bind.
  by rewrite (findAccountByUserId_select _ _ _ Ht Hc), Hr.
Qed.

Lemma updateAccount_plain_rows_witness :
  updateAccount (E:=plain_rows) (PStr "1") {[ "username" := PStr "b" ]} db0 =
    (db0, Thrown (TypeError "account.updateFromData is not a function")).
Proof.
  apply (updateAccount_plain_rows _ _ db0 users0 alice []).
  - apply db0_users.
  - apply users0_user_id.
  - apply users0_alice.
Defined.

#[export] Hint Resolve account_sets_other account_sets_owner account_sets_userId : colis.
#[export] Hint Resolve has_account_columns_owner account_fields_columns : colis.

End AccountDataMapper.
