(* ===== verification/SqlText.v ===== *)
(** * The text of a statement

    [Database.parse_sql] reads a query text.  This file gives the
    converse, [print_statement], which writes a statement in a normal
    form (key words in upper case, one space between tokens, commas as
    tokens of their own, placeholders in decimal), and shows that the
    two agree: a well-formed statement is read back from its printed
    form, and every statement the reader accepts is well formed.  The
    texts of [accountDataMapper.js] differ from the normal form of their
    statements by layout only. *)

From Stdlib Require Import Ascii.
From stdpp Require Import base tactics option list strings numbers pretty.
From S2P Require Import Prelude JsValue Database AccountMapper.
Import AccountDataMapper.

(** ** Printing *)

Definition print_param (n : nat) : string := String "$" (pretty n).

Fixpoint print_assignments (asg : list (string * nat)) : list string :=
  match asg with
  | [] => []
  | [cn] => [cn.1; "="; print_param cn.2]
  | cn :: asg' => cn.1 :: "=" :: print_param cn.2 :: "," :: print_assignments asg'
  end.

Definition print_where (col : string) (n : nat) : list string :=
  ["WHERE"; col; "="; print_param n].

Definition statement_tokens (st : statement) : list string :=
  match st with
  | Select tbl col n => ["SELECT"; "*"; "FROM"; tbl] ++ print_where col n
  | Update tbl asg col n =>
      ["UPDATE"; tbl; "SET"] ++ print_assignments asg ++ print_where col n ++ ["RETURNING"; "*"]
  end.

Definition print_statement (st : statement) : string :=
  join_with " " (statement_tokens st).

(** ** Well-formed statements *)

(** What the tokenizer produces: a comma, or a non-empty word. *)
Definition token (t : string) : Prop := t ≠ "" ∧ (sql_word t = true ∨ t = ",").

(** What the reader makes of a token in the place of an identifier. *)
Definition name (t : string) : Prop := token t ∧ lower t = t.

Definition assignment_wf (cn : string * nat) : Prop := name cn.1 ∧ cn.2 ≠ 0.

Definition statement_wf (st : statement) : Prop :=
  match st with
  | Select tbl col n => name tbl ∧ name col ∧ n ≠ 0
  | Update tbl asg col n =>
      name tbl ∧ asg ≠ [] ∧ Forall assignment_wf asg ∧ name col ∧ n ≠ 0
  end.

#[export] Instance token_dec t : Decision (token t).
Proof. unfold token. apply _. Defined.

#[export] Instance name_dec t : Decision (name t).
Proof. unfold name. apply _. Defined.

#[export] Instance assignment_wf_dec cn : Decision (assignment_wf cn).
Proof. unfold assignment_wf. apply _. Defined.

#[export] Instance statement_wf_dec st : Decision (statement_wf st).
Proof. destruct st; unfold statement_wf; apply _. Defined.

(** ** Placeholders *)

Section decimal.

Lemma is_nat_pretty_N_char d :
  (d < 10)%N → Ascii.is_nat (pretty_N_char d) = Some (N.to_nat d).
Proof.
  intros Hd.
  assert (d = 0 ∨ d = 1 ∨ d = 2 ∨ d = 3 ∨ d = 4 ∨ d = 5 ∨ d = 6
          ∨ d = 7 ∨ d = 8 ∨ d = 9)%N by lia.
  naive_solver.
Qed.

Lemma word_char_pretty_N_char d : word_char (pretty_N_char d) = true.
Proof. unfold pretty_N_char. by repeat case_match. Qed.

Lemma to_nat_div_mod x : N.to_nat x = 10 * N.to_nat (x `div` 10) + N.to_nat (x `mod` 10).
Proof. rewrite (N.div_mod x 10) at 1 by done. lia. Qed.

(** Reading the digits of [x] shifts the accumulator by their number. *)
Lemma parse_digits_pretty_N_go x s :
  ∃ k, ∀ acc, parse_digits acc (pretty_N_go x s) = parse_digits (acc * 10 ^ k + N.to_nat x) s.
Proof.
  revert s. induction (N.lt_wf_0 x) as [x _ IH]; intros s.
  destruct (decide (x = 0%N)) as [->|Hx].
  { exists 0. intros acc. rewrite pretty_N_go_0. f_equal. simpl. lia. }
  rewrite pretty_N_go_step by lia.
  destruct (IH (x `div` 10)%N (N.div_lt x 10 ltac:(lia) eq_refl)
              (String (pretty_N_char (x `mod` 10)) s)) as [k Hk].
  exists (S k). intros acc. rewrite Hk. cbn [parse_digits].
  rewrite is_nat_pretty_N_char by (apply N.mod_lt; lia). cbn [mbind option_bind].
  f_equal. rewrite (to_nat_div_mod x), Nat.pow_succ_r'. lia.
Qed.

Lemma sql_word_pretty_N_go x s : sql_word s = true → sql_word (pretty_N_go x s) = true.
Proof.
  revert s. induction (N.lt_wf_0 x) as [x _ IH]; intros s Hs.
  destruct (decide (x = 0%N)) as [->|Hx]; [by rewrite pretty_N_go_0|].
  rewrite pretty_N_go_step by lia. apply IH; [apply N.div_lt; lia|].
  cbn [sql_word]. by rewrite word_char_pretty_N_char.
Qed.

Lemma parse_digits_pretty (n : nat) : parse_digits 0 (pretty n) = Some n.
Proof.
  unfold pretty, pretty_nat, pretty, pretty_N. case_decide as Hn.
  { replace n with 0 by lia. done. }
  destruct (parse_digits_pretty_N_go (N.of_nat n) "") as [k ->].
  cbn [parse_digits]. f_equal. lia.
Qed.

Lemma sql_word_pretty (n : nat) : sql_word (pretty n) = true.
Proof.
  unfold pretty, pretty_nat, pretty, pretty_N. case_decide; [done|].
  by apply sql_word_pretty_N_go.
Qed.

Lemma parse_param_print n : n ≠ 0 → parse_param (print_param n) = Some n.
Proof.
  intros Hn. pose proof (parse_digits_pretty n) as Hd.
  unfold parse_param, print_param. destruct (pretty n) as [|a ds].
  { simpl in Hd. congruence. }
  rewrite Hd. cbn [mbind option_bind]. by rewrite bool_decide_eq_false_2.
Qed.

Lemma parse_param_nonzero t n : parse_param t = Some n → n ≠ 0.
Proof.
  unfold parse_param. intros H. repeat case_match; simplify_option_eq; done.
Qed.

Lemma token_print_param n : token (print_param n).
Proof. split; [done|]. left. unfold print_param. cbn [sql_word]. by rewrite sql_word_pretty. Qed.

End decimal.

(** ** The tokens of a printed statement *)

Section printed_tokens.

Lemma sql_tokens_word w : sql_word w = true → w ≠ "" → sql_tokens w = [w].
Proof.
  intros Hw Hne. unfold sql_tokens.
  rewrite <- (string_app_nil_r w) at 1. rewrite sql_tokens_go_word by done.
  cbn [sql_tokens_go]. unfold flush.
  rewrite bool_decide_eq_false_2 by by apply rev_app_nonempty.
  by rewrite rev_rev_app.
Qed.

Lemma sql_tokens_token t : token t → sql_tokens t = [t].
Proof. intros [Hne [Hw| ->]]; [by apply sql_tokens_word|done]. Qed.

Lemma sql_tokens_token_space t rest :
  token t → sql_tokens (t +:+ String " " rest) = t :: sql_tokens rest.
Proof.
  intros [Hne [Hw| ->]]; [|done]. unfold sql_tokens.
  by rewrite sql_tokens_go_space, sql_tokens_go_one.
Qed.

Lemma sql_tokens_join ts : Forall token ts → sql_tokens (join_with " " ts) = ts.
Proof.
  induction 1 as [|t ts Ht Hts IH]; [done|]. destruct ts as [|t' ts].
  - by apply sql_tokens_token.
  - change (join_with " " (t :: t' :: ts)) with (t +:+ String " " (join_with " " (t' :: ts))).
    by rewrite sql_tokens_token_space, IH.
Qed.

Lemma name_token t : name t → token t.
Proof. by intros [? _]. Qed.

Lemma token_closed t : bool_decide (token t) = true → token t.
Proof. apply bool_decide_eq_true_1. Qed.

Local Ltac tokens :=
  repeat first [ assumption | apply token_print_param | by apply name_token
               | by apply token_closed | apply Forall_cons_2 | apply Forall_nil_2 ].

Lemma print_assignments_tokens asg :
  Forall assignment_wf asg → Forall token (print_assignments asg).
Proof.
  induction 1 as [|[c n] asg [Hc _] Hasg IH]; [done|].
  destruct asg; cbn [print_assignments fst snd] in *; tokens.
Qed.

Lemma statement_tokens_tokens st : statement_wf st → Forall token (statement_tokens st).
Proof.
  destruct st as [tbl col n|tbl asg col n]; cbn [statement_wf statement_tokens print_where].
  - intros (Ht & Hc & _). cbn [app]. tokens.
  - intros (Ht & _ & Hasg & Hc & _).
    rewrite !Forall_app. split_and!; [|by apply print_assignments_tokens|..]; tokens.
Qed.

End printed_tokens.

(** ** Reading what was printed *)

Section print_parse.

Lemma parse_assignments_one c n rest :
  lower c = c → n ≠ 0 → head rest ≠ Some "," →
  parse_assignments (c :: "=" :: print_param n :: rest) = Some ([(c, n)], rest).
Proof.
  intros Hc Hn Hrest. cbn [parse_assignments]. rewrite bool_decide_eq_true_2 by done.
  rewrite parse_param_print by done. cbn [mbind option_bind]. unfold ident. rewrite Hc.
  destruct rest as [|sep rest]; [done|].
  rewrite bool_decide_eq_false_2; [done|]. intros ->. by apply Hrest.
Qed.

Lemma parse_assignments_print asg rest :
  asg ≠ [] → Forall assignment_wf asg → head rest ≠ Some "," →
  parse_assignments (print_assignments asg ++ rest) = Some (asg, rest).
Proof.
  intros Hne Hasg Hrest. induction Hasg as [|[c n] asg [[_ Hc] Hn] Hasg IH]; [done|].
  cbn [fst snd] in *. destruct asg as [|cn asg].
  { by apply parse_assignments_one. }
  change (print_assignments ((c, n) :: cn :: asg) ++ rest)
    with (c :: "=" :: print_param n :: "," :: (print_assignments (cn :: asg) ++ rest)).
  cbn [parse_assignments]. rewrite bool_decide_eq_true_2 by done.
  rewrite parse_param_print by done. cbn [mbind option_bind].
  rewrite bool_decide_eq_true_2 by done. rewrite IH by done.
  cbn [mbind option_bind]. unfold ident. by rewrite Hc.
Qed.

Lemma parse_where_print col n rest :
  lower col = col → n ≠ 0 → parse_where (print_where col n ++ rest) = Some (col, n, rest).
Proof.
  intros Hc Hn. unfold print_where. cbn [app parse_where].
  rewrite parse_param_print by done. unfold ident. by rewrite Hc.
Qed.

Lemma parse_statement_tokens st :
  statement_wf st → parse_statement (statement_tokens st) = Some st.
Proof.
  destruct st as [tbl col n|tbl asg col n]; cbn [statement_wf statement_tokens].
  - intros ([_ Ht] & [_ Hc] & Hn). cbn [app parse_statement].
    change (is_kw "select" "SELECT") with true. change (is_kw "from" "FROM") with true.
    cbn [andb bool_decide decide_rel]. rewrite bool_decide_eq_true_2 by done. cbn [andb].
    pose proof (parse_where_print col n [] Hc Hn) as Hw. rewrite app_nil_r in Hw.
    rewrite Hw. cbn [mbind option_bind bool_decide decide_rel].
    unfold ident. by rewrite Ht.
  - intros ([_ Ht] & Hne & Hasg & [_ Hc] & Hn). cbn [app parse_statement].
    change (is_kw "select" "UPDATE") with false. change (is_kw "update" "UPDATE") with true.
    change (is_kw "set" "SET") with true. cbn iota.
    rewrite parse_assignments_print by done. cbn [mbind option_bind].
    rewrite parse_where_print by done. cbn [mbind option_bind].
    unfold ident. by rewrite Ht.
Qed.

Lemma print_parse st : statement_wf st → parse_sql (print_statement st) = Some st.
Proof.
  intros Hwf. unfold parse_sql, print_statement.
  rewrite sql_tokens_join by by apply statement_tokens_tokens.
  by apply parse_statement_tokens.
Qed.

End print_parse.

(** ** What the reader accepts *)

Section parse_wf.

Lemma sql_word_rev_app w cur : sql_word (String.rev_app w cur) = sql_word w && sql_word cur.
Proof.
  revert cur. induction w as [|a w IH]; intros cur; [done|].
  cbn [String.rev_app sql_word]. rewrite IH. cbn [sql_word]. by destruct (word_char a), (sql_word w).
Qed.

Lemma flush_tokens cur : sql_word cur = true → Forall token (flush cur).
Proof.
  intros Hw. unfold flush. case_bool_decide as Hne; constructor; [|done].
  split; [by apply rev_app_nonempty|]. left. unfold String.rev.
  by rewrite sql_word_rev_app, Hw.
Qed.

Lemma sql_tokens_go_tokens cur s : sql_word cur = true → Forall token (sql_tokens_go cur s).
Proof.
  revert cur. induction s as [|a s IH]; intros cur Hw; cbn [sql_tokens_go].
  { by apply flush_tokens. }
  destruct (Ascii.is_space a) eqn:Hs.
  { apply Forall_app. split; [by apply flush_tokens|by apply IH]. }
  case_bool_decide as Hc.
  { apply Forall_app. split; [by apply flush_tokens|].
    apply Forall_cons_2; [by apply token_closed|by apply IH]. }
  apply IH. cbn [sql_word]. unfold word_char.
  by rewrite Hs, Hw, bool_decide_eq_false_2.
Qed.

Lemma word_char_lower a : word_char (ascii_lower a) = word_char a.
Proof. by destruct a as [[] [] [] [] [] [] [] []]. Qed.

Lemma sql_word_lower t : sql_word (lower t) = sql_word t.
Proof. induction t as [|a t IH]; [done|]. cbn [lower sql_word]. by rewrite word_char_lower, IH. Qed.

(** An identifier is a token folded to lower case. *)
Lemma name_ident t : token t → name (ident t).
Proof.
  intros [Hne [Hw| ->]]; [|by apply (bool_decide_eq_true_1 (name (ident ",")))].
  unfold ident. split; [split|apply lower_idemp].
  - by destruct t.
  - left. by rewrite sql_word_lower.
Qed.

Lemma parse_assignments_wf ts asg rest :
  Forall token ts → parse_assignments ts = Some (asg, rest) →
  asg ≠ [] ∧ Forall assignment_wf asg ∧ Forall token rest.
Proof.
  revert asg rest. induction (Nat.lt_wf_0_projected length ts) as [ts _ IH].
  intros asg rest Hts Hp. destruct ts as [|c [|eq [|p ts]]]; try done.
  cbn [parse_assignments] in Hp. case_bool_decide; [|done].
  destruct (parse_param p) as [n|] eqn:Hn; [|done]. cbn [mbind option_bind] in Hp.
  apply parse_param_nonzero in Hn.
  apply Forall_cons in Hts as [Hc [_ [_ Hts]%Forall_cons]%Forall_cons].
  assert (assignment_wf (ident c, n)) as Hcn by (split; [by apply name_ident|done]).
  assert (∀ r, Forall token r →
    [(ident c, n)] ≠ [] ∧ Forall assignment_wf [(ident c, n)] ∧ Forall token r) as Hone
    by (intros; split_and!; [done|by constructor|done]).
  destruct ts as [|sep ts]; [simplify_eq; by apply Hone|].
  case_bool_decide; [|simplify_eq; by apply Hone].
  destruct (parse_assignments ts) as [[asg' r]|] eqn:Hrec; [|done].
  cbn [mbind option_bind] in Hp. simplify_eq.
  apply Forall_cons in Hts as [_ Hts].
  destruct (IH ts ltac:(cbn [length]; lia) asg' rest Hts Hrec) as (_ & Hasg & Hrest).
  split_and!; [done|by constructor|done].
Qed.

Lemma parse_where_wf ts col n rest :
  Forall token ts → parse_where ts = Some (col, n, rest) →
  name col ∧ n ≠ 0 ∧ Forall token rest.
Proof.
  intros Hts Hp. destruct ts as [|w [|c [|eq [|p ts]]]]; try done.
  cbn [parse_where] in Hp. case_match; [|done].
  destruct (parse_param p) as [m|] eqn:Hm; [|done]. simplify_eq/=.
  apply Forall_cons in Hts as [_ [Hc [_ [_ Hts]%Forall_cons]%Forall_cons]%Forall_cons].
  split_and!; [by apply name_ident|by eapply parse_param_nonzero|done].
Qed.

Lemma parse_select_wf t ts col n rest :
  token t → Forall token ts → parse_where ts = Some (col, n, rest) →
  statement_wf (Select (ident t) col n).
Proof.
  intros Ht Hts Hp. destruct (parse_where_wf _ _ _ _ Hts Hp) as (? & ? & _).
  split_and!; [by apply name_ident|done..].
Qed.

Lemma parse_update_wf t ts asg ts' col n rest :
  token t → Forall token ts → parse_assignments ts = Some (asg, ts') →
  parse_where ts' = Some (col, n, rest) → statement_wf (Update (ident t) asg col n).
Proof.
  intros Ht Hts Ha Hp. destruct (parse_assignments_wf _ _ _ Hts Ha) as (? & ? & Hts').
  destruct (parse_where_wf _ _ _ _ Hts' Hp) as (? & ? & _).
  split_and!; [by apply name_ident|done..].
Qed.

Lemma parse_statement_wf ts st :
  Forall token ts → parse_statement ts = Some st → statement_wf st.
Proof.
  intros Hts Hp. destruct ts as [|k ts]; [done|]. cbn [parse_statement] in Hp.
  apply Forall_cons in Hts as [_ Hts]. destruct (is_kw "select" k).
  - destruct ts as [|star [|from [|t ts]]]; try done. case_match; [|done].
    destruct (parse_where ts) as [[[c n] rest]|] eqn:Hw; [|done].
    cbn [mbind option_bind] in Hp. case_bool_decide; [|done]. simplify_eq.
    apply Forall_cons in Hts as [_ [_ [Ht Hts]%Forall_cons]%Forall_cons].
    by eapply parse_select_wf.
  - destruct (is_kw "update" k); [|done]. destruct ts as [|t [|set ts]]; try done.
    destruct (is_kw "set" set); [|done].
    destruct (parse_assignments ts) as [[asg ts']|] eqn:Ha; [|done].
    cbn [mbind option_bind] in Hp.
    destruct (parse_where ts') as [[[c n] rest]|] eqn:Hw; [|done].
    cbn [mbind option_bind] in Hp. repeat case_match; simplify_eq.
    apply Forall_cons in Hts as [Ht [_ Hts]%Forall_cons].
    by eapply parse_update_wf.
Qed.

Lemma parse_sql_wf s st : parse_sql s = Some st → statement_wf st.
Proof. apply parse_statement_wf. by apply sql_tokens_go_tokens. Qed.

End parse_wf.

(** ** The texts of the mapper *)

Section mapper_texts.

(** Line 17 is the normal form of its statement, character for
    character. *)
Lemma findAccountQuery_normal userId :
  text (findAccountQuery userId) = print_statement find_statement.
Proof. by vm_compute. Qed.

(** Lines 36 to 40 differ from the normal form by their line breaks and
    by the place of the commas. *)
Lemma updateAccountQuery_normal account :
  sql_tokens (text (updateAccountQuery account)) = statement_tokens update_statement.
Proof. by vm_compute. Qed.

Lemma mapper_statements_wf : statement_wf find_statement ∧ statement_wf update_statement.
Proof.
  split; [by apply (bool_decide_eq_true_1 (statement_wf find_statement))
         |by apply (bool_decide_eq_true_1 (statement_wf update_statement))].
Qed.

(** A text the database accepts may be replaced by its normal form. *)
Lemma client_query_normal s st vs db :
  parse_sql s = Some st →
  client_query {| text := print_statement st; values := vs |} db =
    client_query {| text := s; values := vs |} db.
Proof.
  intros Hs. rewrite (client_query_parsed {| text := s; values := vs |} st db Hs).
  apply (client_query_parsed {| text := print_statement st; values := vs |}).
  cbn [text]. by apply print_parse, (parse_sql_wf s).
Qed.

(** C28. Reading and printing a statement are inverse to each other, and
    the texts of the mapper are printed statements up to layout.  Every
    statement [parse_sql] accepts is well formed (its identifiers are
    tokens in lower case, its placeholders are at least [$1], an
    [UPDATE] assigns at least one column) and the client answers its
    normal form as it answers the text; a well-formed statement is read
    back from [print_statement]; and for every table name that is
    a word, the tokens of the text of line 17 and of lines 36 to 40 of
    [accountDataMapper.js] are the tokens of the [SELECT] and of the
    [UPDATE] on that table, which the database reads with the table
    name folded to lower case. *)
Theorem statement_roundtrip s st tbl :
  (parse_sql s = Some st →
   statement_wf st ∧
   ∀ vs db, client_query {| text := print_statement st; values := vs |} db =
            client_query {| text := s; values := vs |} db) ∧
  (statement_wf st → parse_sql (print_statement st) = Some st) ∧
  (sql_word tbl = true → tbl ≠ "" →
   sql_tokens (select_text tbl) = statement_tokens (Select tbl "user_id" 1) ∧
   sql_tokens (update_text tbl) =
     statement_tokens (Update tbl [("username", 1); ("email", 2); ("password", 3)] "user_id" 4) ∧
   parse_sql (select_text tbl) = Some (Select (lower tbl) "user_id" 1) ∧
   parse_sql (update_text tbl) =
     Some (Update (lower tbl) [("username", 1); ("email", 2); ("password", 3)] "user_id" 4)).
Proof.
  split_and!; [|apply print_parse|].
  { intros Hs. split; [by apply (parse_sql_wf s)|]. intros vs db. by apply client_query_normal. }
  intros Hw Hne. unfold parse_sql. rewrite select_text_tokens, update_text_tokens by done.
  by split_and!.
Qed.

Lemma statement_roundtrip_witness :
  let s := "select * from Accounts
            where User_Id = $12" in
  let st := Select "accounts" "user_id" 12 in
  parse_sql s = Some st ∧ statement_wf st ∧
  print_statement st = "SELECT * FROM accounts WHERE user_id = $12" ∧
  parse_sql (print_statement st) = Some st ∧
  sql_tokens (update_text "users") = statement_tokens update_statement ∧
  parse_sql (update_text "users") = Some update_statement.
Proof.
  intros s st. destruct (statement_roundtrip s st "users") as (Hwf & Hparse & Htexts).
  assert (parse_sql s = Some st) as Hs by by vm_compute.
  destruct (Hwf Hs) as [Hst _].
  split_and!; [done|done|by vm_compute|by apply Hparse|by apply Htexts..].
Defined.

End mapper_texts.
