(* ===== verification/Logging.v ===== *)
(** * The mapper with its debug log

    [src/app/models/accountDataMapper.js] creates a logger of the
    package [debug] (line 1) and writes to it when the class is
    instantiated (line 11) and when a method is entered (lines 15 and
    28).  [AccountMapper] models the two methods without these lines.
    This file models them with: the store is paired with the log,
    module [Logged] has the constructor, both methods and the instance
    the module exports, and [logged_mapper] shows that the methods of
    [AccountMapper] are the methods of [Logged] without the log, and
    that what is logged is the same on every call. *)

From stdpp Require Import base tactics option list strings gmap.
From S2P Require Import Prelude JsValue Database AccountMapper.

(** ** The log *)

(** What [debug] writes: the namespace of the logger and the message.
    Whether the namespace is enabled (the variable [DEBUG]) is decided
    where the log is printed. *)
Record entry : Type := Entry {
  namespace : string;
  message : string;
}.

#[export] Instance entry_eq_dec : EqDecision entry.
Proof. solve_decision. Defined.

(** The database and the log. *)
Definition world : Type := database * list entry.

(** [require('debug')(ns)]: a logger; calling it appends to the log,
    whatever else the state holds. *)
Definition logger {S : Type} (ns : string) (msg : string) : exec (S * list entry) exn unit :=
  λ w, ((w.1, w.2 ++ [Entry ns msg]), Returned tt).

(** [M] is the handler [m] of the database, and logs [entries]. *)
Definition logs {A} (M : exec world exn A) (m : exec database exn A)
    (entries : list entry) : Prop :=
  ∀ db l, M (db, l) = let '(db', o) := m db in ((db', l ++ entries), o).

(** ** The module *)

Module Logged.

Definition debug {S : Type} : string → exec (S * list entry) exn unit :=
  logger "colis:dataMapper".

(** [this.constructor.name]. *)
Definition name : string := "AccountDataMapper".

(** The constructor.  [super()] runs the constructor of
    [CoreDataMapper], which is not among the sources: it is taken to
    log nothing. *)
Definition constructor : exec world exn unit :=
  debug "accountDataMapper created".

Section methods.
Context {E : RowEntity}.
Import AccountDataMapper.

Definition findAccountByUserId (userId : prim) : exec world exn value :=
  debug (template [PStr name; PStr " findAccountByUserId"]);;
  result ← on_fst (client_query (findAccountQuery userId));
  if bool_decide (length (rows result) = 0) then mret (VPrim PNull)
  else mret (array_get (rows result) 0).

Definition updateAccount (userId : prim) (updatedAccountData : obj) :
    exec world exn value :=
  debug (template [PStr name; PStr " updateAccount"]);;
  account ← findAccountByUserId userId;
  if negb (value_truthy account) then
    throw (JsError (template [PStr "Account not found for user with id "; userId]))
  else
    account' ← on_fst (call_updateFromData account updatedAccountData);
    result ← on_fst (client_query (updateAccountQuery account'));
    mret (array_get (rows result) 0).

End methods.

(** [module.exports = new AccountDataMapper()]: what loading the
    module does. *)
Definition exports : exec world exn unit := constructor.

End Logged.

(** ** What a handler logs *)

Section logs.
Implicit Types entries : list entry.

Lemma logs_ret {A} (a : A) : logs (mret a) (mret a) [].
Proof. intros db l. by rewrite app_nil_r. Qed.

Lemma logs_throw {A} (e : exn) : logs (throw e : exec world exn A) (throw e) [].
Proof. intros db l. unfold throw. by rewrite app_nil_r. Qed.

Lemma logs_on_fst {A} (m : exec database exn A) : logs (on_fst m) m [].
Proof. intros db l. unfold on_fst. cbn [fst snd]. by rewrite app_nil_r. Qed.

Lemma logs_if {A} (b : bool) (M1 M2 : exec world exn A) m1 m2 entries :
  logs M1 m1 entries → logs M2 m2 entries →
  logs (if b then M1 else M2) (if b then m1 else m2) entries.
Proof. by destruct b. Qed.

(** A handler that logs, then one that does not. *)
Lemma logs_bind {A B} (M : exec world exn A) m (K : A → exec world exn B) k entries :
  logs M m entries → (∀ a, logs (K a) (k a) []) → logs (M ≫= K) (m ≫= k) entries.
Proof.
  intros HM HK db l. exec_unfold. rewrite HM. destruct (m db) as [db' [a|e]]; [|done].
  rewrite HK. by rewrite app_nil_r.
Qed.

(** A message, then a handler: [logger] does not throw. *)
Lemma logs_logger {A} ns msg (M : exec world exn A) m entries :
  logs M m entries → logs (logger ns msg;; M) m (Entry ns msg :: entries).
Proof.
  intros HM db l. unfold logger. exec_unfold. cbn [fst snd]. rewrite HM.
  destruct (m db) as [db' o]. by rewrite <- app_assoc.
Qed.

End logs.

#[export] Hint Resolve logs_ret logs_throw logs_on_fst logs_if logs_bind : colis.

(** ** The mapper without its log *)

Section logged.
Context {E : RowEntity}.
Import AccountDataMapper.

Lemma logs_findAccountByUserId userId :
  logs (Logged.findAccountByUserId userId) (findAccountByUserId userId)
       [Entry "colis:dataMapper" "AccountDataMapper findAccountByUserId"].
Proof. unfold findAccountByUserId. apply logs_logger. auto with colis. Qed.

Lemma logs_updateAccount userId d :
  logs (Logged.updateAccount userId d) (updateAccount userId d)
       [Entry "colis:dataMapper" "AccountDataMapper updateAccount";
        Entry "colis:dataMapper" "AccountDataMapper findAccountByUserId"].
Proof.
  unfold updateAccount. apply logs_logger, logs_bind; [apply logs_findAccountByUserId|].
  intros account. auto 6 with colis.
Qed.

(** C30. The methods of [AccountMapper] are the methods of the source
    without their [debug] lines: on every store and whatever the log
    holds before, [findAccountByUserId] and [updateAccount] with their
    log return, throw and write what the methods without compute, and
    append to the log the names of the methods entered, in order, one
    for [findAccountByUserId] and two for [updateAccount], also when
    they throw.  What is logged is the same for every argument: no user
    id, no field of the patch and no value of the store reaches the
    log.  Loading the module logs that the mapper was created. *)
Theorem logged_mapper userId d :
  logs (Logged.findAccountByUserId userId) (findAccountByUserId userId)
       [Entry "colis:dataMapper" "AccountDataMapper findAccountByUserId"] ∧
  logs (Logged.updateAccount userId d) (updateAccount userId d)
       [Entry "colis:dataMapper" "AccountDataMapper updateAccount";
        Entry "colis:dataMapper" "AccountDataMapper findAccountByUserId"] ∧
  logs Logged.exports (mret tt) [Entry "colis:dataMapper" "accountDataMapper created"].
Proof.
  split_and!; [apply logs_findAccountByUserId|apply logs_updateAccount|done].
Qed.

End logged.
