(* ===== verification/AccountSpec.v ===== *)
(** * The contract of the account mapper

    The design gives the account mapper a contract over accounts keyed
    by the id of the owning user: [findByOwningUser] answers with the
    account or with its absence, and [update] fails on a user without
    account and otherwise merges the patch onto the account, fields
    absent from the patch keeping their value, and returns the merged
    account.  Module [AccountSpec] states that contract.

    The rest of the file reads a database as such a collection of
    accounts ([accounts]) and shows that the two methods of
    [AccountDataMapper] implement the contract on the stores on which
    the contract can be implemented at all: every user has at most one
    row in [users], and every row carries the id of its owner under
    [userId], the property the [UPDATE] filters on, as well as under
    [user_id], the column the [SELECT] filters on ([represented]). *)

From stdpp Require Import base tactics option list strings gmap.
From S2P Require Import Prelude JsValue Database AccountMapper.

Import AccountDataMapper.

(** ** The contract *)

Module AccountSpec.

Inductive failure : Type := NotFound.

(** The accounts, by the id of the owning user. *)
Abbreviation state := (gmap string obj).

Definition findByOwningUser (userId : string) (σ : state) : option obj := σ !! userId.

(** Only the fields present in the patch overwrite. *)
Definition merge (patch entity : obj) : obj := patch ∪ entity.

Definition update (userId : string) (patch : obj) (σ : state) :
    state * outcome failure obj :=
  match findByOwningUser userId σ with
  | None => (σ, Thrown NotFound)
  | Some entity => (<[userId := merge patch entity]> σ, Returned (merge patch entity))
  end.

End AccountSpec.

(** ** Reading a database as accounts *)

(** The owner of a row, as text. *)
Definition owner_key (r : obj) : string := to_string (get_prop r "user_id").

Definition accounts (db : database) : AccountSpec.state :=
  match db !! tableName with
  | Some t => list_to_map ((λ r, (owner_key r, r)) <$> table_rows t)
  | None => ∅
  end.

(** A row that carries the id of its owner under [userId] too. *)
Definition keyed (r : obj) : Prop :=
  ∃ o, r !! "userId" = Some o ∧ sql_eq o (get_prop r "user_id") = true.

(** The stores that hold accounts: well formed, one row per user at
    most, every row keyed. *)
Definition represented (db : database) : Prop :=
  db_wf db ∧
  ∃ t, db !! tableName = Some t ∧ has_account_columns t ∧
       NoDup (owner_key <$> table_rows t) ∧ Forall keyed (table_rows t).

(** The patches of the update surface: fields among [username],
    [email], [password], none of them [undefined]. *)
Definition account_patch (d : obj) : Prop :=
  map_Forall (λ k v, k ∈ account_fields ∧ v ≠ PUndefined) d.

(** What the methods answer for an answer of the contract. *)
Definition found_value (o : option obj) : value := from_option VObj (VPrim PNull) o.

Definition update_result (userId : prim) (res : outcome AccountSpec.failure obj) :
    outcome exn value :=
  match res with
  | Returned entity => Returned (VObj entity)
  | Thrown AccountSpec.NotFound =>
      Thrown (JsError ("Account not found for user with id " +:+ to_string userId))
  end.

(** ** Rows and keys *)

Section keys.
Implicit Types db : database.
Implicit Types userId : prim.
Implicit Types r d : obj.

Lemma keyed_owner r : keyed r → nullish (get_prop r "user_id") = false.
Proof. intros (o & _ & Hkey). by apply sql_eq_text in Hkey as (_ & ? & _). Qed.

(** On keyed rows the [WHERE] clause selects by key. *)
Lemma matches_owner_key userId r :
  nullish userId = false → keyed r →
  matches "user_id" (sql_value userId) r ↔ owner_key r = to_string userId.
Proof.
  intros Hu Hr. unfold matches, owner_key. autorewrite with colis. rewrite sql_eq_text.
  pose proof (keyed_owner _ Hr). tauto.
Qed.

Lemma filter_owner_key userId (rs : list obj) :
  nullish userId = false → Forall keyed rs →
  filter (matches "user_id" (sql_value userId)) rs =
    filter (λ r, owner_key r = to_string userId) rs.
Proof.
  intros Hu Hrs. apply filter_ext_Forall. eapply Forall_impl; [done|].
  intros r Hr. by apply matches_owner_key.
Qed.

Lemma accounts_lookup db t k :
  db !! tableName = Some t →
  accounts db !! k = head (filter (λ r, owner_key r = k) (table_rows t)).
Proof. intros Ht. unfold accounts. rewrite Ht. apply list_to_map_key_lookup. Qed.

Lemma first_or_null_head (rs : list obj) : first_or_null rs = found_value (head rs).
Proof. by destruct rs. Qed.

(** The [UPDATE] changes neither the owner of a row nor its [userId]. *)
Lemma update_row_owner_key p account r :
  owner_key (update_row "user_id" p (account_sets account) r) = owner_key r.
Proof.
  unfold owner_key, get_prop. by rewrite update_row_other_column by auto with colis.
Qed.

Lemma update_row_keyed p account r :
  keyed r → keyed (update_row "user_id" p (account_sets account) r).
Proof.
  intros (o & Ho & Hkey). exists o. unfold get_prop.
  by rewrite !update_row_other_column by auto with colis.
Qed.

(** A patch of the update surface does not carry [userId]. *)
Lemma account_patch_absent d k : account_patch d → k ∉ account_fields → d !! k = None.
Proof.
  intros Hd Hk. destruct (d !! k) as [v|] eqn:Hv; [|done].
  by destruct (Hd k v Hv).
Qed.

(** What is written back is the merge of the contract. *)
Lemma assign_merge d r t :
  row_wf (columns t) r → has_account_columns t → account_patch d →
  assign (account_sets (d ∪ r)) r = AccountSpec.merge d r.
Proof.
  intros Hrow Hcols Hd. apply map_eq. intros k. unfold AccountSpec.merge.
  destruct (patched_row_fields d r t Hrow Hcols) as (Hset & Hkept & _).
  destruct (d !! k) as [v|] eqn:Hk.
  - destruct (Hd k v Hk) as [Hf Hv]. rewrite (Hset k v Hf Hk).
    rewrite (lookup_union_Some_l _ _ _ _ Hk). by destruct v.
  - by rewrite (Hkept k Hk), lookup_union_r.
Qed.

End keys.

(** ** The methods implement the contract *)

Section refinement.
Context `{!PatchLaws E}.
Implicit Types db : database.
Implicit Types userId : prim.
Implicit Types r d : obj.

(** The rows the [SELECT] finds are the account of the contract. *)
Lemma represented_select userId db t :
  represented db → db !! tableName = Some t → nullish userId = false →
  filter (matches "user_id" (sql_value userId)) (table_rows t) =
    option_list (AccountSpec.findByOwningUser (to_string userId) (accounts db)).
Proof.
  intros (_ & t' & Ht' & _ & Hnd & Hkeyed) Ht Hu.
  assert (t' = t) as -> by congruence. unfold AccountSpec.findByOwningUser.
  rewrite (filter_owner_key _ _ Hu Hkeyed), (accounts_lookup _ _ _ Ht).
  destruct (head _) as [r|] eqn:Hhead; [by apply filter_key_unique|by apply head_None].
Qed.

(** [findAccountByUserId] implements [findByOwningUser]: on a store
    that holds accounts it returns the account of the user, or [null]
    when the contract answers with absence, and does not write. *)
Lemma findAccountByUserId_accounts userId db :
  represented db → nullish userId = false →
  findAccountByUserId userId db =
    (db, Returned (found_value
                     (AccountSpec.findByOwningUser (to_string userId) (accounts db)))).
Proof.
  intros Hrep Hu. pose proof Hrep as (_ & t & Ht & Hcols & _).
  rewrite (findAccountByUserId_select _ _ _ Ht (has_account_columns_owner _ Hcols)).
  rewrite (represented_select _ _ _ Hrep Ht Hu), first_or_null_head.
  by destruct (AccountSpec.findByOwningUser _ _).
Qed.

(** The store after the update of the account [r] of the user. *)
Lemma updated_represented userId d db t r :
  represented db → db !! tableName = Some t → nullish userId = false → account_patch d →
  filter (matches "user_id" (sql_value userId)) (table_rows t) = [r] →
  represented (<[tableName := updated_users t (d ∪ r)]> db).
Proof.
  intros (Hwf & t' & Ht' & Hcols & Hnd & Hkeyed) Ht Hu Hd Hr.
  assert (t' = t) as -> by congruence. split; [by apply updated_users_wf|]. exists (updated_users t (d ∪ r)).
  split; [by rewrite lookup_insert_eq|]. split; [done|].
  unfold updated_users. cbn [table_rows]. split.
  - rewrite <- list_fmap_compose.
    by rewrite (list_fmap_ext _ owner_key) by (intros; apply update_row_owner_key).
  - apply Forall_fmap. eapply Forall_impl; [done|]. intros x. apply update_row_keyed.
Qed.

(** The owner key of a merged account of a keyed row designates the user. *)
Lemma merged_owner userId d r :
  account_patch d → keyed r → matches "user_id" (sql_value userId) r →
  owns userId (d ∪ r).
Proof.
  intros Hd (o & Ho & Hkey) Hm. exists o. split.
  - rewrite lookup_union_r; [done|]. apply (account_patch_absent _ _ Hd).
    unfold account_fields. set_solver.
  - unfold matches in Hm. rewrite sql_eq_sql_value_r in Hm.
    by rewrite <- (sql_eq_same_key _ _ _ Hm).
Qed.

(** The one row of a user on a store that holds accounts. *)
Lemma represented_row userId d db t r :
  represented db → db !! tableName = Some t → account_patch d →
  filter (matches "user_id" (sql_value userId)) (table_rows t) = [r] →
  row_wf (columns t) r ∧ keyed r ∧ owns userId (d ∪ r).
Proof.
  intros (Hwf & t' & Ht' & Hcols & _ & Hkeyed) Ht Hd Hr.
  assert (t' = t) as -> by congruence.
  assert (r ∈ filter (matches "user_id" (sql_value userId)) (table_rows t)) as Hin
    by (rewrite Hr; left).
  apply list_elem_of_filter in Hin as [Hm Hin].
  assert (keyed r) as Hk by by eapply Forall_forall in Hkeyed.
  split; [by eapply filtered_row_wf|]. split; [done|]. by apply merged_owner.
Qed.

(** The accounts after the update: the account of the user is the
    merge, the others are as they were. *)
Lemma accounts_updated userId d db t r :
  represented db → db !! tableName = Some t → nullish userId = false → account_patch d →
  filter (matches "user_id" (sql_value userId)) (table_rows t) = [r] →
  accounts (<[tableName := updated_users t (d ∪ r)]> db) =
    <[to_string userId := AccountSpec.merge d r]> (accounts db).
Proof.
  intros Hrep Ht Hu Hd Hr.
  destruct (represented_row _ _ _ _ _ Hrep Ht Hd Hr) as (Hrow & _ & Hown).
  destruct Hrep as (_ & t' & Ht' & Hcols & _ & Hkeyed).
  assert (t' = t) as -> by congruence. apply map_eq. intros k.
  rewrite (accounts_lookup _ (updated_users t (d ∪ r))) by by rewrite lookup_insert_eq.
  unfold updated_users. cbn [table_rows].
  rewrite (filter_fmap_iff _ _ (λ x, owner_key x = k))
    by (intros x; by rewrite update_row_owner_key).
  destruct (decide (k = to_string userId)) as [->|Hk].
  - rewrite lookup_insert_eq, <- (filter_owner_key _ _ Hu Hkeyed), Hr. cbn. f_equal.
    rewrite update_row_matches; [by eapply assign_merge|].
    apply (owns_matches _ _ _ Hown).
    eapply (list_elem_of_filter (matches "user_id" (sql_value userId))). rewrite Hr. left.
  - rewrite lookup_insert_ne, (accounts_lookup _ _ _ Ht) by done.
    destruct (filter (λ x, owner_key x = k) (table_rows t)) as [|x xs] eqn:Hf; [done|].
    cbn. f_equal.
    assert (x ∈ filter (λ x, owner_key x = k) (table_rows t)) as Hin by (rewrite Hf; left).
    apply list_elem_of_filter in Hin as [Hx Hin]. apply update_row_no_match.
    rewrite (owns_matches _ _ _ Hown), matches_owner_key; [congruence|done|].
    by eapply Forall_forall in Hkeyed.
Qed.

(** [updateAccount] implements [update]: it throws the not-found error
    where the contract fails with [NotFound] and otherwise returns the
    merged account of the contract; the store it leaves holds accounts
    again, those the contract leaves. *)
Lemma updateAccount_accounts userId d db :
  represented db → nullish userId = false → account_patch d →
  (updateAccount userId d db).2 =
    update_result userId (AccountSpec.update (to_string userId) d (accounts db)).2 ∧
  represented (updateAccount userId d db).1 ∧
  accounts (updateAccount userId d db).1 =
    (AccountSpec.update (to_string userId) d (accounts db)).1.
Proof.
  intros Hrep Hu Hd. pose proof Hrep as (_ & t & Ht & Hcols & _).
  pose proof (represented_select _ _ _ Hrep Ht Hu) as Hsel. unfold AccountSpec.update.
  destruct (AccountSpec.findByOwningUser _ _) as [r|]; cbn [option_list] in Hsel.
  - destruct (represented_row _ _ _ _ _ Hrep Ht Hd Hsel) as (Hrow & _ & o & Ho & Hkey).
    rewrite (updateAccount_merged _ _ _ _ _ _ Ht Hcols Hsel Ho Hkey). cbn [fst snd].
    split; [by rewrite (assign_merge _ _ _ Hrow Hcols Hd)|].
    split; [by eapply updated_represented | by eapply accounts_updated].
  - by rewrite (updateAccount_missing_account _ _ _ _ Ht
                  (has_account_columns_owner _ Hcols) Hsel).
Qed.

(** C27. Read your writes: on a store that holds accounts, the account
    an update returned is the account a read of the same user finds
    afterwards. *)
Theorem updateAccount_then_find userId d db r :
  represented db → nullish userId = false → account_patch d →
  (updateAccount userId d db).2 = Returned (VObj r) →
  findAccountByUserId userId (updateAccount userId d db).1 =
    ((updateAccount userId d db).1, Returned (VObj r)).
Proof.
  intros Hrep Hu Hd Hres.
  destruct (updateAccount_accounts userId d db Hrep Hu Hd) as (Hres' & Hrep' & Hacc).
  rewrite (findAccountByUserId_accounts _ _ Hrep' Hu), Hacc. rewrite Hres' in Hres.
  unfold AccountSpec.update, AccountSpec.findByOwningUser in *.
  destruct (accounts db !! to_string userId) as [e|]; cbn [fst snd update_result] in *;
    [|discriminate Hres].
  injection Hres as <-. by rewrite lookup_insert_eq.
Qed.

End refinement.

(** ** Sequences of calls *)

(** A call of the mapper, as a controller makes it. *)
Inductive call : Type :=
| Find (userId : prim)
| Update (userId : prim) (patch : obj).

(** The calls the contract speaks of: a user id that is a value, a
    patch of the update surface. *)
Definition call_ok (c : call) : Prop :=
  match c with
  | Find userId => nullish userId = false
  | Update userId patch => nullish userId = false ∧ account_patch patch
  end.

Definition contract_call (c : call) (σ : AccountSpec.state) :
    AccountSpec.state * outcome exn value :=
  match c with
  | Find userId =>
      (σ, Returned (found_value (AccountSpec.findByOwningUser (to_string userId) σ)))
  | Update userId patch =>
      ((AccountSpec.update (to_string userId) patch σ).1,
       update_result userId (AccountSpec.update (to_string userId) patch σ).2)
  end.

(** Calls one after the other, each on the state the one before has
    left, whether it returned or threw; the outcomes in order. *)
Fixpoint run_calls {S : Type} (run_call : call → S → S * outcome exn value)
    (cs : list call) (s : S) : S * list (outcome exn value) :=
  match cs with
  | [] => (s, [])
  | c :: cs' =>
      let '(s1, res) := run_call c s in
      let '(s2, ress) := run_calls run_call cs' s1 in
      (s2, res :: ress)
  end.

Section calls.
Context `{!PatchLaws E}.
Implicit Types db : database.

Definition mapper_call (c : call) : exec database exn value :=
  match c with
  | Find userId => findAccountByUserId userId
  | Update userId patch => updateAccount userId patch
  end.

(** One call of the mapper against one call of the contract. *)
Lemma mapper_call_refines c db :
  represented db → call_ok c →
  (mapper_call c db).2 = (contract_call c (accounts db)).2 ∧
  represented (mapper_call c db).1 ∧
  accounts (mapper_call c db).1 = (contract_call c (accounts db)).1.
Proof.
  intros Hrep Hc. destruct c as [userId|userId d]; cbn [mapper_call contract_call fst snd].
  - by rewrite (findAccountByUserId_accounts _ _ Hrep Hc).
  - destruct Hc as [Hu Hd]. by apply updateAccount_accounts.
Qed.

(** C3. The mapper implements its contract: from a store that holds
    accounts, every sequence of reads and updates gives, call by call,
    the outcomes the contract gives on the accounts the store holds,
    and leaves a store that holds the accounts the contract leaves. *)
Theorem mapper_refines_contract cs db :
  represented db → Forall call_ok cs →
  (run_calls mapper_call cs db).2 = (run_calls contract_call cs (accounts db)).2 ∧
  represented (run_calls mapper_call cs db).1 ∧
  accounts (run_calls mapper_call cs db).1 = (run_calls contract_call cs (accounts db)).1.
Proof.
  intros Hrep Hcs. revert db Hrep.
  induction Hcs as [|c cs Hc _ IH]; intros db Hrep; [done|]. cbn [run_calls].
  destruct (mapper_call_refines c db Hrep Hc) as (Hres & Hrep1 & Hacc).
  destruct (mapper_call c db) as [db1 res].
  destruct (contract_call c (accounts db)) as [σ1 res']. cbn [fst snd] in *. subst.
  destruct (IH db1 Hrep1) as (Hress & Hrep2 & Hacc2).
  destruct (run_calls mapper_call cs db1) as [db2 ress].
  destruct (run_calls contract_call cs (accounts db1)) as [σ2 ress']. cbn [fst snd] in *.
  by subst.
Qed.

End calls.

(** ** Examples *)

Lemma db1_represented : represented db1.
Proof.
  split; [apply db1_wf|]. exists users1. split; [apply lookup_singleton_eq|].
  split; [apply users1_account_columns|]. split.
  - apply NoDup_singleton.
  - repeat constructor. exists (PNum 4). by vm_compute.
Qed.

Lemma new_name_patch : account_patch {[ "username" := PStr "b" ]}.
Proof.
  apply map_Forall_singleton. split; [unfold account_fields; set_solver | done].
Qed.

Lemma mapper_refines_contract_witness :
  (run_calls (mapper_call (E:=merging_rows))
     [Update (PStr "4") {[ "username" := PStr "b" ]}; Find (PStr "4"); Find (PStr "5")] db1).2 =
    (run_calls contract_call
       [Update (PStr "4") {[ "username" := PStr "b" ]}; Find (PStr "4"); Find (PStr "5")]
       (accounts db1)).2 ∧
  represented
    (run_calls (mapper_call (E:=merging_rows))
       [Update (PStr "4") {[ "username" := PStr "b" ]}; Find (PStr "4"); Find (PStr "5")] db1).1 ∧
  accounts
    (run_calls (mapper_call (E:=merging_rows))
       [Update (PStr "4") {[ "username" := PStr "b" ]}; Find (PStr "4"); Find (PStr "5")] db1).1 =
    (run_calls contract_call
       [Update (PStr "4") {[ "username" := PStr "b" ]}; Find (PStr "4"); Find (PStr "5")]
       (accounts db1)).1.
Proof.
  apply (mapper_refines_contract (E:=merging_rows)); [apply db1_represented|].
  repeat (apply Forall_cons; split); [|done..]. split; [done | apply new_name_patch].
Defined.

Lemma db1_renamed :
  updateAccount (E:=merging_rows) (PStr "4") {[ "username" := PStr "b" ]} db1 =
    (<[tableName := updated_users users1 ({[ "username" := PStr "b" ]} ∪ dave)]> db1,
     Returned (VObj (assign (account_sets ({[ "username" := PStr "b" ]} ∪ dave)) dave))).
Proof.
  apply (updateAccount_merged (E:=merging_rows) _ _ _ users1 dave (PNum 4)).
  - apply lookup_singleton_eq.
  - apply users1_account_columns.
  - apply users1_dave.
  - by vm_compute.
  - reflexivity.
Qed.

Lemma updateAccount_then_find_witness :
  findAccountByUserId (PStr "4")
      (updateAccount (E:=merging_rows) (PStr "4") {[ "username" := PStr "b" ]} db1).1 =
    ((updateAccount (E:=merging_rows) (PStr "4") {[ "username" := PStr "b" ]} db1).1,
     Returned (VObj (assign (account_sets ({[ "username" := PStr "b" ]} ∪ dave)) dave))).
Proof.
  apply (updateAccount_then_find (E:=merging_rows));
    [apply db1_represented | reflexivity | apply new_name_patch |].
  by rewrite db1_renamed.
Defined.
