(* ===== verification/Typing.v ===== *)
(** * What the promises of the mapper hold

    The two methods of [accountDataMapper.js] are [async]: each returns
    a promise that is resolved with a value or rejected with an
    exception.  This file gives the values a type ([null],
    [undefined], a row of a table, a union) and the exceptions a class
    ([Error], [TypeError], an error of the database), and shows which
    of them each method can settle with on a store that satisfies the
    invariant of [Database]. *)

From stdpp Require Import base tactics option list strings gmap.
From S2P Require Import Prelude JsValue Database AccountMapper.

Import AccountDataMapper.

(** ** Types *)

Inductive ty : Type :=
| TNull
| TUndefined
| TRow (cols : list string)
| TUnion (a b : ty).

Fixpoint has_type (v : value) (τ : ty) : Prop :=
  match τ with
  | TNull => v = VPrim PNull
  | TUndefined => v = VPrim PUndefined
  | TRow cols => match v with VObj r => row_wf cols r | VPrim _ => False end
  | TUnion a b => has_type v a ∨ has_type v b
  end.

#[export] Instance has_type_dec v τ : Decision (has_type v τ).
Proof. induction τ; simpl; [apply _..| |apply _]. destruct v; apply _. Defined.

(** The constructor an exception was made with. *)
Inductive exn_class : Type := ErrorClass | TypeErrorClass | DatabaseErrorClass.

#[export] Instance exn_class_eq_dec : EqDecision exn_class.
Proof. solve_decision. Defined.

Definition class_of (e : exn) : exn_class :=
  match e with
  | JsError _ => ErrorClass
  | TypeError _ => TypeErrorClass
  | DatabaseError _ => DatabaseErrorClass
  end.

(** A promise of type [τ] that can be rejected with the classes [cs]. *)
Definition settles_as (o : outcome exn value) (τ : ty) (cs : list exn_class) : Prop :=
  match o with
  | Returned v => has_type v τ
  | Thrown e => class_of e ∈ cs
  end.

#[export] Instance settles_as_dec o τ cs : Decision (settles_as o τ cs).
Proof. destruct o; simpl; apply _. Defined.

(** ** Lemmas *)

Section typing.
Context {E : RowEntity}.
Implicit Types db : database.
Implicit Types userId : prim.
Implicit Types v : value.

Lemma has_type_union_l v a b : has_type v a → has_type v (TUnion a b).
Proof. by left. Qed.

Lemma has_type_union_r v a b : has_type v b → has_type v (TUnion a b).
Proof. by right. Qed.

Lemma settles_as_mono o τ cs cs' : cs ⊆ cs' → settles_as o τ cs → settles_as o τ cs'.
Proof. intros Hsub. destruct o; simpl; [done|]. apply Hsub. Qed.

(** The first of a list of rows, or what stands for none. *)
Lemma first_or_null_type cols (rs : list obj) :
  Forall (row_wf cols) rs → has_type (first_or_null rs) (TUnion (TRow cols) TNull).
Proof. destruct 1; [by right | by left]. Qed.

Lemma array_get_type cols (rs : list obj) :
  Forall (row_wf cols) rs → has_type (array_get rs 0) (TUnion (TRow cols) TUndefined).
Proof. destruct 1; [by right | by left]. Qed.

(** The rows the [UPDATE] of the mapper reports are rows of [users]. *)
Lemma updateAccountQuery_rows account db db' t res :
  db_wf db → db !! tableName = Some t →
  client_query (updateAccountQuery account) db = (db', Returned res) →
  Forall (row_wf (columns t)) (rows res).
Proof.
  intros Hwf Ht Hq.
  destruct (updateAccountQuery_cases account db) as [[e He] | (t' & Ht' & Hcols)];
    [congruence|]. assert (t' = t) as -> by congruence.
  rewrite (updateAccountQuery_run _ _ _ Ht Hcols) in Hq. injection Hq as <- <-.
  apply returned_rows_updated.
  pose proof (updated_users_wf db t account Hwf Ht Hcols) as Hwf'.
  apply (Hwf' tableName (updated_users t account)), lookup_insert_eq.
Qed.

Lemma findAccountByUserId_type userId db t :
  db_wf db → db !! tableName = Some t →
  settles_as (findAccountByUserId userId db).2
    (TUnion (TRow (columns t)) TNull) [DatabaseErrorClass].
Proof.
  intros Hwf Ht. rewrite findAccountByUserId_run.
  destruct (run_select _ _ _ _ _) as [rs|e] eqn:Hrun; [|by left].
  by eapply first_or_null_type, run_select_rows_wf.
Qed.

Lemma updateAccount_type userId d db t :
  db_wf db → db !! tableName = Some t →
  settles_as (updateAccount userId d db).2
    (TUnion (TRow (columns t)) TUndefined)
    [ErrorClass; TypeErrorClass; DatabaseErrorClass].
Proof.
  intros Hwf Ht. rewrite updateAccount_bind.
  pose proof (findAccountByUserId_store userId db) as Hro.
  pose proof (findAccountByUserId_type userId db t Hwf Ht) as Hfind.
  destruct (findAccountByUserId userId db) as [db1 [[p|r]|e]]; simpl in Hro, Hfind; subst db1.
  - destruct (truthy p); simpl; set_solver.
  - destruct updateFromData as [f|]; [|simpl; set_solver].
    destruct (client_query _ db) as [db2 [res|e]] eqn:Hq; simpl.
    + by eapply array_get_type, updateAccountQuery_rows.
    + apply client_query_error in Hq as [de ->]. simpl. set_solver.
  - eapply settles_as_mono; [|exact Hfind]. set_solver.
Qed.

End typing.

(** C32. The promises of the mapper are typed: on a store that
    satisfies the invariant and has a table [users],
    [findAccountByUserId] resolves with a row of that table or with
    [null] and is rejected only with an error of the database;
    [updateAccount] resolves with a row of that table or with
    [undefined], never with [null], and is rejected with an [Error],
    a [TypeError] or an error of the database. *)
Theorem mapper_promise_types {E : RowEntity} userId d db t :
  db_wf db → db !! tableName = Some t →
  settles_as (findAccountByUserId userId db).2
    (TUnion (TRow (columns t)) TNull) [DatabaseErrorClass] ∧
  settles_as (updateAccount userId d db).2
    (TUnion (TRow (columns t)) TUndefined)
    [ErrorClass; TypeErrorClass; DatabaseErrorClass] ∧
  ¬ has_type (VPrim PNull) (TUnion (TRow (columns t)) TUndefined).
Proof.
  intros Hwf Ht. split; [by apply findAccountByUserId_type|].
  split; [by apply updateAccount_type|]. by intros [[]|[=]].
Qed.

Lemma mapper_promise_types_witness :
  settles_as (findAccountByUserId (PStr "4") db1).2
    (TUnion (TRow (columns users1)) TNull) [DatabaseErrorClass] ∧
  settles_as (updateAccount (E:=merging_rows) (PStr "4") {[ "username" := PStr "b" ]} db1).2
    (TUnion (TRow (columns users1)) TUndefined)
    [ErrorClass; TypeErrorClass; DatabaseErrorClass] ∧
  ¬ has_type (VPrim PNull) (TUnion (TRow (columns users1)) TUndefined).
Proof.
  apply (mapper_promise_types (E:=merging_rows)); [apply db1_wf | apply lookup_singleton_eq].
Defined.
