(* ===== verification/Schedule.v ===== *)
(** * Tasks that share a store

    The process serves several requests at a time (design 5): a task
    runs until it has to wait for the store, is suspended, and is
    resumed when the store has answered; the store executes one
    operation at a time.  This file holds what does not depend on the
    tasks: a system is the tasks in flight with the store they share,
    a schedule says whose pending operation the store executes next,
    and [resume] says what a task does between two suspensions.
    [Interleaving] instantiates it with the invocations of the account
    mapper and [Requests] with the requests of the users router. *)

From stdpp Require Import base tactics option list relations.

Record system (K S : Type) : Type := System {
  tasks : list K;
  store : S;
}.
Arguments System {K S} tasks store.
Arguments tasks {K S} s.
Arguments store {K S} s.

Section scheduler.
Context {K S : Type}.
Context (resume : K → S → S * K).

(** The store executes the pending operation of task [i], and the task
    runs on to its next suspension or to its end. *)
Definition deliver (i : nat) (s : system K S) : system K S :=
  match tasks s !! i with
  | Some k => let '(σ, k') := resume k (store s) in System (<[i := k']> (tasks s)) σ
  | None => s
  end.

(** A schedule: whose operation is executed, in order. *)
Definition run (schedule : list nat) (s : system K S) : system K S :=
  foldl (λ s i, deliver i s) s schedule.

(** One step of the system, for the invariants. *)
Inductive step : system K S → system K S → Prop :=
| step_deliver i s : i < length (tasks s) → step s (deliver i s).

End scheduler.

(** ** Lemmas *)

Section schedules.
Context {K S : Type} {resume : K → S → S * K}.
Implicit Types s : system K S.
Implicit Types k : K.

Lemma run_nil s : run resume [] s = s.
Proof. done. Qed.

Lemma run_cons i schedule s : run resume (i :: schedule) s = run resume schedule (deliver resume i s).
Proof. done. Qed.

Lemma run_app schedule1 schedule2 s :
  run resume (schedule1 ++ schedule2) s = run resume schedule2 (run resume schedule1 s).
Proof. apply foldl_app. Qed.

Lemma deliver_task i s k :
  tasks s !! i = Some k →
  deliver resume i s =
    System (<[i := (resume k (store s)).2]> (tasks s)) (resume k (store s)).1.
Proof. intros Hk. unfold deliver. rewrite Hk. by destruct (resume k (store s)). Qed.

Lemma deliver_none i s : tasks s !! i = None → deliver resume i s = s.
Proof. intros Hk. unfold deliver. by rewrite Hk. Qed.

Lemma deliver_length i s : length (tasks (deliver resume i s)) = length (tasks s).
Proof.
  destruct (tasks s !! i) as [k|] eqn:Hk.
  - rewrite (deliver_task _ _ _ Hk). simpl. by rewrite length_insert.
  - by rewrite deliver_none.
Qed.

(** Delivering to one task leaves the others as they are. *)
Lemma deliver_other i j s : i ≠ j → tasks (deliver resume i s) !! j = tasks s !! j.
Proof.
  intros Hne. destruct (tasks s !! i) as [k|] eqn:Hk.
  - rewrite (deliver_task _ _ _ Hk). simpl. by rewrite list_lookup_insert_ne.
  - by rewrite deliver_none.
Qed.

Lemma deliver_same i s k :
  tasks s !! i = Some k → tasks (deliver resume i s) !! i = Some (resume k (store s)).2.
Proof.
  intros Hk. rewrite (deliver_task _ _ _ Hk). simpl.
  apply list_lookup_insert_eq. by eapply lookup_lt_Some.
Qed.

Lemma deliver_store i s :
  store (deliver resume i s) = store s ∨
  ∃ k, tasks s !! i = Some k ∧ store (deliver resume i s) = (resume k (store s)).1.
Proof.
  destruct (tasks s !! i) as [k|] eqn:Hk.
  - right. exists k. by rewrite (deliver_task _ _ _ Hk).
  - left. by rewrite deliver_none.
Qed.

Lemma deliver_0 k0 ks σ :
  deliver resume 0 (System (k0 :: ks) σ) = System ((resume k0 σ).2 :: ks) (resume k0 σ).1.
Proof. by rewrite (deliver_task 0 _ k0). Qed.

Lemma deliver_1 k0 k1 ks σ :
  deliver resume 1 (System (k0 :: k1 :: ks) σ) =
    System (k0 :: (resume k1 σ).2 :: ks) (resume k1 σ).1.
Proof. by rewrite (deliver_task 1 _ k1). Qed.

(** The tasks that come later in the list do not matter to a task
    resumed now. *)
Lemma deliver_app i s ks :
  i < length (tasks s) →
  deliver resume i (System (tasks s ++ ks) (store s)) =
    System (tasks (deliver resume i s) ++ ks) (store (deliver resume i s)).
Proof.
  intros Hi. destruct (lookup_lt_is_Some_2 _ _ Hi) as [k Hk].
  rewrite (deliver_task i s k Hk). cbn [tasks store].
  rewrite (deliver_task i _ k) by by apply lookup_app_l_Some.
  cbn [tasks store]. by rewrite insert_app_l.
Qed.

(** The last task of the list. *)
Lemma deliver_last ks k σ :
  deliver resume (length ks) (System (ks ++ [k]) σ) =
    System (ks ++ [(resume k σ).2]) (resume k σ).1.
Proof.
  rewrite (deliver_task _ _ k) by by apply list_lookup_middle.
  cbn [tasks store]. f_equal.
  rewrite insert_app_r_alt, Nat.sub_diag by done. done.
Qed.

(** Every schedule is a sequence of steps. *)
Lemma run_steps schedule s : rtc (step resume) s (run resume schedule s).
Proof.
  revert s. induction schedule as [|i schedule IH]; intros s; [done|].
  rewrite run_cons. destruct (decide (i < length (tasks s))) as [Hi|Hi].
  - eapply rtc_l; [by constructor | apply IH].
  - rewrite deliver_none; [apply IH|]. apply lookup_ge_None. lia.
Qed.

(** What every step keeps, every schedule keeps. *)
Lemma rtc_step_ind (P : system K S → Prop) s s' :
  (∀ i s, P s → P (deliver resume i s)) → rtc (step resume) s s' → P s → P s'.
Proof.
  intros Hstep Hrtc. induction Hrtc as [|s1 s2 s3 [i s1' Hi] _ IH]; [done|].
  intros HP. by apply IH, Hstep.
Qed.

End schedules.
