(* ===== verification/Interleaving.v ===== *)
(** * Invocations of the mapper that overlap

    [updateAccount] ([src/app/models/accountDataMapper.js], lines 27 to
    50) touches the database twice: the [SELECT] awaited at line 29
    (inside [findAccountByUserId], line 20) and the [UPDATE] awaited at
    line 48.  Between the two the method is suspended and the process
    serves other requests.  This file cuts the method at its two
    [await]s into a [task] that is resumed once per query, shows that a
    task resumed twice in a row is the method of [AccountMapper], and
    runs several tasks under a schedule that says whose query the
    database executes next (the systems, deliveries and schedules of
    [Schedule], with [resume] as the step of a task).  An invocation of
    [findAccountByUserId] (lines 14 to 25) on its own is a task with
    one query.  A query is executed atomically; what a task computes
    between two queries touches no shared state. *)

From stdpp Require Import base tactics option list strings gmap relations.
From S2P Require Import Prelude JsValue Database AccountMapper Schedule.

Import AccountDataMapper.

(** ** Tasks *)

(** An invocation of [updateAccount] between its queries: called, its
    [SELECT] not yet executed; holding the patched account (line 33),
    its [UPDATE] not yet executed; settled, the promise resolved or
    rejected.  An invocation of [findAccountByUserId] (lines 14 to 25)
    has one query: asked, its [SELECT] not yet executed (line 20), then
    settled. *)
Inductive task : Type :=
| Called (userId : prim) (updatedAccountData : obj)
| Loaded (account : obj)
| Asked (userId : prim)
| Settled (result : outcome exn value).

#[export] Instance task_eq_dec : EqDecision task.
Proof. solve_decision. Defined.

(** The queries a task has still to send, at most. *)
Definition pending (k : task) : nat :=
  match k with
  | Called _ _ => 2
  | Loaded _ | Asked _ => 1
  | Settled _ => 0
  end.

(** The tasks that send no [UPDATE], now or later. *)
Definition reads_only (k : task) : bool :=
  match k with
  | Asked _ | Settled _ => true
  | Called _ _ | Loaded _ => false
  end.

(** The invocations in flight and the store they share. *)
Abbreviation system := (Schedule.system task database).

Section tasks.
Context {E : RowEntity}.

(** The database executes the pending query of the task, and the task
    runs on to its next [await] or to its end: lines 29 to 33 for a
    task just called, lines 48 and 49 for one that holds its account,
    lines 20 to 24 for a read. *)
Definition resume (k : task) (db : database) : database * task :=
  match k with
  | Called userId updatedAccountData =>
      match findAccountByUserId userId db with
      | (db1, Returned account) =>
          if negb (value_truthy account) then
            (db1, Settled (Thrown (JsError
               (template [PStr "Account not found for user with id "; userId]))))
          else
            match call_updateFromData account updatedAccountData db1 with
            | (db2, Returned account') => (db2, Loaded account')
            | (db2, Thrown e) => (db2, Settled (Thrown e))
            end
      | (db1, Thrown e) => (db1, Settled (Thrown e))
      end
  | Loaded account =>
      match client_query (updateAccountQuery account) db with
      | (db1, Returned result) => (db1, Settled (Returned (array_get (rows result) 0)))
      | (db1, Thrown e) => (db1, Settled (Thrown e))
      end
  | Asked userId =>
      let '(db1, result) := findAccountByUserId userId db in (db1, Settled result)
  | Settled result => (db, Settled result)
  end.

End tasks.

(** The scheduler of [Schedule] on these tasks: [deliver i s] executes
    the query of task [i], [run] a schedule of them. *)
Abbreviation deliver := (Schedule.deliver resume).
Abbreviation run := (Schedule.run resume).
Abbreviation step := (Schedule.step resume).

Section systems.
Context {E : RowEntity}.

(** One query executed: the step of a task that has a query to send.
    Delivering to a settled task does nothing and is no such step. *)
Inductive query_step : system → system → Prop :=
| query_deliver i s k :
    tasks s !! i = Some k → pending k ≠ 0 → query_step s (deliver i s).

(** The queries the tasks in flight have still to send, at most. *)
Definition queries_left (s : system) : nat := sum_list_with pending (tasks s).

(** What a store keeps of another one: the other tables, and of
    [users] the columns and the owner of every row. *)
Definition same_owners (db db' : database) : Prop :=
  (∀ tbl, tbl ≠ tableName → db' !! tbl = db !! tbl) ∧
  option_Forall2
    (λ t t', columns t' = columns t ∧
             (λ r : obj, r !! "user_id") <$> table_rows t' =
               (λ r : obj, r !! "user_id") <$> table_rows t)
    (db !! tableName) (db' !! tableName).

(** The task at [i] is a read in flight. *)
Definition read_at (s : system) (i : nat) : bool :=
  match tasks s !! i with
  | Some (Asked _) => true
  | _ => false
  end.

(** A schedule without the queries of the reads in flight in [s]. *)
Definition without_reads (s : system) (schedule : list nat) : list nat :=
  filter (λ i, read_at s i = false) schedule.

(** [s1] is [s2] but for the tasks at the places [R], which only read. *)
Definition but_reads (R : nat → bool) (s1 s2 : system) : Prop :=
  store s1 = store s2 ∧
  ∀ i, if R i then ∃ k, tasks s1 !! i = Some k ∧ reads_only k = true
       else tasks s1 !! i = tasks s2 !! i.

(** ** Resuming a task *)

Lemma resume_called userId d db :
  resume (Called userId d) db =
    match findAccountByUserId userId db with
    | (db1, Thrown e) => (db1, Settled (Thrown e))
    | (db1, Returned (VPrim p)) =>
        if truthy p
        then (db1, Settled (Thrown (TypeError "account.updateFromData is not a function")))
        else (db1, Settled (Thrown
                (JsError ("Account not found for user with id " +:+ to_string userId))))
    | (db1, Returned (VObj r)) =>
        match updateFromData with
        | None => (db1, Settled (Thrown (TypeError "account.updateFromData is not a function")))
        | Some f => (db1, Loaded (f r d))
        end
    end.
Proof.
  unfold resume, call_updateFromData. exec_unfold.
  destruct (findAccountByUserId userId db) as [db1 [[p|r]|e]]; [| |done].
  - cbn [value_truthy]. destruct (truthy p); cbn [negb].
    + by destruct updateFromData.
    + by autorewrite with colis.
  - cbn [value_truthy negb]. by destruct updateFromData.
Qed.

(** A task that is called does not write. *)
Lemma resume_called_store userId d db : (resume (Called userId d) db).1 = db.
Proof.
  rewrite resume_called. pose proof (findAccountByUserId_store userId db) as Hro.
  destruct (findAccountByUserId userId db) as [db1 [[p|r]|e]]; simpl in Hro; subst db1.
  - by destruct (truthy p).
  - by destruct updateFromData.
  - done.
Qed.

(** A read is the method, settled at once. *)
Lemma resume_asked userId db :
  resume (Asked userId) db = (db, Settled (findAccountByUserId userId db).2).
Proof.
  pose proof (findAccountByUserId_store userId db) as Hro. cbn [resume].
  destruct (findAccountByUserId userId db) as [db1 result]. by simplify_eq/=.
Qed.

(** A task that sends no [UPDATE] leaves the store as it is, and stays
    such a task. *)
Lemma resume_reads_only k db :
  reads_only k = true → (resume k db).1 = db ∧ reads_only (resume k db).2 = true.
Proof. destruct k as [userId d|account|userId|result]; [done..| |done]. by rewrite resume_asked. Qed.

(** Each query brings a task closer to its end. *)
Lemma resume_pending k db : pending (resume k db).2 ≤ pending k - 1.
Proof.
  destruct k as [userId d|account|userId|result].
  - rewrite resume_called.
    destruct (findAccountByUserId userId db) as [db1 [[p|r]|e]];
      [destruct (truthy p) | destruct updateFromData |]; cbn [snd pending]; lia.
  - unfold resume. destruct (client_query _ db) as [db1 [res|e]]; cbn [snd pending]; lia.
  - rewrite resume_asked. cbn [snd pending]. lia.
  - cbn [resume snd pending]. lia.
Qed.

Lemma pending_settled k : pending k = 0 → ∃ result, k = Settled result.
Proof. destruct k; [done..|]. by eexists. Qed.

Lemma resume_settled result db : resume (Settled result) db = (db, Settled result).
Proof. done. Qed.

End systems.

(** ** Schedules *)

Section schedules.
Context {E : RowEntity}.
Implicit Types s : system.
Implicit Types k : task.
Implicit Types db : database.

(** A settled task stays as it is, whatever is delivered. *)
Lemma deliver_settled i j s result :
  tasks s !! j = Some (Settled result) → tasks (deliver i s) !! j = Some (Settled result).
Proof.
  intros Hj. destruct (decide (i = j)) as [->|Hne].
  - by rewrite (deliver_same _ _ _ Hj).
  - by rewrite deliver_other.
Qed.

(** The queries task [j] has still to send after a schedule: each
    delivery to [j] takes one off. *)
Lemma run_pending schedule j s k :
  tasks s !! j = Some k →
  ∃ k', tasks (run schedule s) !! j = Some k' ∧
        pending k' ≤ pending k - length (filter (λ i, i = j) schedule).
Proof.
  revert s k. induction schedule as [|i schedule IH]; intros s k Hk.
  { exists k. split; [done|]. simpl. lia. }
  rewrite run_cons. destruct (decide (i = j)) as [->|Hne].
  - rewrite filter_cons_True by done.
    destruct (IH _ _ (deliver_same (resume:=resume) _ _ _ Hk)) as (k' & Hk' & Hle).
    exists k'. split; [done|]. pose proof (resume_pending k (store s)). simpl. lia.
  - rewrite filter_cons_False by done. apply IH. by rewrite deliver_other.
Qed.

End schedules.

(** ** A task alone is the method *)

Section alone.
Context {E : RowEntity}.
Implicit Types db : database.

Lemma run_alone k db :
  run [0; 0] (System [k] db) =
    System [(resume (resume k db).2 (resume k db).1).2] (resume (resume k db).2 (resume k db).1).1.
Proof.
  rewrite !run_cons, run_nil.
  rewrite (deliver_task 0 (System [k] db) k) by done. cbn [tasks store].
  by rewrite (deliver_task 0 _ (resume k db).2).
Qed.

(** Resuming a called task twice is [updateAccount]. *)
Lemma resume_twice userId d db :
  resume (resume (Called userId d) db).2 (resume (Called userId d) db).1 =
    ((updateAccount userId d db).1, Settled (updateAccount userId d db).2).
Proof.
  rewrite resume_called, updateAccount_bind.
  destruct (findAccountByUserId userId db) as [db1 [[p|r]|e]]; [| |done].
  - by destruct (truthy p).
  - destruct updateFromData as [f|]; [|done]. cbn [fst snd resume].
    by destruct (client_query _ db1) as [db2 [res|e]].
Qed.

(** The task is the method: when both queries of one invocation
    are executed with nothing in between, the task ends settled with
    the result of [updateAccount], on the store [updateAccount]
    leaves. *)
Theorem updateAccount_resumed userId d db :
  run [0; 0] (System [Called userId d] db) =
    System [Settled (updateAccount userId d db).2] (updateAccount userId d db).1.
Proof. by rewrite run_alone, resume_twice. Qed.

End alone.

(** ** Every schedule ends *)

Section progress.
Context {E : RowEntity}.
Implicit Types s : system.

(** C39. Every invocation settles: once two of its queries have been
    executed, however the schedule interleaves them with those of
    other invocations, the promise of a task is resolved or
    rejected. *)
Theorem schedule_settles schedule j s (k : task) :
  tasks s !! j = Some k → 2 ≤ length (filter (λ i, i = j) schedule) →
  ∃ result, tasks (run schedule s) !! j = Some (Settled result).
Proof.
  intros Hk Hlen. destruct (run_pending schedule j s k Hk) as (k' & Hk' & Hle).
  destruct (pending_settled k') as [result ->]; [|by exists result].
  destruct k; simpl in Hle; lia.
Qed.

(** A settled promise keeps its result. *)
Lemma run_settled schedule j s result :
  tasks s !! j = Some (Settled result) →
  tasks (run schedule s) !! j = Some (Settled result).
Proof.
  revert s. induction schedule as [|i schedule IH]; intros s Hj; [done|].
  rewrite run_cons. by apply IH, deliver_settled.
Qed.

End progress.

(** ** Every run of queries ends *)

Section termination.
Context {E : RowEntity}.
Implicit Types s : system.

Lemma pending_le k : pending k ≤ 2.
Proof. destruct k; simpl; lia. Qed.

Lemma queries_left_le s : queries_left s ≤ 2 * length (tasks s).
Proof. apply sum_list_with_le, Forall_forall. intros k _. apply pending_le. Qed.

(** A query of a task is one of the queries left. *)
Lemma deliver_queries_left i s k :
  tasks s !! i = Some k →
  queries_left (deliver i s) + pending k = queries_left s + pending (resume k (store s)).2.
Proof.
  intros Hk. rewrite (deliver_task _ _ _ Hk). unfold queries_left.
  destruct (resume k (store s)) as [db k']. by apply sum_list_with_insert.
Qed.

Lemma query_step_decreases s s' : query_step s s' → queries_left s' < queries_left s.
Proof.
  intros [i s1 k Hk Hpending]. pose proof (deliver_queries_left i s1 k Hk).
  pose proof (resume_pending k (store s1)). lia.
Qed.

Lemma query_step_step s s' : query_step s s' → step s s'.
Proof. intros [i s1 k Hk _]. constructor. by eapply lookup_lt_Some. Qed.

Lemma query_step_tasks s : nf query_step s → Forall (λ k, pending k = 0) (tasks s).
Proof.
  intros Hnf. apply Forall_lookup. intros i k Hk.
  destruct (decide (pending k = 0)) as [|Hp]; [done|].
  destruct Hnf. exists (deliver i s). by econstructor.
Qed.

Lemma nsteps_queries_left n s s' :
  nsteps query_step n s s' → n + queries_left s' ≤ queries_left s.
Proof.
  induction 1 as [s | n s1 s2 s3 Hstep _ IH]; [done|].
  apply query_step_decreases in Hstep. lia.
Qed.


(** C37. The database is asked a bounded number of queries: a run of
    [n] queries uses up [n] of the queries the tasks had left to send,
    which are at most two per task. *)
Theorem query_count_bound n s s' :
  nsteps query_step n s s' →
  n + queries_left s' ≤ queries_left s ∧ queries_left s ≤ 2 * length (tasks s).
Proof. intros Hn%nsteps_queries_left. split; [done | apply queries_left_le]. Qed.

End termination.

(** ** What every interleaving keeps *)

#[export] Instance same_owners_preorder : PreOrder same_owners.
Proof.
  split.
  - intros db. split; [done|]. by destruct (db !! tableName); constructor.
  - intros db1 db2 db3 [Ho12 Hu12] [Ho23 Hu23]. split.
    + intros tbl Hne. by rewrite Ho23, Ho12.
    + destruct Hu12 as [t1 t2 [Hc12 Hr12]|]; inversion Hu23 as [? t3 [Hc23 Hr23]|];
        simplify_eq; constructor. split; congruence.
Qed.

Section invariants.
Context {E : RowEntity}.
Implicit Types s : system.
Implicit Types db : database.

(** The store after a query: untouched, or [users] rewritten by the one
    [UPDATE]. *)
Lemma resume_store_cases k db :
  (resume k db).1 = db ∨
  ∃ t account, db !! tableName = Some t ∧ has_account_columns t ∧
    (resume k db).1 = <[tableName := updated_users t account]> db.
Proof.
  destruct k as [userId d|account|userId|result];
    [left; apply resume_called_store| |left; by rewrite resume_asked|by left].
  destruct (updateAccountQuery_cases account db) as [[e He] | (t & Ht & Hcols)].
  - left. unfold resume. by rewrite He.
  - right. exists t, account. unfold resume.
    by rewrite (updateAccountQuery_run _ _ _ Ht Hcols).
Qed.

Lemma updated_users_same_owners db t account :
  db !! tableName = Some t → same_owners db (<[tableName := updated_users t account]> db).
Proof.
  intros Ht. split.
  - intros tbl Hne. by rewrite lookup_insert_ne.
  - rewrite Ht, lookup_insert_eq. constructor. split; [done|].
    apply update_rows_column. auto with colis.
Qed.

Lemma resume_wf k db : db_wf db → db_wf (resume k db).1.
Proof.
  intros Hwf. destruct (resume_store_cases k db) as [-> | (t & a & Ht & Hcols & ->)];
    [done|]. by apply updated_users_wf.
Qed.

Lemma resume_same_owners k db : same_owners db (resume k db).1.
Proof.
  destruct (resume_store_cases k db) as [-> | (t & a & Ht & Hcols & ->)];
    [done|]. by apply updated_users_same_owners.
Qed.

(** C35. Whatever the invocations and however their queries
    interleave, the store stays well formed, the tables other than
    [users] are untouched, [users] keeps its columns and every row its
    owner, and no invocation appears or disappears. *)
Theorem interleaving_invariant s s' :
  rtc step s s' → db_wf (store s) →
  db_wf (store s') ∧ same_owners (store s) (store s') ∧
  length (tasks s') = length (tasks s).
Proof.
  induction 1 as [s | s1 s2 s3 Hstep _ IH]; intros Hwf; [done|].
  destruct Hstep as [i s1 Hi].
  assert (db_wf (store (deliver i s1)) ∧ same_owners (store s1) (store (deliver i s1)))
    as [Hwf2 Hso].
  { destruct (deliver_store (resume:=resume) i s1) as [-> | (k & _ & ->)]; [done|].
    split; [by apply resume_wf | apply resume_same_owners]. }
  destruct (IH Hwf2) as (Hwf3 & Hso3 & Hlen). split; [done|]. split.
  - by etrans.
  - by rewrite Hlen, deliver_length.
Qed.

End invariants.

(** ** Reads among the updates *)

Section reads.
Context {E : RowEntity}.
Implicit Types s : system.
Implicit Types R : nat → bool.

Lemma deliver_read R i s1 s2 :
  R i = true → but_reads R s1 s2 → but_reads R (deliver i s1) s2.
Proof.
  intros Hi [Hst Hts]. pose proof (Hts i) as Hk. rewrite Hi in Hk.
  destruct Hk as (k & Hk & Hro).
  destruct (resume_reads_only k (store s1) Hro) as [Hs Hro'].
  rewrite (deliver_task _ _ _ Hk). split; [by cbn [store]; rewrite Hs|].
  intros j. specialize (Hts j). cbn [tasks]. destruct (decide (j = i)) as [->|Hne].
  - rewrite Hi. eexists. by rewrite list_lookup_insert_eq by by eapply lookup_lt_Some.
  - destruct (R j); [destruct Hts as (kj & Hkj & Hj); exists kj|];
      by rewrite list_lookup_insert_ne.
Qed.

Lemma deliver_write R i s1 s2 :
  R i = false → but_reads R s1 s2 → but_reads R (deliver i s1) (deliver i s2).
Proof.
  intros Hi [Hst Hts]. pose proof (Hts i) as Hk. rewrite Hi in Hk.
  destruct (tasks s1 !! i) as [k|] eqn:Hk1; [|by rewrite !deliver_none].
  rewrite (deliver_task _ _ _ Hk1), (deliver_task i s2 k), <- Hst by done.
  split; [done|]. intros j. specialize (Hts j). cbn [tasks].
  destruct (decide (j = i)) as [->|Hne].
  - rewrite Hi. by rewrite !list_lookup_insert_eq by by eapply lookup_lt_Some.
  - destruct (R j); [destruct Hts as (kj & Hkj & Hj); exists kj|];
      by rewrite !list_lookup_insert_ne.
Qed.

Lemma run_but_reads R schedule s1 s2 :
  but_reads R s1 s2 →
  but_reads R (run schedule s1) (run (filter (λ i, R i = false) schedule) s2).
Proof.
  revert s1 s2. induction schedule as [|i schedule IH]; intros s1 s2 H; [done|].
  rewrite run_cons. destruct (R i) eqn:Hi.
  - rewrite filter_cons_False by by rewrite Hi. by apply IH, deliver_read.
  - rewrite filter_cons_True, run_cons by done. by apply IH, deliver_write.
Qed.

(** C20. Reads do not disturb updates.  Under every schedule, for any
    number of invocations of [findAccountByUserId] among any number of
    invocations of [updateAccount], the store and every update end as
    they do when the queries of the reads are never executed. *)
Theorem reads_invisible schedule s :
  store (run schedule s) = store (run (without_reads s schedule) s) ∧
  ∀ i, read_at s i = false →
    tasks (run schedule s) !! i = tasks (run (without_reads s schedule) s) !! i.
Proof.
  destruct (run_but_reads (read_at s) schedule s s) as [Hst Hts].
  - split; [done|]. intros i. unfold read_at.
    destruct (tasks s !! i) as [[]|] eqn:Hk; try done. by eexists.
  - split; [done|]. intros i Hi. specialize (Hts i). by rewrite Hi in Hts.
Qed.

End reads.

(** ** Two updates of the same account *)

(** The user has exactly one row, [r], in a well-formed store. *)
Definition account_of (userId : prim) (db : database) (r : obj) : Prop :=
  ∃ t, db_wf db ∧ db !! tableName = Some t ∧ has_account_columns t ∧
       filter (matches "user_id" (sql_value userId)) (table_rows t) = [r].

(** The store after the [UPDATE] sent for [account]. *)
Definition write_account (account : obj) (db : database) : database :=
  match db !! tableName with
  | Some t => <[tableName := updated_users t account]> db
  | None => db
  end.

Section races.
Context `{!PatchLaws E}.
Implicit Types db : database.
Implicit Types userId : prim.
Implicit Types account r d : obj.

(** The key [userId] is not a field the [UPDATE] assigns. *)
Lemma owns_assign userId d account r :
  owns userId (d ∪ r) → owns userId (d ∪ assign (account_sets account) r).
Proof.
  intros (o & Ho & Hkey). exists o. split; [|done].
  rewrite lookup_union in Ho |- *. by rewrite assign_lookup_ne by auto with colis.
Qed.

(** The first query: the account is read, merged and held. *)
Lemma resume_called_account userId d db r :
  account_of userId db r → resume (Called userId d) db = (db, Loaded (d ∪ r)).
Proof.
  intros (t & _ & Ht & Hcols & Hr). destruct patch_defined as [f Hf].
  rewrite resume_called.
  rewrite (findAccountByUserId_select _ _ _ Ht (has_account_columns_owner _ Hcols)), Hr, Hf.
  cbn [first_or_null]. by rewrite (patch_laws_union _ _ _ Hf).
Qed.

Lemma account_of_matches userId db r :
  account_of userId db r → matches "user_id" (sql_value userId) r.
Proof.
  intros (t & _ & _ & _ & Hr).
  assert (r ∈ filter (matches "user_id" (sql_value userId)) (table_rows t)) as Hin
    by (rewrite Hr; left).
  by apply list_elem_of_filter in Hin as [? _].
Qed.

Lemma account_of_row_wf userId db r :
  account_of userId db r → ∃ t, row_wf (columns t) r ∧ has_account_columns t.
Proof.
  intros (t & Hwf & Ht & Hcols & Hr). exists t. split; [|done]. by eapply filtered_row_wf.
Qed.

(** The second query: the held account is written over the row. *)
Lemma resume_loaded_account userId account db r :
  account_of userId db r → owns userId account →
  resume (Loaded account) db =
    (write_account account db,
     Settled (Returned (VObj (assign (account_sets account) r)))).
Proof.
  intros (t & _ & Ht & Hcols & Hr) (o & Ho & Hkey). unfold resume, write_account.
  rewrite (updateAccountQuery_run _ _ _ Ht Hcols), Ht. cbn [rows].
  by rewrite (owner_param_filter _ _ _ _ Ho Hkey), Hr.
Qed.

Lemma matches_updated account p x :
  matches "user_id" p (update_row "user_id" (owner_param account) (account_sets account) x) ↔
  matches "user_id" p x.
Proof. apply matches_update_row. auto with colis. Qed.

(** After the write the user still has one row, the one written. *)
Lemma write_account_of userId account db r :
  account_of userId db r → owns userId account →
  account_of userId (write_account account db) (assign (account_sets account) r).
Proof.
  intros Hacc Hown. pose proof (account_of_matches _ _ _ Hacc) as Hm.
  destruct Hacc as (t & Hwf & Ht & Hcols & Hr). exists (updated_users t account).
  unfold write_account. rewrite Ht. split; [by apply updated_users_wf|].
  split; [by rewrite lookup_insert_eq|]. split; [done|].
  unfold updated_users. cbn [table_rows].
  rewrite (filter_fmap_iff _ _ (matches "user_id" (sql_value userId)))
    by (intros x; by apply matches_updated).
  rewrite Hr. cbn [fmap list_fmap]. rewrite update_row_matches; [done|].
  by apply (owns_matches _ _ _ Hown).
Qed.

Lemma matches_assign_account account p x :
  matches "user_id" p (assign (account_sets account) x) ↔ matches "user_id" p x.
Proof.
  unfold matches, get_prop. by rewrite assign_lookup_ne by auto with colis.
Qed.

(** A second assignment of the account fields hides the first. *)
Lemma assign_account_overwrite a0 a1 x :
  assign (account_sets a1) (assign (account_sets a0) x) = assign (account_sets a1) x.
Proof.
  apply map_eq. intros k. destruct (decide (k ∈ account_fields)) as [Hk|Hk].
  - by rewrite !assign_account_field.
  - by rewrite !assign_lookup_ne by auto with colis.
Qed.

(** A second write for the same user hides the first. *)
Lemma write_account_overwrite userId a0 a1 db :
  owns userId a0 → owns userId a1 →
  write_account a1 (write_account a0 db) = write_account a1 db.
Proof.
  intros Hown0 Hown1. unfold write_account.
  destruct (db !! tableName) as [t|] eqn:Ht; [|by rewrite Ht].
  rewrite lookup_insert_eq, insert_insert_eq. f_equal.
  unfold updated_users. cbn [columns table_rows]. f_equal.
  rewrite <- list_fmap_compose. apply list_fmap_ext. intros _ x _. cbn [compose].
  destruct (decide (matches "user_id" (sql_value userId) x)) as [Hx|Hx].
  - rewrite (update_row_matches _ (owner_param a0)) by by apply (owns_matches _ _ _ Hown0).
    rewrite !update_row_matches; [apply assign_account_overwrite|..];
      apply (owns_matches _ _ _ Hown1); [done|]. by apply matches_assign_account.
  - rewrite (update_row_no_match _ (owner_param a0)) by by rewrite (owns_matches _ _ _ Hown0).
    by rewrite !update_row_no_match by by rewrite (owns_matches _ _ _ Hown1).
Qed.

(** The method on the one row of a user. *)
Lemma updateAccount_write userId d db r :
  account_of userId db r → owns userId (d ∪ r) →
  updateAccount userId d db =
    (write_account (d ∪ r) db, Returned (VObj (assign (account_sets (d ∪ r)) r))).
Proof.
  intros (t & _ & Ht & Hcols & Hr) (o & Ho & Hkey). unfold write_account. rewrite Ht.
  by eapply updateAccount_merged.
Qed.

(** A read of the one row of a user. *)
Lemma resume_asked_account userId db r :
  account_of userId db r → resume (Asked userId) db = (db, Settled (Returned (VObj r))).
Proof.
  intros (t & _ & Ht & Hcols & Hr). rewrite resume_asked.
  by rewrite (findAccountByUserId_select _ _ _ Ht (has_account_columns_owner _ Hcols)), Hr.
Qed.

(** C19. An update becomes visible with its [UPDATE].  A read of the
    account that overlaps an update of it is answered with the row as
    it was when its query is executed before the [UPDATE] of the
    update, also after the [SELECT] of the update, and with the row
    written when it is executed after: no read sees the patched account
    the update holds between its two queries. *)
Theorem update_visible_at_write userId d db r :
  account_of userId db r → owns userId (d ∪ r) →
  let s := System [Called userId d; Asked userId] db in
  let written := Settled (Returned (VObj (assign (account_sets (d ∪ r)) r))) in
  run [1; 0; 0] s = System [written; Settled (Returned (VObj r))] (write_account (d ∪ r) db) ∧
  run [0; 1; 0] s = System [written; Settled (Returned (VObj r))] (write_account (d ∪ r) db) ∧
  run [0; 0; 1] s = System [written; written] (write_account (d ∪ r) db).
Proof.
  intros Hacc Hown s written. subst s written. rewrite !run_cons, !run_nil.
  pose proof (write_account_of _ _ _ _ Hacc Hown) as Hacc'.
  pose proof (resume_called_account _ d _ _ Hacc) as Hselect.
  pose proof (resume_loaded_account _ _ _ _ Hacc Hown) as Hupdate.
  pose proof (resume_asked_account _ _ _ Hacc) as Hbefore.
  pose proof (resume_asked_account _ _ _ Hacc') as Hafter.
  split_and!.
  - rewrite deliver_1, Hbefore. cbn [fst snd]. rewrite deliver_0, Hselect. cbn [fst snd].
    by rewrite deliver_0, Hupdate.
  - rewrite deliver_0, Hselect. cbn [fst snd]. rewrite deliver_1, Hbefore. cbn [fst snd].
    by rewrite deliver_0, Hupdate.
  - rewrite deliver_0, Hselect. cbn [fst snd]. rewrite deliver_0, Hupdate. cbn [fst snd].
    by rewrite deliver_1, Hafter.
Qed.

(** C13. A lost update.  Two updates of the same account whose reads
    are both executed before either write: both promises resolve, each
    with the row it wrote, but the store is the one the second update
    alone would have left.  A field only the first patch sets is
    reported as changed to the first caller and holds its old value in
    the store. *)
Theorem lost_update userId d0 d1 db r :
  account_of userId db r → owns userId (d0 ∪ r) → owns userId (d1 ∪ r) →
  run [0; 1; 0; 1] (System [Called userId d0; Called userId d1] db) =
    System [Settled (Returned (VObj (assign (account_sets (d0 ∪ r)) r)));
            Settled (Returned (VObj (assign (account_sets (d1 ∪ r)) r)))]
           (updateAccount userId d1 db).1 ∧
  account_of userId (updateAccount userId d1 db).1 (assign (account_sets (d1 ∪ r)) r) ∧
  ∀ k v, k ∈ account_fields → d0 !! k = Some v → d1 !! k = None →
    assign (account_sets (d0 ∪ r)) r !! k = Some (sql_value v) ∧
    assign (account_sets (d1 ∪ r)) r !! k = r !! k.
Proof.
  intros Hacc Hown0 Hown1. rewrite (updateAccount_write _ _ _ _ Hacc Hown1). cbn [fst].
  split; [|split].
  - rewrite !run_cons, run_nil.
    rewrite deliver_0, (resume_called_account _ _ _ _ Hacc). cbn [fst snd].
    rewrite deliver_1, (resume_called_account _ _ _ _ Hacc). cbn [fst snd].
    rewrite deliver_0, (resume_loaded_account _ _ _ _ Hacc Hown0). cbn [fst snd].
    rewrite deliver_1,
      (resume_loaded_account _ _ _ _ (write_account_of _ _ _ _ Hacc Hown0) Hown1).
    cbn [fst snd].
    by rewrite assign_account_overwrite, (write_account_overwrite _ _ _ _ Hown0 Hown1).
  - by apply write_account_of.
  - intros k v Hk Hd0 Hd1. destruct (account_of_row_wf _ _ _ Hacc) as (t & Hrow & Hcols).
    destruct (patched_row_fields d0 r t Hrow Hcols) as (Hset & _ & _).
    destruct (patched_row_fields d1 r t Hrow Hcols) as (_ & Hkept & _).
    split; [by apply Hset | by apply Hkept].
Qed.

End races.

(** ** Updates that do not overlap *)

Section serial.
Context {E : RowEntity}.
Implicit Types db : database.

(** Invocations whose queries do not interleave behave as the methods
    called one after the other: the second runs on the store the first
    has left. *)
Lemma run_serial userId0 d0 userId1 d1 db :
  run [0; 0; 1; 1] (System [Called userId0 d0; Called userId1 d1] db) =
    System [Settled (updateAccount userId0 d0 db).2;
            Settled (updateAccount userId1 d1 (updateAccount userId0 d0 db).1).2]
           (updateAccount userId1 d1 (updateAccount userId0 d0 db).1).1.
Proof.
  rewrite !run_cons, run_nil. rewrite !deliver_0, resume_twice. cbn [fst snd].
  by rewrite !deliver_1, resume_twice.
Qed.

(** Without overlap nothing is lost: after two updates of the
    same account one after the other, the user has one row, the one
    reported to the second caller, and a field only the first patch
    sets holds the value of the first patch. *)
Theorem serial_updates_compose `{!PatchLaws E} userId d0 d1 db r :
  account_of userId db r → owns userId (d0 ∪ r) → owns userId (d1 ∪ r) →
  ∃ r0 r1,
    run [0; 0; 1; 1] (System [Called userId d0; Called userId d1] db) =
      System [Settled (Returned (VObj r0)); Settled (Returned (VObj r1))]
             (write_account (d1 ∪ r0) (write_account (d0 ∪ r) db)) ∧
    account_of userId (write_account (d1 ∪ r0) (write_account (d0 ∪ r) db)) r1 ∧
    ∀ k v, k ∈ account_fields → d0 !! k = Some v → d1 !! k = None →
      r1 !! k = Some (sql_value v).
Proof.
  intros Hacc Hown0 Hown1.
  pose proof (write_account_of _ _ _ _ Hacc Hown0) as Hacc0.
  pose proof (owns_assign _ _ (d0 ∪ r) _ Hown1) as Hown1'.
  eexists _, _. split; [|split].
  - rewrite run_serial, (updateAccount_write _ _ _ _ Hacc Hown0). cbn [fst snd].
    by rewrite (updateAccount_write _ _ _ _ Hacc0 Hown1').
  - by apply write_account_of.
  - intros k v Hk Hd0 Hd1.
    destruct (account_of_row_wf _ _ _ Hacc) as (t & Hrow & Hcols).
    destruct (account_of_row_wf _ _ _ Hacc0) as (t0 & Hrow0 & Hcols0).
    destruct (patched_row_fields d0 r t Hrow Hcols) as (Hset & _ & _).
    destruct (patched_row_fields d1 _ t0 Hrow0 Hcols0) as (_ & Hkept & _).
    rewrite Hkept by done. by apply Hset.
Qed.

End serial.

(** ** Examples *)

(** Two patches for the account of user 4 ([AccountMapper.dave]). *)
Definition rename : obj := {[ "username" := PStr "b" ]}.
Definition readdress : obj := {[ "email" := PStr "d@y.com" ]}.

Definition two_updates : system :=
  System [Called (PStr "4") rename; Called (PStr "4") readdress] db1.

Lemma dave_account : account_of (PStr "4") db1 dave.
Proof.
  exists users1. split; [apply db1_wf|]. split; [apply lookup_singleton_eq|].
  split; [apply users1_account_columns | apply users1_dave].
Qed.

Lemma dave_owns d : d !! "userId" = None → owns (PStr "4") (d ∪ dave).
Proof. intros Hd. exists (PNum 4). by rewrite lookup_union_r. Qed.

Lemma reads_invisible_witness :
  store (Schedule.run (resume (E:=merging_rows)) [1; 0; 1; 0]
           (System [Called (PStr "4") rename; Asked (PStr "4")] db1)) =
    store (Schedule.run (resume (E:=merging_rows)) [0; 0]
             (System [Called (PStr "4") rename; Asked (PStr "4")] db1)).
Proof.
  exact (proj1 (reads_invisible (E:=merging_rows) [1; 0; 1; 0]
                  (System [Called (PStr "4") rename; Asked (PStr "4")] db1))).
Defined.

Lemma update_visible_at_write_witness :
  Schedule.run (resume (E:=merging_rows)) [0; 1; 0] (System [Called (PStr "4") rename; Asked (PStr "4")] db1) =
    System [Settled (Returned (VObj (assign (account_sets (rename ∪ dave)) dave)));
            Settled (Returned (VObj dave))]
           (write_account (rename ∪ dave) db1).
Proof.
  by apply (update_visible_at_write (E:=merging_rows) (PStr "4") rename db1 dave
              dave_account (dave_owns rename eq_refl)).
Defined.

Lemma query_count_bound_witness :
  2 + queries_left
        (Schedule.deliver (resume (E:=merging_rows)) 1 (Schedule.deliver (resume (E:=merging_rows)) 0 two_updates)) ≤
    queries_left two_updates ∧
  queries_left two_updates ≤ 2 * length (tasks two_updates).
Proof.
  apply (query_count_bound (E:=merging_rows)).
  apply (nsteps_l _ _ _ (Schedule.deliver (resume (E:=merging_rows)) 0 two_updates));
    [by econstructor|].
  apply nsteps_once. by econstructor.
Defined.

Lemma schedule_settles_witness :
  ∃ result, tasks (Schedule.run (resume (E:=merging_rows)) [1; 0; 1; 0; 0] two_updates) !! 0
              = Some (Settled result).
Proof.
  apply (schedule_settles (E:=merging_rows) _ 0 two_updates (Called (PStr "4") rename));
    [done | vm_compute; lia].
Defined.

Lemma interleaving_invariant_witness :
  db_wf (store (Schedule.run (resume (E:=merging_rows)) [0; 1; 0; 1] two_updates)) ∧
  same_owners (store two_updates) (store (Schedule.run (resume (E:=merging_rows)) [0; 1; 0; 1] two_updates)) ∧
  length (tasks (Schedule.run (resume (E:=merging_rows)) [0; 1; 0; 1] two_updates)) = length (tasks two_updates).
Proof.
  apply (interleaving_invariant (E:=merging_rows)); [apply run_steps | apply db1_wf].
Defined.

Lemma lost_update_witness :
  Schedule.run (resume (E:=merging_rows)) [0; 1; 0; 1] two_updates =
    System [Settled (Returned (VObj (assign (account_sets (rename ∪ dave)) dave)));
            Settled (Returned (VObj (assign (account_sets (readdress ∪ dave)) dave)))]
           (updateAccount (E:=merging_rows) (PStr "4") readdress db1).1 ∧
  account_of (PStr "4") (updateAccount (E:=merging_rows) (PStr "4") readdress db1).1
    (assign (account_sets (readdress ∪ dave)) dave) ∧
  ∀ k v, k ∈ account_fields → rename !! k = Some v → readdress !! k = None →
    assign (account_sets (rename ∪ dave)) dave !! k = Some (sql_value v) ∧
    assign (account_sets (readdress ∪ dave)) dave !! k = dave !! k.
Proof.
  apply (lost_update (E:=merging_rows) (PStr "4") rename readdress db1 dave);
    [apply dave_account | by apply dave_owns..].
Defined.

Lemma serial_updates_compose_witness :
  ∃ r0 r1,
    Schedule.run (resume (E:=merging_rows)) [0; 0; 1; 1] two_updates =
      System [Settled (Returned (VObj r0)); Settled (Returned (VObj r1))]
             (write_account (readdress ∪ r0) (write_account (rename ∪ dave) db1)) ∧
    account_of (PStr "4")
      (write_account (readdress ∪ r0) (write_account (rename ∪ dave) db1)) r1 ∧
    ∀ k v, k ∈ account_fields → rename !! k = Some v → readdress !! k = None →
      r1 !! k = Some (sql_value v).
Proof.
  apply (serial_updates_compose (E:=merging_rows) (PStr "4") rename readdress db1 dave);
    [apply dave_account | by apply dave_owns..].
Defined.

(** The row of user 4 after the overlapping updates: the new address
    and the old name, while the first caller was told the new name. *)
Example lost_update_row :
  assign (account_sets (readdress ∪ dave)) dave !! "username" = Some (PStr "d") ∧
  assign (account_sets (readdress ∪ dave)) dave !! "email" = Some (PStr "d@y.com") ∧
  assign (account_sets (rename ∪ dave)) dave !! "username" = Some (PStr "b").
Proof. by rewrite !assign_account_field by (unfold account_fields; set_solver). Qed.
