(* ===== verification/Serializable.v ===== *)
(** * Invocations that do not conflict

    Two invocations of [updateAccount] that work for different users
    touch different rows of [users], and two invocations of
    [findAccountByUserId] write nothing: the order in which the
    database executes their queries does not matter.  This file proves
    it for every number of invocations and every schedule: when no two
    invocations in flight conflict (an update with an update or a read
    of the same user), two schedules that deliver the same queries, in
    whatever order, end in the same system ([disjoint_schedules]).
    With [Interleaving.lost_update] it locates the hazard of overlapping
    requests precisely: updates of the same account. *)

From stdpp Require Import base tactics option list strings gmap sorting.
From S2P Require Import Prelude JsValue Database AccountMapper AccountSpec Schedule Interleaving.

Import AccountDataMapper.

(** ** Whom a task works for *)

(** The value the next query of a task filters [user_id] on: the
    argument [userId] for the [SELECT], [account.userId] for the
    [UPDATE]. *)
Definition task_param (k : task) : option prim :=
  match k with
  | Called userId _ => Some (sql_value userId)
  | Loaded account => Some (owner_param account)
  | Asked userId => Some (sql_value userId)
  | Settled _ => None
  end.

(** Two tasks that do not conflict: both only read, or they filter on
    different texts. *)
Definition foreign (k k' : task) : Prop :=
  (reads_only k = true ∧ reads_only k' = true) ∨
  ∀ p q, task_param k = Some p → task_param k' = Some q → to_string p ≠ to_string q.

(** A patch that leaves the owner key alone. *)
Definition task_ok (k : task) : Prop :=
  match k with
  | Called _ d => d !! "userId" = None
  | Loaded _ | Asked _ | Settled _ => True
  end.

(** The systems of this file: patches without owner key, rows that
    carry their owner under [userId] too, tasks that pairwise do not
    conflict. *)
Definition disjoint (s : system) : Prop :=
  Forall task_ok (tasks s) ∧
  (∀ t, store s !! tableName = Some t → Forall keyed (table_rows t)) ∧
  ∀ i j ki kj, i ≠ j → tasks s !! i = Some ki → tasks s !! j = Some kj → foreign ki kj.

(** ** Rows of different users *)

Section rows.
Implicit Types p q : prim.
Implicit Types x : obj.
Implicit Types t : table.

Lemma matches_text col p x : matches col p x → to_string (get_prop x col) = to_string p.
Proof. unfold matches. rewrite sql_eq_text. tauto. Qed.

Lemma matches_disjoint p q x :
  to_string p ≠ to_string q → matches "user_id" p x → ¬ matches "user_id" q x.
Proof. intros Hne Hp Hq. apply Hne. by rewrite <- (matches_text _ _ _ Hp), (matches_text _ _ _ Hq). Qed.

(** The rows of one user are not touched by the [UPDATE] for another. *)
Lemma filter_foreign_write t account q :
  to_string (owner_param account) ≠ to_string q →
  filter (matches "user_id" q) (table_rows (updated_users t account)) =
    filter (matches "user_id" q) (table_rows t).
Proof.
  intros Hne. unfold updated_users. cbn [table_rows].
  rewrite (filter_fmap_iff _ _ (matches "user_id" q)) by (intros x; apply matches_updated).
  rewrite <- (list_fmap_id (filter _ (table_rows t))) at 2. apply list_fmap_ext.
  intros i x Hx. apply update_row_no_match.
  apply list_elem_of_lookup_2, list_elem_of_filter in Hx as [Hx _].
  intros Hm. by eapply matches_disjoint.
Qed.

(** Two [UPDATE]s for different users commute. *)
Lemma updated_users_commute t a b :
  to_string (owner_param a) ≠ to_string (owner_param b) →
  updated_users (updated_users t b) a = updated_users (updated_users t a) b.
Proof.
  intros Hne. unfold updated_users. cbn [columns table_rows]. f_equal.
  rewrite <- !list_fmap_compose. apply list_fmap_ext. intros _ x _. cbn [compose].
  destruct (decide (matches "user_id" (owner_param a) x)) as [Ha|Ha];
    destruct (decide (matches "user_id" (owner_param b) x)) as [Hb|Hb].
  - destruct (matches_disjoint _ _ _ Hne Ha Hb).
  - rewrite (update_row_no_match _ (owner_param b) _ x), (update_row_matches _ _ _ x) by done.
    by rewrite update_row_no_match by by rewrite matches_assign_account.
  - rewrite (update_row_no_match _ (owner_param a) _ x), (update_row_matches _ _ _ x) by done.
    by rewrite update_row_no_match by by rewrite matches_assign_account.
  - rewrite (update_row_no_match _ (owner_param b) _ x) by done.
    rewrite !(update_row_no_match _ (owner_param a) _ x) by done.
    by rewrite update_row_no_match.
Qed.

End rows.

(** ** Queries of different users *)

#[export] Instance has_account_columns_dec t : Decision (has_account_columns t).
Proof. unfold has_account_columns. apply _. Defined.

Section queries.
Context {E : RowEntity}.
Implicit Types db : database.
Implicit Types k : task.

Lemma resume_loaded account db t :
  db !! tableName = Some t → has_account_columns t →
  resume (Loaded account) db =
    (<[tableName := updated_users t account]> db,
     Settled (Returned (array_get
       (assign (account_sets account)
          <$> filter (matches "user_id" (owner_param account)) (table_rows t)) 0))).
Proof. intros Ht Hcols. unfold resume. by rewrite (updateAccountQuery_run _ _ _ Ht Hcols). Qed.

Lemma resume_loaded_fails account db :
  (∀ t, db !! tableName = Some t → ¬ has_account_columns t) →
  ∃ e, resume (Loaded account) db = (db, Settled (Thrown e)).
Proof.
  intros Hno.
  destruct (updateAccountQuery_cases account db) as [[e He] | (t & Ht & Hcols)];
    [|by destruct (Hno t Ht)].
  exists e. unfold resume. by rewrite He.
Qed.

(** Whether the [UPDATE] can run depends on the store alone. *)
Lemma users_cases db :
  (∃ t, db !! tableName = Some t ∧ has_account_columns t) ∨
  (∀ t, db !! tableName = Some t → ¬ has_account_columns t).
Proof.
  destruct (db !! tableName) as [t|]; [|by right].
  destruct (decide (has_account_columns t)); [left; by exists t | right; by intros ? [= <-]].
Qed.

(** What the [SELECT] of a task finds depends on the rows of its user
    alone. *)
Lemma resume_called_frame userId d db db' t t' :
  db !! tableName = Some t → db' !! tableName = Some t' →
  has_account_columns t → columns t' = columns t →
  filter (matches "user_id" (sql_value userId)) (table_rows t') =
    filter (matches "user_id" (sql_value userId)) (table_rows t) →
  (resume (Called userId d) db').2 = (resume (Called userId d) db).2.
Proof.
  intros Ht Ht' Hcols Hc Hf. rewrite !resume_called.
  pose proof (has_account_columns_owner _ Hcols) as Ho.
  rewrite (findAccountByUserId_select userId db t Ht Ho).
  rewrite <- Hc in Ho. rewrite (findAccountByUserId_select userId db' t' Ht' Ho), Hf.
  destruct (first_or_null _) as [p|r]; [by destruct (truthy p) | by destruct updateFromData].
Qed.

(** A read after the write of another user. *)
Lemma resume_called_after_write userId d account db :
  to_string (owner_param account) ≠ to_string (sql_value userId) →
  (resume (Called userId d) (resume (Loaded account) db).1).2 =
    (resume (Called userId d) db).2.
Proof.
  intros Hne. destruct (users_cases db) as [(t & Ht & Hcols) | Hno].
  - rewrite (resume_loaded _ _ _ Ht Hcols). cbn [fst].
    eapply resume_called_frame; [done|by rewrite lookup_insert_eq|done..|].
    by apply filter_foreign_write.
  - by destruct (resume_loaded_fails account db Hno) as [e ->].
Qed.

(** What a read finds after the write of another user. *)
Lemma resume_asked_after_write userId account db :
  to_string (owner_param account) ≠ to_string (sql_value userId) →
  (resume (Asked userId) (resume (Loaded account) db).1).2 = (resume (Asked userId) db).2.
Proof.
  intros Hne. rewrite !resume_asked. cbn [snd]. f_equal.
  destruct (users_cases db) as [(t & Ht & Hcols) | Hno];
    [|by destruct (resume_loaded_fails account db Hno) as [e ->]].
  pose proof (has_account_columns_owner _ Hcols) as Ho.
  rewrite (resume_loaded _ _ _ Ht Hcols). cbn [fst].
  rewrite (findAccountByUserId_select userId db t Ht Ho).
  rewrite (findAccountByUserId_select userId _ (updated_users t account)
             (lookup_insert_eq _ _ _) Ho).
  cbn [snd]. by rewrite filter_foreign_write.
Qed.

(** Two writes for different users. *)
Lemma resume_loaded_commute a b db :
  to_string (owner_param a) ≠ to_string (owner_param b) →
  resume (Loaded a) (resume (Loaded b) db).1 =
    ((resume (Loaded b) (resume (Loaded a) db).1).1, (resume (Loaded a) db).2).
Proof.
  intros Hne. destruct (users_cases db) as [(t & Ht & Hcols) | Hno].
  - rewrite (resume_loaded a _ _ Ht Hcols), (resume_loaded b _ _ Ht Hcols). cbn [fst snd].
    rewrite (resume_loaded a (<[tableName := updated_users t b]> db) (updated_users t b)
               (lookup_insert_eq _ _ _) Hcols).
    rewrite (resume_loaded b (<[tableName := updated_users t a]> db) (updated_users t a)
               (lookup_insert_eq _ _ _) Hcols).
    cbn [fst]. rewrite !insert_insert_eq, (updated_users_commute _ _ _ Hne).
    by rewrite filter_foreign_write by done.
  - destruct (resume_loaded_fails a db Hno) as [ea Ha].
    destruct (resume_loaded_fails b db Hno) as [eb Hb].
    rewrite Hb. cbn [fst]. rewrite Ha. cbn [fst snd]. by rewrite Hb.
Qed.

(** A task whose next query does not write: called, asked, or
    settled. *)
Lemma resume_reads k db :
  (∀ account, k ≠ Loaded account) → (resume k db).1 = db.
Proof.
  destruct k as [userId d|account|userId|result];
    [intros _; apply resume_called_store | intros H; by destruct (H account)
    |by rewrite resume_asked | done].
Qed.

(** A query that does not write can be executed before or after any
    other. *)
Lemma resume_commute_read ki kj db :
  (∀ account, kj ≠ Loaded account) →
  resume ki (resume kj db).1 = ((resume kj (resume ki db).1).1, (resume ki db).2).
Proof. intros Hkj. rewrite !resume_reads by done. by destruct (resume ki db). Qed.

(** The queries of two tasks that do not conflict can be executed in
    either order. *)
Lemma resume_commute ki kj db :
  foreign ki kj →
  resume ki (resume kj db).1 = ((resume kj (resume ki db).1).1, (resume ki db).2).
Proof.
  intros Hf. destruct kj as [uj dj|b|uj|rj]; try by apply resume_commute_read.
  destruct Hf as [[_ [=]]|Hf]. destruct ki as [ui di|a|ui|ri].
  - rewrite (surjective_pairing (resume (Called ui di) (resume (Loaded b) db).1)).
    rewrite !resume_called_store. f_equal. apply resume_called_after_write.
    intros Heq. by eapply Hf.
  - apply resume_loaded_commute. by eapply Hf.
  - rewrite (surjective_pairing (resume (Asked ui) (resume (Loaded b) db).1)).
    rewrite !(resume_reads (Asked ui)) by done. f_equal. apply resume_asked_after_write.
    intros Heq. by eapply Hf.
  - done.
Qed.

End queries.

(** ** Systems of tasks for different users *)

Section schedules.
Context `{!PatchLaws E}.
Implicit Types s : system.
Implicit Types db : database.
Implicit Types k : task.

(** A task that has read holds the account of the user it was called
    for: the text its queries filter on stays the same. *)
Lemma resume_param k db p' :
  task_ok k → (∀ t, db !! tableName = Some t → Forall keyed (table_rows t)) →
  task_param (resume k db).2 = Some p' →
  ∃ p, task_param k = Some p ∧ to_string p' = to_string p.
Proof.
  intros Hok Hkeyed Hp.
  destruct k as [userId d|account|userId|result]; [| |by rewrite resume_asked in Hp|done].
  - exists (sql_value userId). split; [done|]. revert Hp. rewrite resume_called.
    destruct (findAccountByUserId userId db) as [db1 [[v|r]|e]] eqn:Hfind;
      [by destruct (truthy v)| |done].
    destruct patch_defined as [f Hf]. rewrite Hf. intros [= <-].
    apply findAccountByUserId_row in Hfind as (t & Ht & Hin & Hm).
    destruct (proj1 (Forall_forall _ _) (Hkeyed t Ht) r Hin) as (o & Ho & Hkey).
    unfold owner_param, get_prop. rewrite (patch_absent _ _ _ _ Hf Hok), Ho.
    simpl default. apply sql_eq_text in Hkey as (Hn & _ & Heq).
    rewrite <- (matches_text _ _ _ Hm), <- Heq. by destruct o.
  - unfold resume in Hp. by destruct (client_query _ db) as [db1 [res|e]].
Qed.

Lemma resume_ok k db : task_ok (resume k db).2.
Proof.
  destruct k as [userId d|account|userId|result]; [| |by rewrite resume_asked|done].
  - rewrite resume_called.
    by destruct (findAccountByUserId userId db) as [db1 [[v|r]|e]];
      [destruct (truthy v) | destruct updateFromData |].
  - unfold resume. by destruct (client_query _ db) as [db1 [res|e]].
Qed.

Lemma resume_keyed k db :
  (∀ t, db !! tableName = Some t → Forall keyed (table_rows t)) →
  ∀ t, (resume k db).1 !! tableName = Some t → Forall keyed (table_rows t).
Proof.
  intros Hkeyed. destruct (resume_store_cases k db) as [-> | (t & a & Ht & _ & ->)]; [done|].
  intros t'. rewrite lookup_insert_eq. intros [= <-]. unfold updated_users.
  cbn [table_rows]. apply Forall_fmap. eapply Forall_impl; [by apply Hkeyed|].
  intros x. apply update_row_keyed.
Qed.

(** Tasks that do not conflict never will. *)
Lemma resume_foreign k k' db :
  task_ok k → (∀ t, db !! tableName = Some t → Forall keyed (table_rows t)) →
  foreign k k' → foreign (resume k db).2 k' ∧ foreign k' (resume k db).2.
Proof.
  intros Hok Hkeyed [[Hk Hk']|Hf];
    [destruct (resume_reads_only k db Hk) as [_ Hr]; split; by left|].
  split; right; intros p q Hp Hq;
    [destruct (resume_param _ _ _ Hok Hkeyed Hp) as (p0 & Hp0 & ->)
    |destruct (resume_param _ _ _ Hok Hkeyed Hq) as (q0 & Hq0 & ->)];
    [|apply not_eq_sym]; by eapply Hf.
Qed.

End schedules.

Section permutations.
Context `{!PatchLaws E}.
Implicit Types s : system.

(** Resuming a task keeps the system within the systems of this file. *)
Lemma deliver_disjoint i s : disjoint s → disjoint (deliver i s).
Proof.
  intros (Hok & Hkeyed & Hfor).
  destruct (tasks s !! i) as [k|] eqn:Hk; [|by rewrite deliver_none].
  pose proof (proj1 (Forall_forall _ _) Hok k (list_elem_of_lookup_2 _ _ _ Hk)) as Hk_ok.
  rewrite (deliver_task _ _ _ Hk). split; [|split]; cbn [tasks store].
  - apply Forall_insert; [done | apply resume_ok].
  - by apply resume_keyed.
  - intros j1 j2 k1 k2 Hne H1 H2.
    destruct (decide (j1 = i)) as [->|Hn1]; [|destruct (decide (j2 = i)) as [->|Hn2]].
    + rewrite list_lookup_insert_eq in H1 by by eapply lookup_lt_Some.
      rewrite list_lookup_insert_ne in H2 by done. injection H1 as <-.
      exact (proj1 (resume_foreign k k2 (store s) Hk_ok Hkeyed (Hfor i j2 k k2 Hne Hk H2))).
    + rewrite list_lookup_insert_eq in H2 by by eapply lookup_lt_Some.
      rewrite list_lookup_insert_ne in H1 by done. injection H2 as <-.
      exact (proj2 (resume_foreign k k1 (store s) Hk_ok Hkeyed
                      (Hfor i j1 k k1 (not_eq_sym Hne) Hk H1))).
    + rewrite list_lookup_insert_ne in H1, H2 by done. by apply (Hfor j1 j2).
Qed.

(** The queries of two tasks can be executed in either order. *)
Lemma deliver_commute i j s : disjoint s → deliver i (deliver j s) = deliver j (deliver i s).
Proof.
  intros (_ & _ & Hfor). destruct (decide (i = j)) as [->|Hne]; [done|].
  destruct (tasks s !! i) as [ki|] eqn:Hi;
    [|rewrite (deliver_none i s Hi), (deliver_none i (deliver j s));
       [done | by rewrite deliver_other]].
  destruct (tasks s !! j) as [kj|] eqn:Hj;
    [|rewrite (deliver_none j s Hj), (deliver_none j (deliver i s));
       [done | by rewrite deliver_other]].
  pose proof (resume_commute ki kj (store s) (Hfor i j ki kj Hne Hi Hj)) as Hij.
  pose proof (resume_commute kj ki (store s) (Hfor j i kj ki (not_eq_sym Hne) Hj Hi)) as Hji.
  rewrite (deliver_task j s kj Hj), (deliver_task i s ki Hi).
  rewrite (deliver_task i _ ki), (deliver_task j _ kj)
    by (cbn [tasks]; by rewrite list_lookup_insert_ne).
  cbn [tasks store]. rewrite Hij. cbn [fst snd].
  rewrite (f_equal snd Hji). cbn [snd]. f_equal. by apply list_insert_insert_ne.
Qed.

(** C18. Updates of different users can overlap freely: when the
    invocations in flight work for pairwise different users (and no
    patch carries an owner key, and rows carry theirs), two schedules
    that execute the same queries in different orders end in the same
    system, promises and store. *)
Theorem disjoint_schedules schedule schedule' s :
  disjoint s → schedule ≡ₚ schedule' → run schedule s = run schedule' s.
Proof.
  intros Hd Hp. revert s Hd.
  induction Hp as [|x l l' _ IH|x y l|l1 l2 l3 _ IH1 _ IH2]; intros s Hd.
  - done.
  - rewrite !run_cons. by apply IH, deliver_disjoint.
  - rewrite !run_cons. by rewrite deliver_commute.
  - by rewrite IH1, IH2.
Qed.

End permutations.

(** Overlapping updates of two different users are the two methods
    called one after the other: both promises settle as the results of
    [updateAccount], the second on the store the first has left. *)
Corollary overlap_different_users `{!PatchLaws E} userId0 d0 userId1 d1 db :
  disjoint (System [Called userId0 d0; Called userId1 d1] db) →
  run [0; 1; 0; 1] (System [Called userId0 d0; Called userId1 d1] db) =
    System [Settled (updateAccount userId0 d0 db).2;
            Settled (updateAccount userId1 d1 (updateAccount userId0 d0 db).1).2]
           (updateAccount userId1 d1 (updateAccount userId0 d0 db).1).1.
Proof.
  intros Hd. rewrite <- run_serial, !run_cons.
  by rewrite (deliver_commute 0 1) by by apply deliver_disjoint.
Qed.

(** ** Examples *)

Definition erin : obj :=
  {[ "user_id" := PNum 5; "userId" := PNum 5; "username" := PStr "e";
     "email" := PStr "e@x.com"; "password" := PStr "h5" ]}.

Definition users2 : table :=
  Table ["user_id"; "userId"; "username"; "email"; "password"] [dave; erin].

Definition db2 : database := {[ "users" := users2 ]}.

(** An update of user 4 and an update of user 5. *)
Definition two_users : system :=
  System [Called (PStr "4") rename; Called (PStr "5") readdress] db2.

Lemma two_users_disjoint : disjoint two_users.
Proof.
  split; [by repeat constructor|]. split.
  - intros t. unfold two_users, db2. cbn [store]. rewrite lookup_singleton_eq.
    intros [= <-]. repeat constructor; [exists (PNum 4) | exists (PNum 5)]; by vm_compute.
  - intros [|[|i]] [|[|j]] ki kj Hne Hi Hj; simplify_eq/=; right; by intros p q [= <-] [= <-].
Qed.

Lemma disjoint_schedules_witness :
  Schedule.run (resume (E:=merging_rows)) [0; 1; 0; 1] two_users = Schedule.run (resume (E:=merging_rows)) [1; 0; 0; 1] two_users.
Proof.
  apply (disjoint_schedules (E:=merging_rows) _ _ two_users two_users_disjoint).
  apply perm_swap.
Defined.

Lemma overlap_different_users_witness :
  Schedule.run (resume (E:=merging_rows)) [0; 1; 0; 1] two_users =
    System [Settled (updateAccount (E:=merging_rows) (PStr "4") rename db2).2;
            Settled (updateAccount (E:=merging_rows) (PStr "5") readdress
                       (updateAccount (E:=merging_rows) (PStr "4") rename db2).1).2]
           (updateAccount (E:=merging_rows) (PStr "5") readdress
              (updateAccount (E:=merging_rows) (PStr "4") rename db2).1).1.
Proof. apply (overlap_different_users (E:=merging_rows)), two_users_disjoint. Defined.
