(* ===== verification/Arrivals.v ===== *)
(** * Invocations that arrive while others are in flight

    An [async] method runs until its first [await] when it is called:
    [updateAccount] ([src/app/models/accountDataMapper.js], line 28)
    logs its name, calls [findAccountByUserId] (line 29), which logs its
    own (line 15) and sends the [SELECT] (line 20), and only then is the
    invocation suspended.  [Interleaving] starts from tasks that are
    already suspended.  This file adds the calls: a call writes to the
    log and adds a task to the tasks in flight, whose queries the
    database executes later, in any order.  It shows that the log is
    the order of the calls, whatever the order of the queries, and that
    the tasks and the store are those of [Interleaving.run] on the tasks
    called. *)

From stdpp Require Import base tactics option list strings gmap.
From S2P Require Import Prelude JsValue Database AccountMapper Logging Schedule Interleaving.

Import AccountDataMapper.

(** ** Calls *)

(** The tasks in flight with the store, and the log. *)
Definition traced : Type := system * list entry.

(** The promise of a new invocation: its task is the last of the tasks
    in flight, and its place is handed to the caller. *)
Definition spawn (k : task) : exec traced exn nat :=
  λ t, ((System (tasks t.1 ++ [k]) (store t.1), t.2), Returned (length (tasks t.1))).

(** [findAccountByUserId(userId)] to its [await] (lines 15 to 20). *)
Definition call_findAccountByUserId (userId : prim) : exec traced exn nat :=
  Logged.debug (template [PStr Logged.name; PStr " findAccountByUserId"]);;
  spawn (Asked userId).

(** [updateAccount(userId, updatedAccountData)] to its [await] (lines
    28 and 29, then lines 15 to 20 of the method it calls). *)
Definition call_updateAccount (userId : prim) (updatedAccountData : obj) :
    exec traced exn nat :=
  Logged.debug (template [PStr Logged.name; PStr " updateAccount"]);;
  Logged.debug (template [PStr Logged.name; PStr " findAccountByUserId"]);;
  spawn (Called userId updatedAccountData).

(** What happens in the process: a method is called, or the database
    executes the pending query of a task. *)
Inductive event : Type :=
| CallFind (userId : prim)
| CallUpdate (userId : prim) (updatedAccountData : obj)
| Executed (i : nat).

#[export] Instance event_eq_dec : EqDecision event.
Proof. solve_decision. Defined.

Section trace.
Context {E : RowEntity}.

Definition occur (t : traced) (ev : event) : traced :=
  match ev with
  | CallFind userId => (call_findAccountByUserId userId t).1
  | CallUpdate userId d => (call_updateAccount userId d t).1
  | Executed i => (deliver i t.1, t.2)
  end.

Definition trace (evs : list event) (t : traced) : traced := foldl occur t evs.

End trace.

(** ** What a trace is made of *)

(** What an event writes to the log. *)
Definition entries_of (ev : event) : list entry :=
  match ev with
  | CallFind _ => [Entry "colis:dataMapper" "AccountDataMapper findAccountByUserId"]
  | CallUpdate _ _ =>
      [Entry "colis:dataMapper" "AccountDataMapper updateAccount";
       Entry "colis:dataMapper" "AccountDataMapper findAccountByUserId"]
  | Executed _ => []
  end.

(** The task an event puts in flight. *)
Definition spawned (ev : event) : list task :=
  match ev with
  | CallFind userId => [Asked userId]
  | CallUpdate userId d => [Called userId d]
  | Executed _ => []
  end.

(** The query an event executes. *)
Definition executed (ev : event) : list nat :=
  match ev with
  | Executed i => [i]
  | _ => []
  end.

(** No query is executed before its task was called: [n] tasks are in
    flight before the events. *)
Fixpoint timely (n : nat) (evs : list event) : bool :=
  match evs with
  | [] => true
  | Executed i :: evs' => bool_decide (i < n) && timely n evs'
  | _ :: evs' => timely (S n) evs'
  end.

(** ** Lemmas *)

Section trace_lemmas.
Context {E : RowEntity}.
Implicit Types t : traced.
Implicit Types s : system.
Implicit Types evs : list event.

Lemma trace_cons ev evs t : trace (ev :: evs) t = trace evs (occur t ev).
Proof. done. Qed.

Lemma trace_app evs1 evs2 t : trace (evs1 ++ evs2) t = trace evs2 (trace evs1 t).
Proof. apply foldl_app. Qed.

(** An event, in terms of what it is made of. *)
Lemma occur_log t ev : (occur t ev).2 = t.2 ++ entries_of ev.
Proof. destruct ev; cbv -[app]; by rewrite <- ?app_assoc, ?app_nil_r. Qed.

Lemma occur_call t ev :
  executed ev = [] → (occur t ev).1 = System (tasks t.1 ++ spawned ev) (store t.1).
Proof. by destruct ev. Qed.

Lemma trace_log evs t : (trace evs t).2 = t.2 ++ (evs ≫= entries_of).
Proof.
  revert t. induction evs as [|ev evs IH]; intros t; [by rewrite app_nil_r|].
  rewrite trace_cons, IH, occur_log, bind_cons. by rewrite <- app_assoc.
Qed.

Lemma trace_run evs t :
  timely (length (tasks t.1)) evs = true →
  (trace evs t).1 =
    run (evs ≫= executed) (System (tasks t.1 ++ (evs ≫= spawned)) (store t.1)).
Proof.
  revert t. induction evs as [|ev evs IH]; intros t Hevs.
  { cbn. rewrite app_nil_r. by destruct t as [[ks db] l]. }
  rewrite trace_cons, !bind_cons.
  destruct ev as [userId|userId d|i]; cbn [timely] in Hevs.
  1,2: rewrite IH, occur_call; rewrite ?occur_call; cbn [tasks store executed spawned app];
       rewrite ?length_app, ?Nat.add_1_r, <- ?app_assoc; done.
  apply andb_prop in Hevs as [Hi%bool_decide_eq_true_1 Hevs].
  rewrite IH by (cbn [occur fst]; by rewrite deliver_length).
  cbn [occur fst executed spawned app]. by rewrite run_cons, deliver_app.
Qed.

End trace_lemmas.

(** ** Theorems *)

Section arrivals.
Context {E : RowEntity}.



End arrivals.

(** ** An instance *)

(** A read called while an update is in flight, its query executed
    between the two queries of the update. *)
Definition read_during_update : list event :=
  [CallUpdate (PStr "4") {[ "username" := PStr "b" ]}; Executed 0;
   CallFind (PStr "4"); Executed 1; Executed 0].


