(* ===== verification/Router.v ===== *)
(** * The router of the users resource

    [src/back/app/routers/api/users.js]: the ten routes registered on
    the Express router, each with its middleware chain, the [@route]
    lines of their documentation and the [User] type definition.

    Express itself is not part of the sources.  Its dispatch is
    modelled here as far as the router relies on it: routes are tried
    in registration order; a route answers a request when the method
    fits ([get] also serves [HEAD]) and the pattern fits the path,
    literal segments compared without case, a [:name] segment bound to
    one non-empty segment, one trailing slash ignored; the handlers of
    a route run in order, each either passing control on ([next()]),
    ending the exchange, or failing. *)

From Stdlib Require Import Ascii.
From stdpp Require Import base tactics option list strings gmap.
From S2P Require Import Prelude.

(** ** What is registered *)

Inductive http_method : Type := GET | HEAD | POST | PUT | DELETE | PATCH.

#[export] Instance http_method_eq_dec : EqDecision http_method.
Proof. solve_decision. Defined.

(** The methods of [usersController] the router binds. *)
Module usersController.
Inductive action : Type :=
| findAll
| loginAction
| createSecureUser
| findByPk
| findAccountByUserId
| updateUserById
| delete
| findCarrierByUserId
| updateCarrierById.
End usersController.

#[export] Instance action_eq_dec : EqDecision usersController.action.
Proof. solve_decision. Defined.

(** The validation schemas the router names. *)
Inductive schema : Type :=
| userAuth_post
| schemas_post
| schemas_put.

#[export] Instance schema_eq_dec : EqDecision schema.
Proof. solve_decision. Defined.

Inductive middleware : Type :=
| authenticationJwt
| validate (s : schema) (target : string)
| controllerHandler (a : usersController.action).

#[export] Instance middleware_eq_dec : EqDecision middleware.
Proof. solve_decision. Defined.

Record route : Type := Route {
  route_method : http_method;
  route_path : string;
  route_stack : list middleware;
}.

#[export] Instance route_eq_dec : EqDecision route.
Proof. solve_decision. Defined.

Definition get_users : route :=
  Route GET "/" [controllerHandler usersController.findAll].

Definition post_login : route :=
  Route POST "/login"
    [validate userAuth_post "body"; controllerHandler usersController.loginAction].

Definition post_register : route :=
  Route POST "/register"
    [validate schemas_post "body"; controllerHandler usersController.createSecureUser].

Definition get_user : route :=
  Route GET "/:id" [authenticationJwt; controllerHandler usersController.findByPk].

Definition get_account : route :=
  Route GET "/:id/account"
    [authenticationJwt; controllerHandler usersController.findAccountByUserId].

Definition put_account : route :=
  Route PUT "/:id/account"
    [authenticationJwt; validate schemas_put "body";
     controllerHandler usersController.updateUserById].

Definition delete_account : route :=
  Route DELETE "/:id/account"
    [authenticationJwt; controllerHandler usersController.delete].

Definition get_carrier : route :=
  Route GET "/:id/carrier"
    [authenticationJwt; controllerHandler usersController.findCarrierByUserId].

Definition put_carrier : route :=
  Route PUT "/:id/carrier"
    [authenticationJwt; validate schemas_put "body";
     controllerHandler usersController.updateCarrierById].

Definition delete_carrier : route :=
  Route DELETE "/:id/carrier"
    [authenticationJwt; controllerHandler usersController.delete].

(** The router, in registration order. *)
Definition router : list route :=
  [get_users; post_login; post_register; get_user; get_account; put_account;
   delete_account; get_carrier; put_carrier; delete_carrier].

(** ** What is documented *)

(** The JSDoc types the comments name. *)
Inductive jsdoc_type : Type := TNumber | TEmail | TString | TBoolean.

#[export] Instance jsdoc_type_eq_dec : EqDecision jsdoc_type.
Proof. solve_decision. Defined.

(** Where a [@param] line places a parameter: the middle of
    [name.place.required]. *)
Inductive param_place : Type := in_query | in_body.

#[export] Instance param_place_eq_dec : EqDecision param_place.
Proof. solve_decision. Defined.

(** A [@param] line: [@param {type} name.place[.required]]. *)
Record doc_param : Type := DocParam {
  param_type : jsdoc_type;
  param_name : string;
  param_in : param_place;
  param_required : bool;
}.

#[export] Instance doc_param_eq_dec : EqDecision doc_param.
Proof. solve_decision. Defined.

(** The [@route] line, the [@param] lines and the status codes of the
    [@returns] lines of a route's comment. *)
Record route_doc : Type := RouteDoc {
  doc_method : http_method;
  doc_path : string;
  doc_params : list doc_param;
  doc_status : list nat;
}.

Definition doc_get_users := RouteDoc GET "/users" [] [200].

Definition doc_post_login :=
  RouteDoc POST "/users/login"
    [DocParam TString "email" in_query true; DocParam TString "password" in_query true]
    [200; 401].

Definition doc_post_register :=
  RouteDoc POST "/users/register"
    [DocParam TString "email" in_body true; DocParam TString "password" in_body true;
     DocParam TString "first_name" in_body true; DocParam TString "last_name" in_body true;
     DocParam TString "address" in_body true; DocParam TString "compAddress" in_body false;
     DocParam TString "zipcode" in_body true; DocParam TString "city" in_body true;
     DocParam TString "birth_date" in_body false;
     DocParam TString "phone_number" in_body true]
    [200; 500].

Definition doc_get_user := RouteDoc GET "/users/:id" [] [204].
Definition doc_get_account := RouteDoc GET "/users/:id/account" [] [].
Definition doc_put_account := RouteDoc PUT "/users/:id/account" [] [].
Definition doc_delete_account := RouteDoc DELETE "/users/:id/account" [] [204].
Definition doc_get_carrier := RouteDoc GET "/users/:id/carrier" [] [200; 404].
Definition doc_put_carrier := RouteDoc PUT "/users/:id/carrier" [] [200; 404].
Definition doc_delete_carrier := RouteDoc DELETE "/users/:id/carrier" [] [204].

(** Each comment with the registration that follows it. *)
Definition documented : list (route_doc * route) :=
  [(doc_get_users, get_users); (doc_post_login, post_login);
   (doc_post_register, post_register); (doc_get_user, get_user);
   (doc_get_account, get_account); (doc_put_account, put_account);
   (doc_delete_account, delete_account); (doc_get_carrier, get_carrier);
   (doc_put_carrier, put_carrier); (doc_delete_carrier, delete_carrier)].

(** The JSDoc type [User]: property names and their declared types. *)
Definition User : list (string * jsdoc_type) :=
  [("id", TNumber); ("email", TEmail); ("password", TString);
   ("first_name", TString); ("last_name", TString); ("address", TString);
   ("comp_address", TString); ("zipcode", TString); ("city", TString);
   ("birth_date", TString); ("phone_number", TString); ("carrier", TBoolean);
   ("identity_verified", TBoolean); ("role", TString);
   ("created_at", TString); ("updated_at", TString)].

(** ** How Express dispatches *)

Inductive pattern_segment : Type :=
| Lit (s : string)
| Param (name : string).

#[export] Instance pattern_segment_eq_dec : EqDecision pattern_segment.
Proof. solve_decision. Defined.

(** Drops one trailing empty segment (a trailing slash). *)
Fixpoint drop_trailing_empty (segs : list string) : list string :=
  match segs with
  | [] => []
  | [s] => if bool_decide (s = "") then [] else [s]
  | s :: rest => s :: drop_trailing_empty rest
  end.

(** The segments of a path that starts with a slash; [None] otherwise. *)
Definition path_segments (p : string) : option (list string) :=
  match split_on "/" p with
  | s :: segs => if bool_decide (s = "") then Some (drop_trailing_empty segs) else None
  | [] => None
  end.

Definition pattern_of_segment (s : string) : pattern_segment :=
  match s with
  | String ":" name => Param name
  | _ => Lit s
  end.

Definition parse_pattern (p : string) : option (list pattern_segment) :=
  fmap (M:=list) pattern_of_segment <$> path_segments p.

Fixpoint match_segments (pat : list pattern_segment) (segs : list string) :
    option (gmap string string) :=
  match pat, segs with
  | [], [] => Some ∅
  | Lit s :: pat', seg :: segs' =>
      if bool_decide (lower s = lower seg) then match_segments pat' segs' else None
  | Param name :: pat', seg :: segs' =>
      if bool_decide (seg = "") then None
      else <[name := seg]> <$> match_segments pat' segs'
  | _, _ => None
  end.

(** [router.get] also answers [HEAD]. *)
Definition method_handles (registered requested : http_method) : bool :=
  bool_decide (registered = requested)
  || bool_decide (registered = GET ∧ requested = HEAD).

(** The parameters a route binds on a request, [None] when it does not
    answer it. *)
Definition route_match (r : route) (m : http_method) (path : string) :
    option (gmap string string) :=
  if method_handles (route_method r) m then
    pat ← parse_pattern (route_path r);
    segs ← path_segments path;
    match_segments pat segs
  else None.

(** The routes that answer a request, in registration order, with the
    parameters each binds. *)
Definition dispatch (rs : list route) (m : http_method) (path : string) :
    list (route * gmap string string) :=
  omap (λ r, (r,.) <$> route_match r m path) rs.

(** The controller action of a chain. *)
Definition stack_action (stack : list middleware) : option usersController.action :=
  match last stack with
  | Some (controllerHandler a) => Some a
  | _ => None
  end.

(** The first route that answers, as the action it ends in, its
    parameters and the middleware before the action. *)
Definition handled_by (rs : list route) (m : http_method) (path : string) :
    option (route * gmap string string) :=
  head (dispatch rs m path).

(** ** Running a chain *)

(** What one handler does with a request. *)
Inductive step_result (Req Resp Err : Type) : Type :=
| Next (req : Req)
| Respond (resp : Resp)
| Fail (err : Err).
Arguments Next {Req Resp Err} req.
Arguments Respond {Req Resp Err} resp.
Arguments Fail {Req Resp Err} err.

(** How an exchange ends in the router: a response was sent, a handler
    failed (Express then runs its error handler), or every handler
    passed control on and the request leaves the router unanswered. *)
Inductive exchange (Req Resp Err : Type) : Type :=
| Responded (resp : Resp)
| Failed (err : Err)
| PassedOn (req : Req).
Arguments Responded {Req Resp Err} resp.
Arguments Failed {Req Resp Err} err.
Arguments PassedOn {Req Resp Err} req.

Section run.
Context {Req Resp Err : Type}.
Context (handle : middleware → Req → step_result Req Resp Err).
Context (with_params : Req → gmap string string → Req).

(** The handlers of a chain in order; the result is the list of
    handlers that were invoked and how the exchange stands. *)
Fixpoint run_stack (stack : list middleware) (req : Req) :
    list middleware * exchange Req Resp Err :=
  match stack with
  | [] => ([], PassedOn req)
  | mw :: rest =>
      match handle mw req with
      | Next req' => let '(tr, out) := run_stack rest req' in (mw :: tr, out)
      | Respond resp => ([mw], Responded resp)
      | Fail e => ([mw], Failed e)
      end
  end.

(** The router on a request: the chain of each route that answers it,
    in registration order, until one ends the exchange. *)
Fixpoint serve (rs : list route) (m : http_method) (path : string) (req : Req) :
    list middleware * exchange Req Resp Err :=
  match rs with
  | [] => ([], PassedOn req)
  | r :: rs' =>
      match route_match r m path with
      | Some params =>
          match run_stack (route_stack r) (with_params req params) with
          | (tr, PassedOn req') =>
              let '(tr', out) := serve rs' m path req' in (tr ++ tr', out)
          | (tr, out) => (tr, out)
          end
      | None => serve rs' m path req
      end
  end.

Definition is_controller (mw : middleware) : bool :=
  match mw with controllerHandler _ => true | _ => false end.

Definition passes (mw : middleware) (req : Req) : Prop :=
  ∃ req', handle mw req = Next req'.

(** *** Lemmas on chains *)

Lemma run_stack_prefix stack req : (run_stack stack req).1 `prefix_of` stack.
Proof.
  revert req. induction stack as [|mw rest IH]; intros req; simpl; [done|].
  destruct (handle mw req) as [req'|resp|e]; simpl.
  - specialize (IH req'). destruct (run_stack rest req') as [tr out]. simpl in *.
    by apply prefix_cons.
  - apply prefix_cons, prefix_nil.
  - apply prefix_cons, prefix_nil.
Qed.

(** A handler is invoked only after every handler before it passed
    control on. *)
Lemma run_stack_reached pre mw post req :
  mw ∈ (run_stack (pre ++ mw :: post) req).1 → mw ∉ pre →
  Forall (λ h, ∃ r, passes h r) pre.
Proof.
  revert req. induction pre as [|h pre IH]; intros req Hin Hnotin; [constructor|].
  apply not_elem_of_cons in Hnotin as [Hne Hnotin].
  simpl in Hin. destruct (handle h req) as [req'|resp|e] eqn:Hh; simpl in Hin.
  - constructor; [by exists req, req'|]. apply (IH req'); [|done].
    destruct (run_stack (pre ++ mw :: post) req') as [tr out]. simpl in *.
    by apply elem_of_cons in Hin as [?|?].
  - apply list_elem_of_singleton in Hin. congruence.
  - apply list_elem_of_singleton in Hin. congruence.
Qed.

(** A chain whose first handler does not pass control on stops there. *)
Lemma run_stack_stopped mw rest req :
  ¬ passes mw req →
  (run_stack (mw :: rest) req).1 = [mw] ∧
  ∀ req', (run_stack (mw :: rest) req).2 ≠ PassedOn req'.
Proof.
  intros Hstop. simpl. destruct (handle mw req) as [req'|resp|e] eqn:Hh; [|done..].
  destruct Hstop. by exists req'.
Qed.

(** Routes that do not answer are skipped. *)
Lemma serve_no_match rs m path req :
  dispatch rs m path = [] → serve rs m path req = ([], PassedOn req).
Proof.
  induction rs as [|r rs IH]; [done|]. unfold dispatch. simpl.
  destruct (route_match r m path) as [ps|]; [done|]. simpl. apply IH.
Qed.

(** With a single answering route, the router runs that chain. *)
Lemma serve_single rs m path req r ps :
  dispatch rs m path = [(r, ps)] →
  serve rs m path req = run_stack (route_stack r) (with_params req ps).
Proof.
  induction rs as [|r0 rs IH]; [done|]. unfold dispatch. simpl.
  destruct (route_match r0 m path) as [ps0|] eqn:Hm; simpl.
  - intros [= -> -> Hrest].
    destruct (run_stack (route_stack r) (with_params req ps)) as [tr [resp|e|req']]; [done..|].
    rewrite (serve_no_match _ _ _ _ Hrest). by rewrite app_nil_r.
  - apply IH.
Qed.

End run.

(** ** The routing table

    What the ten registrations amount to, by method and by the
    segments of the path. *)

Definition sub_resource (m : http_method) (name : string) : option route :=
  if bool_decide (name = "account") then
    match m with
    | GET | HEAD => Some get_account
    | PUT => Some put_account
    | DELETE => Some delete_account
    | _ => None
    end
  else if bool_decide (name = "carrier") then
    match m with
    | GET | HEAD => Some get_carrier
    | PUT => Some put_carrier
    | DELETE => Some delete_carrier
    | _ => None
    end
  else None.

Definition routing_table (m : http_method) (segs : list string) :
    option (route * gmap string string) :=
  match segs with
  | [] =>
      match m with
      | GET | HEAD => Some (get_users, ∅)
      | _ => None
      end
  | [s] =>
      match m with
      | POST =>
          if bool_decide (lower s = "login") then Some (post_login, ∅)
          else if bool_decide (lower s = "register") then Some (post_register, ∅)
          else None
      | GET | HEAD => if bool_decide (s = "") then None else Some (get_user, {[ "id" := s ]})
      | _ => None
      end
  | [s; t] =>
      if bool_decide (s = "") then None
      else (λ r, (r, {[ "id" := s ]})) <$> sub_resource m (lower t)
  | _ => None
  end.

(** The controller actions the registrations bind, by method and by
    the segments of the path. *)
Definition account_action (m : http_method) : option usersController.action :=
  match m with
  | GET | HEAD => Some usersController.findAccountByUserId
  | PUT => Some usersController.updateUserById
  | DELETE => Some usersController.delete
  | _ => None
  end.

Definition carrier_action (m : http_method) : option usersController.action :=
  match m with
  | GET | HEAD => Some usersController.findCarrierByUserId
  | PUT => Some usersController.updateCarrierById
  | DELETE => Some usersController.delete
  | _ => None
  end.

Definition bound_action (m : http_method) (segs : list string) :
    option usersController.action :=
  match segs with
  | [] =>
      match m with
      | GET | HEAD => Some usersController.findAll
      | _ => None
      end
  | [s] =>
      match m with
      | POST =>
          if bool_decide (lower s = "login") then Some usersController.loginAction
          else if bool_decide (lower s = "register") then Some usersController.createSecureUser
          else None
      | GET | HEAD => if bool_decide (s = "") then None else Some usersController.findByPk
      | _ => None
      end
  | [s; t] =>
      if bool_decide (s = "") then None
      else if bool_decide (lower t = "account") then account_action m
      else if bool_decide (lower t = "carrier") then carrier_action m
      else None
  | _ => None
  end.

(** [dispatch] on the segments of the path. *)
Definition segs_match (r : route) (m : http_method) (segs : list string) :
    option (gmap string string) :=
  if method_handles (route_method r) m then
    pat ← parse_pattern (route_path r); match_segments pat segs
  else None.

Definition dispatch_segs (rs : list route) (m : http_method) (segs : list string) :
    list (route * gmap string string) :=
  omap (λ r, (r,.) <$> segs_match r m segs) rs.

Section dispatch_lemmas.
Implicit Types m : http_method.
Implicit Types segs : list string.

Lemma route_match_segs r m path segs :
  path_segments path = Some segs → route_match r m path = segs_match r m segs.
Proof.
  intros Hp. unfold route_match, segs_match. rewrite Hp.
  destruct (method_handles _ _); [|done]. by destruct (parse_pattern _).
Qed.

Lemma route_match_no_path r m path : path_segments path = None → route_match r m path = None.
Proof.
  intros Hp. unfold route_match. rewrite Hp.
  destruct (method_handles _ _); [|done]. by destruct (parse_pattern _).
Qed.

Lemma dispatch_path_segs rs m path segs :
  path_segments path = Some segs → dispatch rs m path = dispatch_segs rs m segs.
Proof.
  intros Hp. unfold dispatch, dispatch_segs. apply list_omap_ext, Forall_Forall2_diag.
  apply Forall_forall. intros r _. by rewrite (route_match_segs _ _ _ _ Hp).
Qed.

Lemma dispatch_no_path rs m path : path_segments path = None → dispatch rs m path = [].
Proof.
  intros Hp. unfold dispatch. induction rs as [|r rs IH]; [done|]. simpl.
  by rewrite (route_match_no_path _ _ _ Hp).
Qed.

End dispatch_lemmas.

(** *** Paths by their segments *)

(** The request path with the given segments, [/s1/.../sn]. *)
Definition path_of (segs : list string) : string := String "/" (join_with "/" segs).

(** A segment: a string without a slash. *)
Definition segment (s : string) : Prop := has_char "/" s = false.

#[export] Instance segment_dec s : Decision (segment s).
Proof. unfold segment. apply _. Defined.

(** The path that addresses a route with given parameters: its
    pattern with every [:name] replaced by the parameter's value. *)
Definition print_segment (ps : gmap string string) (seg : pattern_segment) : option string :=
  match seg with
  | Lit s => Some s
  | Param name => ps !! name
  end.

Definition route_url (r : route) (ps : gmap string string) : option string :=
  pat ← parse_pattern (route_path r); path_of <$> mapM (print_segment ps) pat.

(** The parameters a route declares. *)
Definition route_params (r : route) : list string :=
  pat ← default [] (parse_pattern (route_path r));
  match pat with Param name => [name] | Lit _ => [] end.

(** A value a parameter can take: a non-empty segment. *)
Definition param_value (v : string) : Prop := v ≠ "" ∧ segment v.

#[export] Instance param_value_dec v : Decision (param_value v).
Proof. unfold param_value. apply _. Defined.

Section paths.
Implicit Types segs : list string.
Implicit Types s path : string.

Lemma path_segments_slash s :
  path_segments (String "/" s) = Some (drop_trailing_empty (split_on "/" s)).
Proof.
  unfold path_segments. cbn [split_on]. rewrite (bool_decide_eq_true_2 _ eq_refl).
  by rewrite (bool_decide_eq_true_2 ("" = "") eq_refl).
Qed.

(** Only the empty path (the mount point itself) and a path that
    starts with a slash have segments. *)
Lemma path_segments_Some path segs :
  path_segments path = Some segs →
  (path = "" ∧ segs = []) ∨
  ∃ s, path = String "/" s ∧ segs = drop_trailing_empty (split_on "/" s).
Proof.
  destruct path as [|a s]; [intros [= <-]; by left|]. intros Hp. right. revert Hp.
  destruct (decide (a = "/"%char)) as [->|Ha].
  - rewrite path_segments_slash. intros [= <-]. by exists s.
  - unfold path_segments. cbn [split_on]. rewrite (bool_decide_eq_false_2 _ Ha).
    destruct (split_on "/" s); cbn; by rewrite bool_decide_eq_false_2.
Qed.

Lemma drop_trailing_empty_id segs : last segs ≠ Some "" → drop_trailing_empty segs = segs.
Proof.
  induction segs as [|s [|t segs] IH]; [done| |].
  - simpl. intros Hs. by rewrite bool_decide_eq_false_2 by congruence.
  - intros Hl. change (s :: drop_trailing_empty (t :: segs) = s :: t :: segs).
    by rewrite IH.
Qed.

Lemma drop_trailing_empty_snoc segs : drop_trailing_empty (segs ++ [""]) = segs.
Proof.
  induction segs as [|s [|t segs] IH]; [done..|].
  change (s :: drop_trailing_empty ((t :: segs) ++ [""]) = s :: t :: segs). by rewrite IH.
Qed.

Lemma drop_trailing_empty_Forall (P : string → Prop) segs :
  Forall P segs → Forall P (drop_trailing_empty segs).
Proof.
  induction 1 as [|s [|t segs] Hs Hsegs IH]; [done| |].
  - simpl. case_bool_decide; by repeat constructor.
  - change (Forall P (s :: drop_trailing_empty (t :: segs))). by constructor.
Qed.

(** The segments of a path are segments. *)
Lemma path_segments_segment path segs :
  path_segments path = Some segs → Forall segment segs.
Proof.
  intros [[_ ->]|(s & -> & ->)]%path_segments_Some; [done|].
  apply drop_trailing_empty_Forall, split_on_fields.
Qed.

Lemma drop_trailing_empty_cases segs :
  drop_trailing_empty segs = segs ∨ segs = drop_trailing_empty segs ++ [""].
Proof.
  induction segs as [|s [|t segs] IH]; [by left| |].
  - simpl. case_bool_decide; subst; [by right | by left].
  - change (drop_trailing_empty (s :: t :: segs)) with (s :: drop_trailing_empty (t :: segs)).
    destruct IH as [-> | IH]; [by left|]. right. by rewrite IH at 1.
Qed.

Lemma path_segments_path_of segs :
  Forall segment segs → path_segments (path_of (segs ++ [""])) = Some segs.
Proof.
  intros Hsegs. unfold path_of. rewrite path_segments_slash, split_join_with.
  - by rewrite drop_trailing_empty_snoc.
  - by destruct segs.
  - apply Forall_app. by repeat constructor.
Qed.

Lemma path_segments_path_of_strict segs :
  Forall segment segs → last segs ≠ Some "" → path_segments (path_of segs) = Some segs.
Proof.
  intros Hsegs Hlast. destruct segs as [|s segs]; [done|].
  unfold path_of. rewrite path_segments_slash, split_join_with by done.
  by rewrite drop_trailing_empty_id.
Qed.

(** What is read from a path prints back to it, up to one trailing
    slash. *)
Lemma path_of_path_segments path segs :
  path_segments path = Some segs →
  path = path_of segs ∨ path = path_of (segs ++ [""]) ∨ path = "".
Proof.
  intros [[-> _]|(s & -> & ->)]%path_segments_Some; [by right; right|].
  unfold path_of. rewrite <- (join_split_on "/" s) at 1 3.
  destruct (drop_trailing_empty_cases (split_on "/" s)) as [-> | <-]; auto.
Qed.

End paths.

(** The patterns of the ten routes. *)
Lemma router_patterns :
  (λ r, parse_pattern (route_path r)) <$> router =
    [Some []; Some [Lit "login"]; Some [Lit "register"]; Some [Param "id"];
     Some [Param "id"; Lit "account"]; Some [Param "id"; Lit "account"];
     Some [Param "id"; Lit "account"]; Some [Param "id"; Lit "carrier"];
     Some [Param "id"; Lit "carrier"]; Some [Param "id"; Lit "carrier"]].
Proof. by vm_compute. Qed.


(** *** The router against the table *)

Section table_lemmas.
Implicit Types m : http_method.
Implicit Types segs : list string.

Lemma dispatch_segs_cons r rs m segs :
  dispatch_segs (r :: rs) m segs =
    from_option (λ ps, (r, ps) :: dispatch_segs rs m segs) (dispatch_segs rs m segs)
                (segs_match r m segs).
Proof. unfold dispatch_segs. simpl. by destruct (segs_match r m segs). Qed.

Lemma dispatch_segs_nil m segs : dispatch_segs [] m segs = [].
Proof. done. Qed.

Lemma segs_match_unfold r m segs b pat :
  method_handles (route_method r) m = b → parse_pattern (route_path r) = Some pat →
  segs_match r m segs = if b then match_segments pat segs else None.
Proof. unfold segs_match. by intros -> ->. Qed.

Lemma if_same {A} (b : bool) (x : A) : (if b then x else x) = x.
Proof. by destruct b. Qed.

End table_lemmas.

(** Settles the tests [bool_decide P] the context decides. *)
Ltac decide_tests :=
  repeat match goal with
  | |- context [bool_decide ?P] =>
      first [ rewrite (bool_decide_eq_true_2 P) by (done || congruence)
            | rewrite (bool_decide_eq_false_2 P) by (done || congruence) ]
  end.

(** Tries the first route of the list on the segments at hand. *)
Ltac route_step :=
  rewrite dispatch_segs_cons;
  erewrite segs_match_unfold by (vm_compute; reflexivity);
  cbn [match_segments from_option fmap option_fmap option_map];
  repeat match goal with
  | |- context [lower (String ?a ?s)] =>
      let v := eval vm_compute in (lower (String a s)) in
      change (lower (String a s)) with v
  end;
  decide_tests; rewrite ?if_same;
  cbn [match_segments from_option fmap option_fmap option_map].

Ltac route_all :=
  unfold router; repeat route_step; rewrite dispatch_segs_nil;
  cbn [routing_table]; decide_tests; unfold sub_resource; decide_tests;
  cbn [option_list fmap option_fmap option_map];
  rewrite ?insert_empty.

Lemma dispatch_segs_table m segs :
  dispatch_segs router m segs = option_list (routing_table m segs).
Proof.
  destruct segs as [|s [|t [|u segs]]].
  - destruct m; by route_all.
  - destruct (decide (s = "")), (decide (lower s = "login")),
      (decide (lower s = "register")); try congruence; destruct m; route_all;
      subst; done.
  - destruct (decide (s = "")), (decide (lower t = "account")),
      (decide (lower t = "carrier")); try congruence; destruct m; route_all;
      subst; done.
  - destruct m; by route_all.
Qed.

Lemma dispatch_table m path segs :
  path_segments path = Some segs →
  dispatch router m path = option_list (routing_table m segs).
Proof.
  intros Hp. by rewrite (dispatch_path_segs _ _ _ _ Hp), dispatch_segs_table.
Qed.

(** C11. The ten registrations, tried in order with the matching rules
    of Express, answer every request exactly as the routing table
    says: a path that does not start with a slash is answered by no
    route, and a path with segments by at most one route, the one the
    table names for the method and the segments. *)
Theorem dispatch_routing_table m path :
  dispatch router m path =
    match path_segments path with
    | Some segs => option_list (routing_table m segs)
    | None => []
    end.
Proof.
  destruct (path_segments path) as [segs|] eqn:Hp;
    [by apply dispatch_table | by apply dispatch_no_path].
Qed.

Example dispatch_delete_carrier :
  dispatch router DELETE "/12/Carrier/" = [(delete_carrier, {[ "id" := "12" ]})].
Proof. by rewrite (dispatch_table _ _ ["12"; "Carrier"]) by by vm_compute. Qed.

(** ** Consequences of the table *)

Lemma dispatch_route rs m path r ps : (r, ps) ∈ dispatch rs m path → r ∈ rs.
Proof.
  unfold dispatch. rewrite list_elem_of_omap. intros (r' & Hr & Hm).
  destruct (route_match r' m path); by simplify_eq/=.
Qed.

Section routing_theorems.
Implicit Types m : http_method.
Implicit Types r : route.
Implicit Types ps : gmap string string.

Lemma dispatch_elem m path r ps :
  (r, ps) ∈ dispatch router m path →
  ∃ segs, path_segments path = Some segs ∧ routing_table m segs = Some (r, ps).
Proof.
  destruct (path_segments path) as [segs|] eqn:Hp.
  - rewrite (dispatch_table _ _ _ Hp). exists segs. split; [done|].
    destruct (routing_table m segs) as [x|]; simpl in *.
    + by apply list_elem_of_singleton in H as ->.
    + by apply elem_of_nil in H.
  - rewrite (dispatch_no_path _ _ _ Hp). by intros ?%elem_of_nil.
Qed.

Lemma dispatch_single m path r ps :
  (r, ps) ∈ dispatch router m path → dispatch router m path = [(r, ps)].
Proof.
  intros (segs & Hp & Ht)%dispatch_elem.
  by rewrite (dispatch_table _ _ _ Hp), Ht.
Qed.

(** No request is answered by two routes. *)
Theorem dispatch_unambiguous m path : length (dispatch router m path) ≤ 1.
Proof.
  destruct (path_segments path) as [segs|] eqn:Hp.
  - rewrite (dispatch_table _ _ _ Hp).
    destruct (routing_table m segs); simpl; lia.
  - rewrite (dispatch_no_path _ _ _ Hp). simpl. lia.
Qed.

Lemma sub_resource_authenticated m name r :
  sub_resource m name = Some r → head (route_stack r) = Some authenticationJwt.
Proof. unfold sub_resource. repeat case_match; by intros [= <-]. Qed.

Lemma no_param_public r :
  r ∈ [get_users; post_login; post_register] →
  (is_Some ((∅ : gmap string string) !! "id") →
     head (route_stack r) = Some authenticationJwt) ∧
  ((∅ : gmap string string) !! "id" = None → authenticationJwt ∉ route_stack r).
Proof.
  intros Hr. split; [by intros [? ?%lookup_empty_Some]|]. intros _.
  repeat (apply elem_of_cons in Hr as [->|Hr]); [..|by apply elem_of_nil in Hr];
    apply (bool_decide_unpack _); by vm_compute.
Qed.

Lemma id_param_authenticated r s :
  head (route_stack r) = Some authenticationJwt →
  (is_Some (({[ "id" := s ]} : gmap string string) !! "id") →
     head (route_stack r) = Some authenticationJwt) ∧
  (({[ "id" := s ]} : gmap string string) !! "id" = None →
     authenticationJwt ∉ route_stack r).
Proof. intros Hr. split; [done|]. by rewrite lookup_singleton_eq. Qed.

Lemma routing_table_id m segs r ps :
  routing_table m segs = Some (r, ps) →
  (is_Some (ps !! "id") → head (route_stack r) = Some authenticationJwt) ∧
  (ps !! "id" = None → authenticationJwt ∉ route_stack r).
Proof.
  unfold routing_table. intros Ht.
  repeat case_match; simplify_eq;
    try (apply no_param_public; set_solver);
    try (by apply id_param_authenticated).
  destruct (sub_resource _ _) as [r'|] eqn:Hs; simplify_eq/=.
  by eapply id_param_authenticated, sub_resource_authenticated.
Qed.

Lemma dispatch_authenticated m path r ps :
  (r, ps) ∈ dispatch router m path →
  (is_Some (ps !! "id") → head (route_stack r) = Some authenticationJwt) ∧
  (ps !! "id" = None → authenticationJwt ∉ route_stack r).
Proof. intros (segs & _ & Ht)%dispatch_elem. by eapply routing_table_id. Qed.

(** The parameters the routes declare: none, or [id]. *)
Lemma route_params_public r :
  r ∈ [get_users; post_login; post_register] → route_params r = [].
Proof.
  intros Hr. repeat (apply elem_of_cons in Hr as [->|Hr]); [..|by apply elem_of_nil in Hr];
    by vm_compute.
Qed.

Lemma route_params_id r :
  r ∈ [get_user; get_account; put_account; delete_account;
       get_carrier; put_carrier; delete_carrier] → route_params r = ["id"].
Proof.
  intros Hr. repeat (apply elem_of_cons in Hr as [->|Hr]); [..|by apply elem_of_nil in Hr];
    by vm_compute.
Qed.

Lemma sub_resource_params m name r : sub_resource m name = Some r → route_params r = ["id"].
Proof.
  intros Hs. apply route_params_id. unfold sub_resource in Hs.
  repeat case_match; simplify_eq; set_solver.
Qed.

(** The parameters of an answer: none, or the first segment of the
    path as [id]. *)
Lemma routing_table_params m segs r ps :
  routing_table m segs = Some (r, ps) →
  (ps = ∅ ∧ route_params r = []) ∨
  ∃ s, head segs = Some s ∧ s ≠ "" ∧ ps = {[ "id" := s ]} ∧ route_params r = ["id"].
Proof.
  unfold routing_table. intros Ht.
  repeat case_match; simplify_eq;
    repeat match goal with H : bool_decide _ = false |- _ =>
      apply bool_decide_eq_false in H end;
    try (left; split; [done | apply route_params_public; set_solver]);
    try (right; eexists; split_and!; [done.. | apply route_params_id; set_solver]).
  destruct (sub_resource _ _) eqn:Hs; simplify_eq/=. right. eexists.
  split_and!; [done..|]. by eapply sub_resource_params.
Qed.

(** The parameters a controller receives are typed by the
    registrations: the route that answers a request binds the
    parameters its pattern declares, each to a non-empty string
    without a slash, and [id] to the first segment of the path. *)
Theorem dispatch_params m path r ps :
  (r, ps) ∈ dispatch router m path →
  dom ps = list_to_set (route_params r) ∧ map_Forall (λ _ v, param_value v) ps ∧
  ∀ v, ps !! "id" = Some v → ∃ segs, path_segments path = Some (v :: segs).
Proof.
  intros (segs & Hp & Ht)%dispatch_elem.
  pose proof (path_segments_segment _ _ Hp) as Hsegs.
  destruct (routing_table_params _ _ _ _ Ht) as [[-> ->] | (s & Hs & Hne & -> & ->)].
  - split; [by rewrite dom_empty_L|]. split; [done|]. by intros v ?%lookup_empty_Some.
  - destruct segs as [|s' segs]; simplify_eq/=. inversion_clear Hsegs.
    split; [|split].
    + rewrite dom_singleton_L. set_solver.
    + by apply map_Forall_singleton.
    + intros v [_ <-]%lookup_singleton_Some. by eexists.
Qed.

(** A path printed from segments is answered as the table says for
    these segments. *)
Lemma dispatch_path_of m segs r ps :
  Forall segment segs → last segs ≠ Some "" → routing_table m segs = Some (r, ps) →
  dispatch router m (path_of segs) = [(r, ps)].
Proof.
  intros Hsegs Hlast Ht.
  by rewrite (dispatch_table _ _ segs), Ht by by apply path_segments_path_of_strict.
Qed.

Lemma routing_table_user v :
  v ≠ "" → routing_table GET [v] = Some (get_user, {[ "id" := v ]}).
Proof. intros Hv. cbn [routing_table]. by rewrite bool_decide_eq_false_2. Qed.

Lemma routing_table_sub m v name r :
  v ≠ "" → sub_resource m (lower name) = Some r →
  routing_table m [v; name] = Some (r, {[ "id" := v ]}).
Proof. intros Hv Hs. cbn [routing_table]. by rewrite bool_decide_eq_false_2, Hs. Qed.

Lemma route_url_pattern r ps pat segs :
  parse_pattern (route_path r) = Some pat → mapM (print_segment ps) pat = Some segs →
  route_url r ps = Some (path_of segs).
Proof. unfold route_url. intros -> Hsegs. cbn [mbind option_bind]. by rewrite Hsegs. Qed.

End routing_theorems.

(** ** Addressing a route *)

(** The parameters of a route that declares none, and of one that
    declares [id]. *)
Lemma route_params_nil_inv r (ps : gmap string string) :
  route_params r = [] → dom ps = list_to_set (route_params r) → ps = ∅.
Proof. intros ->. apply dom_empty_inv_L. Qed.

Lemma route_params_id_inv r (ps : gmap string string) :
  route_params r = ["id"] → dom ps = list_to_set (route_params r) →
  map_Forall (λ _ v, param_value v) ps →
  ∃ v, ps = {[ "id" := v ]} ∧ param_value v.
Proof.
  intros ->. simpl. rewrite union_empty_r_L. intros [v ->]%dom_singleton_inv_L Hps.
  exists v. split; [done|]. by apply map_Forall_singleton in Hps.
Qed.

(** The route answers the path printed from its pattern. *)
Ltac route_url_tac segs :=
  eexists; split;
  [ eapply (route_url_pattern _ _ _ segs); [by vm_compute|];
    cbn [mapM print_segment mbind option_bind mret option_ret fmap option_fmap option_map];
    rewrite ?lookup_singleton_eq; reflexivity
  | apply dispatch_path_of;
    [ repeat (apply Forall_cons; split); [done.. | by apply Forall_nil]
    | cbn; congruence
    | first [ by apply routing_table_user
            | apply routing_table_sub; [done | by vm_compute]
            | by vm_compute ] ] ].

(** C36. Every registration can be addressed, and none is shadowed by
    another: the path printed from a route's pattern and values for
    its parameters is answered, under the route's method, by that
    route alone, which binds the same values. *)
Theorem route_url_roundtrip r ps :
  r ∈ router → dom ps = list_to_set (route_params r) →
  map_Forall (λ _ v, param_value v) ps →
  ∃ url, route_url r ps = Some url ∧ dispatch router (route_method r) url = [(r, ps)].
Proof.
  intros Hr Hdom Hps.
  destruct (decide (r ∈ [get_users; post_login; post_register])) as [Hpub|Hid].
  - rewrite (route_params_nil_inv r ps (route_params_public r Hpub) Hdom).
    repeat (apply elem_of_cons in Hpub as [->|Hpub]); [..|by apply elem_of_nil in Hpub].
    + route_url_tac (@nil string).
    + route_url_tac ["login"].
    + route_url_tac ["register"].
  - assert (route_params r = ["id"]) as Hparams by (apply route_params_id; set_solver).
    destruct (route_params_id_inv r ps Hparams Hdom Hps) as (v & -> & Hne & Hv).
    clear Hparams Hdom Hps.
    repeat (apply elem_of_cons in Hr as [->|Hr]); [..|by apply elem_of_nil in Hr];
      try (destruct Hid; set_solver).
    + route_url_tac [v].
    + route_url_tac [v; "account"].
    + route_url_tac [v; "account"].
    + route_url_tac [v; "account"].
    + route_url_tac [v; "carrier"].
    + route_url_tac [v; "carrier"].
    + route_url_tac [v; "carrier"].
Qed.

Lemma dispatch_params_witness :
  dom ({[ "id" := "12" ]} : gmap string string) = list_to_set (route_params delete_carrier) ∧
  map_Forall (λ _ v, param_value v) ({[ "id" := "12" ]} : gmap string string) ∧
  ∀ v, ({[ "id" := "12" ]} : gmap string string) !! "id" = Some v →
       ∃ segs, path_segments "/12/Carrier/" = Some (v :: segs).
Proof. apply (dispatch_params DELETE). rewrite dispatch_delete_carrier. left. Defined.

Lemma route_url_roundtrip_witness :
  ∃ url, route_url put_carrier {[ "id" := "12" ]} = Some url ∧
         dispatch router (route_method put_carrier) url = [(put_carrier, {[ "id" := "12" ]})].
Proof.
  apply route_url_roundtrip.
  - set_solver.
  - rewrite (route_params_id put_carrier) by set_solver. simpl. set_solver.
  - by apply map_Forall_singleton.
Defined.

(** ** The shape of the chains *)

(** Every chain ends in its controller action and has no other; the
    identity check, where there is one, comes first, and validation
    stands between the two. *)
Definition chain_shape (stack : list middleware) : Prop :=
  ∃ pre a, stack = pre ++ [controllerHandler a] ∧
    (pre = [] ∨ pre = [authenticationJwt] ∨
     (∃ s t, pre = [validate s t]) ∨ ∃ s t, pre = [authenticationJwt; validate s t]).

Lemma router_chain_shape r : r ∈ router → chain_shape (route_stack r).
Proof.
  unfold router, chain_shape. intros Hr.
  repeat (apply elem_of_cons in Hr as [->|Hr]); [..|by apply elem_of_nil in Hr];
    simpl; first
      [ by eexists [], _; split; [reflexivity|]; left
      | by eexists [_], _; split; [reflexivity|]; right; left
      | by eexists [_], _; split; [reflexivity|]; right; right; left; eexists _, _
      | by eexists [_; _], _; split; [reflexivity|]; right; right; right; eexists _, _ ].
Qed.

Lemma chain_shape_action stack pre a :
  chain_shape stack → stack = pre ++ [controllerHandler a] →
  stack_action stack = Some a ∧ Forall (λ mw, is_controller mw = false) pre.
Proof.
  intros (pre' & a' & -> & Hpre) Heq. apply app_inj_tail in Heq as [-> [= ->]].
  split; [unfold stack_action; by rewrite last_snoc|].
  destruct Hpre as [-> | [-> | [(s & t & ->) | (s & t & ->)]]]; by repeat constructor.
Qed.

(** The chain of the route that answers a request is the identity
    check (or nothing), at most one validation, and the controller
    action: no handler stands between the identity check and the
    controller that could compare the identity with the [:id] of the
    path. *)
Theorem dispatch_chain_shape m path r ps :
  (r, ps) ∈ dispatch router m path → chain_shape (route_stack r).
Proof. intros Hd. eapply router_chain_shape, dispatch_route, Hd. Qed.

Lemma dispatch_chain_shape_witness : chain_shape (route_stack delete_account).
Proof.
  apply (dispatch_chain_shape DELETE "/7/account" delete_account {[ "id" := "7" ]}).
  by vm_compute; left.
Defined.

(** C8. The identity check guards exactly the routes that bind a user
    id, and nothing else guards them: the route that answers a request
    binds [:id] if and only if its chain starts with
    [authenticationJwt], it binds none ([GET /], [POST /login],
    [POST /register]) if and only if its chain has no identity check
    at all, and its chain is the identity check (or nothing), at most
    one validation and the controller action, so that no handler
    between the identity check and the controller compares the
    identity with the [:id] of the path. *)
Theorem id_routes_authenticated m path r ps :
  (r, ps) ∈ dispatch router m path →
  (is_Some (ps !! "id") ↔ head (route_stack r) = Some authenticationJwt) ∧
  (ps !! "id" = None ↔ authenticationJwt ∉ route_stack r) ∧
  chain_shape (route_stack r).
Proof.
  intros Hd. pose proof (dispatch_chain_shape _ _ _ _ Hd) as Hshape.
  apply dispatch_authenticated in Hd as [Hid Hnone].
  assert (head (route_stack r) = Some authenticationJwt → authenticationJwt ∈ route_stack r)
    as Hhead by (destruct (route_stack r); intros [= ->]; left).
  destruct (ps !! "id") as [v|] eqn:Hps.
  - specialize (Hid (mk_is_Some _ _ eq_refl)). split_and!; [split; [done|]..|done].
    + by eexists.
    + intros Hnot. destruct Hnot. by apply Hhead.
  - specialize (Hnone eq_refl). split_and!; [split..|done]; [| |done..].
    + by intros [? [=]].
    + intros Hh. destruct Hnone. by apply Hhead.
Qed.

(** ** Serving a request *)

Section serve_theorems.
Context {Req Resp Err : Type}.
Context (handle : middleware → Req → step_result Req Resp Err).
Context (with_params : Req → gmap string string → Req).
Implicit Types m : http_method.
Implicit Types r : route.
Implicit Types ps : gmap string string.

(** C7. No controller behind a rejected identity check.  When the
    route that answers binds a user id and [authenticationJwt] does not
    pass the request on, the exchange ends there: the identity check is
    the only handler that ran, and the request does not leave the
    router unanswered either. *)
Theorem serve_unauthenticated m path req r ps :
  (r, ps) ∈ dispatch router m path → is_Some (ps !! "id") →
  ¬ passes handle authenticationJwt (with_params req ps) →
  (serve handle with_params router m path req).1 = [authenticationJwt] ∧
  ∀ req', (serve handle with_params router m path req).2 ≠ PassedOn req'.
Proof.
  intros Hd Hid Hstop.
  destruct (dispatch_authenticated _ _ _ _ Hd) as [Hauth _]. specialize (Hauth Hid).
  rewrite (serve_single handle with_params _ _ _ req _ _ (dispatch_single _ _ _ _ Hd)).
  destruct (route_stack r) as [|mw rest]; [done|]. injection Hauth as ->.
  by apply run_stack_stopped.
Qed.

(** A controller action runs only for the route that answers the
    request, as the last handler of its chain, and only after every
    handler before it (identity check, validation) passed control on. *)
Theorem serve_controller_guarded m path req a :
  controllerHandler a ∈ (serve handle with_params router m path req).1 →
  ∃ r ps pre,
    dispatch router m path = [(r, ps)] ∧
    route_stack r = pre ++ [controllerHandler a] ∧
    Forall (λ mw, ∃ q, passes handle mw q) pre.
Proof.
  intros Hin.
  destruct (dispatch router m path) as [|[r ps] rest] eqn:Hd.
  { rewrite (serve_no_match _ _ _ _ _ _ Hd) in Hin. by apply elem_of_nil in Hin. }
  assert ((r, ps) ∈ dispatch router m path) as Hel by (rewrite Hd; left).
  rewrite (dispatch_single _ _ _ _ Hel) in Hd. simplify_eq.
  rewrite (serve_single handle with_params _ _ _ req _ _ (dispatch_single _ _ _ _ Hel))
    in Hin.
  pose proof (router_chain_shape r (dispatch_route _ _ _ _ _ Hel)) as Hshape.
  destruct Hshape as (pre & a' & Hst & Hpre).
  destruct (chain_shape_action _ pre a' (ex_intro _ pre (ex_intro _ a' (conj Hst Hpre))) Hst)
    as [_ Hplain].
  clear Hpre Hel.
  assert (controllerHandler a ∉ pre) as Hnot.
  { intros Hc. by eapply Forall_forall in Hplain; [|exact Hc]. }
  assert (a' = a) as ->.
  { pose proof (run_stack_prefix handle (route_stack r) (with_params req ps)) as [k Hk].
    assert (controllerHandler a ∈ route_stack r) as Hs
      by (rewrite Hk; apply elem_of_app; by left).
    rewrite Hst in Hs. apply elem_of_app in Hs as [Hs|Hs]; [done|].
    by apply list_elem_of_singleton in Hs as [= ->]. }
  exists r, ps, pre. split; [done|]. split; [done|].
  rewrite Hst in Hin. by eapply run_stack_reached.
Qed.

End serve_theorems.

(** ** The actions behind the paths *)

Section particular.
Implicit Types m : http_method.
Implicit Types path s : string.

(** The action of the route the table names. *)
Lemma routing_table_action m segs :
  (routing_table m segs ≫= λ rp, stack_action (route_stack rp.1)) = bound_action m segs.
Proof.
  destruct segs as [|s [|t [|u segs]]]; cbn [routing_table bound_action]; [| | |done].
  - by destruct m.
  - destruct m; try done; repeat case_bool_decide; done.
  - case_bool_decide; [done|]. unfold sub_resource.
    repeat case_bool_decide; by destruct m.
Qed.

(** C34. The controller action behind every request: the action that
    ends the chain of the route that answers is the one the table
    [bound_action] names for the method and the segments of the path.
    In that table [GET] of any single segment, [login] and [register]
    included, is [findByPk]; [PUT /:id/account] is [updateUserById];
    and [DELETE] of the account and of the carrier profile are the same
    [usersController.delete]. *)
Theorem handled_action m path :
  (handled_by router m path ≫= λ rp, stack_action (route_stack rp.1)) =
    path_segments path ≫= bound_action m.
Proof.
  unfold handled_by. destruct (path_segments path) as [segs|] eqn:Hp.
  - rewrite (dispatch_table _ _ _ Hp).
    change (Some segs ≫= bound_action m) with (bound_action m segs).
    rewrite <- routing_table_action. by destruct (routing_table m segs).
  - by rewrite (dispatch_no_path _ _ _ Hp).
Qed.

Example get_login_is_user :
  handled_by router GET "/login" = Some (get_user, {[ "id" := "login" ]}).
Proof. unfold handled_by. by rewrite (dispatch_table _ _ ["login"]) by by vm_compute. Qed.

(** A request the router does not answer leaves it without any
    handler having run: it is passed on unchanged. *)
Theorem serve_unrouted {Req Resp Err : Type}
    (handle : middleware → Req → step_result Req Resp Err)
    (with_params : Req → gmap string string → Req) m path segs req :
  path_segments path = Some segs → routing_table m segs = None →
  serve handle with_params router m path req = ([], PassedOn req).
Proof.
  intros Hp Ht. apply serve_no_match. by rewrite (dispatch_table _ _ _ Hp), Ht.
Qed.

End particular.

(** The documentation agrees with the registrations: the comment
    of every route names the method it is registered with and, under
    the mount point [/users], the path it is registered at; and the
    documented routes are the registered ones, in order. *)
Theorem documented_routes_agree :
  documented.*2 = router ∧
  Forall (λ dr, doc_method dr.1 = route_method dr.2 ∧
                doc_path dr.1 =
                  "/users" +:+ (if bool_decide (route_path dr.2 = "/") then ""
                                else route_path dr.2))
         documented.
Proof. split; [done|]. repeat constructor. Qed.

(** The parameters the comments document.  Parameters are documented
    for the two routes without identity check, which validate a body,
    and for no other: the updates validate a body and document
    nothing of it, and no comment documents the [:id] of its path.
    The parameters of the registration are documented in the body the
    chain validates; those of the login are documented in the query
    although the chain validates the body.  Of the documented fields
    of a registration one is no property of the type [User], which
    spells it [comp_address]. *)
Theorem documented_parameters :
  Forall (λ dr, doc_params dr.1 ≠ [] ↔
                ∃ s, route_stack dr.2 = [validate s "body"; controllerHandler
                       (default usersController.findAll (stack_action (route_stack dr.2)))])
         documented ∧
  Forall (λ p, param_in p = in_body) (doc_params doc_post_register) ∧
  Forall (λ p, param_in p = in_query) (doc_params doc_post_login) ∧
  validate schemas_put "body" ∈ route_stack put_account ∧ doc_params doc_put_account = [] ∧
  validate schemas_put "body" ∈ route_stack put_carrier ∧ doc_params doc_put_carrier = [] ∧
  filter (λ p, param_name p ∉ User.*1) (doc_params doc_post_register) =
    [DocParam TString "compAddress" in_body false].
Proof.
  split_and!; [|by repeat constructor..|set_solver| |set_solver| |]; [|done..].
  repeat (apply Forall_cons_2; [split; [try done; by eexists|try done; by intros [s [=]]]|]).
  apply Forall_nil_2.
Qed.

(** The answers the comments document.  No comment of a route
    behind [authenticationJwt] documents the answer to a request
    without identity (401) or to a request of somebody else (403),
    while the comment of the login, which has no identity check,
    documents 401; the comment of the registration documents no
    answer to an e-mail that is taken (409). *)
Theorem documented_statuses :
  Forall (λ dr, authenticationJwt ∈ route_stack dr.2 →
                (401 ∉ doc_status dr.1) ∧ (403 ∉ doc_status dr.1)) documented ∧
  (authenticationJwt ∉ route_stack post_login) ∧ 401 ∈ doc_status doc_post_login ∧
  409 ∉ doc_status doc_post_register.
Proof. apply (bool_decide_unpack _). by vm_compute. Qed.

(** ** A sample interpretation of the handlers *)

(** Requests carry a flag (a valid credential or not); the identity
    check answers 401 without it, validation passes, controllers
    answer 200. *)
Definition sample_handle (mw : middleware) (req : bool) : step_result bool nat unit :=
  match mw with
  | authenticationJwt => if req then Next req else Respond 401
  | validate _ _ => Next req
  | controllerHandler _ => Respond 200
  end.

Definition sample_params (req : bool) (ps : gmap string string) : bool := req.

Lemma serve_unauthenticated_witness :
  (serve sample_handle sample_params router DELETE "/2/account" false).1
    = [authenticationJwt] ∧
  ∀ req', (serve sample_handle sample_params router DELETE "/2/account" false).2
          ≠ PassedOn req'.
Proof.
  apply (serve_unauthenticated sample_handle sample_params DELETE "/2/account" false
           delete_account {[ "id" := "2" ]}).
  - rewrite (dispatch_table _ _ ["2"; "account"]) by by vm_compute. left.
  - by rewrite lookup_singleton_eq.
  - by intros [req' Hp].
Defined.

Lemma serve_controller_guarded_witness :
  ∃ r ps pre,
    dispatch router PUT "/2/carrier" = [(r, ps)] ∧
    route_stack r = pre ++ [controllerHandler usersController.updateCarrierById] ∧
    Forall (λ mw, ∃ q, passes sample_handle mw q) pre.
Proof.
  apply (serve_controller_guarded sample_handle sample_params PUT "/2/carrier" true).
  rewrite (serve_single sample_handle sample_params _ _ _ true put_carrier {[ "id" := "2" ]}).
  - simpl. set_solver.
  - by rewrite (dispatch_table _ _ ["2"; "carrier"]) by by vm_compute.
Defined.

Lemma id_routes_authenticated_witness :
  (is_Some (({[ "id" := "5" ]} : gmap string string) !! "id") ↔
     head (route_stack get_account) = Some authenticationJwt) ∧
  (({[ "id" := "5" ]} : gmap string string) !! "id" = None ↔
     authenticationJwt ∉ route_stack get_account) ∧
  chain_shape (route_stack get_account).
Proof.
  apply (id_routes_authenticated GET "/5/account").
  rewrite (dispatch_table _ _ ["5"; "account"]) by by vm_compute. left.
Defined.

Lemma serve_unrouted_witness :
  serve sample_handle sample_params router PATCH "/2" true = ([], PassedOn true).
Proof. by apply (serve_unrouted _ _ PATCH "/2" ["2"]). Defined.
