(* ===== verification/Access.v ===== *)
(** * Identity and ownership

    The two pure components of the design that decide who may touch
    the sub-resources of a user: the Identity Resolver (design 4.1),
    which turns a bearer credential into an authenticated identity or
    an authentication failure, and the Ownership Guard (design 4.2),
    which allows an identity to act on a target user when it is that
    user or an administrator.  Their code ([../../middlewares/authJwt]
    and the controllers) is not part of the sources: both are modelled
    from the design, with the failure taxonomy of design 7 and the
    outcomes of design 6.  Signature verification is a vetted
    primitive the design only names; it is the interface [Verifier]. *)

From stdpp Require Import base tactics option list strings gmap.
From S2P Require Import Prelude JsValue.

(** ** Identities (design 3) *)

Inductive role : Type := customer | carrier | admin.

#[export] Instance role_eq_dec : EqDecision role.
Proof. solve_decision. Defined.

(** [AuthenticatedIdentity]: request-scoped, never stored. *)
Record AuthenticatedIdentity : Type := Identity {
  identity_userId : string;
  identity_role : role;
}.

#[export] Instance identity_eq_dec : EqDecision AuthenticatedIdentity.
Proof. solve_decision. Defined.

(** ** Failures and outcomes (design 6 and 7) *)

Inductive AuthenticationFailure : Type :=
| MissingCredential
| InvalidCredential
| ExpiredCredential.

Inductive AuthorizationFailure : Type :=
| NotOwner
| InsufficientRole.

Inductive entity_kind : Type := UserEntity | AccountEntity | CarrierEntity.

Inductive ConflictFailure : Type := DuplicateEmail.

#[export] Instance authentication_failure_eq_dec : EqDecision AuthenticationFailure.
Proof. solve_decision. Defined.
#[export] Instance authorization_failure_eq_dec : EqDecision AuthorizationFailure.
Proof. solve_decision. Defined.
#[export] Instance entity_kind_eq_dec : EqDecision entity_kind.
Proof. solve_decision. Defined.
#[export] Instance conflict_failure_eq_dec : EqDecision ConflictFailure.
Proof. solve_decision. Defined.

(** What the core hands to the HTTP boundary. *)
Inductive result_outcome : Type :=
| Success (payload : value)
| NotFound (kind : entity_kind)
| Conflict (c : ConflictFailure)
| AuthenticationFailed (f : AuthenticationFailure)
| AuthorizationFailed (f : AuthorizationFailure)
| ValidationFailure
| InternalFailure.

#[export] Instance result_outcome_eq_dec : EqDecision result_outcome.
Proof. solve_decision. Defined.

(** The status the boundary conventionally chooses; the design names
    none for a validation failure or an internal failure. *)
Definition status_code (o : result_outcome) : option nat :=
  match o with
  | Success _ => Some 200
  | NotFound _ => Some 404
  | Conflict _ => Some 409
  | AuthenticationFailed _ => Some 401
  | AuthorizationFailed _ => Some 403
  | ValidationFailure | InternalFailure => None
  end.

(** A request that was refused before any mapper ran. *)
Definition denied (o : result_outcome) : Prop :=
  match o with
  | AuthenticationFailed _ | AuthorizationFailed _ | ValidationFailure => True
  | _ => False
  end.

#[export] Instance denied_dec o : Decision (denied o).
Proof. destruct o; simpl; apply _. Defined.

(** ** Identity Resolver (design 4.1) *)

(** The claim set a credential embeds, with its expiry. *)
Record claim_set : Type := Claims {
  claims_identity : AuthenticatedIdentity;
  claims_expiry : Z;
}.

(** The vetted primitive: checks the signature of a token and decodes
    its claim set; [None] on a malformed token or a bad signature. *)
Class Verifier : Type := { verify : string → option claim_set }.

(** [resolve(credential)]: the token of the authorization header when
    there is one, at the time [now]. *)
Definition resolve `{Verifier} (now : Z) (credential : option string) :
    outcome AuthenticationFailure AuthenticatedIdentity :=
  match credential with
  | None => Thrown MissingCredential
  | Some token =>
      match verify token with
      | None => Thrown InvalidCredential
      | Some c =>
          if bool_decide (claims_expiry c ≤ now)%Z then Thrown ExpiredCredential
          else Returned (claims_identity c)
      end
  end.

(** ** Ownership Guard (design 4.2) *)

Inductive decision : Type := ALLOW | DENY.

#[export] Instance decision_eq_dec : EqDecision decision.
Proof. solve_decision. Defined.

(** [authorize(identity, targetUserId)]: self or administrator. *)
Definition authorize (identity : AuthenticatedIdentity) (targetUserId : string) : decision :=
  if bool_decide (identity_userId identity = targetUserId)
     || bool_decide (identity_role identity = admin)
  then ALLOW else DENY.

(** ** Lemmas *)

Section access_lemmas.
Context `{Verifier}.
Implicit Types identity : AuthenticatedIdentity.
Implicit Types now : Z.

Lemma authorize_ALLOW identity target :
  authorize identity target = ALLOW ↔
  identity_userId identity = target ∨ identity_role identity = admin.
Proof.
  unfold authorize. destruct (bool_decide _ || bool_decide _) eqn:Hb.
  - apply orb_prop in Hb as [?%bool_decide_eq_true|?%bool_decide_eq_true]; tauto.
  - apply orb_false_elim in Hb as [?%bool_decide_eq_false ?%bool_decide_eq_false].
    split; [done | tauto].
Qed.

Lemma authorize_DENY identity target :
  authorize identity target = DENY ↔
  identity_userId identity ≠ target ∧ identity_role identity ≠ admin.
Proof.
  pose proof (authorize_ALLOW identity target) as Hallow.
  destruct (authorize identity target); split; try done; try tauto.
  intros _. split; intros ?; by assert (DENY = ALLOW) by tauto.
Qed.

Lemma authorize_self identity : authorize identity (identity_userId identity) = ALLOW.
Proof. apply authorize_ALLOW. by left. Qed.

Lemma authorize_admin userId target : authorize (Identity userId admin) target = ALLOW.
Proof. apply authorize_ALLOW. by right. Qed.

(** A credential resolves to the identity it embeds exactly when it is
    present, verified and not expired. *)
Lemma resolve_Returned now credential identity :
  resolve now credential = Returned identity ↔
  ∃ token c, credential = Some token ∧ verify token = Some c ∧
             (now < claims_expiry c)%Z ∧ claims_identity c = identity.
Proof.
  unfold resolve. split.
  - destruct credential as [token|]; [|done]. destruct (verify token) as [c|] eqn:Hv; [|done].
    case_bool_decide; [done|]. intros [= <-]. exists token, c. split_and!; [done..|lia|done].
  - intros (token & c & -> & -> & Hnow & <-). by rewrite bool_decide_eq_false_2 by lia.
Qed.

End access_lemmas.
