(* ===== verification/UserMapper.v ===== *)
(** * The user mapper (design 4.5)

    The router binds [POST /register] to [usersController.createSecureUser]
    and [POST /login] to [usersController.loginAction]; the mapper
    behind them is not part of the sources.  This file models it from
    the design: [createSecureUser] hashes the password of a
    registration before it stores the user and rejects an e-mail that
    is taken; [authenticate] looks a user up by e-mail, compares the
    password with the stored hash and signs a credential for the
    identity of the user.  Hashing and signing are vetted primitives
    the design only names: they are the interfaces [Hasher] and
    [Issuer], with the contract the design states for them
    (hash-and-compare, sign-and-verify).  The salt of a hash and the
    key the database gives a new row are chosen outside the mapper:
    they are arguments. *)

From Stdlib Require Import Ascii.
From stdpp Require Import base tactics option list strings gmap pretty.
From S2P Require Import Prelude JsValue Database Access.

(** ** The vetted primitives (design 9) *)

(** A salted one-way hash and its comparison: a plaintext compares
    equal to the hashes of itself only, and a hash is not its
    plaintext. *)
Class Hasher : Type := {
  hash : string → string → string;
  compare : string → string → bool;
  compare_hash salt p q : compare p (hash salt q) = bool_decide (p = q);
  hash_hides salt p : hash salt p ≠ p;
}.

(** The issuer of bearer credentials: what it signs, the verifier of
    the Identity Resolver accepts and decodes to the same claims. *)
Class Issuer `{Verifier} : Type := {
  sign : claim_set → string;
  verify_sign c : verify (sign c) = Some c;
}.

(** ** Rows of users *)

(** The role tag of a stored user; a user is a customer unless the
    row says otherwise. *)
Definition role_of (p : prim) : role :=
  if bool_decide (p = PStr "admin") then admin
  else if bool_decide (p = PStr "carrier") then carrier
  else customer.

(** [INSERT INTO tbl ...]: the row is added after the rows stored. *)
Definition insert_row (tbl : string) (r : obj) (db : database) : database :=
  match db !! tbl with
  | Some t => <[tbl := Table (columns t) (table_rows t ++ [r])]> db
  | None => db
  end.

(** ** The mapper *)

Module UserDataMapper.

Section methods.
Context `{Hasher} `{Verifier} `{!Issuer}.

(** The user stored for a registration: the data with the key and,
    in place of the password, its hash. *)
Definition secure_user (salt : string) (id : Z) (registrationData : obj) : obj :=
  <["id" := PNum id]>
    (<["password" := PStr (hash salt (to_string (get_prop registrationData "password")))]>
       registrationData).

Definition createSecureUser (salt : string) (id : Z) (registrationData : obj) :
    exec database exn result_outcome :=
  λ db,
    match run_select "users" "email" 1 [get_prop registrationData "email"] db with
    | Thrown e => (db, Thrown (DatabaseError e))
    | Returned (_ :: _) => (db, Returned (Conflict DuplicateEmail))
    | Returned [] =>
        let user := secure_user salt id registrationData in
        (insert_row "users" user db, Returned (Success (VObj user)))
    end.

(** [authenticate(email, plaintextPassword)], at the time [now], with
    credentials that live for [lifetime]. *)
Definition authenticate (now lifetime : Z) (email plaintextPassword : string) :
    exec database exn (outcome AuthenticationFailure (AuthenticatedIdentity * string)) :=
  λ db,
    match run_select "users" "email" 1 [PStr email] db with
    | Thrown e => (db, Thrown (DatabaseError e))
    | Returned [] => (db, Returned (Thrown InvalidCredential))
    | Returned (user :: _) =>
        if compare plaintextPassword (to_string (get_prop user "password")) then
          let who := Identity (to_string (get_prop user "id")) (role_of (get_prop user "role")) in
          (db, Returned (Returned (who, sign (Claims who (now + lifetime)))))
        else (db, Returned (Thrown InvalidCredential))
    end.

End methods.

End UserDataMapper.

(** ** Lemmas *)

Section rows.
Implicit Types db : database.
Implicit Types t : table.
Implicit Types r : obj.

Lemma run_select_rows tbl col v db t :
  db !! tbl = Some t → col ∈ columns t →
  run_select tbl col 1 [v] db = Returned (filter (matches col (sql_value v)) (table_rows t)).
Proof. intros Ht Hc. unfold run_select. by rewrite Ht, bool_decide_eq_true_2. Qed.

Lemma insert_row_lookup tbl r db t :
  db !! tbl = Some t →
  insert_row tbl r db !! tbl = Some (Table (columns t) (table_rows t ++ [r])).
Proof. intros Ht. unfold insert_row. by rewrite Ht, lookup_insert_eq. Qed.

Lemma insert_row_other tbl tbl' r db : tbl' ≠ tbl → insert_row tbl r db !! tbl' = db !! tbl'.
Proof. intros Hne. unfold insert_row. destruct (db !! tbl); [by rewrite lookup_insert_ne|done]. Qed.

(** A row that has the columns of its table keeps the store well
    formed. *)
Lemma insert_row_wf tbl r db t :
  db_wf db → db !! tbl = Some t → row_wf (columns t) r → db_wf (insert_row tbl r db).
Proof.
  intros Hwf Ht Hr. unfold insert_row. rewrite Ht. apply map_Forall_insert_2; [|done].
  apply Forall_app. split; [exact (Hwf _ _ Ht) | by apply Forall_singleton].
Qed.

End rows.

Section registration.
Context `{Hasher}.
Import UserDataMapper.
Implicit Types db : database.
Implicit Types t : table.
Implicit Types registrationData user : obj.

Lemma secure_user_password salt id registrationData :
  secure_user salt id registrationData !! "password" =
    Some (PStr (hash salt (to_string (get_prop registrationData "password")))).
Proof. unfold secure_user. by rewrite lookup_insert_ne, lookup_insert_eq. Qed.

Lemma secure_user_id salt id registrationData :
  secure_user salt id registrationData !! "id" = Some (PNum id).
Proof. unfold secure_user. by rewrite lookup_insert_eq. Qed.

Lemma secure_user_other salt id registrationData k :
  k ≠ "id" → k ≠ "password" →
  secure_user salt id registrationData !! k = registrationData !! k.
Proof. intros Hid Hpw. unfold secure_user. by rewrite !lookup_insert_ne. Qed.

Lemma get_prop_secure_user salt id registrationData k :
  k ≠ "id" → k ≠ "password" →
  get_prop (secure_user salt id registrationData) k = get_prop registrationData k.
Proof. intros Hid Hpw. unfold get_prop. by rewrite secure_user_other. Qed.

(** The two ways a registration ends on a table of users. *)
Lemma createSecureUser_run salt id registrationData db t :
  db !! "users" = Some t → "email" ∈ columns t →
  createSecureUser salt id registrationData db =
    match filter (matches "email" (sql_value (get_prop registrationData "email")))
            (table_rows t) with
    | [] => (insert_row "users" (secure_user salt id registrationData) db,
             Returned (Success (VObj (secure_user salt id registrationData))))
    | _ :: _ => (db, Returned (Conflict DuplicateEmail))
    end.
Proof. intros Ht Hc. unfold createSecureUser. by rewrite (run_select_rows _ _ _ _ _ Ht Hc). Qed.

(** Registration is secure.  On a table of users, a registration
    whose e-mail no stored user has succeeds: one row is added after
    the others, the user returned is that row, it holds the fields of
    the registration and the key, and its password is the hash of the
    plaintext, which the plaintext is not; a registration whose e-mail
    is taken ends in [Conflict(DuplicateEmail)] and leaves the store
    as it was. *)
Theorem registration_secure salt id registrationData plaintext db t :
  db !! "users" = Some t → "email" ∈ columns t →
  registrationData !! "password" = Some (PStr plaintext) →
  let taken := filter (matches "email" (sql_value (get_prop registrationData "email")))
                 (table_rows t) in
  let user := secure_user salt id registrationData in
  (taken = [] →
     createSecureUser salt id registrationData db =
       (<["users" := Table (columns t) (table_rows t ++ [user])]> db,
        Returned (Success (VObj user))) ∧
     user !! "password" = Some (PStr (hash salt plaintext)) ∧
     user !! "password" ≠ Some (PStr plaintext) ∧
     user !! "id" = Some (PNum id) ∧
     ∀ k, k ≠ "id" → k ≠ "password" → user !! k = registrationData !! k) ∧
  (taken ≠ [] →
     createSecureUser salt id registrationData db = (db, Returned (Conflict DuplicateEmail))).
Proof.
  intros Ht Hc Hpw taken user. subst taken user.
  rewrite (createSecureUser_run _ _ _ _ _ Ht Hc). split.
  - intros ->. unfold insert_row.
    rewrite Ht, secure_user_password, secure_user_id, (get_prop_present _ _ _ Hpw).
    cbn [to_string]. split_and!; [done|done| |done|].
    + intros [= Heq]. by destruct (hash_hides salt plaintext).
    + intros k. apply secure_user_other.
  - by destruct (filter _ _).
Qed.

(** Registration keeps the store well formed when the registration
    has the columns of the table but the key. *)
Lemma createSecureUser_wf salt id registrationData db t :
  db_wf db → db !! "users" = Some t →
  row_wf (columns t) (secure_user salt id registrationData) →
  db_wf (createSecureUser salt id registrationData db).1.
Proof.
  intros Hwf Ht Hr. unfold createSecureUser.
  destruct (run_select _ _ _ _ db) as [[|r rs]|e]; [|done..].
  by apply insert_row_wf with t.
Qed.

End registration.

Section login.
Context `{Hasher} `{Verifier} `{!Issuer}.
Import UserDataMapper.
Implicit Types db : database.
Implicit Types t : table.

(** The ways a login ends on a table of users. *)
Lemma authenticate_run now lifetime email plaintext db t :
  db !! "users" = Some t → "email" ∈ columns t →
  authenticate now lifetime email plaintext db =
    (db,
     Returned
       match filter (matches "email" (PStr email)) (table_rows t) with
       | [] => Thrown InvalidCredential
       | user :: _ =>
           if compare plaintext (to_string (get_prop user "password")) then
             let who := Identity (to_string (get_prop user "id")) (role_of (get_prop user "role")) in
             Returned (who, sign (Claims who (now + lifetime)))
           else Thrown InvalidCredential
       end).
Proof.
  intros Ht Hc. unfold authenticate. rewrite (run_select_rows _ _ _ _ _ Ht Hc).
  cbn [sql_value]. destruct (filter _ _) as [|user rest]; [done|]. by destruct (compare _ _).
Qed.

(** A login never writes. *)
Lemma authenticate_store now lifetime email plaintext db :
  (authenticate now lifetime email plaintext db).1 = db.
Proof.
  unfold authenticate. destruct (run_select _ _ _ _ db) as [[|user rest]|e]; [done| |done].
  by destruct (compare _ _).
Qed.

(** The registered user is the one row with its e-mail. *)
Lemma registered_row salt id registrationData email t :
  registrationData !! "email" = Some (PStr email) →
  filter (matches "email" (PStr email)) (table_rows t) = [] →
  filter (matches "email" (PStr email))
    (table_rows t ++ [secure_user salt id registrationData]) =
    [secure_user salt id registrationData].
Proof.
  intros Hemail Hfree. rewrite filter_app, Hfree, filter_cons_True; [done|].
  unfold matches. rewrite get_prop_secure_user, (get_prop_present _ _ _ Hemail) by done.
  by apply sql_eq_refl.
Qed.

(** The login of a user just registered. *)
Lemma authenticate_registered salt id registrationData email plaintext now lifetime db t :
  db !! "users" = Some t → "email" ∈ columns t →
  registrationData !! "email" = Some (PStr email) →
  registrationData !! "password" = Some (PStr plaintext) →
  filter (matches "email" (PStr email)) (table_rows t) = [] →
  ∀ guess,
    authenticate now lifetime email guess (createSecureUser salt id registrationData db).1 =
      ((createSecureUser salt id registrationData db).1,
       Returned
         (if bool_decide (guess = plaintext) then
            let who := Identity (pretty id) (role_of (get_prop registrationData "role")) in
            Returned (who, sign (Claims who (now + lifetime)))
          else Thrown InvalidCredential)).
Proof.
  intros Ht Hc Hemail Hpw Hfree guess.
  rewrite (createSecureUser_run _ _ _ _ _ Ht Hc), (get_prop_present _ _ _ Hemail).
  cbn [sql_value]. rewrite Hfree. cbn [fst].
  rewrite (authenticate_run _ _ _ _ _ _ (insert_row_lookup _ _ _ _ Ht) Hc).
  cbn [table_rows]. rewrite (registered_row _ _ _ _ _ Hemail Hfree).
  rewrite (get_prop_present _ _ _ (secure_user_password _ _ _)),
    (get_prop_present _ _ _ (secure_user_id _ _ _)), (get_prop_present _ _ _ Hpw).
  rewrite !get_prop_secure_user by done. cbn [to_string]. by rewrite compare_hash.
Qed.

(** Register, then log in.  After a registration with an e-mail
    that was free, a login with that e-mail and the password of the
    registration succeeds with the identity of the registered user
    (the key the row was given, the role of the registration, a
    customer when it names none) and a credential signed for that
    identity that expires [lifetime] after the login; a login with
    any other password fails with an authentication failure and
    issues no credential.  Neither login writes. *)
Theorem register_then_login salt id registrationData email plaintext other now lifetime db t :
  db !! "users" = Some t → "email" ∈ columns t →
  registrationData !! "email" = Some (PStr email) →
  registrationData !! "password" = Some (PStr plaintext) →
  filter (matches "email" (PStr email)) (table_rows t) = [] →
  other ≠ plaintext →
  let db1 := (createSecureUser salt id registrationData db).1 in
  let who := Identity (pretty id) (role_of (get_prop registrationData "role")) in
  authenticate now lifetime email plaintext db1 =
    (db1, Returned (Returned (who, sign (Claims who (now + lifetime))))) ∧
  authenticate now lifetime email other db1 = (db1, Returned (Thrown InvalidCredential)).
Proof.
  intros Ht Hc Hemail Hpw Hfree Hother db1 who. subst db1 who.
  rewrite !(authenticate_registered _ _ _ _ _ _ _ _ _ Ht Hc Hemail Hpw Hfree).
  by rewrite bool_decide_eq_true_2, bool_decide_eq_false_2.
Qed.

End login.

(** ** Examples *)

(** Primitives without any secrecy, to run the mapper on: the hash of
    a plaintext is the plaintext behind a mark, and a credential
    spells out its claims (a letter for the role, the expiry in
    strokes, the user id). *)
Lemma marked_hides (p : string) : String "#"%char p ≠ p.
Proof. intros Heq. apply (f_equal String.length) in Heq. simpl in Heq. lia. Qed.

Lemma marked_compare (p q : string) :
  bool_decide (String "#"%char q = String "#"%char p) = bool_decide (p = q).
Proof. apply bool_decide_ext. split; [by intros [= ->] | by intros ->]. Qed.

#[export] Instance marking_hasher : Hasher :=
  {| hash _ p := String "#"%char p;
     compare p h := bool_decide (h = String "#"%char p);
     compare_hash _ p q := marked_compare p q;
     hash_hides _ p := marked_hides p |}.

Definition role_letter (r : role) : ascii :=
  match r with customer => "c" | carrier => "k" | admin => "a" end%char.

Definition letter_role (a : ascii) : option role :=
  if bool_decide (a = "c"%char) then Some customer
  else if bool_decide (a = "k"%char) then Some carrier
  else if bool_decide (a = "a"%char) then Some admin
  else None.

Fixpoint strokes (n : nat) (rest : string) : string :=
  match n with
  | 0 => String "."%char rest
  | S n' => String "1"%char (strokes n' rest)
  end.

Fixpoint count_strokes (s : string) : option (nat * string) :=
  match s with
  | String a s' =>
      if bool_decide (a = "1"%char) then
        '(n, rest) ← count_strokes s'; Some (S n, rest)
      else if bool_decide (a = "."%char) then Some (0, s')
      else None
  | EmptyString => None
  end.

Definition spell (c : claim_set) : string :=
  String (role_letter (identity_role (claims_identity c)))
    (String (if bool_decide (claims_expiry c < 0)%Z then "-" else "+")%char
       (strokes (Z.abs_nat (claims_expiry c)) (identity_userId (claims_identity c)))).

Definition read_claims (token : string) : option claim_set :=
  match token with
  | String r (String sg rest) =>
      role ← letter_role r;
      '(n, userId) ← count_strokes rest;
      Some (Claims (Identity userId role)
              (if bool_decide (sg = "-"%char) then - Z.of_nat n else Z.of_nat n))
  | _ => None
  end.

Lemma count_strokes_strokes n rest : count_strokes (strokes n rest) = Some (n, rest).
Proof. induction n as [|n IH]; [done|]. cbn [strokes count_strokes]. by rewrite IH. Qed.

Lemma read_claims_spell c : read_claims (spell c) = Some c.
Proof.
  destruct c as [[userId r] expiry]. unfold spell, read_claims. cbn [claims_identity
    claims_expiry identity_role identity_userId]. rewrite count_strokes_strokes.
  assert (letter_role (role_letter r) = Some r) as -> by by destruct r.
  cbn [mbind option_bind]. do 2 f_equal.
  destruct (bool_decide_reflect (expiry < 0)%Z);
    [rewrite bool_decide_eq_true_2 by done | rewrite bool_decide_eq_false_2 by done]; lia.
Qed.

#[export] Instance spelling_verifier : Verifier := {| verify := read_claims |}.

#[export] Instance spelling_issuer : Issuer :=
  {| sign := spell; verify_sign := read_claims_spell |}.

Definition no_users : database :=
  {[ "users" := Table ["id"; "email"; "password"; "first_name"] [] ]}.

Definition ada : obj :=
  {[ "email" := PStr "e@x.com"; "password" := PStr "secret"; "first_name" := PStr "Ada" ]}.

Lemma no_users_table :
  no_users !! "users" = Some (Table ["id"; "email"; "password"; "first_name"] []).
Proof. apply lookup_singleton_eq. Qed.

Lemma registration_secure_witness :
  UserDataMapper.createSecureUser "s" 1 ada no_users =
    (<["users" := Table ["id"; "email"; "password"; "first_name"]
                    [UserDataMapper.secure_user "s" 1 ada]]> no_users,
     Returned (Success (VObj (UserDataMapper.secure_user "s" 1 ada)))).
Proof.
  apply (registration_secure "s" 1 ada "secret" no_users _ no_users_table);
    [set_solver|done..].
Defined.

Lemma register_then_login_witness :
  UserDataMapper.authenticate 10 5 "e@x.com" "guess"
    (UserDataMapper.createSecureUser "s" 1 ada no_users).1 =
    ((UserDataMapper.createSecureUser "s" 1 ada no_users).1,
     Returned (Thrown InvalidCredential)).
Proof.
  apply (register_then_login "s" 1 ada "e@x.com" "secret" "guess" 10 5 no_users _
           no_users_table); [set_solver|done..].
Defined.

(** The credential of the registered user, spelled out. *)
Example ada_login :
  (UserDataMapper.authenticate 10 5 "e@x.com" "secret"
     (UserDataMapper.createSecureUser "s" 1 ada no_users).1).2 =
    Returned (Returned (Identity "1" customer, "c+111111111111111.1")).
Proof. by vm_compute. Qed.
