(* ===== verification/Pipeline.v ===== *)
(** * A request through the users router

    The Resource Controller of the design (4.6) orders, for every
    operation, the Identity Resolver, the Ownership Guard when the
    route names a user, the mapper, and the outcome handed to the HTTP
    boundary.  In the sources this order is the handler chain of each
    registration in [src/back/app/routers/api/users.js]; the handlers
    themselves ([authenticationJwt], [validate], [controllerHandler]
    and [usersController]) are not part of the sources.  This file
    gives each handler the behaviour the design states for it, runs
    the chains of [Router] with these handlers, and shows what a
    request then ends in.  The mapper call behind each controller
    action is the interface [Delegates]; the external validator is a
    parameter. *)

From stdpp Require Import base tactics option list strings gmap.
From S2P Require Import Prelude JsValue Database AccountMapper AccountSpec Router Access.

(** ** Requests, stages, answers *)

(** What the core reads of a request (design 6): the bearer
    credential, the validated body, the route parameters, and the
    identity once it is resolved. *)
Record api_request : Type := ApiRequest {
  req_credential : option string;
  req_body : obj;
  req_params : gmap string string;
  req_identity : option AuthenticatedIdentity;
}.

(** The states of a request (design 4.6); [FAILED] is the terminal
    failure state. *)
Inductive stage : Type :=
| UNAUTHENTICATED
| AUTHENTICATED
| AUTHORIZED
| EXECUTED
| SUCCESS
| NOT_FOUND
| CONFLICT
| FAILED.

#[export] Instance stage_eq_dec : EqDecision stage.
Proof. solve_decision. Defined.

(** A request on its way through a chain: the request, the store, and
    the stages it has reached, in order. *)
Record conn : Type := Conn {
  conn_request : api_request;
  conn_store : database;
  conn_stages : list stage;
}.

(** A request that was answered. *)
Record answer : Type := Answer {
  answer_outcome : result_outcome;
  answer_store : database;
  answer_stages : list stage;
}.

(** The terminal state of an executed request. *)
Definition terminal (o : result_outcome) : stage :=
  match o with
  | Success _ => SUCCESS
  | NotFound _ => NOT_FOUND
  | Conflict _ => CONFLICT
  | _ => FAILED
  end.

(** The transitions of the state machine.  A public endpoint
    (registration, login) is executed without identity. *)
Inductive stage_step (public : bool) : stage → stage → Prop :=
| step_authenticate : public = false → stage_step public UNAUTHENTICATED AUTHENTICATED
| step_authorize : stage_step public AUTHENTICATED AUTHORIZED
| step_execute : stage_step public AUTHORIZED EXECUTED
| step_execute_public : public = true → stage_step public UNAUTHENTICATED EXECUTED
| step_success : stage_step public EXECUTED SUCCESS
| step_not_found : stage_step public EXECUTED NOT_FOUND
| step_conflict : stage_step public EXECUTED CONFLICT
| step_fail s :
    s ∈ [UNAUTHENTICATED; AUTHENTICATED; AUTHORIZED; EXECUTED] →
    stage_step public s FAILED.

(** A run of the machine: from [UNAUTHENTICATED], by its transitions. *)
Fixpoint stage_chain (public : bool) (s : stage) (rest : list stage) : Prop :=
  match rest with
  | [] => True
  | s' :: rest' => stage_step public s s' ∧ stage_chain public s' rest'
  end.

Definition stage_run (public : bool) (stages : list stage) : Prop :=
  match stages with
  | UNAUTHENTICATED :: rest => stage_chain public UNAUTHENTICATED rest
  | _ => False
  end.

(** The endpoints the design exempts from the identity check. *)
Definition public_action (a : usersController.action) : bool :=
  bool_decide (a ∈ [usersController.loginAction; usersController.createSecureUser]).

(** ** The mapper behind an action *)

(** What a controller action delegates to, with the outcome the
    design maps the mapper's result to.  A mapper refuses nobody:
    refusals are decided before it runs.  The one exception is a login
    that fails, which is an authentication failure (design 4.5) and
    writes nothing. *)
Class Delegates : Type := {
  perform : usersController.action → api_request → database → database * result_outcome;
  perform_denied a req db :
    denied (perform a req db).2 →
    a = usersController.loginAction ∧ (perform a req db).1 = db;
}.

(** The account read behind [usersController.findAccountByUserId]:
    the mapper on the [:id] of the route; a storage failure is
    surfaced as the generic internal failure (design 7). *)
Definition read_outcome (res : outcome exn value) : result_outcome :=
  match res with
  | Returned v => Success v
  | Thrown _ => InternalFailure
  end.

Definition account_read (id : string) (db : database) : database * result_outcome :=
  let '(db', res) := AccountDataMapper.findAccountByUserId (PStr id) db in
  (db', read_outcome res).

(** Delegates whose account read is the account mapper. *)
Class AccountBinding `{Delegates} : Prop :=
  perform_findAccountByUserId req db id :
    req_params req !! "id" = Some id →
    perform usersController.findAccountByUserId req db = account_read id db.

(** ** The handlers *)

Section handlers.
Context `{Verifier, Delegates}.
Context (now : Z).
Context (valid : schema → string → obj → bool).

Definition reach (s : stage) (c : conn) : conn :=
  Conn (conn_request c) (conn_store c) (conn_stages c ++ [s]).

(** A refusal: nothing is written, the request fails where it stands. *)
Definition refuse (o : result_outcome) (c : conn) : answer :=
  Answer o (conn_store c) (conn_stages c ++ [FAILED]).

Definition with_identity (identity : AuthenticatedIdentity) (c : conn) : conn :=
  let req := conn_request c in
  Conn (ApiRequest (req_credential req) (req_body req) (req_params req) (Some identity))
       (conn_store c) (conn_stages c).

(** Express binds the parameters of the route before its chain runs. *)
Definition with_params (c : conn) (ps : gmap string string) : conn :=
  let req := conn_request c in
  Conn (ApiRequest (req_credential req) (req_body req) ps (req_identity req))
       (conn_store c) (conn_stages c).

(** [authenticationJwt]: the Identity Resolver on the credential of
    the request. *)
Definition authenticate (c : conn) : step_result conn answer Empty_set :=
  match resolve now (req_credential (conn_request c)) with
  | Returned who => Next (reach AUTHENTICATED (with_identity who c))
  | Thrown f => Respond (refuse (AuthenticationFailed f) c)
  end.

(** [validate(schema, target)]: the external validator. *)
Definition validation (s : schema) (target : string) (c : conn) :
    step_result conn answer Empty_set :=
  if valid s target (req_body (conn_request c)) then Next c
  else Respond (refuse ValidationFailure c).

(** The Ownership Guard, for a request whose route names a user. *)
Definition guard (c : conn) : conn + result_outcome :=
  match req_params (conn_request c) !! "id" with
  | None => inl c
  | Some targetUserId =>
      match req_identity (conn_request c) with
      | None => inr (AuthenticationFailed MissingCredential)
      | Some who =>
          match authorize who targetUserId with
          | ALLOW => inl (reach AUTHORIZED c)
          | DENY => inr (AuthorizationFailed NotOwner)
          end
      end
  end.

(** The mapper call and its outcome. *)
Definition execute (a : usersController.action) (c : conn) : answer :=
  let '(db, o) := perform a (conn_request c) (conn_store c) in
  Answer o db (conn_stages c ++ [EXECUTED; terminal o]).

(** [controllerHandler(usersController.a)]: guard, then mapper. *)
Definition controller (a : usersController.action) (c : conn) : answer :=
  match guard c with
  | inl c' => execute a c'
  | inr o => refuse o c
  end.

Definition handle (mw : middleware) (c : conn) : step_result conn answer Empty_set :=
  match mw with
  | authenticationJwt => authenticate c
  | validate s target => validation s target c
  | controllerHandler a => Respond (controller a c)
  end.

(** A request as it arrives: nothing resolved, nothing bound. *)
Definition arrival (credential : option string) (body : obj) (db : database) : conn :=
  Conn (ApiRequest credential body ∅ None) db [UNAUTHENTICATED].

(** The users router on a request. *)
Definition handle_request (m : http_method) (path : string)
    (credential : option string) (body : obj) (db : database) :
    list middleware * exchange conn answer Empty_set :=
  serve handle with_params router m path (arrival credential body db).

(** ** The design's order, written out *)

(** The validations of a chain. *)
Definition validations (stack : list middleware) : list (schema * string) :=
  omap (λ mw, match mw with validate s t => Some (s, t) | _ => None end) stack.

Definition all_valid (vs : list (schema * string)) (body : obj) : bool :=
  forallb (λ st, valid st.1 st.2 body) vs.

(** The checks of a request to a route with parameters [ps] and
    validations [vs] before its mapper runs: identity first when the
    route names a user, then validation, then ownership.  They read no
    store.  The request is cleared for the mapper, with the stages it
    has reached, or refused. *)
Definition admission (ps : gmap string string) (vs : list (schema * string))
    (credential : option string) (body : obj) :
    api_request * list stage + result_outcome * list stage :=
  match ps !! "id" with
  | None =>
      if all_valid vs body then inl (ApiRequest credential body ps None, [UNAUTHENTICATED])
      else inr (ValidationFailure, [UNAUTHENTICATED; FAILED])
  | Some targetUserId =>
      match resolve now credential with
      | Thrown f => inr (AuthenticationFailed f, [UNAUTHENTICATED; FAILED])
      | Returned who =>
          if all_valid vs body then
            match authorize who targetUserId with
            | DENY =>
                inr (AuthorizationFailed NotOwner, [UNAUTHENTICATED; AUTHENTICATED; FAILED])
            | ALLOW =>
                inl (ApiRequest credential body ps (Some who),
                     [UNAUTHENTICATED; AUTHENTICATED; AUTHORIZED])
            end
          else inr (ValidationFailure, [UNAUTHENTICATED; AUTHENTICATED; FAILED])
      end
  end.

(** How a request to a route with action [a] ends: the checks, then the
    mapper. *)
Definition design_answer (ps : gmap string string) (vs : list (schema * string))
    (a : usersController.action) (credential : option string) (body : obj)
    (db : database) : answer :=
  match admission ps vs credential body with
  | inl (req, stages) => execute a (Conn req db stages)
  | inr (o, stages) => Answer o db stages
  end.

End handlers.

(** ** Running a chain *)

Section chains.
Context `{Verifier, Delegates}.
Context (now : Z).
Context (valid : schema → string → obj → bool).
Implicit Types c : conn.
Implicit Types vs : list (schema * string).
Implicit Types a : usersController.action.
Implicit Types ps : gmap string string.

Abbreviation run_stack := (run_stack (handle now valid)).
Abbreviation validates vs := ((λ st : schema * string, validate st.1 st.2) <$> vs).

(** Validations, then the controller. *)
Lemma run_validated vs a c :
  (run_stack (validates vs ++ [controllerHandler a]) c).2 =
    Responded (if all_valid valid vs (req_body (conn_request c))
               then controller a c else refuse ValidationFailure c).
Proof.
  induction vs as [|[s t] vs IH]; [done|]. cbn [fmap list_fmap app run_stack handle].
  unfold validation. cbn [all_valid forallb fst snd].
  destruct (valid s t _); cbn [andb]; [|done].
  fold (all_valid valid vs (req_body (conn_request c))). rewrite <- IH.
  by destruct (Router.run_stack _ _ c).
Qed.

(** The identity check, validations, then the controller. *)
Lemma run_authenticated vs a c :
  (run_stack (authenticationJwt :: validates vs ++ [controllerHandler a]) c).2 =
    match resolve now (req_credential (conn_request c)) with
    | Thrown f => Responded (refuse (AuthenticationFailed f) c)
    | Returned who =>
        (run_stack (validates vs ++ [controllerHandler a])
           (reach AUTHENTICATED (with_identity who c))).2
    end.
Proof.
  cbn [Router.run_stack handle]. unfold authenticate.
  destruct (resolve now _) as [who|f]; [|done].
  by destruct (Router.run_stack _ _ (reach AUTHENTICATED (with_identity who c))).
Qed.

(** A chain of the router, by its parts. *)
Lemma chain_shape_parts stack :
  chain_shape stack →
  ∃ a, stack_action stack = Some a ∧
    (stack = validates (validations stack) ++ [controllerHandler a] ∧
       head stack ≠ Some authenticationJwt ∨
     stack = authenticationJwt :: validates (validations stack) ++ [controllerHandler a]).
Proof.
  intros (pre & a & -> & Hpre). exists a.
  split; [unfold stack_action; by rewrite last_snoc|].
  destruct Hpre as [-> | [-> | [(s & t & ->) | (s & t & ->)]]];
    [left; by split | by right | left; by split | by right].
Qed.

(** The chain of a route on a request that has just arrived. *)
Lemma run_route r ps a credential body db :
  r ∈ router → stack_action (route_stack r) = Some a →
  (is_Some (ps !! "id") → head (route_stack r) = Some authenticationJwt) ∧
  (ps !! "id" = None → authenticationJwt ∉ route_stack r) →
  (run_stack (route_stack r) (with_params (arrival credential body db) ps)).2 =
    Responded (design_answer now valid ps (validations (route_stack r)) a credential body db).
Proof.
  intros Hr Ha [Hid Hnone].
  destruct (chain_shape_parts _ (router_chain_shape r Hr)) as (a' & Ha' & Hparts).
  assert (a' = a) as -> by congruence. unfold design_answer, admission.
  destruct Hparts as [[Hstack Hhead] | Hstack].
  - rewrite Hstack at 1. rewrite run_validated. cbn [conn_request with_params arrival req_body].
    assert (ps !! "id" = None) as Hps.
    { destruct (ps !! "id") eqn:Hps; [|done]. by destruct Hhead, Hid. }
    rewrite Hps. destruct (all_valid _ _ _); [|done].
    unfold controller, guard. cbn [conn_request with_params arrival req_params]. by rewrite Hps.
  - rewrite Hstack at 1. rewrite run_authenticated.
    cbn [conn_request with_params arrival req_credential].
    destruct (ps !! "id") as [target|] eqn:Hps.
    2:{ destruct (Hnone eq_refl). rewrite Hstack. left. }
    destruct (resolve now credential) as [who|f]; [|done]. rewrite run_validated.
    cbn [conn_request req_body reach with_identity].
    destruct (all_valid _ _ _); [|done].
    unfold controller, guard.
    cbn [conn_request req_params req_identity reach with_identity with_params arrival].
    rewrite Hps. by destruct (authorize who target).
Qed.

(** What the stages of a refusal and of an execution are. *)
Lemma execute_stages a c :
  answer_stages (execute a c) =
    conn_stages c ++ [EXECUTED; terminal (answer_outcome (execute a c))].
Proof. unfold execute. by destruct (perform _ _ _). Qed.

Lemma execute_denied a c :
  denied (answer_outcome (execute a c)) →
  a = usersController.loginAction ∧ answer_store (execute a c) = conn_store c.
Proof.
  unfold execute. pose proof (perform_denied a (conn_request c) (conn_store c)).
  by destruct (perform _ _ _).
Qed.

Lemma terminal_step public o : stage_step public EXECUTED (terminal o).
Proof. destruct o; simpl; try constructor; set_solver. Qed.

(** Checks a run of the machine transition by transition. *)
Ltac stage_steps :=
  cbn [stage_run stage_chain answer_stages conn_stages app]; split_and?;
  first [ done
        | by apply step_authenticate
        | apply step_authorize
        | apply step_execute
        | by apply step_execute_public
        | apply terminal_step
        | apply step_fail; set_solver ].

(** The stages of the design's order are a run of the machine, when
    the endpoints without identity check are the public ones. *)
Lemma design_answer_stages ps vs a credential body db :
  (ps !! "id" = None → public_action a = true) →
  (is_Some (ps !! "id") → public_action a = false) →
  stage_run (public_action a)
    (answer_stages (design_answer now valid ps vs a credential body db)).
Proof.
  intros Hpub Hid. unfold design_answer, admission. destruct (ps !! "id") as [target|].
  - specialize (Hid (mk_is_Some _ _ eq_refl)).
    destruct (resolve now credential) as [who|f]; [|stage_steps].
    destruct (all_valid _ _ _); [|stage_steps].
    destruct (authorize who target); [|stage_steps].
    rewrite execute_stages. stage_steps.
  - specialize (Hpub eq_refl). destruct (all_valid _ _ _); [|stage_steps].
    rewrite execute_stages. stage_steps.
Qed.

(** A refusal writes nothing, and runs no mapper unless it is the
    refusal of a login. *)
Lemma design_answer_denied ps vs a credential body db :
  denied (answer_outcome (design_answer now valid ps vs a credential body db)) →
  answer_store (design_answer now valid ps vs a credential body db) = db ∧
  (EXECUTED ∈ answer_stages (design_answer now valid ps vs a credential body db) →
   a = usersController.loginAction).
Proof.
  unfold design_answer, admission.
  repeat case_match; try (by intros [-> ->]%execute_denied); intros _;
    (split; [done | set_solver]).
Qed.

(** The router answers a request as the design orders the stages. *)
Lemma serve_design m path credential body db r ps :
  (r, ps) ∈ dispatch router m path →
  ∃ a, stack_action (route_stack r) = Some a ∧
    (handle_request now valid m path credential body db).2 =
      Responded (design_answer now valid ps (validations (route_stack r)) a credential body db).
Proof.
  intros Hd. pose proof (dispatch_route _ _ _ _ _ Hd) as Hr.
  destruct (chain_shape_parts _ (router_chain_shape r Hr)) as (a & Ha & _).
  exists a. split; [done|]. unfold handle_request.
  rewrite (serve_single _ _ _ _ _ _ _ _ (dispatch_single _ _ _ _ Hd)).
  by apply run_route, dispatch_authenticated with m path.
Qed.

(** Which routes run without identity: the list of all users and the
    two public endpoints. *)
Lemma router_scope r a :
  r ∈ router → stack_action (route_stack r) = Some a →
  (route_params r = [] ∧ (r = get_users ∨ public_action a = true)) ∨
  (route_params r = ["id"] ∧ public_action a = false).
Proof.
  intros Hr Ha.
  repeat (apply elem_of_cons in Hr as [->|Hr]); [..|by apply elem_of_nil in Hr];
    vm_compute in Ha; injection Ha as <-;
    first [ left; split; [by vm_compute|]; first [by left | right; by vm_compute]
          | right; split; by vm_compute ].
Qed.

Lemma dispatch_scope m path r ps a :
  (r, ps) ∈ dispatch router m path → stack_action (route_stack r) = Some a →
  r ≠ get_users →
  (ps !! "id" = None → public_action a = true) ∧
  (is_Some (ps !! "id") → public_action a = false).
Proof.
  intros Hd Ha Hr. pose proof (dispatch_route _ _ _ _ _ Hd) as Hin.
  destruct (dispatch_elem _ _ _ _ Hd) as (segs & _ & Ht).
  destruct (routing_table_params _ _ _ _ Ht) as [[-> Hps] | (s & _ & _ & -> & Hps)];
    destruct (router_scope r a Hin Ha) as [[Hps' Hpub] | [Hps' Hpub]]; try congruence.
  - split; [|by intros [? ?%lookup_empty_Some]]. by destruct Hpub.
  - split; [by rewrite lookup_singleton_eq | done].
Qed.

(** C6. The router with the design's handlers answers every request
    in the order of the design: a request no route answers leaves the
    router as it came; any other is answered by the first route that
    matches, with the identity check first when the route names a
    user, then the validation of the body, then the ownership guard,
    then the mapper, and a failure of any stage ends it. *)
Theorem request_answer m path credential body db :
  (handle_request now valid m path credential body db).2 =
    match dispatch router m path with
    | [] => PassedOn (arrival credential body db)
    | (r, ps) :: _ =>
        Responded
          (design_answer now valid ps (validations (route_stack r))
             (default usersController.findAll (stack_action (route_stack r)))
             credential body db)
    end.
Proof.
  destruct (dispatch router m path) as [|[r ps] rest] eqn:Hd.
  - unfold handle_request. by rewrite serve_no_match.
  - assert ((r, ps) ∈ dispatch router m path) as Hin by (rewrite Hd; left).
    by destruct (serve_design m path credential body db r ps Hin) as (a & -> & ->).
Qed.


(** The list of all users is served to anybody: [GET /] is
    executed whatever the credential, also without one, although the
    design exempts only registration, login and root discovery from
    the identity check; its stages are no run of the machine. *)
Theorem listing_unauthenticated path credential body db :
  path_segments path = Some [] →
  (handle_request now valid GET path credential body db).2 =
    Responded (execute usersController.findAll (arrival credential body db)) ∧
  ¬ stage_run (public_action usersController.findAll)
      (answer_stages (execute usersController.findAll (arrival credential body db))).
Proof.
  intros Hp. split.
  - assert ((get_users, ∅) ∈ dispatch router GET path) as Hd
      by (rewrite (dispatch_table _ _ _ Hp); left).
    by destruct (serve_design GET path credential body db _ _ Hd) as (a & [= <-] & ->).
  - rewrite execute_stages. intros [Hstep _]. by inversion Hstep.
Qed.

End chains.

(** ** A read of the account, end to end *)

Section account_read.
Context `{Verifier, AccountBinding}.
Context (now : Z).
Context (valid : schema → string → obj → bool).

(** The route that reads the account of the user a path names. *)
Lemma dispatch_get_account id :
  param_value id →
  (get_account, {[ "id" := id ]}) ∈ dispatch router GET (path_of [id; "account"]).
Proof.
  intros [Hne Hid].
  rewrite (dispatch_path_of GET [id; "account"] get_account {[ "id" := id ]});
    [left | by repeat constructor | done | by apply routing_table_sub].
Qed.

(** C23. Reading one's account, from the request to the store: for a
    credential that is verified and not expired, of the user the path
    names or of an administrator, [GET /:id/account] on a store that
    holds accounts succeeds with the account the contract of the
    mapper (design 4.4) finds for that user, [null] when there is
    none, and leaves the store as it was. *)
Theorem get_account_end_to_end id token c body db :
  represented db → param_value id →
  verify token = Some c → (now < claims_expiry c)%Z →
  authorize (claims_identity c) id = ALLOW →
  (handle_request now valid GET (path_of [id; "account"]) (Some token) body db).2 =
    Responded
      (Answer (Success (found_value (AccountSpec.findByOwningUser id (accounts db)))) db
         [UNAUTHENTICATED; AUTHENTICATED; AUTHORIZED; EXECUTED; SUCCESS]).
Proof.
  intros Hrep Hid Hv Hexp Hallow. pose proof (dispatch_get_account id Hid) as Hd.
  destruct (serve_design now valid GET _ (Some token) body db _ _ Hd) as (a & [= <-] & ->).
  unfold design_answer, admission. rewrite lookup_singleton_eq.
  rewrite (proj2 (resolve_Returned now (Some token) (claims_identity c)))
    by by exists token, c.
  cbn [validations omap list_omap route_stack get_account all_valid forallb]. rewrite Hallow.
  unfold execute. cbn [conn_request conn_store conn_stages].
  rewrite (perform_findAccountByUserId _ _ id) by apply lookup_singleton_eq.
  unfold account_read. by rewrite (findAccountByUserId_accounts (PStr id) db Hrep).
Qed.

End account_read.

(** ** Examples *)

(** Three credentials that verify, one of them expired at time 50. *)
Definition sample_tokens : gmap string claim_set :=
  {[ "t4" := Claims (Identity "4" customer) 1000;
     "t9" := Claims (Identity "9" carrier) 1000;
     "root" := Claims (Identity "1" admin) 1000;
     "old" := Claims (Identity "4" customer) 10 ]}.

#[export] Instance sample_verifier : Verifier := {| verify token := sample_tokens !! token |}.

(** Delegates that know the account read only. *)
Definition sample_perform (a : usersController.action) (req : api_request) (db : database) :
    database * result_outcome :=
  match a, req_params req !! "id" with
  | usersController.findAccountByUserId, Some id => account_read id db
  | _, _ => (db, InternalFailure)
  end.

Lemma account_read_not_denied id db : ¬ denied (account_read id db).2.
Proof.
  unfold account_read.
  destruct (AccountDataMapper.findAccountByUserId (PStr id) db) as [db' [v|e]]; by intros [].
Qed.

Lemma sample_perform_denied a req db :
  denied (sample_perform a req db).2 →
  a = usersController.loginAction ∧ (sample_perform a req db).1 = db.
Proof.
  unfold sample_perform.
  destruct a, (req_params req !! "id"); try (by intros []); by intros ?%account_read_not_denied.
Qed.

#[export] Instance sample_delegates : Delegates :=
  {| perform := sample_perform; perform_denied := sample_perform_denied |}.

#[export] Instance sample_binding : AccountBinding.
Proof. intros req db id Hid. cbn. unfold sample_perform. by rewrite Hid. Qed.

Definition accept_all (s : schema) (target : string) (body : obj) : bool := true.

(** The scenario of the design: user 4 asks to delete the account of
    user 9 and is refused as not the owner; nothing is written. *)
Example stranger_delete_refused :
  (handle_request 50 accept_all DELETE "/9/account" (Some "t4") ∅ AccountDataMapper.db1).2 =
    Responded (Answer (AuthorizationFailed NotOwner) AccountDataMapper.db1
                 [UNAUTHENTICATED; AUTHENTICATED; FAILED]).
Proof.
  assert ((delete_account, {[ "id" := "9" ]}) ∈ dispatch router DELETE "/9/account") as Hd
    by (rewrite (dispatch_table _ _ ["9"; "account"]) by (by vm_compute); left).
  by destruct (serve_design 50 accept_all DELETE _ (Some "t4") ∅ AccountDataMapper.db1 _ _ Hd)
    as (a & [= <-] & ->).
Qed.

(** The same request with the credential of an administrator reaches
    the mapper. *)
Example admin_delete_executed :
  (handle_request 50 accept_all DELETE "/9/account" (Some "root") ∅ AccountDataMapper.db1).2 =
    Responded (Answer InternalFailure AccountDataMapper.db1
                 [UNAUTHENTICATED; AUTHENTICATED; AUTHORIZED; EXECUTED; FAILED]).
Proof.
  assert ((delete_account, {[ "id" := "9" ]}) ∈ dispatch router DELETE "/9/account") as Hd
    by (rewrite (dispatch_table _ _ ["9"; "account"]) by (by vm_compute); left).
  by destruct (serve_design 50 accept_all DELETE _ (Some "root") ∅ AccountDataMapper.db1 _ _ Hd)
    as (a & [= <-] & ->).
Qed.


Lemma listing_unauthenticated_witness :
  (handle_request 50 accept_all GET "/" None ∅ AccountDataMapper.db1).2 =
    Responded (execute usersController.findAll (arrival None ∅ AccountDataMapper.db1)) ∧
  ¬ stage_run (public_action usersController.findAll)
      (answer_stages (execute usersController.findAll (arrival None ∅ AccountDataMapper.db1))).
Proof. apply listing_unauthenticated. by vm_compute. Defined.

Lemma get_account_end_to_end_witness :
  (handle_request 50 accept_all GET (path_of ["4"; "account"]) (Some "t4") ∅ AccountDataMapper.db1).2 =
    Responded
      (Answer (Success (found_value (AccountSpec.findByOwningUser "4" (accounts AccountDataMapper.db1)))) AccountDataMapper.db1
         [UNAUTHENTICATED; AUTHENTICATED; AUTHORIZED; EXECUTED; SUCCESS]).
Proof.
  apply (get_account_end_to_end 50 accept_all "4" "t4" (Claims (Identity "4" customer) 1000)).
  - apply db1_represented.
  - by split.
  - reflexivity.
  - done.
  - reflexivity.
Defined.
