(* ===== verification/Session.v ===== *)
(** * A session: register, log in, read an account

    The parts of the design and of the sources in one run: a user
    registers and logs in ([UserMapper]), and presents the credential
    of the login on [GET /:id/account], which the users router
    ([Router]) answers with the identity check, the ownership guard
    and the controller ([Pipeline], [Access]) in front of the account
    mapper ([AccountMapper]). *)

From stdpp Require Import base tactics option list strings gmap pretty.
From S2P Require Import Prelude JsValue Database AccountMapper Router Access UserMapper Pipeline.

(** ** The controller actions of registration and login *)

(** What the controller hands on: a storage failure is surfaced as
    the generic internal failure (design 7), a credential as the
    payload of a success. *)
Definition surfaced (res : outcome exn result_outcome) : result_outcome :=
  match res with
  | Returned o => o
  | Thrown _ => InternalFailure
  end.

Definition login_outcome
    (res : outcome exn (outcome AuthenticationFailure (AuthenticatedIdentity * string))) :
    result_outcome :=
  match res with
  | Returned (Returned (_, credential)) => Success (VPrim (PStr credential))
  | Returned (Thrown f) => AuthenticationFailed f
  | Thrown _ => InternalFailure
  end.

(** Delegates whose registration and login are the user mapper, on
    the body of the request.  What the mapper leaves to its
    environment is part of the binding: the salt and the key of a new
    row, the clock and the lifetime of credentials. *)
Class UserBinding `{Hasher} `{Verifier} `{!Issuer} `{!Delegates} : Type := {
  new_salt : database → string;
  new_id : database → Z;
  clock : Z;
  lifetime : Z;
  perform_createSecureUser req db :
    perform usersController.createSecureUser req db =
      let '(db', res) :=
        UserDataMapper.createSecureUser (new_salt db) (new_id db) (req_body req) db in
      (db', surfaced res);
  perform_loginAction req db :
    perform usersController.loginAction req db =
      let '(db', res) :=
        UserDataMapper.authenticate clock lifetime
          (to_string (get_prop (req_body req) "email"))
          (to_string (get_prop (req_body req) "password")) db in
      (db', login_outcome res);
}.

Section users.
Context `{UserBinding}.
Context (now : Z) (valid : schema → string → obj → bool).
Import UserDataMapper.
Implicit Types db : database.
Implicit Types body : obj.

(** The two public routes. *)
Lemma serve_public path name r a credential body db :
  path_segments path = Some [name] → routing_table POST [name] = Some (r, ∅) →
  stack_action (route_stack r) = Some a →
  (handle_request now valid POST path credential body db).2 =
    Responded
      (if all_valid valid (validations (route_stack r)) body then
         execute a (Conn (ApiRequest credential body ∅ None) db [UNAUTHENTICATED])
       else Answer ValidationFailure db [UNAUTHENTICATED; FAILED]).
Proof.
  intros Hp Hr Ha.
  assert ((r, ∅) ∈ dispatch router POST path) as Hd
    by (rewrite (dispatch_table _ _ _ Hp), Hr; left).
  destruct (serve_design now valid POST path credential body db _ _ Hd) as (a' & Ha' & ->).
  assert (a' = a) as -> by congruence. unfold design_answer, admission.
  rewrite lookup_empty. by destruct (all_valid _ _ _).
Qed.


(** C26. Login through the router.  On the store a registration with a
    free e-mail has left, [POST /login] with that e-mail, once the
    validator has accepted the body, succeeds with a credential signed
    for the registered user when the password is the one of the
    registration, and is an authentication failure that issues nothing
    for every other password; it never writes. *)
Theorem login_request path credential registrationData body email plaintext guess db t :
  path_segments path = Some ["login"] →
  db !! "users" = Some t → "email" ∈ columns t →
  registrationData !! "email" = Some (PStr email) →
  registrationData !! "password" = Some (PStr plaintext) →
  filter (matches "email" (PStr email)) (table_rows t) = [] →
  body !! "email" = Some (PStr email) → body !! "password" = Some (PStr guess) →
  let db1 := (createSecureUser (new_salt db) (new_id db) registrationData db).1 in
  let who := Identity (pretty (new_id db)) (role_of (get_prop registrationData "role")) in
  (handle_request now valid POST path credential body db1).2 =
    Responded
      (if valid userAuth_post "body" body then
         if bool_decide (guess = plaintext) then
           Answer (Success (VPrim (PStr (sign (Claims who (clock + lifetime)))))) db1
             [UNAUTHENTICATED; EXECUTED; SUCCESS]
         else
           Answer (AuthenticationFailed InvalidCredential) db1
             [UNAUTHENTICATED; EXECUTED; FAILED]
       else Answer ValidationFailure db1 [UNAUTHENTICATED; FAILED]).
Proof.
  intros Hp Ht Hc Hemail Hpw Hfree Hbe Hbp db1 who.
  rewrite (serve_public path "login" post_login usersController.loginAction) by done.
  unfold all_valid. cbn [validations omap list_omap route_stack post_login forallb fst snd].
  rewrite andb_true_r. destruct (valid _ _ _); [|done].
  unfold execute. cbn [conn_request conn_store conn_stages req_body].
  rewrite perform_loginAction. cbn [req_body].
  rewrite (get_prop_present _ _ _ Hbe), (get_prop_present _ _ _ Hbp). cbn [to_string].
  unfold db1. rewrite (authenticate_registered _ _ _ _ _ _ _ _ _ Ht Hc Hemail Hpw Hfree).
  by case_bool_decide.
Qed.

End users.

Section session.
Context `{Hasher} `{Verifier} `{!Issuer} `{!Delegates} `{!AccountBinding}.
Context (valid : schema → string → obj → bool).
Import UserDataMapper.
Implicit Types db : database.

(** A signed credential resolves to its identity until it expires. *)
Lemma resolve_signed now c :
  resolve now (Some (sign c)) =
    if bool_decide (claims_expiry c ≤ now)%Z then Thrown ExpiredCredential
    else Returned (claims_identity c).
Proof. unfold resolve. by rewrite verify_sign. Qed.

(** The account read behind the controller, as an answer. *)
Lemma execute_account_read c id :
  req_params (conn_request c) !! "id" = Some id →
  execute usersController.findAccountByUserId c =
    let o := read_outcome (AccountDataMapper.findAccountByUserId (PStr id) (conn_store c)).2 in
    Answer o (conn_store c) (conn_stages c ++ [EXECUTED; terminal o]).
Proof.
  intros Hid. unfold execute. rewrite (perform_findAccountByUserId _ _ id Hid).
  unfold account_read.
  pose proof (AccountDataMapper.findAccountByUserId_store (PStr id) (conn_store c)) as Hro.
  destruct (AccountDataMapper.findAccountByUserId _ _) as [db' res]. by simplify_eq/=.
Qed.

(** C24. A session.  A user registers with an e-mail that is free and
    logs in with the password of the registration: the login answers
    with the identity of the new user and a credential.  Presented on
    [GET /:id/account], the credential is refused as expired from
    [lifetime] after the login on; before, the request is authorized
    when the path names the user (or the user is an administrator) and
    is then answered by [findAccountByUserId] of the account mapper for
    the user of the path, and it is refused as not the owner's
    otherwise.  No such request writes. *)
Theorem session_account salt id registrationData email plaintext login_time lifetime db t :
  db !! "users" = Some t → "email" ∈ columns t →
  registrationData !! "email" = Some (PStr email) →
  registrationData !! "password" = Some (PStr plaintext) →
  filter (matches "email" (PStr email)) (table_rows t) = [] →
  let db1 := (createSecureUser salt id registrationData db).1 in
  let who := Identity (pretty id) (role_of (get_prop registrationData "role")) in
  let credential := sign (Claims who (login_time + lifetime)) in
  authenticate login_time lifetime email plaintext db1 =
    (db1, Returned (Returned (who, credential))) ∧
  ∀ later target body, param_value target →
    (handle_request later valid GET (path_of [target; "account"]) (Some credential) body db1).2 =
      Responded
        (if bool_decide (login_time + lifetime ≤ later)%Z then
           Answer (AuthenticationFailed ExpiredCredential) db1 [UNAUTHENTICATED; FAILED]
         else
           match authorize who target with
           | ALLOW =>
               let o := read_outcome
                          (AccountDataMapper.findAccountByUserId (PStr target) db1).2 in
               Answer o db1
                 [UNAUTHENTICATED; AUTHENTICATED; AUTHORIZED; EXECUTED; terminal o]
           | DENY =>
               Answer (AuthorizationFailed NotOwner) db1
                 [UNAUTHENTICATED; AUTHENTICATED; FAILED]
           end).
Proof.
  intros Ht Hc Hemail Hpw Hfree db1 who credential. split.
  - unfold db1. rewrite (authenticate_registered _ _ _ _ _ _ _ _ _ Ht Hc Hemail Hpw Hfree).
    by rewrite bool_decide_eq_true_2.
  - intros later target body Htarget. pose proof (dispatch_get_account target Htarget) as Hd.
    destruct (serve_design later valid GET _ (Some credential) body db1 _ _ Hd)
      as (a & [= <-] & ->).
    unfold design_answer, admission, credential. rewrite lookup_singleton_eq, resolve_signed.
    cbn [claims_expiry claims_identity]. case_bool_decide; [done|].
    cbn [validations omap list_omap route_stack get_account all_valid forallb].
    destruct (authorize who target); [|done].
    by rewrite (execute_account_read _ target) by apply lookup_singleton_eq.
Qed.

End session.

(** ** Examples *)

(** Delegates for the three actions of a session, with the primitives
    of [UserMapper] that keep no secret: the key of a new user is the
    number of users plus one, logins happen at time 10 and credentials
    live for 5. *)
Definition users_count (db : database) : Z :=
  Z.of_nat (S (length (from_option table_rows [] (db !! "users")))).

Definition session_perform (a : usersController.action) (req : api_request) (db : database) :
    database * result_outcome :=
  match a with
  | usersController.createSecureUser =>
      let '(db', res) :=
        UserDataMapper.createSecureUser "s" (users_count db) (req_body req) db in
      (db', surfaced res)
  | usersController.loginAction =>
      let '(db', res) :=
        UserDataMapper.authenticate 10 5
          (to_string (get_prop (req_body req) "email"))
          (to_string (get_prop (req_body req) "password")) db in
      (db', login_outcome res)
  | a' => sample_perform a' req db
  end.

Lemma createSecureUser_not_denied `{Hasher} salt id registrationData db :
  ¬ denied (surfaced (UserDataMapper.createSecureUser salt id registrationData db).2).
Proof.
  unfold UserDataMapper.createSecureUser.
  destruct (run_select _ _ _ _ db) as [[|r rs]|e]; by intros [].
Qed.

Lemma session_perform_denied a req db :
  denied (session_perform a req db).2 →
  a = usersController.loginAction ∧ (session_perform a req db).1 = db.
Proof.
  destruct a; try apply sample_perform_denied; unfold session_perform.
  - intros _. split; [done|].
    pose proof (authenticate_store 10 5
                  (to_string (get_prop (req_body req) "email"))
                  (to_string (get_prop (req_body req) "password")) db) as Hst.
    by destruct (UserDataMapper.authenticate _ _ _ _ db).
  - pose proof (createSecureUser_not_denied "s" (users_count db) (req_body req) db) as Hno.
    by destruct (UserDataMapper.createSecureUser _ _ _ db).
Qed.

#[export] Instance session_delegates : Delegates :=
  {| perform := session_perform; perform_denied := session_perform_denied |}.

#[export] Instance session_users : UserBinding (H2:=session_delegates) :=
  {| new_salt _ := "s"; new_id := users_count; clock := 10; lifetime := 5;
     perform_createSecureUser _ _ := eq_refl; perform_loginAction _ _ := eq_refl |}.

#[export] Instance session_accounts : AccountBinding (H:=session_delegates).
Proof. intros req db id Hid. cbn. unfold sample_perform. by rewrite Hid. Qed.


(** Then she logs in, first with a wrong password. *)
Lemma login_request_witness :
  (handle_request (H:=spelling_verifier) (H0:=session_delegates) 10%Z accept_all POST
     "/login" None {[ "email" := PStr "e@x.com"; "password" := PStr "guess" ]}
     (UserDataMapper.createSecureUser "s" 1 ada no_users).1).2 =
    Responded
      (Answer (AuthenticationFailed InvalidCredential)
         (UserDataMapper.createSecureUser "s" 1 ada no_users).1
         [UNAUTHENTICATED; EXECUTED; FAILED]).
Proof.
  apply (login_request (H3:=session_users) 10%Z accept_all "/login" None ada _ "e@x.com"
           "secret" "guess" no_users _ eq_refl no_users_table); [set_solver|done..].
Defined.

(** Ada registers, logs in at time 10 with a credential that lives
    for 5, and asks for the account of user 2 at time 12: she is
    refused as not the owner. *)
Lemma session_account_witness :
  let db1 := (UserDataMapper.createSecureUser "s" 1%Z ada no_users).1 in
  (handle_request (H:=spelling_verifier) (H0:=sample_delegates) 12%Z accept_all GET
     (path_of ["2"; "account"]) (Some (sign (Claims (Identity "1" customer) 15%Z))) ∅ db1).2 =
    Responded (Answer (AuthorizationFailed NotOwner) db1
                 [UNAUTHENTICATED; AUTHENTICATED; FAILED]).
Proof.
  apply (proj2 (session_account (H0:=spelling_verifier) accept_all "s" 1%Z ada "e@x.com" "secret"
                  10%Z 5%Z no_users _ no_users_table ltac:(set_solver) eq_refl eq_refl eq_refl)
           12%Z "2" ∅).
  apply (bool_decide_unpack (param_value "2")). by vm_compute.
Defined.
