(* ===== verification/Requests.v ===== *)
(** * Requests that overlap

    The design (5) has every request handled by a unit of its own that
    is suspended at credential verification and at every storage call;
    nothing is shared between requests but the store.  [Pipeline] serves
    one request at a time.  This file cuts a request at its
    suspensions: received, its checks not yet made; delegated, cleared
    by the checks and inside the mapper, which the store resumes one
    operation at a time; answered.  Requests in flight are the tasks of
    [Schedule].  It shows that a request served without interruption is
    the request of [Pipeline], that whatever the schedule the store is
    written by the mappers of cleared requests only, that requests
    whose mappers are one operation are served as if one after the
    other. *)

From stdpp Require Import base tactics option list strings gmap relations.
From S2P Require Import Prelude JsValue Database AccountMapper AccountSpec.
From S2P Require Import Router Access Pipeline Schedule.

(** ** Mapper calls that are suspended *)

Section finish.
Context {I : Type}.
Context (proceed : I → database → database * (I + result_outcome)).

(** An invocation run to its outcome with nothing in between, in at
    most [n] operations. *)
Fixpoint finish (n : nat) (k : I) (db : database) : option (database * result_outcome) :=
  match n with
  | 0 => None
  | S n' =>
      match proceed k db with
      | (db', inr o) => Some (db', o)
      | (db', inl k') => finish n' k' db'
      end
  end.

End finish.

(** What an action delegates to, as an invocation the store resumes:
    [invoke] is the call, which runs to its first storage operation;
    [proceed] executes the pending operation and runs the invocation
    on, to its next operation or to its outcome.  Run without
    interruption, the invocation is the mapper call of [Delegates]. *)
Class Invocations `{Delegates} : Type := {
  invocation : Type;
  invoke : usersController.action → api_request → invocation;
  proceed : invocation → database → database * (invocation + result_outcome);
  invoke_perform a req db :
    ∃ n, finish proceed n (invoke a req) db = Some (perform a req db);
}.

(** ** Requests in flight *)

(** A request as it comes in. *)
Record incoming : Type := Incoming {
  in_method : http_method;
  in_path : string;
  in_credential : option string;
  in_body : obj;
}.

(** A request between two suspensions: received, its chain not yet
    run; delegated, cleared by the checks of its chain for the action
    [a], with the stages it has reached and the invocation of its
    mapper in flight; answered; or left to the handlers after the
    router, when no route answers. *)
Inductive phase (I : Type) : Type :=
| Received (r : incoming)
| Delegated (r : incoming) (a : usersController.action) (req : api_request)
    (stages : list stage) (k : I)
| Answered (o : result_outcome) (stages : list stage)
| Unrouted.
Arguments Received {I} r.
Arguments Delegated {I} r a req stages k.
Arguments Answered {I} o stages.
Arguments Unrouted {I}.

(** A request that has left the router. *)
Definition finished {I} (k : phase I) : bool :=
  match k with
  | Answered _ _ | Unrouted => true
  | _ => false
  end.

(** A request as if it had not been looked at yet. *)
Definition restore {I} (k : phase I) : phase I :=
  match k with
  | Delegated r _ _ _ _ => Received r
  | _ => k
  end.

Section requests.
Context `{Verifier} `{!Delegates} `{!Invocations}.
Context (now : Z).
Context (valid : schema → string → obj → bool).

(** The router on a request, up to the mapper: the first route that
    answers, the checks of its chain, and the call of its action. *)
Definition receive (r : incoming) : phase invocation :=
  match dispatch router (in_method r) (in_path r) with
  | [] => Unrouted
  | (rt, ps) :: _ =>
      let a := default usersController.findAll (stack_action (route_stack rt)) in
      match admission now valid ps (validations (route_stack rt))
              (in_credential r) (in_body r) with
      | inl (req, stages) => Delegated r a req stages (invoke a req)
      | inr (o, stages) => Answered o stages
      end
  end.

(** A request from one suspension to the next. *)
Definition advance (k : phase invocation) (db : database) : database * phase invocation :=
  match k with
  | Received r => (db, receive r)
  | Delegated r a req stages inv =>
      match proceed inv db with
      | (db', inl inv') => (db', Delegated r a req stages inv')
      | (db', inr o) => (db', Answered o (stages ++ [EXECUTED; terminal o]))
      end
  | _ => (db, k)
  end.

(** The request of [Pipeline]: served at once. *)
Definition serve_whole (k : phase invocation) (db : database) : database * phase invocation :=
  match k with
  | Received r =>
      match (handle_request now valid (in_method r) (in_path r)
               (in_credential r) (in_body r) db).2 with
      | Responded ans => (answer_store ans, Answered (answer_outcome ans) (answer_stages ans))
      | _ => (db, Unrouted)
      end
  | _ => (db, k)
  end.

(** A request in its mapper has passed the checks of its route: on a
    route that names a user, its credential was resolved to an identity
    that owns the target or administers. *)
Definition cleared (k : phase invocation) : Prop :=
  match k with
  | Delegated _ a req stages inv =>
      match req_params req !! "id" with
      | None => stages = [UNAUTHENTICATED]
      | Some targetUserId =>
          ∃ who, resolve now (req_credential req) = Returned who ∧
                 req_identity req = Some who ∧
                 authorize who targetUserId = ALLOW ∧
                 stages = [UNAUTHENTICATED; AUTHENTICATED; AUTHORIZED]
      end
  | _ => True
  end.

(** A delegated request whose mapper has not been resumed yet. *)
Definition fresh (k : phase invocation) : Prop :=
  match k with
  | Delegated r a req stages inv => receive r = Delegated r a req stages inv
  | _ => True
  end.

(** The delivery completes the request of task [i]. *)
Definition completes (i : nat) (s : system (phase invocation) database) : bool :=
  match tasks s !! i with
  | Some k => negb (finished k) && finished (advance k (store s)).2
  | None => false
  end.

(** The requests a schedule completes, in the order of completion. *)
Fixpoint completions (schedule : list nat) (s : system (phase invocation) database) :
    list nat :=
  match schedule with
  | [] => []
  | i :: schedule' =>
      (if completes i s then [i] else [])
        ++ completions schedule' (deliver advance i s)
  end.

(** Every mapper call is one storage operation. *)
Definition atomic : Prop :=
  ∀ a req db, proceed (invoke a req) db = ((perform a req db).1, inr (perform a req db).2).

End requests.

(** ** Lemmas *)

Section request_lemmas.
Context `{Verifier} `{!Delegates} `{!Invocations}.
Context (now : Z).
Context (valid : schema → string → obj → bool).
Implicit Types s : system (phase invocation) database.
Implicit Types k : phase invocation.
Implicit Types db : database.
Implicit Types r : incoming.

(** What [Pipeline] answers, by what the router admits. *)
Lemma receive_design r db :
  (handle_request now valid (in_method r) (in_path r) (in_credential r) (in_body r) db).2 =
    match receive now valid r with
    | Delegated _ a req stages _ => Responded (execute a (Conn req db stages))
    | Answered o stages => Responded (Answer o db stages)
    | _ => PassedOn (arrival (in_credential r) (in_body r) db)
    end.
Proof.
  unfold receive. destruct (dispatch router _ _) as [|[rt ps] rest] eqn:Hd.
  { unfold handle_request. by rewrite serve_no_match. }
  assert ((rt, ps) ∈ dispatch router (in_method r) (in_path r)) as Hin by (rewrite Hd; left).
  destruct (serve_design now valid _ _ (in_credential r) (in_body r) db rt ps Hin)
    as (a & -> & ->).
  unfold design_answer. by destruct (admission _ _ _ _ _ _) as [[req stages]|[o stages]].
Qed.

Lemma receive_fresh r : fresh now valid (receive now valid r).
Proof.
  unfold fresh. destruct (receive now valid r) as [|r' a req stages inv| |] eqn:Ha; try done.
  rewrite <- Ha. unfold receive in Ha. repeat case_match; by simplify_eq.
Qed.

Lemma receive_not_received r r' : receive now valid r ≠ Received r'.
Proof. unfold receive. by repeat case_match. Qed.

(** The request served at once, by what the router admits. *)
Lemma serve_whole_receive r db :
  serve_whole now valid (Received r) db =
    match receive now valid r with
    | Delegated _ a req stages _ =>
        ((perform a req db).1,
         Answered (perform a req db).2 (stages ++ [EXECUTED; terminal (perform a req db).2]))
    | k => (db, k)
    end.
Proof.
  unfold serve_whole. rewrite receive_design.
  destruct (receive now valid r) as [r'| r' a req stages inv | o stages |] eqn:Ha; try done.
  - by destruct (receive_not_received r r').
  - unfold execute. cbn [conn_request conn_store conn_stages]. by destruct (perform a req db).
Qed.

Lemma advance_finished k db : finished k = true → advance now valid k db = (db, k).
Proof. by destruct k. Qed.

(** A request that has left the router is not resumed. *)
Lemma deliver_finished i s k :
  tasks s !! i = Some k → finished k = true → deliver (advance now valid) i s = s.
Proof.
  intros Hi Hk. rewrite (deliver_task i s k Hi), advance_finished by done.
  cbn [fst snd]. rewrite list_insert_id by done. by destruct s.
Qed.

Lemma run_finished n i s k :
  tasks s !! i = Some k → finished k = true →
  run (advance now valid) (replicate n i) s = s.
Proof.
  intros Hi Hk. induction n as [|n IH]; [done|].
  cbn [replicate]. by rewrite run_cons, (deliver_finished i s k).
Qed.

(** The operations of an invocation with nothing in between. *)
Lemma run_finish n i s r a req stages inv db' o :
  tasks s !! i = Some (Delegated r a req stages inv) →
  finish proceed n inv (store s) = Some (db', o) →
  run (advance now valid) (replicate n i) s =
    System (<[i := Answered o (stages ++ [EXECUTED; terminal o])]> (tasks s)) db'.
Proof.
  revert s inv. induction n as [|n IH]; intros s inv Hi Hfin; [done|].
  pose proof (lookup_lt_Some _ _ _ Hi) as Hlt.
  cbn [replicate]. rewrite run_cons, (deliver_task i s _ Hi). cbn [advance finish] in *.
  destruct (proceed inv (store s)) as [db1 [inv'|o']]; cbn [fst snd].
  - rewrite (IH _ inv'); cbn [tasks store]; [by rewrite list_insert_insert_eq| |done].
    by apply list_lookup_insert_eq.
  - injection Hfin as <- <-. eapply run_finished; [by apply list_lookup_insert_eq|done].
Qed.

(** Only the mapper of a request writes. *)
Lemma advance_store k db :
  (advance now valid k db).1 = db ∨ ∃ r a req stages inv, k = Delegated r a req stages inv.
Proof. destruct k; [by left|right; by eexists _, _, _, _, _|by left..]. Qed.

Lemma admission_cleared ps vs credential body r req stages a inv :
  admission now valid ps vs credential body = inl (req, stages) →
  cleared now (Delegated r a req stages inv).
Proof.
  unfold admission, cleared. destruct (ps !! "id") as [target|] eqn:Hps.
  - destruct (resolve now credential) as [who|f] eqn:Hwho; [|done].
    destruct (all_valid _ _ _); [|done]. destruct (authorize who target) eqn:Hallow; [|done].
    intros [= <- <-]. cbn [req_params req_credential req_identity]. rewrite Hps. by exists who.
  - destruct (all_valid _ _ _); [|done]. intros [= <- <-]. cbn [req_params]. by rewrite Hps.
Qed.

Lemma advance_cleared k db : cleared now k → cleared now (advance now valid k db).2.
Proof.
  destruct k as [r | r a req stages inv | |]; [| |done..].
  - intros _. cbn [advance snd]. unfold receive. repeat case_match; try done.
    by eapply admission_cleared.
  - cbn [advance]. by destruct (proceed inv db) as [? [|]].
Qed.

End request_lemmas.

(** ** The requests served one after the other *)

(** The requests in flight as if those in their mapper had not been
    looked at yet. *)
Definition restore_all {I} (s : system (phase I) database) : system (phase I) database :=
  System (restore <$> tasks s) (store s).

Section serial.
Context `{Verifier} `{!Delegates} `{!Invocations}.
Context (now : Z).
Context (valid : schema → string → obj → bool).
Context (Hatomic : atomic).
Implicit Types s : system (phase invocation) database.
Implicit Types k : phase invocation.
Implicit Types r : incoming.

Lemma receive_delegated r r' a req stages inv :
  receive now valid r = Delegated r' a req stages inv → r' = r ∧ inv = invoke a req.
Proof. unfold receive. repeat case_match; by intros [= <- <- <- <- <-]. Qed.

Lemma restore_finished k : finished k = true → restore k = k.
Proof. by destruct k. Qed.

Lemma restore_receive r : finished (receive now valid r) = false → restore (receive now valid r) = Received r.
Proof.
  destruct (receive now valid r) as [r'|r' a req stages inv| |] eqn:Ha; try done.
  - by destruct (receive_not_received now valid r r').
  - by destruct (receive_delegated _ _ _ _ _ _ Ha) as [-> _].
Qed.

(** A request in its mapper completes with its next operation. *)
Lemma advance_delegated r a req stages inv db :
  fresh now valid (Delegated r a req stages inv) →
  advance now valid (Delegated r a req stages inv) db = serve_whole now valid (Received r) db.
Proof.
  intros Hfresh. cbn [fresh] in Hfresh. rewrite serve_whole_receive, Hfresh.
  destruct (receive_delegated _ _ _ _ _ _ Hfresh) as [_ ->].
  cbn [advance]. by rewrite Hatomic.
Qed.

Lemma advance_fresh k db : fresh now valid k → fresh now valid (advance now valid k db).2.
Proof.
  destruct k as [r | r a req stages inv | |]; [| |done..].
  - intros _. apply receive_fresh.
  - intros Hfresh. rewrite (advance_delegated _ _ _ _ _ _ Hfresh), serve_whole_receive.
    cbn [fresh] in Hfresh. by rewrite Hfresh.
Qed.

Lemma deliver_fresh i s :
  Forall (fresh now valid) (tasks s) →
  Forall (fresh now valid) (tasks (deliver (advance now valid) i s)).
Proof.
  intros Hs. destruct (tasks s !! i) as [k|] eqn:Hi; [|by rewrite deliver_none].
  rewrite (deliver_task i s k Hi). cbn [tasks]. apply Forall_insert; [done|].
  apply advance_fresh. by eapply Forall_lookup_1.
Qed.

(** One delivery, seen from the requests served one after the other:
    nothing, or the whole request. *)
Lemma restore_deliver i s :
  Forall (fresh now valid) (tasks s) →
  restore_all (deliver (advance now valid) i s) =
    if completes now valid i s then deliver (serve_whole now valid) i (restore_all s)
    else restore_all s.
Proof.
  intros Hs. unfold completes. destruct (tasks s !! i) as [k|] eqn:Hi; [|by rewrite deliver_none].
  assert (tasks (restore_all s) !! i = Some (restore k)) as Hi'
    by (cbn [restore_all tasks]; by rewrite list_lookup_fmap, Hi).
  pose proof (Forall_lookup_1 _ _ _ _ Hs Hi) as Hk.
  rewrite (deliver_task i s k Hi), (deliver_task i _ _ Hi').
  unfold restore_all. cbn [tasks store]. rewrite list_fmap_insert.
  destruct k as [r | r a req stages inv | o stages |]; cbn [finished negb andb restore] in *.
  - rewrite serve_whole_receive. cbn [advance fst snd].
    destruct (finished (receive now valid r)) eqn:Hfin.
    + rewrite restore_finished by done. by destruct (receive now valid r).
    + rewrite restore_receive by done. by rewrite list_insert_id.
  - rewrite (advance_delegated _ _ _ _ _ _ Hk), serve_whole_receive. cbn [fresh] in Hk.
    rewrite Hk. by cbn [fst snd finished restore].
  - by rewrite list_insert_id.
  - by rewrite list_insert_id.
Qed.

End serial.

(** ** Theorems *)

Section request_theorems.
Context `{Verifier} `{!Delegates} `{!Invocations}.
Context (now : Z).
Context (valid : schema → string → obj → bool).
Implicit Types s : system (phase invocation) database.
Implicit Types k : phase invocation.
Implicit Types r : incoming.

(** A request that has left the router completes no more. *)
Lemma completions_finished schedule i s k :
  tasks s !! i = Some k → finished k = true → i ∉ completions now valid schedule s.
Proof.
  revert s. induction schedule as [|j schedule IH]; intros s Hi Hk; [by apply not_elem_of_nil|].
  cbn [completions]. rewrite elem_of_app. intros [Hj|Hrest].
  - unfold completes in Hj. destruct (decide (j = i)) as [->|Hne].
    + rewrite Hi, Hk in Hj. by apply elem_of_nil in Hj.
    + destruct (tasks s !! j) as [kj|]; [|by apply elem_of_nil in Hj].
      destruct (negb _ && _); [|by apply elem_of_nil in Hj]. by apply list_elem_of_singleton in Hj.
  - revert Hrest. apply IH; [|done]. destruct (decide (j = i)) as [->|Hne].
    + by rewrite (deliver_finished now valid i s k).
    + by rewrite deliver_other.
Qed.

Lemma completes_finished i s :
  completes now valid i s = true →
  ∃ k, tasks (deliver (advance now valid) i s) !! i = Some k ∧ finished k = true.
Proof.
  unfold completes. destruct (tasks s !! i) as [k|] eqn:Hi; [|done].
  intros [_ Hfin]%andb_prop. exists (advance now valid k (store s)).2.
  split; [by apply deliver_same|done].
Qed.

Lemma completions_NoDup schedule s : NoDup (completions now valid schedule s).
Proof.
  revert s. induction schedule as [|i schedule IH]; intros s; [constructor|].
  cbn [completions]. destruct (completes now valid i s) eqn:Hc; [|apply IH].
  destruct (completes_finished i s Hc) as (k & Hk & Hfin).
  constructor; [by eapply completions_finished|apply IH].
Qed.




End request_theorems.

(** ** Mappers of one operation *)

Section whole.
Context `{Delegates}.

Definition whole_proceed (k : usersController.action * api_request) (db : database) :
    database * (usersController.action * api_request + result_outcome) :=
  let '(db', o) := perform k.1 k.2 db in (db', inr o).

Lemma whole_invoke_perform a req db :
  ∃ n, finish whole_proceed n (a, req) db = Some (perform a req db).
Proof.
  exists 1. cbn [finish]. unfold whole_proceed. cbn [fst snd].
  by destruct (perform a req db).
Qed.

(** The invocations of [Delegates] taken as they are: one operation
    each. *)
Definition whole_invocations : Invocations :=
  {| invocation := usersController.action * api_request;
     invoke a req := (a, req);
     proceed := whole_proceed;
     invoke_perform := whole_invoke_perform |}.

Lemma whole_atomic : @atomic _ whole_invocations.
Proof.
  intros a req db. change (whole_proceed (a, req) db = ((perform a req db).1, inr (perform a req db).2)).
  unfold whole_proceed. cbn [fst snd]. by destruct (perform a req db).
Qed.

End whole.

(** ** An instance *)

Section sample.
#[local] Existing Instance whole_invocations.

(** The owner reads the account of user 4 while the same user asks to
    delete the account of user 9. *)
Definition own_read : incoming := Incoming GET "/4/account" (Some "t4") ∅.
Definition foreign_delete : incoming := Incoming DELETE "/9/account" (Some "t4") ∅.

Definition two_requests : system (phase invocation) database :=
  System [Received own_read; Received foreign_delete] AccountDataMapper.db1.




End sample.
