(* ===== verification/AccountRequests.v ===== *)
(** * Requests on an account

    The requests of [Requests] whose action is a method of the account
    mapper: [GET /:id/account], which [usersController]
    answers with [findAccountByUserId], and [PUT /:id/account], taken
    as the update of the account that the comment of the route in
    [src/back/app/routers/api/users.js] announces (line 88).  The
    mapper behind them is the class of
    [src/app/models/accountDataMapper.js], cut at its [await]s as in
    [Interleaving]: a read is one storage operation, an update two.
    The file shows that the requests so refined are still those of
    [Pipeline] when nothing interrupts them, and that two updates of
    one account that overlap are both answered with success while the
    store keeps the second only, which no order of serving them one
    after the other explains. *)

From stdpp Require Import base tactics option list strings gmap relations.
From S2P Require Import Prelude JsValue Database AccountMapper AccountSpec.
From S2P Require Import Router Access Pipeline Schedule Interleaving Requests.

Import AccountDataMapper.

(** ** The update behind [PUT /:id/account] *)

(** The outcome of an update: the error raised for a user without
    account is the [NotFound] of the design (4.4, 7), any other failure
    is internal. *)
Definition update_outcome (res : outcome exn value) : result_outcome :=
  match res with
  | Returned v => Success v
  | Thrown (JsError _) => NotFound AccountEntity
  | Thrown _ => InternalFailure
  end.

Definition account_update {E : RowEntity} (id : string) (body : obj) (db : database) :
    database * result_outcome :=
  let '(db', res) := updateAccount (PStr id) body db in (db', update_outcome res).

(** Delegates whose update of an account is the account mapper. *)
Class AccountUpdates `{Delegates} {E : RowEntity} : Prop :=
  perform_updateUserById req db id :
    req_params req !! "id" = Some id →
    perform usersController.updateUserById req db = account_update id (req_body req) db.

(** ** The invocations *)

(** A mapper call in flight: an invocation of the account mapper
    between two [await]s, or a call of a mapper that is not among the
    sources, taken as one operation. *)
Inductive account_call : Type :=
| Whole (a : usersController.action) (req : api_request)
| Reading (k : task)
| Updating (k : task).

Definition account_invoke (a : usersController.action) (req : api_request) : account_call :=
  match a, req_params req !! "id" with
  | usersController.findAccountByUserId, Some id => Reading (Asked (PStr id))
  | usersController.updateUserById, Some id => Updating (Called (PStr id) (req_body req))
  | _, _ => Whole a req
  end.

(** The invocation after a query: settled, with the outcome of the
    request, or suspended again. *)
Definition settle (wrap : task → account_call) (to : outcome exn value → result_outcome)
    (after : database * task) : database * (account_call + result_outcome) :=
  match after.2 with
  | Settled res => (after.1, inr (to res))
  | k => (after.1, inl (wrap k))
  end.

Section invocations.
Context `{Delegates} {E : RowEntity}.

Definition account_proceed (c : account_call) (db : database) :
    database * (account_call + result_outcome) :=
  match c with
  | Whole a req => let '(db', o) := perform a req db in (db', inr o)
  | Reading k => settle Reading read_outcome (resume k db)
  | Updating k => settle Updating update_outcome (resume k db)
  end.

End invocations.

(** ** Lemmas *)

Section invocation_lemmas.
Context `{Delegates} {E : RowEntity} `{!AccountBinding} `{!AccountUpdates}.
Implicit Types db : database.

Lemma resume_called_kind userId d db :
  (∃ account, (resume (Called userId d) db).2 = Loaded account) ∨
  (∃ res, (resume (Called userId d) db).2 = Settled res).
Proof.
  rewrite resume_called.
  destruct (findAccountByUserId userId db) as [db1 [[p|r]|e]];
    [destruct (truthy p) | destruct updateFromData |]; cbn [snd]; eauto.
Qed.

(** A read run without interruption: one operation. *)
Lemma finish_reading id db :
  finish account_proceed 1 (Reading (Asked (PStr id))) db = Some (account_read id db).
Proof.
  cbn [finish account_proceed]. rewrite resume_asked. unfold settle, account_read.
  cbn [fst snd]. pose proof (findAccountByUserId_store (PStr id) db).
  destruct (findAccountByUserId (PStr id) db) as [db' res]. by simplify_eq/=.
Qed.

(** An update run without interruption: at most two. *)
Lemma finish_updating id d db :
  finish account_proceed 2 (Updating (Called (PStr id) d)) db = Some (account_update id d db).
Proof.
  pose proof (resume_twice (PStr id) d db) as Htwice. unfold account_update.
  cbn [finish account_proceed]. unfold settle.
  destruct (resume_called_kind (PStr id) d db) as [[account Hk]|[res Hk]];
    destruct (resume (Called (PStr id) d) db) as [db1 k1]; cbn [fst snd] in *; subst k1.
  - cbn [account_proceed]. unfold settle. rewrite Htwice. cbn [fst snd].
    by destruct (updateAccount (PStr id) d db).
  - rewrite resume_settled in Htwice.
    destruct (updateAccount (PStr id) d db) as [db' res']. by simplify_eq/=.
Qed.

Lemma finish_whole a req db :
  finish account_proceed 1 (Whole a req) db = Some (perform a req db).
Proof. cbn [finish account_proceed]. by destruct (perform a req db). Qed.

Lemma account_invoke_perform a req db :
  ∃ n, finish account_proceed n (account_invoke a req) db = Some (perform a req db).
Proof.
  unfold account_invoke. destruct (req_params req !! "id") as [id|] eqn:Hid.
  2:{ exists 1. destruct a; apply finish_whole. }
  destruct a; try (exists 1; apply finish_whole).
  - exists 1. by rewrite (perform_findAccountByUserId req db id Hid), finish_reading.
  - exists 2. by rewrite (perform_updateUserById req db id Hid), finish_updating.
Qed.

(** The invocations of the account mapper, and the other mapper calls
    as one operation each. *)
Definition account_invocations : Invocations :=
  {| invocation := account_call;
     invoke := account_invoke;
     proceed := account_proceed;
     invoke_perform := account_invoke_perform |}.

End invocation_lemmas.

(** ** Updates that overlap *)

Section overlap.
Context `{Verifier} `{!Delegates} `{!PatchLaws E} `{!AccountBinding} `{!AccountUpdates}.
Context (now : Z).
Context (valid : schema → string → obj → bool).
Context (id token : string) (c : claim_set).
Context (Hid : param_value id) (Htoken : verify token = Some c).
Context (Hnow : (now < claims_expiry c)%Z).
Context (Hallow : authorize (claims_identity c) id = ALLOW).
#[local] Existing Instance account_invocations.
Implicit Types db : database.
Implicit Types d r : obj.

(** [PUT /:id/account] with the credential and a patch. *)
Definition put (d : obj) : incoming :=
  Incoming PUT (path_of [id; "account"]) (Some token) d.

(** The request inside its mapper, and answered with the row written. *)
Definition updating (d : obj) (k : task) : phase account_call :=
  Delegated (put d) usersController.updateUserById
    (ApiRequest (Some token) d {[ "id" := id ]} (Some (claims_identity c)))
    [UNAUTHENTICATED; AUTHENTICATED; AUTHORIZED] (Updating k).

Definition updated (row : obj) : phase account_call :=
  Answered (Success (VObj row))
    [UNAUTHENTICATED; AUTHENTICATED; AUTHORIZED; EXECUTED; SUCCESS].

Lemma dispatch_put_account :
  dispatch router PUT (path_of [id; "account"]) = [(put_account, {[ "id" := id ]})].
Proof.
  destruct Hid as [Hne Hseg].
  apply dispatch_path_of; [by repeat constructor | done | by apply routing_table_sub].
Qed.

Lemma receive_put d :
  valid schemas_put "body" d = true →
  receive now valid (put d) = updating d (Called (PStr id) d).
Proof.
  intros Hd. unfold receive, put. cbn [in_method in_path in_credential in_body].
  rewrite dispatch_put_account. unfold admission. rewrite lookup_singleton_eq.
  rewrite (proj2 (resolve_Returned now (Some token) (claims_identity c)))
    by by exists token, c.
  cbn [validations omap list_omap route_stack put_account all_valid forallb fst snd].
  by rewrite Hd, Hallow.
Qed.

(** The [SELECT] of the update. *)
Lemma advance_called d db r :
  account_of (PStr id) db r →
  advance now valid (updating d (Called (PStr id) d)) db = (db, updating d (Loaded (d ∪ r))).
Proof.
  intros Hacc. cbn [advance updating proceed account_invocations account_proceed].
  by rewrite (resume_called_account _ _ _ _ Hacc).
Qed.

(** The [UPDATE] of the update. *)
Lemma advance_loaded d account db r :
  account_of (PStr id) db r → owns (PStr id) account →
  advance now valid (updating d (Loaded account)) db =
    (write_account account db, updated (assign (account_sets account) r)).
Proof.
  intros Hacc Hown. cbn [advance updating proceed account_invocations account_proceed].
  by rewrite (resume_loaded_account _ _ _ _ Hacc Hown).
Qed.

(** The request served at once. *)
Lemma serve_whole_put d db r :
  valid schemas_put "body" d = true → account_of (PStr id) db r → owns (PStr id) (d ∪ r) →
  serve_whole now valid (Received (put d)) db =
    (write_account (d ∪ r) db, updated (assign (account_sets (d ∪ r)) r)).
Proof.
  intros Hd Hacc Hown. rewrite serve_whole_receive, (receive_put d Hd). unfold updating.
  rewrite (perform_updateUserById _ db id) by apply lookup_singleton_eq.
  unfold account_update. cbn [req_body]. by rewrite (updateAccount_write _ _ _ _ Hacc Hown).
Qed.

(** A user has one account. *)
Lemma account_of_inj userId db r r' :
  account_of userId db r → account_of userId db r' → r = r'.
Proof.
  intros (t & _ & Ht & _ & Hr) (t' & _ & Ht' & _ & Hr'). rewrite Ht in Ht'.
  injection Ht' as <-. rewrite Hr in Hr'. by injection Hr'.
Qed.

(** Both reads before both writes. *)
Lemma run_overlap d0 d1 db r :
  valid schemas_put "body" d0 = true → valid schemas_put "body" d1 = true →
  account_of (PStr id) db r → owns (PStr id) (d0 ∪ r) → owns (PStr id) (d1 ∪ r) →
  Schedule.run (advance now valid) [0; 1; 0; 1; 0; 1]
    (System [Received (put d0); Received (put d1)] db) =
    System [updated (assign (account_sets (d0 ∪ r)) r);
            updated (assign (account_sets (d1 ∪ r)) r)]
           (write_account (d1 ∪ r) db).
Proof.
  intros Hd0 Hd1 Hacc Hown0 Hown1. rewrite !run_cons, run_nil.
  rewrite deliver_0. cbn [advance fst snd]. rewrite deliver_1. cbn [advance fst snd].
  rewrite !receive_put by done.
  rewrite deliver_0, (advance_called d0 db r Hacc). cbn [fst snd].
  rewrite deliver_1, (advance_called d1 db r Hacc). cbn [fst snd].
  rewrite deliver_0, (advance_loaded d0 _ db r Hacc Hown0). cbn [fst snd].
  rewrite deliver_1, (advance_loaded d1 _ _ _ (write_account_of _ _ _ _ Hacc Hown0) Hown1).
  cbn [fst snd].
  by rewrite assign_account_overwrite, (write_account_overwrite _ _ _ _ Hown0 Hown1).
Qed.

(** The account after two requests served one after the other: first
    the patch [d], then the patch [d']. *)
Lemma serve_both d d' db r :
  valid schemas_put "body" d = true → valid schemas_put "body" d' = true →
  account_of (PStr id) db r → owns (PStr id) (d ∪ r) → owns (PStr id) (d' ∪ r) →
  let r1 := assign (account_sets (d ∪ r)) r in
  let db1 := write_account (d ∪ r) db in
  (serve_whole now valid (Received (put d')) (serve_whole now valid (Received (put d)) db).1).1
    = write_account (d' ∪ r1) db1 ∧
  account_of (PStr id) (write_account (d' ∪ r1) db1) (assign (account_sets (d' ∪ r1)) r1).
Proof.
  intros Hd Hd' Hacc Hown Hown'. cbv zeta.
  pose proof (write_account_of _ _ _ _ Hacc Hown) as Hacc1.
  pose proof (owns_assign _ _ (d ∪ r) _ Hown') as Hown1.
  rewrite (serve_whole_put d db r) by done. cbn [fst].
  rewrite (serve_whole_put d' _ _ Hd' Hacc1 Hown1). split; [done|]. by apply write_account_of.
Qed.

(** A field of the first patch that the second does not set survives
    when the requests are served one after the other, in either
    order. *)
Lemma served_in_order_keeps d0 d1 db r k v order :
  valid schemas_put "body" d0 = true → valid schemas_put "body" d1 = true →
  account_of (PStr id) db r → owns (PStr id) (d0 ∪ r) → owns (PStr id) (d1 ∪ r) →
  k ∈ account_fields → d0 !! k = Some v → d1 !! k = None →
  order ∈ [[0; 1]; [1; 0]] →
  ∃ row, account_of (PStr id)
           (store (Schedule.run (serve_whole now valid) order
                     (System [Received (put d0); Received (put d1)] db))) row ∧
         row !! k = Some (sql_value v).
Proof.
  intros Hd0 Hd1 Hacc Hown0 Hown1 Hk Hset Hnone Horder.
  destruct (account_of_row_wf _ _ _ Hacc) as (t & Hrow & Hcols).
  apply elem_of_cons in Horder as [->|[->|[]%elem_of_nil]%elem_of_cons];
    rewrite !run_cons, run_nil; repeat (rewrite deliver_0 || rewrite deliver_1);
    cbn [store fst snd].
  - destruct (serve_both d0 d1 db r) as [-> Hacc2]; [done..|]. eexists. split; [done|].
    destruct (account_of_row_wf _ _ _ (write_account_of _ _ _ _ Hacc Hown0))
      as (t0 & Hrow0 & Hcols0).
    rewrite (proj1 (proj2 (patched_row_fields d1 _ t0 Hrow0 Hcols0))) by done.
    by apply (patched_row_fields d0 r t Hrow Hcols).
  - destruct (serve_both d1 d0 db r) as [-> Hacc2]; [done..|]. eexists. split; [done|].
    destruct (account_of_row_wf _ _ _ (write_account_of _ _ _ _ Hacc Hown1))
      as (t1 & Hrow1 & Hcols1).
    by apply (patched_row_fields d0 _ t1 Hrow1 Hcols1).
Qed.

(** C16. Two updates of one account that overlap.  Two requests
    [PUT /:id/account] of the owner, both cleared, whose [SELECT]s are
    both executed before either [UPDATE]: both are answered with
    success, each with the row it wrote, and the store is the one the
    second request alone would have left.  When the first patch sets a
    field the second does not set, to a value the account did not have,
    no order of serving the two requests one after the other leaves
    that store: the mapper behind the update is two storage operations,
    and the requests are not served as if one after the other. *)
Theorem overlapping_updates d0 d1 db r :
  valid schemas_put "body" d0 = true → valid schemas_put "body" d1 = true →
  account_of (PStr id) db r → owns (PStr id) (d0 ∪ r) → owns (PStr id) (d1 ∪ r) →
  let s := System [Received (put d0); Received (put d1)] db in
  Schedule.run (advance now valid) [0; 1; 0; 1; 0; 1] s =
    System [updated (assign (account_sets (d0 ∪ r)) r);
            updated (assign (account_sets (d1 ∪ r)) r)]
           (write_account (d1 ∪ r) db) ∧
  ∀ k v, k ∈ account_fields → d0 !! k = Some v → d1 !! k = None →
    r !! k ≠ Some (sql_value v) →
    ∀ order, order ∈ [[0; 1]; [1; 0]] →
      store (Schedule.run (serve_whole now valid) order s) ≠ write_account (d1 ∪ r) db.
Proof.
  intros Hd0 Hd1 Hacc Hown0 Hown1 s. split; [by apply run_overlap|].
  intros k v Hk Hset Hnone Hold order Horder Hstore.
  destruct (served_in_order_keeps d0 d1 db r k v order) as (row & Hrow & Hv); [done..|].
  fold s in Hrow. rewrite Hstore in Hrow.
  pose proof (write_account_of _ _ _ _ Hacc Hown1) as Hlast.
  rewrite (account_of_inj _ _ _ _ Hrow Hlast) in Hv.
  destruct (account_of_row_wf _ _ _ Hacc) as (t & Hwf & Hcols).
  by rewrite (proj1 (proj2 (patched_row_fields d1 r t Hwf Hcols))) in Hv.
Qed.

End overlap.

(** ** An instance *)

(** Delegates that know the account: its read and its update. *)
Definition account_perform (a : usersController.action) (req : api_request) (db : database) :
    database * result_outcome :=
  match a, req_params req !! "id" with
  | usersController.findAccountByUserId, Some id => account_read id db
  | usersController.updateUserById, Some id =>
      account_update (E:=merging_rows) id (req_body req) db
  | _, _ => (db, InternalFailure)
  end.

Lemma account_update_not_denied {E : RowEntity} id body db :
  ¬ denied (account_update id body db).2.
Proof.
  unfold account_update.
  destruct (updateAccount (PStr id) body db) as [db' [v|[]]]; by intros [].
Qed.

Lemma account_perform_denied a req db :
  denied (account_perform a req db).2 →
  a = usersController.loginAction ∧ (account_perform a req db).1 = db.
Proof.
  intros Hd. exfalso. revert Hd. unfold account_perform.
  destruct a, (req_params req !! "id");
    lazymatch goal with
    | |- denied (account_read _ _).2 → _ => apply account_read_not_denied
    | |- denied (account_update _ _ _).2 → _ => apply account_update_not_denied
    | |- _ => intros []
    end.
Qed.

Definition account_delegates : Delegates :=
  {| perform := account_perform; perform_denied := account_perform_denied |}.

Lemma account_delegates_read : AccountBinding (H:=account_delegates).
Proof. intros req db id Hid. cbn. unfold account_perform. by rewrite Hid. Qed.

Lemma account_delegates_update : AccountUpdates (H:=account_delegates) (E:=merging_rows).
Proof. intros req db id Hid. cbn. unfold account_perform. by rewrite Hid. Qed.

Lemma overlapping_updates_witness :
  let s : Schedule.system (phase account_call) database :=
    System [Received (put "4" "t4" rename); Received (put "4" "t4" readdress)] db1 in
  let ours := account_invocations (H:=account_delegates) (E:=merging_rows)
                (H0:=account_delegates_read) (H1:=account_delegates_update) in
  Schedule.run (@advance _ account_delegates ours 50 accept_all) [0; 1; 0; 1; 0; 1] s =
    System [updated (assign (account_sets (rename ∪ dave)) dave);
            updated (assign (account_sets (readdress ∪ dave)) dave)]
           (write_account (readdress ∪ dave) db1) ∧
  ∀ k v, k ∈ account_fields → rename !! k = Some v → readdress !! k = None →
    dave !! k ≠ Some (sql_value v) →
    ∀ order, order ∈ [[0; 1]; [1; 0]] →
      store (Schedule.run (@serve_whole _ account_delegates ours 50 accept_all) order s)
        ≠ write_account (readdress ∪ dave) db1.
Proof.
  apply (overlapping_updates (H0:=account_delegates) (H1:=account_delegates_read)
           (H2:=account_delegates_update) 50 accept_all "4" "t4"
           (Claims (Identity "4" customer) 1000));
    [by split | done.. | apply dave_account | by apply dave_owns | by apply dave_owns].
Defined.
