(* ===== verification/UserRequests.v ===== *)
(** * Registrations that overlap

    The design asks that no two users share an e-mail (3) and has
    [createSecureUser] reject a registration whose e-mail is taken
    (4.5); it has every request suspended at every storage call and
    no coordination between requests (5).  [UserMapper] models the
    registration as the design words it: a look-up by e-mail, then
    the insertion of the user.  This file cuts it there, into the two
    storage operations, as a second instance of the suspended mapper
    calls of [Requests], and runs requests [POST /register] of
    [src/back/app/routers/api/users.js] (line 69) under a schedule.
    Served one after the other, registrations keep the e-mails of
    [users] unique, whatever the schedule; two registrations of one
    e-mail whose look-ups are both executed before either insertion
    are both answered with success and leave two users with that
    e-mail.  Under every schedule the users already stored are left
    as they were: registrations only add rows. *)

From stdpp Require Import base tactics option list strings gmap relations.
From S2P Require Import Prelude JsValue Database Router Access UserMapper Pipeline Session.
From S2P Require Import Schedule Requests.

(** ** Values that are stored once *)

(** No two rows hold the same value in the column [col], as the
    database compares values: [NULL] equals nothing, so that any
    number of rows may lack the value. *)
Definition unique (col : string) (rs : list obj) : Prop :=
  Forall (λ r, length (filter (matches col (sql_value (get_prop r col))) rs) ≤ 1) rs.

#[export] Instance unique_dec col rs : Decision (unique col rs).
Proof. unfold unique. apply _. Defined.

(** The table [users] with its column [email]. *)
Definition has_users (db : database) : Prop :=
  ∃ t, db !! "users" = Some t ∧ "email" ∈ columns t.

(** No two users share an e-mail (design 3). *)
Definition unique_emails (db : database) : Prop :=
  unique "email" (from_option table_rows [] (db !! "users")).

(** The users who have the e-mail of a registration. *)
Definition holders (body : obj) (db : database) : list obj :=
  filter (matches "email" (sql_value (get_prop body "email")))
    (from_option table_rows [] (db !! "users")).

(** ** The registration as two storage operations *)

(** A mapper call in flight: a registration before its look-up and
    before its insertion, or another call, taken as one operation. *)
Inductive user_call : Type :=
| Direct (a : usersController.action) (req : api_request)
| Registering (req : api_request)
| Inserting (req : api_request).

Definition user_invoke (a : usersController.action) (req : api_request) : user_call :=
  match a with
  | usersController.createSecureUser => Registering req
  | _ => Direct a req
  end.

Section invocations.
Context `{UserBinding}.
Import UserDataMapper.

(** The look-up answers the registration when the e-mail is taken or
    the store fails, and leaves the insertion pending otherwise; the
    insertion stores the user with the salt and the key of the moment
    it is executed. *)
Definition user_proceed (c : user_call) (db : database) :
    database * (user_call + result_outcome) :=
  match c with
  | Direct a req => let '(db', o) := perform a req db in (db', inr o)
  | Registering req =>
      match run_select "users" "email" 1 [get_prop (req_body req) "email"] db with
      | Thrown e => (db, inr InternalFailure)
      | Returned (_ :: _) => (db, inr (Conflict DuplicateEmail))
      | Returned [] => (db, inl (Inserting req))
      end
  | Inserting req =>
      let user := secure_user (new_salt db) (new_id db) (req_body req) in
      (insert_row "users" user db, inr (Success (VObj user)))
  end.

(** Left alone, the two operations are the registration of
    [UserMapper], and every other call is itself. *)
Lemma user_invoke_perform a req db :
  ∃ n, finish user_proceed n (user_invoke a req) db = Some (perform a req db).
Proof.
  destruct a; try (exists 1; cbn [finish user_invoke user_proceed]; by destruct (perform _ req db)).
  exists 2. rewrite perform_createSecureUser. unfold createSecureUser.
  cbn [finish user_invoke user_proceed].
  by destruct (run_select _ _ _ _ db) as [[|r rs]|e].
Qed.

Definition user_invocations : Invocations :=
  {| invocation := user_call;
     invoke := user_invoke;
     proceed := user_proceed;
     invoke_perform := user_invoke_perform |}.

End invocations.

(** ** Lemmas on unique values *)

Section unique_lemmas.
Implicit Types rs : list obj.
Implicit Types r u : obj.

Lemma sql_eq_sym v p : sql_eq v p = sql_eq p v.
Proof.
  rewrite !sql_eq_alt. rewrite (bool_decide_ext (to_string v = to_string p)
    (to_string p = to_string v)) by done. by destruct (nullish v), (nullish p).
Qed.

(** A row whose value no stored row has can be added. *)
Lemma unique_snoc col rs u :
  unique col rs → filter (matches col (sql_value (get_prop u col))) rs = [] →
  unique col (rs ++ [u]).
Proof.
  intros Hrs Hfree. apply Forall_app. split.
  - apply Forall_forall. intros r Hr. pose proof (proj1 (Forall_forall _ _) Hrs r Hr) as Hone.
    cbn beta in Hone.
    rewrite filter_app, length_app, filter_cons_False, filter_nil; [cbn [length]; lia|].
    intros Hm. apply (proj1 (Forall_forall _ _) (proj1 (filter_nil_iff _ _) Hfree) r Hr).
    revert Hm. unfold matches. by rewrite !sql_eq_sql_value_r, sql_eq_sym.
  - apply Forall_singleton. rewrite filter_app, Hfree. apply (length_filter _ [u]).
Qed.

(** Two rows with one value are one too many. *)
Lemma unique_twice col rs u u' :
  sql_eq (get_prop u' col) (get_prop u col) = true → ¬ unique col (rs ++ [u; u']).
Proof.
  intros Heq Huniq. apply Forall_app in Huniq as [_ Huniq].
  apply Forall_cons in Huniq as [Hu _]. revert Hu.
  assert (matches col (sql_value (get_prop u col)) u) as Hself.
  { unfold matches. rewrite sql_eq_sql_value_r. apply sql_eq_refl.
    by apply sql_eq_text in Heq as (_ & ? & _). }
  rewrite filter_app, length_app, filter_cons_True, filter_cons_True, filter_nil by
    (done || unfold matches; by rewrite sql_eq_sql_value_r).
  cbn [length]. lia.
Qed.

End unique_lemmas.

(** ** Requests [POST /register] *)

Section registrations.
Context `{UserBinding}.
Context (now : Z).
Context (valid : schema → string → obj → bool).
#[local] Existing Instance user_invocations.
Import UserDataMapper.
Implicit Types db : database.
Implicit Types body : obj.
Implicit Types s : system (phase user_call) database.

Definition register (body : obj) : incoming := Incoming POST "/register" None body.

(** The request inside its mapper, and answered. *)
Definition registering (body : obj) (c : api_request → user_call) : phase user_call :=
  Delegated (register body) usersController.createSecureUser
    (ApiRequest None body ∅ None) [UNAUTHENTICATED] (c (ApiRequest None body ∅ None)).

Definition registered (user : obj) : phase user_call :=
  Answered (Success (VObj user)) [UNAUTHENTICATED; EXECUTED; SUCCESS].

Definition taken : phase user_call :=
  Answered (Conflict DuplicateEmail) [UNAUTHENTICATED; EXECUTED; CONFLICT].

(** The user a registration stores when its insertion is executed on
    [db]. *)
Definition new_user (body : obj) (db : database) : obj :=
  secure_user (new_salt db) (new_id db) body.

Lemma receive_register body :
  receive now valid (register body) =
    if valid schemas_post "body" body then registering body Registering
    else Answered ValidationFailure [UNAUTHENTICATED; FAILED].
Proof.
  unfold receive, register. cbn [in_method in_path in_credential in_body].
  assert (dispatch router POST "/register" = [(post_register, ∅)]) as ->
    by by rewrite (dispatch_table _ _ ["register"]) by by vm_compute.
  unfold admission. rewrite lookup_empty.
  cbn [validations omap list_omap route_stack post_register all_valid forallb fst snd].
  by destruct (valid _ _ _).
Qed.

Lemma holders_rows body db t :
  db !! "users" = Some t →
  holders body db = filter (matches "email" (sql_value (get_prop body "email"))) (table_rows t).
Proof. intros Ht. unfold holders. by rewrite Ht. Qed.

(** The look-up of a registration. *)
Lemma advance_registering body db :
  has_users db →
  advance now valid (registering body Registering) db =
    (db, if holders body db is [] then registering body Inserting else taken).
Proof.
  intros (t & Ht & Hc). cbn [advance registering proceed user_invocations user_proceed req_body].
  rewrite (run_select_rows _ _ _ _ _ Ht Hc), (holders_rows _ _ _ Ht).
  by destruct (filter _ _).
Qed.

(** The insertion of a registration. *)
Lemma advance_inserting body db :
  advance now valid (registering body Inserting) db =
    (insert_row "users" (new_user body db) db, registered (new_user body db)).
Proof. done. Qed.

(** The request served at once. *)
Lemma serve_whole_register body db :
  has_users db → valid schemas_post "body" body = true →
  serve_whole now valid (Received (register body)) db =
    if holders body db is [] then
      (insert_row "users" (new_user body db) db, registered (new_user body db))
    else (db, taken).
Proof.
  intros (t & Ht & Hc) Hvalid. rewrite serve_whole_receive, receive_register, Hvalid.
  unfold registering. rewrite perform_createSecureUser. cbn [req_body].
  rewrite (createSecureUser_run _ _ _ _ _ Ht Hc), (holders_rows _ _ _ Ht).
  by destruct (filter _ _).
Qed.

(** What an insertion leaves. *)
Lemma insert_row_users u db : has_users db → has_users (insert_row "users" u db).
Proof. intros (t & Ht & Hc). eexists. by rewrite (insert_row_lookup _ _ _ _ Ht). Qed.

Lemma users_insert u db :
  has_users db →
  from_option table_rows [] (insert_row "users" u db !! "users") =
    from_option table_rows [] (db !! "users") ++ [u].
Proof. intros (t & Ht & _). by rewrite (insert_row_lookup _ _ _ _ Ht), Ht. Qed.

Lemma holders_insert body u db :
  has_users db →
  holders body (insert_row "users" u db) =
    holders body db ++ filter (matches "email" (sql_value (get_prop body "email"))) [u].
Proof.
  intros Hu. unfold holders. by rewrite users_insert, filter_app.
Qed.

Lemma new_user_email body db : get_prop (new_user body db) "email" = get_prop body "email".
Proof. by apply get_prop_secure_user. Qed.

(** The user of a registration whose e-mail nobody has can be stored. *)
Lemma insert_row_unique body db db' :
  has_users db → unique_emails db → holders body db = [] →
  unique_emails (insert_row "users" (new_user body db') db).
Proof.
  intros Hu Huniq Hfree. unfold unique_emails. rewrite users_insert by done.
  apply unique_snoc; [done|]. by rewrite new_user_email.
Qed.

(** ** Served one after the other *)

(** A registration served at once keeps the e-mails unique. *)
Lemma serve_whole_unique body db :
  has_users db → unique_emails db →
  has_users (serve_whole now valid (Received (register body)) db).1 ∧
  unique_emails (serve_whole now valid (Received (register body)) db).1 ∧
  finished (serve_whole now valid (Received (register body)) db).2 = true.
Proof.
  intros Hu Huniq. destruct (valid schemas_post "body" body) eqn:Hvalid.
  - rewrite serve_whole_register by done. destruct (holders body db) eqn:Hfree; [|done].
    split_and!; [by apply insert_row_users | by apply insert_row_unique | done].
  - by rewrite serve_whole_receive, receive_register, Hvalid.
Qed.

(** Requests that are registrations, answered or not. *)
Definition registrations (s : system (phase user_call) database) : Prop :=
  Forall (λ k, finished k = true ∨ ∃ body, k = Received (register body)) (tasks s).

Lemma deliver_registrations i s :
  registrations s → has_users (store s) → unique_emails (store s) →
  registrations (deliver (serve_whole now valid) i s) ∧
  has_users (store (deliver (serve_whole now valid) i s)) ∧
  unique_emails (store (deliver (serve_whole now valid) i s)).
Proof.
  intros Hs Hu Huniq. destruct (tasks s !! i) as [k|] eqn:Hk; [|by rewrite deliver_none].
  rewrite (deliver_task i s k Hk). cbn [store tasks].
  destruct (proj1 (Forall_lookup _ _) Hs i k Hk) as [Hfin | [body ->]].
  - destruct k; try done; cbn [serve_whole fst snd]; by rewrite list_insert_id.
  - destruct (serve_whole_unique body (store s) Hu Huniq) as (Hu' & Huniq' & Hfin).
    split_and!; [|done..]. apply Forall_insert; [done|by left].
Qed.

Lemma run_registrations schedule s :
  registrations s → has_users (store s) → unique_emails (store s) →
  unique_emails (store (run (serve_whole now valid) schedule s)).
Proof.
  revert s. induction schedule as [|i schedule IH]; intros s Hs Hu Huniq; [done|].
  rewrite run_cons. destruct (deliver_registrations i s Hs Hu Huniq) as (? & ? & ?).
  by apply IH.
Qed.

(** ** Whatever the schedule *)

(** A request [POST /register], wherever it stands. *)
Definition registration (k : phase user_call) : Prop :=
  finished k = true ∨
  ∃ body, k = Received (register body) ∨ k = registering body Registering ∨
          k = registering body Inserting.

(** The users of [db'] are the users of [db], as they were, and after
    them users that registrations have stored. *)
Definition grown (db db' : database) : Prop :=
  ∃ added,
    from_option table_rows [] (db' !! "users") =
      from_option table_rows [] (db !! "users") ++ added ∧
    Forall (λ u, ∃ body σ, u = new_user body σ) added.

Lemma grown_refl db : grown db db.
Proof. exists []. by rewrite app_nil_r. Qed.

Lemma grown_insert db db' body :
  has_users db' → grown db db' → grown db (insert_row "users" (new_user body db') db').
Proof.
  intros Hu (added & Hrows & Hadded). exists (added ++ [new_user body db']).
  rewrite users_insert, Hrows, <- app_assoc by done. split; [done|].
  apply Forall_app. split; [done|]. apply Forall_singleton. by eexists _, _.
Qed.

(** What a registration stores holds the hash of the password, which
    the password is not. *)
Lemma new_user_hashed body σ plaintext :
  body !! "password" = Some (PStr plaintext) →
  new_user body σ !! "password" = Some (PStr (hash (new_salt σ) plaintext)) ∧
  new_user body σ !! "password" ≠ Some (PStr plaintext).
Proof.
  intros Hpw. unfold new_user. rewrite secure_user_password, (get_prop_present _ _ _ Hpw).
  split; [done|]. intros [= Heq]. by destruct (hash_hides (new_salt σ) plaintext).
Qed.

(** One operation of a registration. *)
Lemma advance_registration k db :
  registration k → has_users db →
  registration (advance now valid k db).2 ∧
  ((advance now valid k db).1 = db ∨
   ∃ body, (advance now valid k db).1 = insert_row "users" (new_user body db) db).
Proof.
  intros [Hfin | (body & [-> | [-> | ->]])] Hu.
  - rewrite advance_finished by done. split; [by left | by left].
  - cbn [advance fst snd]. rewrite receive_register. split; [|by left].
    destruct (valid _ _ _); [right; eauto | by left].
  - rewrite advance_registering by done. split; [|by left].
    destruct (holders body db); [right; eauto | by left].
  - rewrite advance_inserting. split; [by left | right; eauto].
Qed.

(** Registrations never touch what is stored.  Whatever the schedule
    of requests [POST /register], checked or inside their mapper: the
    users stored before are stored after, in their places and as they
    were, and each row added is the user of a registration, with the
    hash in place of its password. *)
Theorem registrations_grow s s' :
  rtc (step (advance now valid)) s s' →
  Forall registration (tasks s) → has_users (store s) →
  Forall registration (tasks s') ∧ has_users (store s') ∧ grown (store s) (store s').
Proof.
  intros Hrtc Hs Hu.
  apply (rtc_step_ind (resume:=@advance _ _ user_invocations now valid)
           (λ s', Forall registration (tasks s') ∧ has_users (store s') ∧
                  grown (store s) (store s')) s s'); [|done|by split_and!; [..|apply grown_refl]].
  intros i σ (Hks & Hu' & Hgrown).
  destruct (tasks σ !! i) as [k|] eqn:Hk; [|by rewrite deliver_none].
  rewrite (deliver_task i σ k Hk). cbn [tasks store].
  destruct (advance_registration k (store σ) (proj1 (Forall_lookup _ _) Hks i k Hk) Hu')
    as (Hk' & [-> | (body & ->)]).
  - split_and!; [by apply Forall_insert|done..].
  - split_and!; [by apply Forall_insert|by apply insert_row_users|by apply grown_insert].
Qed.

(** ** Both look-ups before both insertions *)

Lemma run_overlapping body0 body1 db :
  has_users db →
  valid schemas_post "body" body0 = true → valid schemas_post "body" body1 = true →
  holders body0 db = [] → holders body1 db = [] →
  let db0 := insert_row "users" (new_user body0 db) db in
  run (advance now valid) [0; 1; 0; 1; 0; 1]
    (System [Received (register body0); Received (register body1)] db) =
    System [registered (new_user body0 db); registered (new_user body1 db0)]
           (insert_row "users" (new_user body1 db0) db0).
Proof.
  intros Hu Hv0 Hv1 Hfree0 Hfree1 db0. rewrite !run_cons, run_nil.
  rewrite deliver_0. cbn [advance fst snd]. rewrite deliver_1. cbn [advance fst snd].
  rewrite !receive_register, Hv0, Hv1.
  rewrite deliver_0, (advance_registering body0 db Hu), Hfree0. cbn [fst snd].
  rewrite deliver_1, (advance_registering body1 db Hu), Hfree1. cbn [fst snd].
  rewrite deliver_0, advance_inserting. cbn [fst snd].
  by rewrite deliver_1, advance_inserting.
Qed.

(** C17. Two registrations of one e-mail.  On a table of users whose
    e-mails are unique and where nobody has the e-mail: when the
    look-ups of two requests [POST /register] with that e-mail are both
    executed before either insertion, both requests are answered with
    success and the store holds both users, so that its e-mails are no
    longer unique; served one after the other, in whatever order and
    however often the schedule names them, requests [POST /register]
    keep the e-mails unique, and of the two the second is refused with
    [Conflict(DuplicateEmail)]. *)
Theorem overlapping_registrations body0 body1 db :
  has_users db → unique_emails db →
  valid schemas_post "body" body0 = true → valid schemas_post "body" body1 = true →
  sql_eq (get_prop body1 "email") (get_prop body0 "email") = true →
  holders body0 db = [] →
  let s := System [Received (register body0); Received (register body1)] db in
  let db0 := insert_row "users" (new_user body0 db) db in
  let db01 := insert_row "users" (new_user body1 db0) db0 in
  (run (advance now valid) [0; 1; 0; 1; 0; 1] s =
     System [registered (new_user body0 db); registered (new_user body1 db0)] db01 ∧
   ¬ unique_emails db01) ∧
  (∀ schedule, unique_emails (store (run (serve_whole now valid) schedule s))) ∧
  run (serve_whole now valid) [0; 1] s = System [registered (new_user body0 db); taken] db0.
Proof.
  intros Hu Huniq Hv0 Hv1 Heq Hfree0 s db0 db01.
  assert (holders body1 db = []) as Hfree1.
  { unfold holders in *. by rewrite (filter_matches_same_key _ _ _ _ Heq). }
  split_and!.
  - by apply run_overlapping.
  - unfold unique_emails, db01, db0.
    rewrite !users_insert, <- app_assoc by (by apply insert_row_users || done).
    apply unique_twice. by rewrite !new_user_email.
  - intros schedule. apply run_registrations; [|done..].
    repeat (apply Forall_cons_2; [right; by eexists|]). apply Forall_nil_2.
  - unfold s. rewrite !run_cons, run_nil, deliver_0, (serve_whole_register body0 db Hu Hv0), Hfree0.
    cbn [fst snd]. rewrite deliver_1, serve_whole_register by (by apply insert_row_users || done).
    assert (matches "email" (sql_value (get_prop body1 "email")) (new_user body0 db))
      by (unfold matches; by rewrite new_user_email, sql_eq_sql_value_r, sql_eq_sym).
    by rewrite holders_insert, Hfree1, filter_cons_True by done.
Qed.

End registrations.

(** ** An instance *)

(** Ada and a namesake register with one e-mail. *)
Definition namesake : obj :=
  {[ "email" := PStr "e@x.com"; "password" := PStr "other"; "first_name" := PStr "Ida" ]}.

Lemma overlapping_registrations_witness :
  let ours := user_invocations (H3:=session_users) in
  let s : system (phase user_call) database :=
    System [Received (register ada); Received (register namesake)] no_users in
  let db0 := insert_row "users" (UserDataMapper.secure_user "s" 1 ada) no_users in
  let db01 := insert_row "users" (UserDataMapper.secure_user "s" 2 namesake) db0 in
  (run (@advance spelling_verifier session_delegates ours 9%Z accept_all) [0; 1; 0; 1; 0; 1] s =
     System [registered (UserDataMapper.secure_user "s" 1 ada);
             registered (UserDataMapper.secure_user "s" 2 namesake)] db01 ∧
   ¬ unique_emails db01) ∧
  (∀ schedule,
     unique_emails (store (run (@serve_whole spelling_verifier session_delegates ours 9%Z accept_all) schedule s))) ∧
  run (@serve_whole spelling_verifier session_delegates ours 9%Z accept_all) [0; 1] s =
    System [registered (UserDataMapper.secure_user "s" 1 ada); taken] db0.
Proof.
  refine (overlapping_registrations (H3:=session_users) 9%Z accept_all ada namesake no_users
            _ _ _ _ _ _);
    [by eexists; split; [apply no_users_table | set_solver] | by vm_compute..].
Defined.
