(* ===== verification/ApiController.v ===== *)
(** * The API root controller

    [src/app/controllers/api/index.js]: [apiController.getHome], which
    answers the root of the API with the address of its documentation,
    and the table of controllers the module exports.  The request and
    the response are Express objects; they are modelled as far as
    [getHome] touches them: [request.protocol], [request.get(name)]
    (a header read, names compared without case), and
    [response.json(body)], which sends the body once. *)

From Stdlib Require Import Ascii.
From stdpp Require Import base tactics option list strings gmap.
From S2P Require Import Prelude JsValue Database.

(** ** Request and response *)

Record request : Type := Request {
  protocol : string;
  headers : gmap string string;
}.

(** [request.get(name)]: the header, [undefined] when it is absent.
    Header names are stored in lower case. *)
Definition request_get (req : request) (name : string) : prim :=
  from_option PStr PUndefined (headers req !! lower name).

Record response : Type := Response {
  statusCode : nat;
  body : option obj;
  headersSent : bool;
}.

(** A response nothing was written to. *)
Definition fresh_response : response := Response 200 None false.

(** [response.json(o)]: sends [o] as the body; a second send throws. *)
Definition response_json (o : obj) : exec response exn unit :=
  res ← get_store;
  if headersSent res
  then throw (JsError "Cannot set headers after they are sent to the client")
  else put_store (Response (statusCode res) (Some o) true).

(** ** The module *)

Module apiController.

Definition default_route : string := "/api-docs".

Definition fullURL (env : environment) (req : request) : string :=
  template [PStr (protocol req); PStr "://"; request_get req "host";
            js_coalesce (env_get env "API_DOCUMENTATION_ROUTE") (PStr default_route)].

Definition getHome (env : environment) (req : request) : exec response exn unit :=
  response_json {[ "documentation_url" := PStr (fullURL env req) ]}.

End apiController.

(** The names under which the module exports its controllers. *)
Definition exported_controllers : list string :=
  ["apiController"; "deliveryController"; "usersController"; "accountController";
   "adminController"].

(** ** Theorems *)

Section get_home.
Import apiController.
Implicit Types env : environment.
Implicit Types req : request.
Implicit Types res : response.

Lemma fullURL_eq env req :
  fullURL env req =
    protocol req +:+ "://" +:+ to_string (request_get req "host")
      +:+ to_string (js_coalesce (env_get env "API_DOCUMENTATION_ROUTE") (PStr default_route)).
Proof.
  unfold fullURL. autorewrite with colis. by cbn [to_string].
Qed.

(** The documentation route: the variable when it is set, even to the
    empty string, [/api-docs] otherwise. *)
Lemma documentation_route env :
  to_string (js_coalesce (env_get env "API_DOCUMENTATION_ROUTE") (PStr default_route)) =
    default default_route (env !! "API_DOCUMENTATION_ROUTE").
Proof. unfold env_get. by destruct (env !! "API_DOCUMENTATION_ROUTE"). Qed.

(** The address [getHome] builds: the header [Host] as it is, the text
    [undefined] without one; the documentation route of the
    environment when it is set, even to the empty string, [/api-docs]
    otherwise. *)
Lemma fullURL_address env req :
  fullURL env req =
    protocol req +:+ "://" +:+ default "undefined" (headers req !! "host")
      +:+ default "/api-docs" (env !! "API_DOCUMENTATION_ROUTE").
Proof.
  rewrite fullURL_eq, documentation_route. unfold request_get.
  change (lower "host") with "host". by destruct (headers req !! "host").
Qed.

(** [getHome] throws only when the response was already sent, and
    then changes nothing. *)
Lemma getHome_sent env req res :
  headersSent res = true →
  getHome env req res =
    (res, Thrown (JsError "Cannot set headers after they are sent to the client")).
Proof. intros Hsent. unfold getHome, response_json. exec_unfold. by rewrite Hsent. Qed.

(** C12. [getHome] on every request: on a response nothing was sent
    on it sends one JSON body whose only property, [documentation_url],
    is the protocol of the request, [://], its [Host] header (the text
    [undefined] when the request has none) and the documentation route
    (the environment variable [API_DOCUMENTATION_ROUTE] when it is set,
    also to the empty string, [/api-docs] otherwise), and the status
    stays as it was; on a response already sent it throws and changes
    nothing. *)
Theorem getHome_response env req res :
  getHome env req res =
    if headersSent res
    then (res, Thrown (JsError "Cannot set headers after they are sent to the client"))
    else
      (Response (statusCode res)
         (Some {[ "documentation_url" :=
                    PStr (protocol req +:+ "://" +:+ default "undefined" (headers req !! "host")
                            +:+ default "/api-docs" (env !! "API_DOCUMENTATION_ROUTE")) ]})
         true,
       Returned tt).
Proof.
  destruct (headersSent res) eqn:Hsent; [by apply getHome_sent|].
  unfold getHome, response_json. exec_unfold. by rewrite Hsent, fullURL_address.
Qed.

(** Set to the empty string, the documentation route is empty: the
    fallback applies only to an unset variable. *)
Example getHome_empty_route :
  fullURL {[ "API_DOCUMENTATION_ROUTE" := "" ]} (Request "http" {[ "host" := "h" ]}) =
    "http://h".
Proof. rewrite fullURL_address. by vm_compute. Qed.

(** Without a [Host] header the address is built from the text
    [undefined]. *)
Example getHome_no_host : fullURL ∅ (Request "http" ∅) = "http://undefined/api-docs".
Proof. rewrite fullURL_address. by vm_compute. Qed.

End get_home.
