(* ===== verification/App.v ===== *)
(** * The process bootstrap

    [src/index.js]: the environment after [dotenv] has been loaded, the
    port the server listens on, the middleware
    stack of the application, in the order [app.use] registers it, and
    the line the script logs when the server listens.
    [app.use(path, layer)] mounts a layer under a path prefix: the
    layer sees the requests whose path starts with the segments of the
    prefix (compared without case); without a path the prefix is [/].
    What the layers of the libraries do ([cors], [body-parser],
    [express.static]) is not modelled, only which of them a request
    passes and in which order. *)

From Stdlib Require Import Ascii.
From stdpp Require Import base tactics option list strings gmap.
From S2P Require Import Prelude JsValue Database Router Logging.

(** ** The environment *)

(** [require('dotenv').config()] (line 1), before anything reads
    [process.env]: the variables of the file [.env] are added to the
    environment of the process; a variable that is already set keeps
    its value. *)
Definition config (dotenv env : environment) : environment := env ∪ dotenv.

(** ** The port *)

(** [process.env.PORT || 3000]. *)
Definition port (env : environment) : prim := js_or (env_get env "PORT") (PNum 3000).

(** ** The application stack *)

Inductive layer : Type :=
| cors
| bodyParser_json
| bodyParser_urlencoded (extended : bool)
| express_static (root : list string)
| app_router.

#[export] Instance layer_eq_dec : EqDecision layer.
Proof. solve_decision. Defined.

Record mounted : Type := Mounted {
  mount_path : string;
  mount_layer : layer;
}.

(** The calls to [app.use], in order. *)
Definition app : list mounted :=
  [Mounted "/" cors;
   Mounted "/" bodyParser_json;
   Mounted "/" (bodyParser_urlencoded true);
   Mounted "/images" (express_static ["__dirname"; "images"]);
   Mounted "/" app_router].

(** The layer mounted under [prefix] sees the request for [path]. *)
Definition mount_sees (prefix path : string) : bool :=
  match path_segments prefix, path_segments path with
  | Some pre, Some segs =>
      bool_decide (lower <$> pre = lower <$> take (length pre) segs)
  | _, _ => false
  end.

(** The layers a request passes, in order, as long as each passes
    control on. *)
Definition layers_for (stack : list mounted) (path : string) : list layer :=
  mount_layer <$> filter (λ ml, mount_sees (mount_path ml) path = true) stack.

(** ** Start

    [app.listen(port, callback)]: the server listens on the port and
    the callback logs where it is ready. *)

Record server : Type := Server {
  listening_on : prim;
  stack : list mounted;
  ready_message : string;
}.

Definition listen (env : environment) : server :=
  {| listening_on := port env;
     stack := app;
     ready_message := template [PStr "Server ready: http://localhost:"; port env] |}.

(** [require('debug')('colis:index')] (line 3). *)
Definition debug {S : Type} : string → exec (S * list entry) exn unit :=
  logger "colis:index".

(** The callback of [app.listen] (line 29). *)
Definition ready {S : Type} (env : environment) : exec (S * list entry) exn unit :=
  debug (template [PStr "Server ready: http://localhost:"; port env]).

(** The script from its first line to its last: the environment is
    completed from [.env], the application is built, the server
    listens, and its callback writes to the log. *)
Definition main (dotenv env : environment) : exec (option server * list entry) exn unit :=
  λ w, ready (config dotenv env) (Some (listen (config dotenv env)), w.2).

(** ** Theorems *)

Section bootstrap.
Implicit Types env : environment.
Implicit Types path : string.

Lemma port_eq env :
  port env =
    match env !! "PORT" with
    | Some s => if bool_decide (s = "") then PNum 3000 else PStr s
    | None => PNum 3000
    end.
Proof.
  unfold port, js_or, env_get. destruct (env !! "PORT") as [s|]; [|done].
  simpl. by case_bool_decide.
Qed.

(** The port is never falsy. *)
Lemma port_truthy env : truthy (port env) = true.
Proof.
  rewrite port_eq. destruct (env !! "PORT") as [s|]; [|done].
  case_bool_decide; [done|]. by apply truthy_str.
Qed.

(** The port, after [.env] has been loaded.  It is the variable
    [PORT] of the process when that is set to a non-empty string, the
    [PORT] of [.env] when the process has none and the file a non-empty
    one, and the number 3000 otherwise: a [PORT] that the process sets
    to the empty string hides the one of the file, and the server
    listens on 3000.  The port is never a falsy value, and it is a
    number only when it is the default. *)
Theorem port_spec dotenv env :
  port (config dotenv env) =
    match env !! "PORT", dotenv !! "PORT" with
    | Some s, _ | None, Some s => if bool_decide (s = "") then PNum 3000 else PStr s
    | None, None => PNum 3000
    end ∧
  truthy (port (config dotenv env)) = true ∧
  ∀ n, port (config dotenv env) = PNum n → n = 3000%Z.
Proof.
  split; [|split; [apply port_truthy|]].
  - rewrite port_eq. unfold config. destruct (env !! "PORT") as [s|] eqn:Henv.
    + by rewrite (lookup_union_Some_l _ _ _ _ Henv).
    + by rewrite lookup_union_r.
  - intros n. rewrite port_eq.
    destruct (config dotenv env !! "PORT") as [s|]; [case_bool_decide|]; by intros [= <-].
Qed.

(** An empty [PORT] of the process hides the port of [.env]. *)
Example port_hidden : port (config {[ "PORT" := "8080" ]} {[ "PORT" := "" ]}) = PNum 3000.
Proof. by vm_compute. Qed.

(** Without [PORT] the server listens on 3000 and says so. *)
Theorem listen_default env :
  env !! "PORT" = None →
  listening_on (listen env) = PNum 3000 ∧
  ready_message (listen env) = "Server ready: http://localhost:3000".
Proof.
  intros Henv. unfold listen. cbn [listening_on ready_message].
  rewrite port_eq, Henv. split; [done|]. by vm_compute.
Qed.

(** What starting the process logs: one line, in the namespace of
    [index.js], that names the port the server listens on. *)
Theorem main_ready dotenv env l :
  main dotenv env (None, l) =
    ((Some (listen (config dotenv env)),
      l ++ [Entry "colis:index" (ready_message (listen (config dotenv env)))]),
     Returned tt) ∧
  ready_message (listen (config dotenv env)) =
    "Server ready: http://localhost:" +:+ to_string (listening_on (listen (config dotenv env))).
Proof. split; [done|]. unfold listen. cbn [ready_message listening_on]. by autorewrite with colis. Qed.

Lemma listen_default_witness :
  listening_on (listen ∅) = PNum 3000 ∧
  ready_message (listen ∅) = "Server ready: http://localhost:3000".
Proof. apply listen_default, lookup_empty. Defined.

Lemma mount_sees_root path segs : path_segments path = Some segs → mount_sees "/" path = true.
Proof. intros Hp. unfold mount_sees. rewrite Hp. by vm_compute. Qed.

Lemma mount_sees_images path segs :
  path_segments path = Some segs →
  mount_sees "/images" path = bool_decide (lower <$> head segs = Some "images").
Proof.
  intros Hp. unfold mount_sees. rewrite Hp.
  change (path_segments "/images") with (Some ["images"]).
  apply bool_decide_ext.
  destruct segs as [|s segs];
    cbn [fmap list_fmap length take head option_fmap option_map]; [by split|].
  split; intros [= Heq].
  - by rewrite <- Heq.
  - by rewrite Heq.
Qed.

(** Every request passes [cors] and both body parsers before the
    router, in that order; the static files of [/images] are tried
    between the parsers and the router, for the paths under [/images]
    only. *)
Theorem layers_for_app path segs :
  path_segments path = Some segs →
  layers_for app path =
    [cors; bodyParser_json; bodyParser_urlencoded true]
    ++ (if bool_decide (lower <$> head segs = Some "images")
        then [express_static ["__dirname"; "images"]] else [])
    ++ [app_router].
Proof.
  intros Hp. unfold layers_for, app.
  rewrite !filter_cons. cbn [mount_path].
  rewrite !(mount_sees_root _ _ Hp), (mount_sees_images _ _ Hp).
  rewrite !decide_True by done. rewrite filter_nil.
  destruct (bool_decide _); [by rewrite decide_True | by rewrite decide_False].
Qed.

Lemma layers_for_app_witness :
  layers_for app "/Images/7.png" =
    [cors; bodyParser_json; bodyParser_urlencoded true;
     express_static ["__dirname"; "images"]; app_router].
Proof.
  refine (eq_trans (layers_for_app "/Images/7.png" ["Images"; "7.png"] _) _);
    by vm_compute.
Defined.

End bootstrap.
