(* ===== verification/System.v ===== *)
(** * The parts together

    Facts that need more than one source file: the account mapper
    ([accountDataMapper.js]) run against the table that [users.js]
    documents as the type [User]. *)

From Stdlib Require Import Ascii.
From stdpp Require Import base tactics option list strings gmap.
From S2P Require Import Prelude JsValue Database AccountMapper Router.

Import AccountDataMapper.

(** The table [users] with the documented properties as its columns. *)
Definition documented_users (rs : list obj) : table := Table User.*1 rs.

Section documented_schema.
Context {E : RowEntity}.
Implicit Types db : database.
Implicit Types userId : prim.

Lemma documented_no_user_id rs : "user_id" ∉ columns (documented_users rs).
Proof. apply (bool_decide_unpack _). by vm_compute. Qed.

(** The mapper against the documented table.  The type [User]
    has no property [user_id]: on a table [users] with the documented
    columns, [findAccountByUserId] is rejected by the database
    (undefined column) for every user, and so is [updateAccount],
    which therefore writes nothing. *)
Theorem mapper_on_documented_users userId d db rs :
  db !! tableName = Some (documented_users rs) →
  findAccountByUserId userId db =
    (db, Thrown (DatabaseError (UndefinedColumn "user_id"))) ∧
  updateAccount userId d db =
    (db, Thrown (DatabaseError (UndefinedColumn "user_id"))).
Proof.
  intros Ht.
  pose proof (findAccountByUserId_undefined_column userId db _ Ht (documented_no_user_id rs))
    as Hfind.
  split; [done|]. rewrite updateAccount_bind. by rewrite Hfind.
Qed.

End documented_schema.

Lemma mapper_on_documented_users_witness :
  findAccountByUserId (PNum 1) {[ "users" := documented_users [] ]} =
    ({[ "users" := documented_users [] ]},
     Thrown (DatabaseError (UndefinedColumn "user_id"))) ∧
  updateAccount (E:=merging_rows) (PNum 1) ∅ {[ "users" := documented_users [] ]} =
    ({[ "users" := documented_users [] ]},
     Thrown (DatabaseError (UndefinedColumn "user_id"))).
Proof.
  apply (mapper_on_documented_users (E:=merging_rows) (PNum 1) ∅ _ []).
  apply lookup_singleton_eq.
Defined.
